(** * acsobjdump: a shallow embedding of the ACS object-file viewer (main.c)

    The viewer reads an ACS object file into memory, determines its
    container format (ACS0, ACSE, ACSe, direct or indirect), walks the chunk
    section and disassembles script and function code.

    Conventions of the embedding:
    - the object file is a [list byte]; the in-memory buffer is that list
      followed by the NUL byte the loader writes (index [size]);
    - a C pointer into the buffer is the [Z] offset from [object->data];
    - [int] is a 32-bit two's complement integer carried in [Z], with the
      wrap-around written out ([to_int]); [size_t] is 64 bits wide
      ([to_size_t]), multi-byte reads are little-endian (the memcpy of an
      x86-64 build);
    - [printf] output is a list of [event]s: structured ones for the
      resolver, the walker, the tables and the disassembler, and the
      characters written ([EChar]) for the text of the chunk decoders, the
      options and the operations; [bail] (the longjmp
      to the recovery point in [run]) is the outcome [Bail], a dereference
      outside the allocated buffer is the outcome [Fault], and a loop that
      has not finished when its fuel is used up is the outcome [Timeout]. *)

From Stdlib Require Import ZArith List Lia Bool.
From Stdlib Require Import Strings.Byte Strings.String.
From Stdlib Require Numbers.DecimalString Numbers.HexadecimalString.
Import ListNotations.
Local Open Scope Z_scope.

(* ------------------------------------------------------------------ *)
(** ** Machine integers *)

Definition INT_MAX : Z := 2147483647.

(** Conversion of a mathematical integer to [int] (two's complement). *)
Definition to_int (z : Z) : Z := (z + 2 ^ 31) mod 2 ^ 32 - 2 ^ 31.

(** Conversion to [short]. *)
Definition to_short (z : Z) : Z := (z + 2 ^ 15) mod 2 ^ 16 - 2 ^ 15.

(** Conversion of an [int] to [size_t], as the usual arithmetic
    conversions do when an [int] meets a [sizeof]. *)
Definition to_size_t (z : Z) : Z := z mod 2 ^ 64.

Definition byte_val (b : byte) : Z := Z.of_N (Byte.to_N b).

Definition byte_of (z : Z) : byte :=
  match Byte.of_N (Z.to_N (z mod 256)) with
  | Some b => b
  | None => x00
  end.

(** Little-endian value of a byte sequence. *)
Fixpoint le_unsigned (bs : list byte) : Z :=
  match bs with
  | [] => 0
  | b :: bs' => byte_val b + 256 * le_unsigned bs'
  end.

(** The four bytes of an [int] in memory order. *)
Definition le32 (z : Z) : list byte :=
  [byte_of z; byte_of (z / 256); byte_of (z / 65536); byte_of (z / 16777216)].

Definition le16 (z : Z) : list byte :=
  [byte_of z; byte_of (z / 256)].

Definition list_byte_eqb (a b : list byte) : bool :=
  if list_eq_dec Byte.byte_eq_dec a b then true else false.

(** The C string held in a byte array: the bytes before the first NUL. *)
Fixpoint c_str (l : list byte) : list byte :=
  match l with
  | [] => []
  | b :: l' => if Byte.eqb b x00 then [] else b :: c_str l'
  end.

(** [strcmp( a, b ) == 0]. *)
Definition strcmp_eq (a b : list byte) : bool :=
  list_byte_eqb (c_str a) (c_str b).

(** [toupper] in the C locale. *)
Definition toupper (b : byte) : byte :=
  if (97 <=? byte_val b) && (byte_val b <=? 122)
  then byte_of (byte_val b - 32) else b.

(* ------------------------------------------------------------------ *)
(** ** Data model: the structs of main.c *)

Inductive format_t : Type :=
| FORMAT_UNKNOWN
| FORMAT_ZERO
| FORMAT_BIG_E
| FORMAT_LITTLE_E.

Definition format_eqb (a b : format_t) : bool :=
  match a, b with
  | FORMAT_UNKNOWN, FORMAT_UNKNOWN => true
  | FORMAT_ZERO, FORMAT_ZERO => true
  | FORMAT_BIG_E, FORMAT_BIG_E => true
  | FORMAT_LITTLE_E, FORMAT_LITTLE_E => true
  | _, _ => false
  end.

(** [struct object]. [data] is the whole allocation: the file bytes and
    the terminating NUL. *)
Record object : Type := mk_object {
  data : list byte;
  size : Z;
  format : format_t;
  directory_offset : Z;
  string_offset : Z;
  real_header_offset : Z;
  chunk_offset : Z;
  indirect_format : bool;
  small_code : bool
}.

Definition set_format (o : object) (f : format_t) : object :=
  mk_object (data o) (size o) f (directory_offset o) (string_offset o)
    (real_header_offset o) (chunk_offset o) (indirect_format o) (small_code o).

Definition set_directory_offset (o : object) (v : Z) : object :=
  mk_object (data o) (size o) (format o) v (string_offset o)
    (real_header_offset o) (chunk_offset o) (indirect_format o) (small_code o).

Definition set_string_offset (o : object) (v : Z) : object :=
  mk_object (data o) (size o) (format o) (directory_offset o) v
    (real_header_offset o) (chunk_offset o) (indirect_format o) (small_code o).

Definition set_real_header_offset (o : object) (v : Z) : object :=
  mk_object (data o) (size o) (format o) (directory_offset o) (string_offset o)
    v (chunk_offset o) (indirect_format o) (small_code o).

Definition set_chunk_offset (o : object) (v : Z) : object :=
  mk_object (data o) (size o) (format o) (directory_offset o) (string_offset o)
    (real_header_offset o) v (indirect_format o) (small_code o).

Definition set_indirect_format (o : object) (v : bool) : object :=
  mk_object (data o) (size o) (format o) (directory_offset o) (string_offset o)
    (real_header_offset o) (chunk_offset o) v (small_code o).

Definition set_small_code (o : object) (v : bool) : object :=
  mk_object (data o) (size o) (format o) (directory_offset o) (string_offset o)
    (real_header_offset o) (chunk_offset o) (indirect_format o) v.

Inductive chunk_type : Type :=
| CHUNK_UNKNOWN | CHUNK_ARAY | CHUNK_AINI | CHUNK_AIMP | CHUNK_ASTR
| CHUNK_MSTR | CHUNK_ATAG | CHUNK_LOAD | CHUNK_FUNC | CHUNK_FNAM
| CHUNK_MINI | CHUNK_MIMP | CHUNK_MEXP | CHUNK_SPTR | CHUNK_SFLG
| CHUNK_SVCT | CHUNK_SNAM | CHUNK_STRL | CHUNK_STRE | CHUNK_SARY
| CHUNK_FARY | CHUNK_ALIB.

(** [struct chunk]. [ch_name] holds the four name bytes ([name[ 4 ]] is
    always NUL); [ch_data] is the offset of the chunk body in the buffer. *)
Record chunk : Type := mk_chunk {
  ch_name : list byte;
  ch_data : Z;
  ch_size : Z;
  ch_type : chunk_type
}.

(** [struct chunk_reader]. *)
Record chunk_reader : Type := mk_chunk_reader {
  end_pos : Z;
  pos : Z
}.

(** [struct common_acse_script_entry]. *)
Record common_acse_script_entry : Type := mk_script_entry {
  se_number : Z;
  se_type : Z;
  se_num_param : Z;
  se_offset : Z;
  real_entry_size : Z
}.

(** [struct acs0_script_entry]. *)
Record acs0_script_entry : Type := mk_acs0_entry {
  a0_number : Z;
  a0_offset : Z;
  a0_num_param : Z
}.

(** [struct func_entry]. *)
Record func_entry : Type := mk_func_entry {
  fe_num_param : Z;
  fe_size : Z;
  fe_has_return : Z;
  fe_padding : Z;
  fe_offset : Z
}.

(** [struct pcode_segment]. [seg_pos] is [data - data_start]. *)
Record pcode_segment : Type := mk_segment {
  seg_offset : Z;
  seg_pos : Z;
  code_size : Z;
  seg_opcode : Z;
  invalid_opcode : bool
}.

(** [struct viewer], without the options and the jump buffer. *)
Record viewer : Type := mk_viewer {
  object_data : list byte;
  object_size : Z
}.

(* ------------------------------------------------------------------ *)
(** ** Output, diagnostics and control *)

Inductive diag_msg : Type :=
| MsgObjectTooBig (bytes : Z)
| MsgTooSmall
| MsgExpectData (want left : Z)
| MsgOffsetOutsideFile (offset : Z)
| MsgOffsetOutsideChunk (offset : Z) (name : list byte)
| MsgExpectChunkData (want : Z) (name : list byte) (left : Z)
| MsgExpectPcodeData (want left : Z)
| MsgStringNotTerminated (offset : Z) (name : list byte)
| MsgScriptCodeNotShown (offset : Z)
| MsgFunctionCodeNotShown (offset : Z).

Inductive event : Type :=
| EError (m : diag_msg)
| EWarning (m : diag_msg)
| EChunk (name : list byte) (offset size : Z)
| EScript (number : Z) (type : Z) (type_name : option string)
    (params offset : Z)
| EFunc (index params fsize has_return offset : Z)
| EImported
| EOpcode (pc : Z) (mnemonic : string)
| EUnknownPcode (pc opcode : Z)
| EArgs (args : list Z)
| ECount (count : Z)
| ENumCases (count : Z)
| ECaseValue (pc value : Z)
| ECaseTarget (target : Z)
| EScriptDirectory (offset : Z)
| ETotalScripts (n : Z)
| EStringDirectory (offset : Z)
| ETotalStrings (n : Z)
| ETableSize (n : Z)
| EStringHead (index offset : Z)
| EChar (c : byte)
| EStringEnd
| ENewline.

Inductive outcome (A : Type) : Type :=
| Ok (a : A)
| Bail
| Fault (addr : Z)
| Timeout.

Arguments Ok {A} a.
Arguments Bail {A}.
Arguments Fault {A} addr.
Arguments Timeout {A}.

(** A computation prints events and ends in an outcome. *)
Definition M (A : Type) : Type := (list event * outcome A)%type.

Definition ret {A} (a : A) : M A := ([], Ok a).

Definition bind {A B} (m : M A) (f : A -> M B) : M B :=
  match m with
  | (out, Ok a) => let (out', r) := f a in (out ++ out', r)
  | (out, Bail) => (out, Bail)
  | (out, Fault z) => (out, Fault z)
  | (out, Timeout) => (out, Timeout)
  end.

Notation "x <- m ;; k" := (bind m (fun x => k))
  (at level 61, m at next level, right associativity).
Notation "m ;; k" := (bind m (fun _ => k))
  (at level 61, right associativity).

Definition print (e : event) : M unit := ([e], Ok tt).
Definition bail {A} : M A := ([], Bail).
Definition fault {A} (addr : Z) : M A := ([], Fault addr).
Definition timeout {A} : M A := ([], Timeout).

Definition DIAG_ERR : Z := 1.
Definition DIAG_WARN : Z := 2.

(** [diag]: only the error and warning classes are used by the code
    embedded here. *)
Definition diag (flags : Z) (m : diag_msg) : M unit :=
  if Z.testbit flags 0 then print (EError m)
  else if Z.testbit flags 1 then print (EWarning m)
  else ret tt.

(** [for ( int i = 0; i < n; ++i ) body], [n] the number of iterations. *)
Fixpoint for_n {S : Type} (n : nat) (i : Z) (body : Z -> S -> M S) (s : S)
  : M S :=
  match n with
  | O => ret s
  | Datatypes.S n' => s' <- body i s ;; for_n n' (i + 1) body s'
  end.

(** [while ( cond ) body], cut off after [fuel] iterations. *)
Fixpoint while_fuel {S : Type} (fuel : nat) (cond : S -> bool)
  (body : S -> M S) (s : S) : M S :=
  if cond s then
    match fuel with
    | O => timeout
    | Datatypes.S fuel' => s' <- body s ;; while_fuel fuel' cond body s'
    end
  else ret s.

(* ------------------------------------------------------------------ *)
(** ** Memory access *)

(** Dereference of [object->data + i]. The allocation is [size + 1]
    bytes long. *)
Definition load (o : object) (i : Z) : M byte :=
  if (0 <=? i) && (i <=? size o) then
    match nth_error (data o) (Z.to_nat i) with
    | Some b => ret b
    | None => fault i
    end
  else fault i.

(** [memcpy( dst, object->data + p, n )]: the bytes read. *)
Fixpoint load_bytes (o : object) (p : Z) (n : nat) : M (list byte) :=
  match n with
  | O => ret []
  | Datatypes.S n' =>
      b <- load o p ;;
      bs <- load_bytes o (p + 1) n' ;;
      ret (b :: bs)
  end.

Definition load_int (o : object) (p : Z) : M Z :=
  bs <- load_bytes o p 4 ;; ret (to_int (le_unsigned bs)).

Definition load_uint (o : object) (p : Z) : M Z :=
  bs <- load_bytes o p 4 ;; ret (le_unsigned bs).

(** The [int] held in the four bytes at position [p] of [bytes], least
    significant byte first. *)
Definition i32_at (bytes : list byte) (p : Z) : Z :=
  to_int (le_unsigned (firstn 4 (skipn (Z.to_nat p) bytes))).

Definition load_short (o : object) (p : Z) : M Z :=
  bs <- load_bytes o p 2 ;; ret (to_short (le_unsigned bs)).

Definition load_uchar (o : object) (p : Z) : M Z :=
  b <- load o p ;; ret (byte_val b).

(* ------------------------------------------------------------------ *)
(** ** Loading the object file *)

(** [read_object_file_data], given the bytes of the file ([fread] reads
    all of them): the viewer with the buffer, or [None] for [false]. The
    buffer is one byte longer than the file and ends in NUL. *)
Definition read_object_file_data (file : list byte) : M (option viewer) :=
  let tell_result := Z.of_nat (List.length file) in
  if tell_result - INT_MAX >? 0 then
    diag DIAG_ERR (MsgObjectTooBig tell_result) ;; ret None
  else
    let size := to_int tell_result in
    ret (Some (mk_viewer (file ++ [x00]) size)).

Definition read_object_file (file : list byte) : M viewer :=
  data_read <- read_object_file_data file ;;
  match data_read with
  | Some v => ret v
  | None => bail
  end.

Definition init_object (d : list byte) (sz : Z) : object :=
  mk_object d sz FORMAT_UNKNOWN 0 0 0 0 false false.

(* ------------------------------------------------------------------ *)
(** ** Bounds discipline *)

Definition data_left (o : object) (p : Z) : Z := to_int (size o - p).

Definition offset_in_range (o : object) (start fin offset : Z) : bool :=
  (start <=? offset) && (offset <? fin).

Definition offset_in_object_file (o : object) (offset : Z) : bool :=
  offset_in_range o 0 (size o) offset.

Definition expect_data (o : object) (start sz : Z) : M unit :=
  let left := data_left o start in
  if left <? sz then
    diag DIAG_ERR (MsgExpectData sz (if left <? 0 then 0 else left)) ;; bail
  else ret tt.

Definition expect_offset_in_object_file (o : object) (offset : Z) : M unit :=
  if negb (offset_in_object_file o offset) then
    diag DIAG_ERR (MsgOffsetOutsideFile offset) ;; bail
  else ret tt.

Definition chunk_data_left (c : chunk) (p : Z) : Z :=
  to_int (ch_data c + ch_size c - p).

Definition chunk_offset_in_range (c : chunk) (start fin offset : Z) : bool :=
  (start - ch_data c <=? offset) && (offset <? fin - ch_data c).

Definition chunk_offset_in_chunk (c : chunk) (offset : Z) : bool :=
  chunk_offset_in_range c (ch_data c) (ch_data c + ch_size c) offset.

Definition expect_chunk_offset_in_chunk (c : chunk) (offset : Z) : M unit :=
  if negb (chunk_offset_in_chunk c offset) then
    diag DIAG_ERR (MsgOffsetOutsideChunk offset (ch_name c)) ;; bail
  else ret tt.

Definition expect_chunk_data (c : chunk) (start sz : Z) : M unit :=
  let left := chunk_data_left c start in
  if left <? sz then
    diag DIAG_ERR
      (MsgExpectChunkData sz (ch_name c) (if left <? 0 then 0 else left)) ;;
    bail
  else ret tt.

(* ------------------------------------------------------------------ *)
(** ** Format resolver *)

Definition ID_ACSE : list byte := list_byte_of_string "ACSE".
Definition ID_ACSe : list byte := list_byte_of_string "ACSe".
Definition ID_ACS0 : list byte := list_byte_of_string "ACS" ++ [x00].
Definition CHAR_E : byte := x45.

Definition peek_real_id (o : object) (header_offset : Z) : M bool :=
  let offset := to_int (header_offset - 4) in
  if offset_in_object_file o offset then
    id <- load_bytes o offset 4 ;;
    if list_byte_eqb id ID_ACSE || list_byte_eqb id ID_ACSe
    then ret true else ret false
  else ret false.

Definition script_directory_present (o : object) : bool :=
  match format o with
  | FORMAT_BIG_E | FORMAT_LITTLE_E => Bool.eqb (indirect_format o) true
  | FORMAT_ZERO => true
  | FORMAT_UNKNOWN => false
  end.

Definition determine_format (o : object) : M object :=
  if to_size_t (data_left o 0) <? 8 then
    diag DIAG_ERR MsgTooSmall ;; bail
  else
    header_id <- load_bytes o 0 4 ;;
    header_offset <- load_int o 4 ;;
    expect_offset_in_object_file o header_offset ;;
    let o := set_directory_offset o header_offset in
    o <- (if list_byte_eqb header_id ID_ACSE || list_byte_eqb header_id ID_ACSe
          then
            let o := set_format o
              (if Byte.eqb (nth 3 header_id x00) CHAR_E
               then FORMAT_BIG_E else FORMAT_LITTLE_E) in
            ret (set_chunk_offset o (directory_offset o))
          else if list_byte_eqb header_id ID_ACS0 then
            real <- peek_real_id o header_offset ;;
            if real then
              let offset := to_int (header_offset - 4) in
              e <- load o (offset + 3) ;;
              let o := set_format o
                (if Byte.eqb e CHAR_E then FORMAT_BIG_E else FORMAT_LITTLE_E) in
              let offset := to_int (offset - 4) in
              expect_offset_in_object_file o offset ;;
              chunk_offset <- load_int o offset ;;
              let o := set_real_header_offset o offset in
              let o := set_chunk_offset o chunk_offset in
              ret (set_indirect_format o true)
            else ret (set_format o FORMAT_ZERO)
          else ret o) ;;
    if format_eqb (format o) FORMAT_LITTLE_E
    then ret (set_small_code o true)
    else ret o.

Definition determine_object_offsets (o : object) : M object :=
  if script_directory_present o then
    let p := directory_offset o in
    expect_data o p 4 ;;
    total_scripts <- load_int o p ;;
    let string_offset := to_int (directory_offset o + 4 + total_scripts * 12) in
    expect_offset_in_object_file o string_offset ;;
    ret (set_string_offset o string_offset)
  else ret o.

(** The first three steps of [perform_operation]: the format resolver. *)
Definition resolve (v : viewer) : M object :=
  let o := init_object (object_data v) (object_size v) in
  o <- determine_format o ;;
  determine_object_offsets o.

(** [read_object_file] followed by the format resolver. *)
Definition open_object (file : list byte) : M object :=
  v <- read_object_file file ;; resolve v.

(* ------------------------------------------------------------------ *)
(** ** Chunk walker *)

Definition supported : list (list byte * chunk_type) :=
  [(list_byte_of_string "ARAY", CHUNK_ARAY);
   (list_byte_of_string "AINI", CHUNK_AINI);
   (list_byte_of_string "AIMP", CHUNK_AIMP);
   (list_byte_of_string "ASTR", CHUNK_ASTR);
   (list_byte_of_string "MSTR", CHUNK_MSTR);
   (list_byte_of_string "ATAG", CHUNK_ATAG);
   (list_byte_of_string "LOAD", CHUNK_LOAD);
   (list_byte_of_string "FUNC", CHUNK_FUNC);
   (list_byte_of_string "FNAM", CHUNK_FNAM);
   (list_byte_of_string "MINI", CHUNK_MINI);
   (list_byte_of_string "MIMP", CHUNK_MIMP);
   (list_byte_of_string "MEXP", CHUNK_MEXP);
   (list_byte_of_string "SPTR", CHUNK_SPTR);
   (list_byte_of_string "SFLG", CHUNK_SFLG);
   (list_byte_of_string "SVCT", CHUNK_SVCT);
   (list_byte_of_string "SNAM", CHUNK_SNAM);
   (list_byte_of_string "STRL", CHUNK_STRL);
   (list_byte_of_string "STRE", CHUNK_STRE);
   (list_byte_of_string "SARY", CHUNK_SARY);
   (list_byte_of_string "FARY", CHUNK_FARY);
   (list_byte_of_string "ALIB", CHUNK_ALIB)].

Fixpoint lookup_chunk_type (buff : list byte)
  (table : list (list byte * chunk_type)) : chunk_type :=
  match table with
  | [] => CHUNK_UNKNOWN
  | (n, t) :: rest =>
      if strcmp_eq buff n then t else lookup_chunk_type buff rest
  end.

Definition get_chunk_type (name : list byte) : chunk_type :=
  let buff := map toupper (firstn 4 name) ++ [x00] in
  lookup_chunk_type buff supported.

Definition init_chunk_reader (o : object) : chunk_reader :=
  mk_chunk_reader
    (if indirect_format o then real_header_offset o else size o)
    (chunk_offset o).

Definition init_chunk (o : object) (offset : Z) : M chunk :=
  let p := offset in
  expect_data o p 8 ;;
  header_name <- load_bytes o p 4 ;;
  header_size <- load_int o (p + 4) ;;
  let p := p + 8 in
  let c := mk_chunk header_name p header_size
             (get_chunk_type (header_name ++ [x00])) in
  expect_data o p (ch_size c) ;;
  ret c.

(** [read_chunk]: the chunk when the result is [true], and the reader
    after the call. *)
Definition read_chunk (o : object) (r : chunk_reader)
  : M (option chunk * chunk_reader) :=
  if 8 <=? to_size_t (to_int (end_pos r - pos r)) then
    c <- init_chunk o (pos r) ;;
    ret (Some c, mk_chunk_reader (end_pos r) (to_int (pos r + 8 + ch_size c)))
  else ret (None, r).

(** [show_chunk] with [show_contents = false], as [list_chunks] calls it. *)
Definition show_chunk_header (o : object) (c : chunk) : M bool :=
  print (EChunk (ch_name c) (to_int (ch_data c - 8)) (ch_size c)) ;;
  ret true.

Fixpoint list_chunks_from (fuel : nat) (o : object) (r : chunk_reader)
  : M unit :=
  rc <- read_chunk o r ;;
  match rc with
  | (Some c, r') =>
      show_chunk_header o c ;;
      match fuel with
      | O => timeout
      | S fuel' => list_chunks_from fuel' o r'
      end
  | (None, _) => ret tt
  end.

Definition list_chunks (fuel : nat) (o : object) : M unit :=
  list_chunks_from fuel o (init_chunk_reader o).

Fixpoint find_chunk_from (fuel : nat) (o : object) (name : list byte)
  (r : chunk_reader) : M (option chunk) :=
  rc <- read_chunk o r ;;
  match rc with
  | (Some c, r') =>
      if strcmp_eq name (ch_name c ++ [x00]) then ret (Some c)
      else
        match fuel with
        | O => timeout
        | S fuel' => find_chunk_from fuel' o name r'
        end
  | (None, _) => ret None
  end.

Definition find_chunk (fuel : nat) (o : object) (name : list byte)
  : M (option chunk) :=
  find_chunk_from fuel o name (init_chunk_reader o).

(* ------------------------------------------------------------------ *)
(** ** Table entries *)

Definition read_acse_script_entry (o : object) (c : chunk) (p : Z)
  : M common_acse_script_entry :=
  if indirect_format o then
    expect_chunk_data c p 8 ;;
    number <- load_short o p ;;
    type <- load_uchar o (p + 2) ;;
    num_param <- load_uchar o (p + 3) ;;
    offset <- load_int o (p + 4) ;;
    ret (mk_script_entry number type num_param offset 8)
  else
    expect_chunk_data c p 12 ;;
    number <- load_short o p ;;
    type <- load_short o (p + 2) ;;
    offset <- load_int o (p + 4) ;;
    num_param <- load_int o (p + 8) ;;
    ret (mk_script_entry number type num_param offset 12).

(** [memcpy( &entry, p, sizeof( struct func_entry ) )]. *)
Definition load_func_entry (o : object) (p : Z) : M func_entry :=
  num_param <- load_uchar o p ;;
  fsize <- load_uchar o (p + 1) ;;
  has_return <- load_uchar o (p + 2) ;;
  padding <- load_uchar o (p + 3) ;;
  offset <- load_int o (p + 4) ;;
  ret (mk_func_entry num_param fsize has_return padding offset).

(** [memcpy( &entry, p, sizeof( struct acs0_script_entry ) )]. *)
Definition load_acs0_script_entry (o : object) (p : Z)
  : M acs0_script_entry :=
  number <- load_int o p ;;
  offset <- load_int o (p + 4) ;;
  num_param <- load_int o (p + 8) ;;
  ret (mk_acs0_entry number offset num_param).

Definition SPTR : list byte := list_byte_of_string "SPTR".
Definition FUNC : list byte := list_byte_of_string "FUNC".

(* ------------------------------------------------------------------ *)
(** ** Extent inference *)

Definition calc_code_size (fuel : nat) (o : object) (offset : Z) : M Z :=
  let end_offset := size o in
  end_offset <-
    (if format_eqb (format o) FORMAT_BIG_E ||
        format_eqb (format o) FORMAT_LITTLE_E then
       found <- find_chunk fuel o SPTR ;;
       end_offset <-
         match found with
         | Some c =>
             st <- while_fuel fuel
               (fun st : Z * Z => fst st <? ch_size c)
               (fun st =>
                  let (sz, end_offset) := st in
                  entry <- read_acse_script_entry o c (ch_data c + sz) ;;
                  let sz := to_int (sz + real_entry_size entry) in
                  if (se_offset entry >? offset) &&
                     (se_offset entry <? end_offset)
                  then ret (sz, se_offset entry)
                  else ret (sz, end_offset))
               (0, end_offset) ;;
             ret (snd st)
         | None => ret end_offset
         end ;;
       found <- find_chunk fuel o FUNC ;;
       match found with
       | Some c =>
           let total_funcs := to_int (to_size_t (ch_size c) / 8) in
           for_n (Z.to_nat total_funcs) 0
             (fun i end_offset =>
                entry <- load_func_entry o (ch_data c + i * 8) ;;
                if (fe_offset entry >? offset) &&
                   (fe_offset entry <? end_offset)
                then ret (fe_offset entry)
                else ret end_offset)
             end_offset
       | None => ret end_offset
       end
     else ret end_offset) ;;
  end_offset <-
    (if script_directory_present o then
       let p := directory_offset o in
       count <- load_int o p ;;
       let p := p + 4 in
       st <- for_n (Z.to_nat count) 0
         (fun _ (st : Z * Z) =>
            let (p, end_offset) := st in
            entry <- load_acs0_script_entry o p ;;
            let p := p + 12 in
            if (a0_offset entry >? offset) && (a0_offset entry <? end_offset)
            then ret (p, a0_offset entry)
            else ret (p, end_offset))
         (p, end_offset) ;;
       let end_offset := snd st in
       let p := string_offset o in
       count <- load_int o p ;;
       let p := p + 4 in
       st <- for_n (Z.to_nat count) 0
         (fun _ (st : Z * Z) =>
            let (p, end_offset) := st in
            string_offset <- load_int o p ;;
            let p := p + 4 in
            if (string_offset >? offset) && (string_offset <? end_offset)
            then ret (p, string_offset)
            else ret (p, end_offset))
         (p, end_offset) ;;
       ret (snd st)
     else ret end_offset) ;;
  let end_offset :=
    if format_eqb (format o) FORMAT_BIG_E ||
       format_eqb (format o) FORMAT_LITTLE_E then
      if chunk_offset o <? end_offset then chunk_offset o else end_offset
    else end_offset in
  let end_offset :=
    if script_directory_present o && (directory_offset o <? end_offset)
    then directory_offset o else end_offset in
  ret (to_int (end_offset - offset)).

Definition get_script_type_name (type : Z) : option string :=
  match type with
  | 0 => Some "closed"%string
  | 1 => Some "open"%string
  | 2 => Some "respawn"%string
  | 3 => Some "death"%string
  | 4 => Some "enter"%string
  | 5 => Some "pickup"%string
  | 6 => Some "bluereturn"%string
  | 7 => Some "redreturn"%string
  | 8 => Some "whitereturn"%string
  | 12 => Some "lightning"%string
  | 13 => Some "unloading"%string
  | 14 => Some "disconnect"%string
  | 15 => Some "return"%string
  | 16 => Some "event"%string
  | 17 => Some "kill"%string
  | 18 => Some "reopen"%string
  | _ => None
  end.

(* ------------------------------------------------------------------ *)
(** ** The instruction set: the [PCD_] enumeration and [g_pcodes] *)

Definition PCD_NOP : Z := 0.
Definition PCD_TERMINATE : Z := 1.
Definition PCD_SUSPEND : Z := 2.
Definition PCD_PUSHNUMBER : Z := 3.
Definition PCD_LSPEC1 : Z := 4.
Definition PCD_LSPEC2 : Z := 5.
Definition PCD_LSPEC3 : Z := 6.
Definition PCD_LSPEC4 : Z := 7.
Definition PCD_LSPEC5 : Z := 8.
Definition PCD_LSPEC1DIRECT : Z := 9.
Definition PCD_LSPEC2DIRECT : Z := 10.
Definition PCD_LSPEC3DIRECT : Z := 11.
Definition PCD_LSPEC4DIRECT : Z := 12.
Definition PCD_LSPEC5DIRECT : Z := 13.
Definition PCD_ADD : Z := 14.
Definition PCD_SUBTRACT : Z := 15.
Definition PCD_MULIPLY : Z := 16.
Definition PCD_DIVIDE : Z := 17.
Definition PCD_MODULUS : Z := 18.
Definition PCD_EQ : Z := 19.
Definition PCD_NE : Z := 20.
Definition PCD_LT : Z := 21.
Definition PCD_GT : Z := 22.
Definition PCD_LE : Z := 23.
Definition PCD_GE : Z := 24.
Definition PCD_ASSIGNSCRIPTVAR : Z := 25.
Definition PCD_ASSIGNMAPVAR : Z := 26.
Definition PCD_ASSIGNWORLDVAR : Z := 27.
Definition PCD_PUSHSCRIPTVAR : Z := 28.
Definition PCD_PUSHMAPVAR : Z := 29.
Definition PCD_PUSHWORLDVAR : Z := 30.
Definition PCD_ADDSCRIPTVAR : Z := 31.
Definition PCD_ADDMAPVAR : Z := 32.
Definition PCD_ADDWORLDVAR : Z := 33.
Definition PCD_SUBSCRIPTVAR : Z := 34.
Definition PCD_SUBMAPVAR : Z := 35.
Definition PCD_SUBWORLDVAR : Z := 36.
Definition PCD_MULSCRIPTVAR : Z := 37.
Definition PCD_MULMAPVAR : Z := 38.
Definition PCD_MULWORLDVAR : Z := 39.
Definition PCD_DIVSCRIPTVAR : Z := 40.
Definition PCD_DIVMAPVAR : Z := 41.
Definition PCD_DIVWORLDVAR : Z := 42.
Definition PCD_MODSCRIPTVAR : Z := 43.
Definition PCD_MODMAPVAR : Z := 44.
Definition PCD_MODWORLDVAR : Z := 45.
Definition PCD_INCSCRIPTVAR : Z := 46.
Definition PCD_INCMAPVAR : Z := 47.
Definition PCD_INCWORLDVAR : Z := 48.
Definition PCD_DECSCRIPTVAR : Z := 49.
Definition PCD_DECMAPVAR : Z := 50.
Definition PCD_DECWORLDVAR : Z := 51.
Definition PCD_GOTO : Z := 52.
Definition PCD_IFGOTO : Z := 53.
Definition PCD_DROP : Z := 54.
Definition PCD_DELAY : Z := 55.
Definition PCD_DELAYDIRECT : Z := 56.
Definition PCD_RANDOM : Z := 57.
Definition PCD_RANDOMDIRECT : Z := 58.
Definition PCD_THINGCOUNT : Z := 59.
Definition PCD_THINGCOUNTDIRECT : Z := 60.
Definition PCD_TAGWAIT : Z := 61.
Definition PCD_TAGWAITDIRECT : Z := 62.
Definition PCD_POLYWAIT : Z := 63.
Definition PCD_POLYWAITDIRECT : Z := 64.
Definition PCD_CHANGEFLOOR : Z := 65.
Definition PCD_CHANGEFLOORDIRECT : Z := 66.
Definition PCD_CHANGECEILING : Z := 67.
Definition PCD_CHANGECEILINGDIRECT : Z := 68.
Definition PCD_RESTART : Z := 69.
Definition PCD_ANDLOGICAL : Z := 70.
Definition PCD_ORLOGICAL : Z := 71.
Definition PCD_ANDBITWISE : Z := 72.
Definition PCD_ORBITWISE : Z := 73.
Definition PCD_EORBITWISE : Z := 74.
Definition PCD_NEGATELOGICAL : Z := 75.
Definition PCD_LSHIFT : Z := 76.
Definition PCD_RSHIFT : Z := 77.
Definition PCD_UNARYMINUS : Z := 78.
Definition PCD_IFNOTGOTO : Z := 79.
Definition PCD_LINESIDE : Z := 80.
Definition PCD_SCRIPTWAIT : Z := 81.
Definition PCD_SCRIPTWAITDIRECT : Z := 82.
Definition PCD_CLEARLINESPECIAL : Z := 83.
Definition PCD_CASEGOTO : Z := 84.
Definition PCD_BEGINPRINT : Z := 85.
Definition PCD_ENDPRINT : Z := 86.
Definition PCD_PRINTSTRING : Z := 87.
Definition PCD_PRINTNUMBER : Z := 88.
Definition PCD_PRINTCHARACTER : Z := 89.
Definition PCD_PLAYERCOUNT : Z := 90.
Definition PCD_GAMETYPE : Z := 91.
Definition PCD_GAMESKILL : Z := 92.
Definition PCD_TIMER : Z := 93.
Definition PCD_SECTORSOUND : Z := 94.
Definition PCD_AMBIENTSOUND : Z := 95.
Definition PCD_SOUNDSEQUENCE : Z := 96.
Definition PCD_SETLINETEXTURE : Z := 97.
Definition PCD_SETLINEBLOCKING : Z := 98.
Definition PCD_SETLINESPECIAL : Z := 99.
Definition PCD_THINGSOUND : Z := 100.
Definition PCD_ENDPRINTBOLD : Z := 101.
Definition PCD_ACTIVATORSOUND : Z := 102.
Definition PCD_LOCALAMBIENTSOUND : Z := 103.
Definition PCD_SETLINEMONSTERBLOCKING : Z := 104.
Definition PCD_PLAYERBLUESKULL : Z := 105.
Definition PCD_PLAYERREDSKULL : Z := 106.
Definition PCD_PLAYERYELLOWSKULL : Z := 107.
Definition PCD_PLAYERMASTERSKULL : Z := 108.
Definition PCD_PLAYERBLUECARD : Z := 109.
Definition PCD_PLAYERREDCARD : Z := 110.
Definition PCD_PLAYERYELLOWCARD : Z := 111.
Definition PCD_PLAYERMASTERCARD : Z := 112.
Definition PCD_PLAYERBLACKSKULL : Z := 113.
Definition PCD_PLAYERSILVERSKULL : Z := 114.
Definition PCD_PLAYERGOLDSKULL : Z := 115.
Definition PCD_PLAYERBLACKCARD : Z := 116.
Definition PCD_PLAYERSILVERCARD : Z := 117.
Definition PCD_ISMULTIPLAYER : Z := 118.
Definition PCD_PLAYERTEAM : Z := 119.
Definition PCD_PLAYERHEALTH : Z := 120.
Definition PCD_PLAYERARMORPOINTS : Z := 121.
Definition PCD_PLAYERFRAGS : Z := 122.
Definition PCD_PLAYEREXPERT : Z := 123.
Definition PCD_BLUETEAMCOUNT : Z := 124.
Definition PCD_REDTEAMCOUNT : Z := 125.
Definition PCD_BLUETEAMSCORE : Z := 126.
Definition PCD_REDTEAMSCORE : Z := 127.
Definition PCD_ISONEFLAGCTF : Z := 128.
Definition PCD_GETINVASIONWAVE : Z := 129.
Definition PCD_GETINVASIONSTATE : Z := 130.
Definition PCD_PRINTNAME : Z := 131.
Definition PCD_MUSICCHANGE : Z := 132.
Definition PCD_CONSOLECOMMANDDIRECT : Z := 133.
Definition PCD_CONSOLECOMMAND : Z := 134.
Definition PCD_SINGLEPLAYER : Z := 135.
Definition PCD_FIXEDMUL : Z := 136.
Definition PCD_FIXEDDIV : Z := 137.
Definition PCD_SETGRAVITY : Z := 138.
Definition PCD_SETGRAVITYDIRECT : Z := 139.
Definition PCD_SETAIRCONTROL : Z := 140.
Definition PCD_SETAIRCONTROLDIRECT : Z := 141.
Definition PCD_CLEARINVENTORY : Z := 142.
Definition PCD_GIVEINVENTORY : Z := 143.
Definition PCD_GIVEINVENTORYDIRECT : Z := 144.
Definition PCD_TAKEINVENTORY : Z := 145.
Definition PCD_TAKEINVENTORYDIRECT : Z := 146.
Definition PCD_CHECKINVENTORY : Z := 147.
Definition PCD_CHECKINVENTORYDIRECT : Z := 148.
Definition PCD_SPAWN : Z := 149.
Definition PCD_SPAWNDIRECT : Z := 150.
Definition PCD_SPAWNSPOT : Z := 151.
Definition PCD_SPAWNSPOTDIRECT : Z := 152.
Definition PCD_SETMUSIC : Z := 153.
Definition PCD_SETMUSICDIRECT : Z := 154.
Definition PCD_LOCALSETMUSIC : Z := 155.
Definition PCD_LOCALSETMUSICDIRECT : Z := 156.
Definition PCD_PRINTFIXED : Z := 157.
Definition PCD_PRINTLOCALIZED : Z := 158.
Definition PCD_MOREHUDMESSAGE : Z := 159.
Definition PCD_OPTHUDMESSAGE : Z := 160.
Definition PCD_ENDHUDMESSAGE : Z := 161.
Definition PCD_ENDHUDMESSAGEBOLD : Z := 162.
Definition PCD_SETSTYLE : Z := 163.
Definition PCD_SETSTYLEDIRECT : Z := 164.
Definition PCD_SETFONT : Z := 165.
Definition PCD_SETFONTDIRECT : Z := 166.
Definition PCD_PUSHBYTE : Z := 167.
Definition PCD_LSPEC1DIRECTB : Z := 168.
Definition PCD_LSPEC2DIRECTB : Z := 169.
Definition PCD_LSPEC3DIRECTB : Z := 170.
Definition PCD_LSPEC4DIRECTB : Z := 171.
Definition PCD_LSPEC5DIRECTB : Z := 172.
Definition PCD_DELAYDIRECTB : Z := 173.
Definition PCD_RANDOMDIRECTB : Z := 174.
Definition PCD_PUSHBYTES : Z := 175.
Definition PCD_PUSH2BYTES : Z := 176.
Definition PCD_PUSH3BYTES : Z := 177.
Definition PCD_PUSH4BYTES : Z := 178.
Definition PCD_PUSH5BYTES : Z := 179.
Definition PCD_SETTHINGSPECIAL : Z := 180.
Definition PCD_ASSIGNGLOBALVAR : Z := 181.
Definition PCD_PUSHGLOBALVAR : Z := 182.
Definition PCD_ADDGLOBALVAR : Z := 183.
Definition PCD_SUBGLOBALVAR : Z := 184.
Definition PCD_MULGLOBALVAR : Z := 185.
Definition PCD_DIVGLOBALVAR : Z := 186.
Definition PCD_MODGLOBALVAR : Z := 187.
Definition PCD_INCGLOBALVAR : Z := 188.
Definition PCD_DECGLOBALVAR : Z := 189.
Definition PCD_FADETO : Z := 190.
Definition PCD_FADERANGE : Z := 191.
Definition PCD_CANCELFADE : Z := 192.
Definition PCD_PLAYMOVIE : Z := 193.
Definition PCD_SETFLOORTRIGGER : Z := 194.
Definition PCD_SETCEILINGTRIGGER : Z := 195.
Definition PCD_GETACTORX : Z := 196.
Definition PCD_GETACTORY : Z := 197.
Definition PCD_GETACTORZ : Z := 198.
Definition PCD_STARTTRANSLATION : Z := 199.
Definition PCD_TRANSLATIONRANGE1 : Z := 200.
Definition PCD_TRANSLATIONRANGE2 : Z := 201.
Definition PCD_ENDTRANSLATION : Z := 202.
Definition PCD_CALL : Z := 203.
Definition PCD_CALLDISCARD : Z := 204.
Definition PCD_RETURNVOID : Z := 205.
Definition PCD_RETURNVAL : Z := 206.
Definition PCD_PUSHMAPARRAY : Z := 207.
Definition PCD_ASSIGNMAPARRAY : Z := 208.
Definition PCD_ADDMAPARRAY : Z := 209.
Definition PCD_SUBMAPARRAY : Z := 210.
Definition PCD_MULMAPARRAY : Z := 211.
Definition PCD_DIVMAPARRAY : Z := 212.
Definition PCD_MODMAPARRAY : Z := 213.
Definition PCD_INCMAPARRAY : Z := 214.
Definition PCD_DECMAPARRAY : Z := 215.
Definition PCD_DUP : Z := 216.
Definition PCD_SWAP : Z := 217.
Definition PCD_WRITETOINI : Z := 218.
Definition PCD_GETFROMINI : Z := 219.
Definition PCD_SIN : Z := 220.
Definition PCD_COS : Z := 221.
Definition PCD_VECTORANGLE : Z := 222.
Definition PCD_CHECKWEAPON : Z := 223.
Definition PCD_SETWEAPON : Z := 224.
Definition PCD_TAGSTRING : Z := 225.
Definition PCD_PUSHWORLDARRAY : Z := 226.
Definition PCD_ASSIGNWORLDARRAY : Z := 227.
Definition PCD_ADDWORLDARRAY : Z := 228.
Definition PCD_SUBWORLDARRAY : Z := 229.
Definition PCD_MULWORLDARRAY : Z := 230.
Definition PCD_DIVWORLDARRAY : Z := 231.
Definition PCD_MODWORLDARRAY : Z := 232.
Definition PCD_INCWORLDARRAY : Z := 233.
Definition PCD_DECWORLDARRAY : Z := 234.
Definition PCD_PUSHGLOBALARRAY : Z := 235.
Definition PCD_ASSIGNGLOBALARRAY : Z := 236.
Definition PCD_ADDGLOBALARRAY : Z := 237.
Definition PCD_SUBGLOBALARRAY : Z := 238.
Definition PCD_MULGLOBALARRAY : Z := 239.
Definition PCD_DIVGLOBALARRAY : Z := 240.
Definition PCD_MODGLOBALARRAY : Z := 241.
Definition PCD_INCGLOBALARRAY : Z := 242.
Definition PCD_DECGLOBALARRAY : Z := 243.
Definition PCD_SETMARINEWEAPON : Z := 244.
Definition PCD_SETACTORPROPERTY : Z := 245.
Definition PCD_GETACTORPROPERTY : Z := 246.
Definition PCD_PLAYERNUMBER : Z := 247.
Definition PCD_ACTIVATORTID : Z := 248.
Definition PCD_SETMARINESPRITE : Z := 249.
Definition PCD_GETSCREENWIDTH : Z := 250.
Definition PCD_GETSCREENHEIGHT : Z := 251.
Definition PCD_THINGPROJECTILE2 : Z := 252.
Definition PCD_STRLEN : Z := 253.
Definition PCD_SETHUDSIZE : Z := 254.
Definition PCD_GETCVAR : Z := 255.
Definition PCD_CASEGOTOSORTED : Z := 256.
Definition PCD_SETRESULTVALUE : Z := 257.
Definition PCD_GETLINEROWOFFSET : Z := 258.
Definition PCD_GETACTORFLOORZ : Z := 259.
Definition PCD_GETACTORANGLE : Z := 260.
Definition PCD_GETSECTORFLOORZ : Z := 261.
Definition PCD_GETSECTORCEILINGZ : Z := 262.
Definition PCD_LSPEC5RESULT : Z := 263.
Definition PCD_GETSIGILPIECES : Z := 264.
Definition PCD_GETLEVELINFO : Z := 265.
Definition PCD_CHANGESKY : Z := 266.
Definition PCD_PLAYERINGAME : Z := 267.
Definition PCD_PLAYERISBOT : Z := 268.
Definition PCD_SETCAMERATOTEXTURE : Z := 269.
Definition PCD_ENDLOG : Z := 270.
Definition PCD_GETAMMOCAPACITY : Z := 271.
Definition PCD_SETAMMOCAPACITY : Z := 272.
Definition PCD_PRINTMAPCHARARRAY : Z := 273.
Definition PCD_PRINTWORLDCHARARRAY : Z := 274.
Definition PCD_PRINTGLOBALCHARARRAY : Z := 275.
Definition PCD_SETACTORANGLE : Z := 276.
Definition PCD_GRAPINPUT : Z := 277.
Definition PCD_SETMOUSEPOINTER : Z := 278.
Definition PCD_MOVEMOUSEPOINTER : Z := 279.
Definition PCD_SPAWNPROJECTILE : Z := 280.
Definition PCD_GETSECTORLIGHTLEVEL : Z := 281.
Definition PCD_GETACTORCEILINGZ : Z := 282.
Definition PCD_SETACTORPOSITION : Z := 283.
Definition PCD_CLEARACTORINVENTORY : Z := 284.
Definition PCD_GIVEACTORINVENTORY : Z := 285.
Definition PCD_TAKEACTORINVENTORY : Z := 286.
Definition PCD_CHECKACTORINVENTORY : Z := 287.
Definition PCD_THINGCOUNTNAME : Z := 288.
Definition PCD_SPAWNSPOTFACING : Z := 289.
Definition PCD_PLAYERCLASS : Z := 290.
Definition PCD_ANDSCRIPTVAR : Z := 291.
Definition PCD_ANDMAPVAR : Z := 292.
Definition PCD_ANDWORLDVAR : Z := 293.
Definition PCD_ANDGLOBALVAR : Z := 294.
Definition PCD_ANDMAPARRAY : Z := 295.
Definition PCD_ANDWORLDARRAY : Z := 296.
Definition PCD_ANDGLOBALARRAY : Z := 297.
Definition PCD_EORSCRIPTVAR : Z := 298.
Definition PCD_EORMAPVAR : Z := 299.
Definition PCD_EORWORLDVAR : Z := 300.
Definition PCD_EORGLOBALVAR : Z := 301.
Definition PCD_EORMAPARRAY : Z := 302.
Definition PCD_EORWORLDARRAY : Z := 303.
Definition PCD_EORGLOBALARRAY : Z := 304.
Definition PCD_ORSCRIPTVAR : Z := 305.
Definition PCD_ORMAPVAR : Z := 306.
Definition PCD_ORWORLDVAR : Z := 307.
Definition PCD_ORGLOBALVAR : Z := 308.
Definition PCD_ORMAPARRAY : Z := 309.
Definition PCD_ORWORLDARRAY : Z := 310.
Definition PCD_ORGLOBALARRAY : Z := 311.
Definition PCD_LSSCRIPTVAR : Z := 312.
Definition PCD_LSMAPVAR : Z := 313.
Definition PCD_LSWORLDVAR : Z := 314.
Definition PCD_LSGLOBALVAR : Z := 315.
Definition PCD_LSMAPARRAY : Z := 316.
Definition PCD_LSWORLDARRAY : Z := 317.
Definition PCD_LSGLOBALARRAY : Z := 318.
Definition PCD_RSSCRIPTVAR : Z := 319.
Definition PCD_RSMAPVAR : Z := 320.
Definition PCD_RSWORLDVAR : Z := 321.
Definition PCD_RSGLOBALVAR : Z := 322.
Definition PCD_RSMAPARRAY : Z := 323.
Definition PCD_RSWORLDARRAY : Z := 324.
Definition PCD_RSGLOBALARRAY : Z := 325.
Definition PCD_GETPLAYERINFO : Z := 326.
Definition PCD_CHANGELEVEL : Z := 327.
Definition PCD_SECTORDAMAGE : Z := 328.
Definition PCD_REPLACETEXTURES : Z := 329.
Definition PCD_NEGATEBINARY : Z := 330.
Definition PCD_GETACTORPITCH : Z := 331.
Definition PCD_SETACTORPITCH : Z := 332.
Definition PCD_PRINTBIND : Z := 333.
Definition PCD_SETACTORSTATE : Z := 334.
Definition PCD_THINGDAMAGE2 : Z := 335.
Definition PCD_USEINVENTORY : Z := 336.
Definition PCD_USEACTORINVENTORY : Z := 337.
Definition PCD_CHECKACTORCEILINGTEXTURE : Z := 338.
Definition PCD_CHECKACTORFLOORTEXTURE : Z := 339.
Definition PCD_GETACTORLIGHTLEVEL : Z := 340.
Definition PCD_SETMUGSHOTSTATE : Z := 341.
Definition PCD_THINGCOUNTSECTOR : Z := 342.
Definition PCD_THINGCOUNTNAMESECTOR : Z := 343.
Definition PCD_CHECKPLAYERCAMERA : Z := 344.
Definition PCD_MORPHACTOR : Z := 345.
Definition PCD_UNMORPHACTOR : Z := 346.
Definition PCD_GETPLAYERINPUT : Z := 347.
Definition PCD_CLASSIFYACTOR : Z := 348.
Definition PCD_PRINTBINARY : Z := 349.
Definition PCD_PRINTHEX : Z := 350.
Definition PCD_CALLFUNC : Z := 351.
Definition PCD_SAVESTRING : Z := 352.
Definition PCD_PRINTMAPCHRANGE : Z := 353.
Definition PCD_PRINTWORLDCHRANGE : Z := 354.
Definition PCD_PRINTGLOBALCHRANGE : Z := 355.
Definition PCD_STRCPYTOMAPCHRANGE : Z := 356.
Definition PCD_STRCPYTOWORLDCHRANGE : Z := 357.
Definition PCD_STRCPYTOGLOBALCHRANGE : Z := 358.
Definition PCD_PUSHFUNCTION : Z := 359.
Definition PCD_CALLSTACK : Z := 360.
Definition PCD_SCRIPTWAITNAMED : Z := 361.
Definition PCD_TRANSLATIONRANGE3 : Z := 362.
Definition PCD_GOTOSTACK : Z := 363.
Definition PCD_ASSIGNSCRIPTARRAY : Z := 364.
Definition PCD_PUSHSCRIPTARRAY : Z := 365.
Definition PCD_ADDSCRIPTARRAY : Z := 366.
Definition PCD_SUBSCRIPTARRAY : Z := 367.
Definition PCD_MULSCRIPTARRAY : Z := 368.
Definition PCD_DIVSCRIPTARRAY : Z := 369.
Definition PCD_MODSCRIPTARRAY : Z := 370.
Definition PCD_INCSCRIPTARRAY : Z := 371.
Definition PCD_DECSCRIPTARRAY : Z := 372.
Definition PCD_ANDSCRIPTARRAY : Z := 373.
Definition PCD_EORSCRIPTARRAY : Z := 374.
Definition PCD_ORSCRIPTARRAY : Z := 375.
Definition PCD_LSSCRIPTARRAY : Z := 376.
Definition PCD_RSSCRIPTARRAY : Z := 377.
Definition PCD_PRINTSCRIPTCHARARRAY : Z := 378.
Definition PCD_PRINTSCRIPTCHRANGE : Z := 379.
Definition PCD_STRCPYTOSCRIPTCHRANGE : Z := 380.
Definition PCD_LSPEC5EX : Z := 381.
Definition PCD_LSPEC5EXRESULT : Z := 382.
Definition PCD_TRANSLATIONRANGE4 : Z := 383.
Definition PCD_TRANSLATIONRANGE5 : Z := 384.
Definition PCD_TOTAL : Z := 385.

(** [g_pcodes]: mnemonic and number of 4-byte arguments of each
    instruction, indexed by instruction code. *)
Definition g_pcodes : list (string * Z) :=
  [("nop", 0); ("terminate", 0); ("suspend", 0); ("pushnumber", 1);
   ("lspec1", 1); ("lspec2", 1); ("lspec3", 1); ("lspec4", 1); ("lspec5", 1);
   ("lspec1direct", 2); ("lspec2direct", 3); ("lspec3direct", 4);
   ("lspec4direct", 5); ("lspec5direct", 6); ("add", 0); ("subtract", 0);
   ("multiply", 0); ("divide", 0); ("modulus", 0); ("eq", 0); ("ne", 0);
   ("lt", 0); ("gt", 0); ("le", 0); ("ge", 0); ("assignscriptvar", 1);
   ("assignmapvar", 1); ("assignworldvar", 1); ("pushscriptvar", 1);
   ("pushmapvar", 1); ("pushworldvar", 1); ("addscriptvar", 1);
   ("addmapvar", 1); ("addworldvar", 1); ("subscriptvar", 1);
   ("submapvar", 1); ("subworldvar", 1); ("mulscriptvar", 1);
   ("mulmapvar", 1); ("mulworldvar", 1); ("divscriptvar", 1);
   ("divmapvar", 1); ("divworldvar", 1); ("modscriptvar", 1);
   ("modmapvar", 1); ("modworldvar", 1); ("incscriptvar", 1);
   ("incmapvar", 1); ("incworldvar", 1); ("decscriptvar", 1);
   ("decmapvar", 1); ("decworldvar", 1); ("goto", 1); ("ifgoto", 1);
   ("drop", 0); ("delay", 0); ("delaydirect", 1); ("random", 0);
   ("randomdirect", 2); ("thingcount", 0); ("thingcountdirect", 2);
   ("tagwait", 0); ("tagwaitdirect", 1); ("polywait", 0);
   ("polywaitdirect", 1); ("changefloor", 0); ("changefloordirect", 2);
   ("changeceiling", 0); ("changeceilingdirect", 2); ("restart", 0);
   ("andlogical", 0); ("orlogical", 0); ("andbitwise", 0); ("orbitwise", 0);
   ("eorbitwise", 0); ("negatelogical", 0); ("lshift", 0); ("rshift", 0);
   ("unaryminus", 0); ("ifnotgoto", 1); ("lineside", 0); ("scriptwait", 0);
   ("scriptwaitdirect", 1); ("clearlinespecial", 0); ("casegoto", 2);
   ("beginprint", 0); ("endprint", 0); ("printstring", 0);
   ("printnumber", 0); ("printcharacter", 0); ("playercount", 0);
   ("gametype", 0); ("gameskill", 0); ("timer", 0); ("sectorsound", 0);
   ("ambientsound", 0); ("soundsequence", 0); ("setlinetexture", 0);
   ("setlineblocking", 0); ("setlinespecial", 0); ("thingsound", 0);
   ("endprintbold", 0); ("activatorsound", 0); ("ambientsound", 0);
   ("setlinemonsterblocking", 0); ("playerblueskull", 0);
   ("playerredskull", 0); ("playeryellowskull", 0); ("playermasterskull", 0);
   ("playerbluecard", 0); ("playerredcard", 0); ("playeryellowcard", 0);
   ("playermastercard", 0); ("playerblackskull", 0);
   ("playersilverskull", 0); ("playergoldskull", 0); ("playerblackcard", 0);
   ("playersilvercard", 0); ("ismultiplayer", 0); ("playerteam", 0);
   ("playerhealth", 0); ("playerarmorpoints", 0); ("playerfrags", 0);
   ("playerexpert", 0); ("blueteamcount", 0); ("redteamcount", 0);
   ("blueteamscore", 0); ("redteamscore", 0); ("isoneflagctf", 0);
   ("getinvasionwave", 0); ("getinvastionstate", 0); ("printname", 0);
   ("musicchange", 0); ("consolecommanddirect", 3); ("consolecommand", 0);
   ("singleplayer", 0); ("fixedmul", 0); ("fixeddiv", 0); ("setgravity", 0);
   ("setgravitydirect", 1); ("setaircontrol", 0); ("setaircontroldirect", 1);
   ("clearinventory", 0); ("giveinventory", 0); ("giveinventorydirect", 2);
   ("takeinventory", 0); ("takeinventorydirect", 2); ("checkinventory", 0);
   ("checkinventorydirect", 1); ("spawn", 0); ("spawndirect", 6);
   ("spawnspot", 0); ("spawnspotdirect", 4); ("setmusic", 0);
   ("setmusicdirect", 3); ("localsetmusic", 0); ("localsetmusicdirect", 3);
   ("printfixed", 0); ("printlocalized", 0); ("morehudmessage", 0);
   ("opthudmessage", 0); ("endhudmessage", 0); ("endhudmessagebold", 0);
   ("setstyle", 0); ("setstyledirect", 0); ("setfont", 0);
   ("setfontdirect", 1); ("pushbyte", 1); ("lspec1directb", 2);
   ("lspec2directb", 3); ("lspec3directb", 4); ("lspec4directb", 5);
   ("lspec5directb", 6); ("delaydirectb", 1); ("randomdirectb", 2);
   ("pushbytes", -1); ("push2bytes", 2); ("push3bytes", 3);
   ("push4bytes", 4); ("push5bytes", 5); ("setthingspecial", 0);
   ("assignglobalvar", 1); ("pushglobalvar", 1); ("addglobalvar", 1);
   ("subglobalvar", 1); ("mulglobalvar", 1); ("divglobalvar", 1);
   ("modglobalvar", 1); ("incglobalvar", 1); ("decglobalvar", 1);
   ("fadeto", 0); ("faderange", 0); ("cancelfade", 0); ("playmovie", 0);
   ("setfloortrigger", 0); ("setceilingtrigger", 0); ("getactorx", 0);
   ("getactory", 0); ("getactorz", 0); ("starttranslation", 0);
   ("translationrange1", 0); ("translationrange2", 0); ("endtranslation", 0);
   ("call", 1); ("calldiscard", 1); ("returnvoid", 0); ("returnval", 0);
   ("pushmaparray", 1); ("assignmaparray", 1); ("addmaparray", 1);
   ("submaparray", 1); ("mulmaparray", 1); ("divmaparray", 1);
   ("modmaparray", 1); ("incmaparray", 1); ("decmaparray", 1); ("dup", 0);
   ("swap", 0); ("writetoini", 0); ("getfromini", 0); ("sin", 0); ("cos", 0);
   ("vectorangle", 0); ("checkweapon", 0); ("setweapon", 0);
   ("tagstring", 0); ("pushworldarray", 1); ("assignworldarray", 1);
   ("addworldarray", 1); ("subworldarray", 1); ("mulworldarray", 1);
   ("divworldarray", 1); ("modworldarray", 1); ("incworldarray", 1);
   ("decworldarray", 1); ("pushglobalarray", 1); ("assignglobalarray", 1);
   ("addglobalarray", 1); ("subglobalarray", 1); ("mulglobalarray", 1);
   ("divglobalarray", 1); ("modglobalarray", 1); ("incglobalarray", 1);
   ("decglobalarray", 1); ("setmarineweapon", 0); ("setactorproperty", 0);
   ("getactorproperty", 0); ("playernumber", 0); ("activatortid", 0);
   ("setmarinesprite", 0); ("getscreenwidth", 0); ("getscreenheight", 0);
   ("thingprojectile2", 0); ("strlen", 0); ("gethudsize", 0); ("getcvar", 0);
   ("casegotosorted", -1); ("setresultvalue", 0); ("getlinerowoffset", 0);
   ("getactorfloorz", 0); ("getactorangle", 0); ("getsectorfloorz", 0);
   ("getsectorceilingz", 0); ("lspec5result", 1); ("getsigilpieces", 0);
   ("getlevelinfo", 0); ("changesky", 0); ("playeringame", 0);
   ("playerisbot", 0); ("setcameratotexture", 0); ("endlog", 0);
   ("getammocapacity", 0); ("setammocapacity", 0); ("printmapchararray", 0);
   ("printworldchararray", 0); ("printglobalchararray", 0);
   ("setactorangle", 0); ("grabinput", 0); ("setmousepointer", 0);
   ("movemousepointer", 0); ("spawnprojectile", 0);
   ("getsectorlightlevel", 0); ("getactorceilingz", 0);
   ("setactorposition", 0); ("clearactorinventory", 0);
   ("giveactorinventory", 0); ("takeactorinventory", 0);
   ("checkactorinventory", 0); ("thingcountname", 0); ("spawnspotfacing", 0);
   ("playerclass", 0); ("andscriptvar", 1); ("andmapvar", 1);
   ("andworldvar", 1); ("andglobalvar", 1); ("andmaparray", 1);
   ("andworldarray", 1); ("andglobalarray", 1); ("eorscriptvar", 1);
   ("eormapvar", 1); ("eorworldvar", 1); ("eorglobalvar", 1);
   ("eormaparray", 1); ("eorworldarray", 1); ("eorglobalarray", 1);
   ("orscriptvar", 1); ("ormapvar", 1); ("orworldvar", 1);
   ("orglobalvar", 1); ("ormaparray", 1); ("orworldarray", 1);
   ("orglobalarray", 1); ("lsscriptvar", 1); ("lsmapvar", 1);
   ("lsworldvar", 1); ("lsglobalvar", 1); ("lsmaparray", 1);
   ("lsworldarray", 1); ("lsglobalarray", 1); ("rsscriptvar", 1);
   ("rsmapvar", 1); ("rsworldvar", 1); ("rsglobalvar", 1); ("rsmaparray", 1);
   ("rsworldarray", 1); ("rsglobalarray", 1); ("getplayerinfo", 0);
   ("changelevel", 0); ("sectordamage", 0); ("replacetextures", 0);
   ("negatebinary", 0); ("getactorpitch", 0); ("setactorpitch", 0);
   ("printbind", 0); ("setactorstate", 0); ("thingdamage2", 0);
   ("useinventory", 0); ("useactorinventory", 0);
   ("checkactorceilingtexture", 0); ("checkactorfloortexture", 0);
   ("getactorlightlevel", 0); ("setmugshotstate", 0);
   ("thingcountsector", 0); ("thingcountnamesector", 0);
   ("checkplayercamera", 0); ("morphactor", 0); ("unmorphactor", 0);
   ("getplayerinput", 0); ("classifyactor", 0); ("printbinary", 0);
   ("printhex", 0); ("callfunc", 2); ("savestring", 0);
   ("printmapchrange", 0); ("printworldchrange", 0);
   ("printglobalchrange", 0); ("strcpytomapchrange", 0);
   ("strcpytoworldchrange", 0); ("strcpytoglobalchrange", 0);
   ("pushfunction", 1); ("callstack", 0); ("scriptwaitnamed", 0);
   ("translationrange3", 0); ("gotostack", 0); ("assignscriptarray", 1);
   ("pushscriptarray", 1); ("addscriptarray", 1); ("subscriptarray", 1);
   ("mulscriptarray", 1); ("divscriptarray", 1); ("modscriptarray", 1);
   ("incscriptarray", 1); ("decscriptarray", 1); ("andscriptarray", 1);
   ("eorscriptarray", 1); ("orscriptarray", 1); ("lsscriptarray", 1);
   ("rsscriptarray", 1); ("printscriptchararray", 0);
   ("printscriptchrange", 0); ("strcpytoscriptchrange", 0); ("lspec5ex", 1);
   ("lspec5exresult", 1); ("translationrange4", 0); ("translationrange5", 0)]%string.

(** The instructions of the first case group of [show_args]: one
    argument, one byte wide in small code and four bytes otherwise. *)
Definition one_arg_pcodes : list Z :=
  [PCD_LSPEC1; PCD_LSPEC2; PCD_LSPEC3; PCD_LSPEC4; PCD_LSPEC5;
   PCD_ASSIGNSCRIPTVAR; PCD_ASSIGNMAPVAR; PCD_ASSIGNWORLDVAR;
   PCD_PUSHSCRIPTVAR; PCD_PUSHMAPVAR; PCD_PUSHWORLDVAR; PCD_ADDSCRIPTVAR;
   PCD_ADDMAPVAR; PCD_ADDWORLDVAR; PCD_SUBSCRIPTVAR; PCD_SUBMAPVAR;
   PCD_SUBWORLDVAR; PCD_MULSCRIPTVAR; PCD_MULMAPVAR; PCD_MULWORLDVAR;
   PCD_DIVSCRIPTVAR; PCD_DIVMAPVAR; PCD_DIVWORLDVAR; PCD_MODSCRIPTVAR;
   PCD_MODMAPVAR; PCD_MODWORLDVAR; PCD_INCSCRIPTVAR; PCD_INCMAPVAR;
   PCD_INCWORLDVAR; PCD_DECSCRIPTVAR; PCD_DECMAPVAR; PCD_DECWORLDVAR;
   PCD_ASSIGNGLOBALVAR; PCD_PUSHGLOBALVAR; PCD_ADDGLOBALVAR;
   PCD_SUBGLOBALVAR; PCD_MULGLOBALVAR; PCD_DIVGLOBALVAR; PCD_MODGLOBALVAR;
   PCD_INCGLOBALVAR; PCD_DECGLOBALVAR; PCD_CALL; PCD_CALLDISCARD;
   PCD_PUSHMAPARRAY; PCD_ASSIGNMAPARRAY; PCD_ADDMAPARRAY; PCD_SUBMAPARRAY;
   PCD_MULMAPARRAY; PCD_DIVMAPARRAY; PCD_MODMAPARRAY; PCD_INCMAPARRAY;
   PCD_DECMAPARRAY; PCD_PUSHWORLDARRAY; PCD_ASSIGNWORLDARRAY;
   PCD_ADDWORLDARRAY; PCD_SUBWORLDARRAY; PCD_MULWORLDARRAY;
   PCD_DIVWORLDARRAY; PCD_MODWORLDARRAY; PCD_INCWORLDARRAY;
   PCD_DECWORLDARRAY; PCD_PUSHGLOBALARRAY; PCD_ASSIGNGLOBALARRAY;
   PCD_ADDGLOBALARRAY; PCD_SUBGLOBALARRAY; PCD_MULGLOBALARRAY;
   PCD_DIVGLOBALARRAY; PCD_MODGLOBALARRAY; PCD_INCGLOBALARRAY;
   PCD_DECGLOBALARRAY; PCD_LSPEC5RESULT; PCD_ANDSCRIPTVAR; PCD_ANDMAPVAR;
   PCD_ANDGLOBALVAR; PCD_ANDMAPARRAY; PCD_ANDWORLDARRAY; PCD_ANDGLOBALARRAY;
   PCD_EORSCRIPTVAR; PCD_EORMAPVAR; PCD_EORWORLDVAR; PCD_EORGLOBALVAR;
   PCD_EORMAPARRAY; PCD_EORWORLDARRAY; PCD_EORGLOBALARRAY; PCD_ORSCRIPTVAR;
   PCD_ORMAPVAR; PCD_ORWORLDVAR; PCD_ORGLOBALVAR; PCD_ORMAPARRAY;
   PCD_ORWORLDARRAY; PCD_ORGLOBALARRAY; PCD_LSSCRIPTVAR; PCD_LSMAPVAR;
   PCD_LSWORLDVAR; PCD_LSGLOBALVAR; PCD_LSMAPARRAY; PCD_LSWORLDARRAY;
   PCD_LSGLOBALARRAY; PCD_RSSCRIPTVAR; PCD_RSMAPVAR; PCD_RSWORLDVAR;
   PCD_RSGLOBALVAR; PCD_RSMAPARRAY; PCD_RSWORLDARRAY; PCD_RSGLOBALARRAY;
   PCD_PUSHFUNCTION; PCD_ASSIGNSCRIPTARRAY; PCD_PUSHSCRIPTARRAY;
   PCD_ADDSCRIPTARRAY; PCD_SUBSCRIPTARRAY; PCD_MULSCRIPTARRAY;
   PCD_DIVSCRIPTARRAY; PCD_MODSCRIPTARRAY; PCD_INCSCRIPTARRAY;
   PCD_DECSCRIPTARRAY; PCD_ANDSCRIPTARRAY; PCD_EORSCRIPTARRAY;
   PCD_ORSCRIPTARRAY; PCD_LSSCRIPTARRAY; PCD_RSSCRIPTARRAY].

(* ------------------------------------------------------------------ *)
(** ** Disassembler *)

Definition init_pcode_segment (o : object) (offset code_size : Z)
  : pcode_segment :=
  mk_segment offset 0 code_size PCD_NOP false.

Definition pcode_segment_end (s : pcode_segment) : bool :=
  (code_size s <=? seg_pos s) || invalid_opcode s.

Definition expect_pcode_data (s : pcode_segment) (sz : Z) : M unit :=
  let left := to_int (code_size s - seg_pos s) in
  if left <? sz then
    diag DIAG_ERR (MsgExpectPcodeData sz (if left <? 0 then 0 else left)) ;;
    bail
  else ret tt.

(** [segment->data] as an offset into the buffer. *)
Definition seg_data (s : pcode_segment) : Z := seg_offset s + seg_pos s.

(** [segment->data += n]. *)
Definition advance (s : pcode_segment) (n : Z) : pcode_segment :=
  mk_segment (seg_offset s) (seg_pos s + n) (code_size s) (seg_opcode s)
    (invalid_opcode s).

Definition set_opcode (s : pcode_segment) (opcode : Z) : pcode_segment :=
  mk_segment (seg_offset s) (seg_pos s) (code_size s) opcode
    (invalid_opcode s).

Definition set_invalid_opcode (s : pcode_segment) (v : bool)
  : pcode_segment :=
  mk_segment (seg_offset s) (seg_pos s) (code_size s) (seg_opcode s) v.

(** [expect_pcode_data], [memcpy] into an [unsigned char], advance. *)
Definition read_pcode_uchar (o : object) (s : pcode_segment)
  : M (Z * pcode_segment) :=
  expect_pcode_data s 1 ;;
  temp <- load_uchar o (seg_data s) ;;
  ret (temp, advance s 1).

(** [expect_pcode_data], [memcpy] into a [short], advance. *)
Definition read_pcode_short (o : object) (s : pcode_segment)
  : M (Z * pcode_segment) :=
  expect_pcode_data s 2 ;;
  temp <- load_short o (seg_data s) ;;
  ret (temp, advance s 2).

(** [expect_pcode_data], [memcpy] into an [int], advance. *)
Definition read_pcode_int (o : object) (s : pcode_segment)
  : M (Z * pcode_segment) :=
  expect_pcode_data s 4 ;;
  v <- load_int o (seg_data s) ;;
  ret (v, advance s 4).

(** The [n] integers at [p], in order. *)
Fixpoint load_ints (o : object) (p : Z) (n : nat) : M (list Z) :=
  match n with
  | O => ret []
  | S n' => v <- load_int o p ;; vs <- load_ints o (p + 4) n' ;; ret (v :: vs)
  end.

(** [g_pcodes[ opcode ].name] and [g_pcodes[ opcode ].num_args]. *)
Definition pcode_name (opcode : Z) : string :=
  fst (nth (Z.to_nat opcode) g_pcodes (EmptyString, 0)).

Definition pcode_num_args (opcode : Z) : Z :=
  snd (nth (Z.to_nat opcode) g_pcodes (EmptyString, 0)).

Definition show_opcode (o : object) (s : pcode_segment) : M pcode_segment :=
  let pos := to_int (seg_offset s + to_int (seg_pos s)) in
  r <- (if small_code o then
          r <- read_pcode_uchar o s ;;
          let (temp, s) := r in
          let opcode := temp in
          if 240 <=? temp then
            r <- read_pcode_uchar o s ;;
            let (temp, s) := r in
            ret (to_int (opcode + temp), s)
          else ret (opcode, s)
        else read_pcode_int o s) ;;
  let (opcode, s) := r in
  if (PCD_NOP <=? opcode) && (opcode <? PCD_TOTAL) then
    print (EOpcode pos (pcode_name opcode)) ;;
    ret (set_opcode s opcode)
  else
    print (EUnknownPcode pos opcode) ;;
    ret (set_invalid_opcode s true).

(** The case group of the one-argument instructions. *)
Definition show_args_one (o : object) (s : pcode_segment) : M pcode_segment :=
  r <- (if small_code o then read_pcode_uchar o s else read_pcode_int o s) ;;
  let (arg, s) := r in
  print (EArgs [arg]) ;;
  ret s.

(** The cases [PCD_LSPEC1DIRECT] to [PCD_LSPEC5DIRECT], [n] the number of
    arguments after the special's id. *)
Definition show_args_lspec_direct (n : nat) (o : object) (s : pcode_segment)
  : M pcode_segment :=
  r <- (if small_code o then read_pcode_uchar o s else read_pcode_int o s) ;;
  let (id, s) := r in
  expect_pcode_data s (4 * Z.of_nat n) ;;
  args <- load_ints o (seg_data s) n ;;
  let s := advance s (4 * Z.of_nat n) in
  print (EArgs (id :: args)) ;;
  ret s.

(** The cases that print [n] bytes: [PCD_LSPECnDIRECTB], [PCD_PUSHBYTE],
    [PCD_PUSH2BYTES] and the like. *)
Definition show_args_bytes (n : nat) (o : object) (s : pcode_segment)
  : M pcode_segment :=
  expect_pcode_data s (Z.of_nat n) ;;
  bs <- load_bytes o (seg_data s) n ;;
  print (EArgs (map byte_val bs)) ;;
  ret (advance s (Z.of_nat n)).

Definition show_args_pushbytes (o : object) (s : pcode_segment)
  : M pcode_segment :=
  expect_pcode_data s 1 ;;
  count <- load_uchar o (seg_data s) ;;
  let s := advance s 1 in
  print (ECount count) ;;
  expect_pcode_data s count ;;
  s <- for_n (Z.to_nat count) 0
    (fun _ s =>
       b <- load_uchar o (seg_data s) ;;
       print (EArgs [b]) ;;
       ret (advance s 1))
    s ;;
  print ENewline ;;
  ret s.

(** The count and the cases of [PCD_CASEGOTOSORTED], read at the
    cursor. The line of a case is written in two steps: the position and
    the value once the value is read, the target once the target is
    read. *)
Definition show_cases (o : object) (s : pcode_segment) : M pcode_segment :=
  r <- read_pcode_int o s ;;
  let (count, s) := r in
  print (ENumCases count) ;;
  for_n (Z.to_nat count) 0
    (fun _ s =>
       r <- read_pcode_int o s ;;
       let (value, s) := r in
       print (ECaseValue (to_int (seg_offset s + to_int (seg_pos s))) value) ;;
       r <- read_pcode_int o s ;;
       let (offset, s) := r in
       print (ECaseTarget offset) ;;
       ret s)
    s.

Definition show_args_casegotosorted (o : object) (s : pcode_segment)
  : M pcode_segment :=
  let remainder := to_int (to_size_t (seg_offset s + seg_pos s) mod 4) in
  s <- (if remainder >? 0 then
          let padding := to_int (4 - remainder) in
          expect_pcode_data s padding ;;
          ret (advance s padding)
        else ret s) ;;
  show_cases o s.

(** Modelled from the spec: the arguments of [PCD_CASEGOTOSORTED] in the
    bytes of the object file, the cursor at position [p]: [padding]
    bytes of padding, count: i32, then count pairs (value: i32,
    target: i32). The result is the count and the pairs in order. *)
Definition casegotosorted_layout (padding : Z) (bytes : list byte) (p : Z)
  : Z * list (Z * Z) :=
  let p := p + padding in
  let count := i32_at bytes p in
  (count,
   map (fun j => (i32_at bytes (p + 4 + 8 * Z.of_nat j),
                  i32_at bytes (p + 4 + 8 * Z.of_nat j + 4)))
     (seq 0 (Z.to_nat count))).

(** Modelled from the spec: the number of bytes the layout takes. *)
Definition casegotosorted_size (padding count : Z) : Z :=
  padding + 4 + 8 * Z.max 0 count.

(** The lines of the cases [pairs], the first pair at position [p] of
    the object file: each line gives the position of the target, the
    value and the target. *)
Fixpoint case_lines (p : Z) (pairs : list (Z * Z)) : list event :=
  match pairs with
  | [] => []
  | (value, target) :: pairs =>
      ECaseValue (p + 4) value :: ECaseTarget target ::
      case_lines (p + 8) pairs
  end.

(** The number of bytes that bring [position] to the next multiple of 4. *)
Definition padding_to_align (position : Z) : Z := (4 - position mod 4) mod 4.

Definition show_args_callfunc (o : object) (s : pcode_segment)
  : M pcode_segment :=
  r <- (if small_code o then read_pcode_uchar o s else read_pcode_int o s) ;;
  let (num_args, s) := r in
  r <- (if small_code o then read_pcode_short o s else read_pcode_int o s) ;;
  let (index, s) := r in
  print (EArgs [num_args; index]) ;;
  ret s.

(** The [default] case: the number of arguments comes from [g_pcodes]. *)
Definition show_args_default (o : object) (s : pcode_segment)
  : M pcode_segment :=
  let num_args := pcode_num_args (seg_opcode s) in
  if num_args >? 0 then
    s <- for_n (Z.to_nat num_args) 0
      (fun _ s =>
         r <- read_pcode_int o s ;;
         let (arg, s) := r in
         print (EArgs [arg]) ;;
         ret s)
      s ;;
    print ENewline ;;
    ret s
  else
    print ENewline ;;
    ret s.

Definition show_args (o : object) (s : pcode_segment) : M pcode_segment :=
  let op := seg_opcode s in
  if existsb (Z.eqb op) one_arg_pcodes then show_args_one o s
  else if op =? PCD_LSPEC1DIRECT then show_args_lspec_direct 1 o s
  else if op =? PCD_LSPEC2DIRECT then show_args_lspec_direct 2 o s
  else if op =? PCD_LSPEC3DIRECT then show_args_lspec_direct 3 o s
  else if op =? PCD_LSPEC4DIRECT then show_args_lspec_direct 4 o s
  else if op =? PCD_LSPEC5DIRECT then show_args_lspec_direct 5 o s
  else if op =? PCD_LSPEC1DIRECTB then show_args_bytes 2 o s
  else if op =? PCD_LSPEC2DIRECTB then show_args_bytes 3 o s
  else if op =? PCD_LSPEC3DIRECTB then show_args_bytes 4 o s
  else if op =? PCD_LSPEC4DIRECTB then show_args_bytes 5 o s
  else if op =? PCD_LSPEC5DIRECTB then show_args_bytes 6 o s
  else if (op =? PCD_PUSHBYTE) || (op =? PCD_DELAYDIRECTB)
       then show_args_bytes 1 o s
  else if (op =? PCD_PUSH2BYTES) || (op =? PCD_RANDOMDIRECTB)
       then show_args_bytes 2 o s
  else if op =? PCD_PUSH3BYTES then show_args_bytes 3 o s
  else if op =? PCD_PUSH4BYTES then show_args_bytes 4 o s
  else if op =? PCD_PUSH5BYTES then show_args_bytes 5 o s
  else if op =? PCD_PUSHBYTES then show_args_pushbytes o s
  else if op =? PCD_CASEGOTOSORTED then show_args_casegotosorted o s
  else if op =? PCD_CALLFUNC then show_args_callfunc o s
  else show_args_default o s.

Definition show_instruction (o : object) (s : pcode_segment)
  : M pcode_segment :=
  s <- show_opcode o s ;;
  if negb (invalid_opcode s) then show_args o s else ret s.

Definition show_pcode (fuel : nat) (o : object) (offset code_size : Z)
  : M unit :=
  let segment := init_pcode_segment o offset code_size in
  while_fuel fuel (fun s => negb (pcode_segment_end s))
    (show_instruction o) segment ;;
  ret tt.

(* ------------------------------------------------------------------ *)
(** ** Script and function tables *)

(** The body of the loop of [show_sptr], from the position [pos] in the
    chunk to the position of the next entry. *)
Definition show_sptr_entry (fuel : nat) (o : object) (c : chunk) (pos : Z)
  : M Z :=
  entry <- read_acse_script_entry o c (ch_data c + pos) ;;
  let pos := to_int (pos + real_entry_size entry) in
  print (EScript (se_number entry) (se_type entry)
           (get_script_type_name (se_type entry))
           (se_num_param entry) (se_offset entry)) ;;
  (if offset_in_object_file o (se_offset entry) then
     code_size <- calc_code_size fuel o (se_offset entry) ;;
     show_pcode fuel o (se_offset entry) code_size
   else
     diag DIAG_WARN (MsgScriptCodeNotShown (se_offset entry))) ;;
  ret pos.

(** The loop of [show_sptr], entered with the position [pos]; [n] bounds
    the number of iterations. *)
Definition show_sptr_from (n fuel : nat) (o : object) (c : chunk) (pos : Z)
  : M Z :=
  while_fuel n (fun pos => pos <? ch_size c) (show_sptr_entry fuel o c) pos.

Definition show_sptr (fuel : nat) (o : object) (c : chunk) : M unit :=
  show_sptr_from fuel fuel o c 0 ;; ret tt.

(** The body of the loop of [show_func], for the entry of index [i]. *)
Definition show_func_entry (fuel : nat) (o : object) (c : chunk) (i : Z)
  : M unit :=
  entry <- load_func_entry o (ch_data c + i * 8) ;;
  print (EFunc i (fe_num_param entry) (fe_size entry) (fe_has_return entry)
           (fe_offset entry)) ;;
  if offset_in_object_file o (fe_offset entry) then
    if negb (fe_offset entry =? 0) then
      code_size <- calc_code_size fuel o (fe_offset entry) ;;
      show_pcode fuel o (fe_offset entry) code_size
    else print EImported
  else diag DIAG_WARN (MsgFunctionCodeNotShown (fe_offset entry)).

(** The loop of [show_func], entered with the index [i] and [n] entries
    to go. *)
Definition show_func_from (n fuel : nat) (o : object) (c : chunk) (i : Z)
  : M unit :=
  for_n n i (fun i _ => show_func_entry fuel o c i) tt.

Definition show_func (fuel : nat) (o : object) (c : chunk) : M unit :=
  let total_funcs := to_int (to_size_t (ch_size c) / 8) in
  show_func_from (Z.to_nat total_funcs) fuel o c 0.

(** The body of the loop of [show_script_directory], for the entry at
    [p]; the result is the address of the next entry. *)
Definition show_script_directory_entry (fuel : nat) (o : object) (p : Z)
  : M Z :=
  expect_data o p 12 ;;
  entry <- load_acs0_script_entry o p ;;
  let p := p + 12 in
  let number := Z.rem (a0_number entry) 1000 in
  let type := Z.quot (a0_number entry) 1000 in
  print (EScript number type (get_script_type_name type)
           (a0_num_param entry) (a0_offset entry)) ;;
  (if offset_in_object_file o (a0_offset entry) then
     code_size <- calc_code_size fuel o (a0_offset entry) ;;
     show_pcode fuel o (a0_offset entry) code_size
   else
     diag DIAG_WARN (MsgScriptCodeNotShown (a0_offset entry))) ;;
  ret p.

(** The loop of [show_script_directory], entered with the index [i],
    [data] at [p] and [n] entries to go. *)
Definition show_script_directory_from (n fuel : nat) (o : object) (i p : Z)
  : M Z :=
  for_n n i (fun _ p => show_script_directory_entry fuel o p) p.

Definition show_script_directory (fuel : nat) (o : object) : M unit :=
  print (EScriptDirectory (directory_offset o)) ;;
  let p := directory_offset o in
  expect_data o p 4 ;;
  total_scripts <- load_int o p ;;
  let p := p + 4 in
  print (ETotalScripts total_scripts) ;;
  show_script_directory_from (Z.to_nat total_scripts) fuel o 0 p ;;
  ret tt.

(* ------------------------------------------------------------------ *)
(** ** Strings *)

(** [decode_ch]. Only the low eight bits of the exclusive-or reach the
    result, so the signedness of [char] does not matter. *)
Definition decode_ch (string_offset offset : Z) (ch : byte) : byte :=
  byte_of (Z.lxor (byte_val ch)
             (to_int (string_offset * 157135 + Z.quot offset 2))).

(** The characters written for the character [ch] of a string: a
    backslash and a double quote for the double quote, a backslash and
    the letter r for the carriage return, a backslash and the letter n
    for the line feed, and [ch] itself otherwise. *)
Definition escaped (ch : byte) : list byte :=
  if Byte.eqb ch x22 then [x5c; x22]
  else if Byte.eqb ch x0d then [x5c; x72]
  else if Byte.eqb ch x0a then [x5c; x6e]
  else [ch].

(** The loop of [show_string]: [value] is the address of the string and
    [i] the index of the next character. The double quote, the carriage
    return and the line feed are written as a backslash and a second
    character. *)
Fixpoint show_string_from (fuel : nat) (o : object) (offset value i : Z)
  (is_encoded : bool) : M unit :=
  ch <- load o (value + i) ;;
  let ch := if is_encoded then decode_ch offset i ch else ch in
  if Byte.eqb ch x00 then ret tt
  else
    (if Byte.eqb ch x22 then print (EChar x5c) ;; print (EChar x22)
     else if Byte.eqb ch x0d then print (EChar x5c) ;; print (EChar x72)
     else if Byte.eqb ch x0a then print (EChar x5c) ;; print (EChar x6e)
     else print (EChar ch)) ;;
    match fuel with
    | O => timeout
    | S fuel' => show_string_from fuel' o offset value (i + 1) is_encoded
    end.

Definition show_string (fuel : nat) (o : object) (index offset value : Z)
  (is_encoded : bool) : M unit :=
  print (EStringHead index offset) ;;
  show_string_from fuel o offset value 0 is_encoded ;;
  print EStringEnd.

Definition chunk_is_stre (c : chunk) : bool :=
  match ch_type c with
  | CHUNK_STRE => true
  | _ => false
  end.

(** [is_strl_stre_string_nul_terminated]; [n] counts the iterations left
    before [i] reaches [chunk->size]. *)
Fixpoint nul_terminated_from (n : nat) (o : object) (c : chunk)
  (offset i : Z) : M bool :=
  match n with
  | O => ret false
  | S n' =>
      ch <- load o (ch_data c + i) ;;
      let ch := if chunk_is_stre c then decode_ch offset (i - offset) ch
                else ch in
      if Byte.eqb ch x00 then ret true
      else nul_terminated_from n' o c offset (i + 1)
  end.

Definition is_strl_stre_string_nul_terminated (o : object) (c : chunk)
  (offset : Z) : M bool :=
  nul_terminated_from (Z.to_nat (ch_size c - offset)) o c offset offset.

(** [read_strl_stre_string]: the address of the string. *)
Definition read_strl_stre_string (o : object) (c : chunk) (offset : Z)
  : M Z :=
  t <- is_strl_stre_string_nul_terminated o c offset ;;
  if negb t then
    diag DIAG_ERR (MsgStringNotTerminated offset (ch_name c)) ;; bail
  else ret (ch_data c + offset).

Definition show_strl_stre (fuel : nat) (o : object) (c : chunk) : M unit :=
  let p := ch_data c in
  expect_chunk_data c p 4 ;;
  let p := p + 4 in
  expect_chunk_data c p 4 ;;
  total_strings <- load_int o p ;;
  let p := p + 4 in
  expect_chunk_data c p 4 ;;
  let p := p + 4 in
  print (ETableSize total_strings) ;;
  for_n (Z.to_nat total_strings) 0
    (fun i p =>
       expect_chunk_data c p 4 ;;
       offset <- load_int o p ;;
       let p := p + 4 in
       expect_chunk_offset_in_chunk c offset ;;
       value <- read_strl_stre_string o c offset ;;
       show_string fuel o i offset value (chunk_is_stre c) ;;
       ret p)
    p ;;
  ret tt.

Definition show_string_directory (fuel : nat) (o : object) : M unit :=
  print (EStringDirectory (string_offset o)) ;;
  let p := string_offset o in
  expect_data o p 4 ;;
  total_strings <- load_int o p ;;
  let p := p + 4 in
  print (ETotalStrings total_strings) ;;
  for_n (Z.to_nat total_strings) 0
    (fun i p =>
       expect_data o p 4 ;;
       offset <- load_int o p ;;
       let p := p + 4 in
       show_string fuel o i offset offset false ;;
       ret p)
    p ;;
  ret tt.

(** [show_object] for a file with a script directory and no chunk to show
    ([FORMAT_ZERO]): the two directories. *)
Definition show_directories (fuel : nat) (o : object) : M unit :=
  if script_directory_present o then
    show_script_directory fuel o ;;
    show_string_directory fuel o
  else ret tt.

(* ------------------------------------------------------------------ *)
(** ** The encoder of STRE strings *)

(** Modelled from the spec: the encoder of an STRE string is not part of
    the viewer (the compiler that writes the object file has it). The spec
    gives character [k] of the string stored at chunk-local offset [s] as
    [byte xor (s * 157135 + floor(k / 2)) mod 256]; the stored byte of a
    character is its exclusive-or with the same key. *)
Definition encode_ch (s k : Z) (c : byte) : byte :=
  byte_of (Z.lxor (byte_val c) ((s * 157135 + k / 2) mod 256)).

(** Modelled from the spec: the stored bytes of the characters [l], the
    first of them character [k] of the string at [s]. *)
Fixpoint encode_from (s k : Z) (l : list byte) : list byte :=
  match l with
  | [] => []
  | c :: l' => encode_ch s k c :: encode_from s (k + 1) l'
  end.

(** Modelled from the spec: the stored form of the string [str] at
    chunk-local offset [s], its terminating NUL included. *)
Definition stre_encode (s : Z) (str : list byte) : list byte :=
  encode_from s 0 (str ++ [x00]).

(** The characters [decode_ch] recovers from stored bytes, the first of
    them character [k]. *)
Fixpoint decode_from (s k : Z) (l : list byte) : list byte :=
  match l with
  | [] => []
  | c :: l' => decode_ch s k c :: decode_from s (k + 1) l'
  end.

(* ------------------------------------------------------------------ *)
(** ** Object files used as test inputs *)

Definition bytes_of (l : list Z) : list byte := map byte_of l.

(** An indirect ACSE file whose real header holds the chunk offset -1.
    Layout: fake ACS0 header (directory at 16), real header at 8
    (chunk offset, then "ACSE"), empty script and string directories. *)
Definition file_indirect_chunk_offset_minus1 : list byte :=
  ID_ACS0 ++ le32 16 ++ le32 (-1) ++ ID_ACSE ++ le32 0 ++ le32 0.

(** An indirect file of 24 bytes whose real header, at 8, holds the
    chunk offset [v]; the id of the real header is at 12, the script
    directory at 16 and the string directory at 20, both empty. *)
Definition file_indirect_chunk_offset (v : Z) : list byte :=
  ID_ACS0 ++ le32 16 ++ le32 v ++ ID_ACSE ++ le32 0 ++ le32 0.

(** An ACS0 file with no script and one string, whose offset is 1000. *)
Definition file_acs0_string_1000 : list byte :=
  ID_ACS0 ++ le32 8 ++ le32 0 ++ le32 1 ++ le32 1000.

(** An ACS0 file with no script and one string, "Hi", in the last two
    bytes of the file (offset 20): the file has no NUL after it. *)
Definition file_acs0_string_hi : list byte :=
  ID_ACS0 ++ le32 8 ++ le32 0 ++ le32 1 ++ le32 20 ++
  list_byte_of_string "Hi".

(** An ACS0 file with no script and one string at offset 20: the letter
    a, a double quote, a carriage return and a line feed. *)
Definition file_acs0_string_escapes : list byte :=
  ID_ACS0 ++ le32 8 ++ le32 0 ++ le32 1 ++ le32 20 ++
  [x61; x22; x0d; x0a; x00].

(** A direct ACSE file with the code after the chunk section: an SPTR
    chunk at 8 with one script, whose code (terminate) is at 28. *)
Definition file_code_after_chunks : list byte :=
  ID_ACSE ++ le32 8 ++
  SPTR ++ le32 12 ++ (le16 1 ++ le16 0 ++ le32 28 ++ le32 0) ++
  le32 PCD_TERMINATE.

(** An ACS0 file with the code after the directories: script directory
    at 8 with one script, string directory (empty) at 24, and the code of
    the script (terminate) at 28. *)
Definition file_code_after_directories : list byte :=
  ID_ACS0 ++ le32 8 ++
  le32 1 ++ (le32 1 ++ le32 28 ++ le32 0) ++
  le32 0 ++
  le32 PCD_TERMINATE.

(** A direct ACSE file with one chunk of declared size -8. *)
Definition file_chunk_size_minus8 : list byte :=
  ID_ACSE ++ le32 8 ++ list_byte_of_string "XXXX" ++ le32 (-8).

(** A direct ACSE file with one chunk of declared size -16. *)
Definition file_chunk_size_minus16 : list byte :=
  ID_ACSE ++ le32 8 ++ list_byte_of_string "XXXX" ++ le32 (-16).

(** A direct ACSe file with one script at offset 9: nop, nop,
    casegotosorted (bytes 240 16), three bytes of padding, one case
    (7: 9); the chunk section (SPTR) is at 28. *)
Definition file_casegotosorted_at_9 : list byte :=
  ID_ACSe ++ le32 28 ++ bytes_of [0] ++
  bytes_of [0; 0; 240; 16] ++ bytes_of [0; 0; 0] ++ le32 1 ++
  le32 7 ++ le32 9 ++
  SPTR ++ le32 12 ++ (le16 1 ++ le16 0 ++ le32 9 ++ le32 0).

(** A direct ACSe file whose code, at offset 8, is the byte 239. *)
Definition file_opcode_239 : list byte :=
  ID_ACSe ++ le32 8 ++ bytes_of [239].

(** A direct ACSe file whose code, at offset 8, is the bytes 240 5. *)
Definition file_opcode_240_5 : list byte :=
  ID_ACSe ++ le32 8 ++ bytes_of [240; 5].

(** An indirect ACSE file with two scripts in SPTR (offsets 1000 and 8),
    two functions in FUNC (offsets -5 and 0) and two scripts in the
    script directory (offsets 2000 and 8). Layout: script code
    (terminate) at 8, SPTR at 12, FUNC at 36, real header at 60,
    script directory at 68, string directory at 96. *)
Definition file_entries_outside : list byte :=
  ID_ACS0 ++ le32 68 ++
  le32 PCD_TERMINATE ++
  SPTR ++ le32 16 ++
    (le16 1 ++ bytes_of [0; 0] ++ le32 1000) ++
    (le16 2 ++ bytes_of [1; 0] ++ le32 8) ++
  FUNC ++ le32 16 ++
    (bytes_of [1; 2; 0; 0] ++ le32 (-5)) ++
    (bytes_of [0; 0; 1; 0] ++ le32 0) ++
  le32 12 ++ ID_ACSE ++
  le32 2 ++
    (le32 1 ++ le32 2000 ++ le32 0) ++
    (le32 1002 ++ le32 8 ++ le32 0) ++
  le32 0.

(** The stored form of "ABC" at chunk-local offset 20, in an STRE chunk
    of a direct ACSE file: the chunk is at 8, its body at 16, the string
    table has the one offset 20, and four unused bytes precede the string. *)
Definition file_stre_abc : list byte :=
  ID_ACSE ++ le32 8 ++
  list_byte_of_string "STRE" ++ le32 24 ++
  le32 0 ++ le32 1 ++ le32 0 ++ le32 20 ++ le32 0 ++
  stre_encode 20 (list_byte_of_string "ABC").

(** The smallest ACS0 file: no script and no string. *)
Definition file_minimal_acs0 : list byte :=
  ID_ACS0 ++ le32 8 ++ le32 0 ++ le32 0.

(** An indirect ACSe file with an empty chunk section: real header at 8
    (chunk offset 8, then "ACSe"), empty directories at 16. *)
Definition file_indirect_acse_small : list byte :=
  ID_ACS0 ++ le32 16 ++ le32 8 ++ ID_ACSe ++ le32 0 ++ le32 0.

(** A direct ACSE file with two scripts, at 12 and at 80, in front of
    the chunk section at 96; the code is all nop. *)
Definition file_two_scripts : list byte :=
  ID_ACSE ++ le32 96 ++ repeat x00 88 ++
  SPTR ++ le32 24 ++
    (le16 1 ++ le16 0 ++ le32 12 ++ le32 0) ++
    (le16 2 ++ le16 1 ++ le32 80 ++ le32 0).

(** A direct ACSE file whose code, at offset 8, is [nop], the opcode
    1000, [nop]; the chunk section, at 20, is empty. *)
Definition file_unknown_pcode : list byte :=
  ID_ACSE ++ le32 20 ++ le32 PCD_NOP ++ le32 1000 ++ le32 PCD_NOP.

(** A direct ACSE file whose one chunk, AIMP at 8 (body at 16, 26 bytes),
    imports the arrays [arr] (index 1, size 10) and [b] (index 2,
    size 5). *)
Definition file_aimp : list byte :=
  ID_ACSE ++ le32 8 ++
  list_byte_of_string "AIMP" ++ le32 26 ++
  le32 2 ++
  le32 1 ++ le32 10 ++ list_byte_of_string "arr" ++ [x00] ++
  le32 2 ++ le32 5 ++ list_byte_of_string "b" ++ [x00].

(** A direct ACSE file whose one chunk, ARAY at 8 (body at 16), holds one
    record and the first four bytes of another. *)
Definition file_aray_truncated : list byte :=
  ID_ACSE ++ le32 8 ++
  list_byte_of_string "ARAY" ++ le32 12 ++
  le32 1 ++ le32 10 ++ le32 2.

(** The object a file resolves to; the unresolved object when the
    resolver fails. *)
Definition object_of (file : list byte) : object :=
  match open_object file with
  | (_, Ok o) => o
  | _ => init_object (file ++ [x00]) (Z.of_nat (List.length file))
  end.

(* ------------------------------------------------------------------ *)
(** ** Predicates on runs *)

(** The run ends by returning a value that satisfies [P], or by [bail]:
    it has read nothing outside the buffer and has not run out of fuel. *)
Definition ends_well {A : Type} (P : A -> Prop) (m : M A) : Prop :=
  match snd m with
  | Ok a => P a
  | Bail => True
  | Fault _ => False
  | Timeout => False
  end.

(** The run has read nothing outside the buffer; it may have run out of
    fuel. *)
Definition reads_in_buffer {A : Type} (P : A -> Prop) (m : M A) : Prop :=
  match snd m with
  | Ok a => P a
  | Bail => True
  | Fault _ => False
  | Timeout => True
  end.

(** The buffer of an object as the loader makes it: [size + 1] bytes, the
    size an [int]. *)
Definition buffer_ok (o : object) : Prop :=
  List.length (data o) = S (Z.to_nat (size o)) /\ 0 <= size o <= INT_MAX.

(** The output lists a chunk whose declared size is -8 or less. *)
Definition lists_chunk_below_minus8 (out : list event) : Prop :=
  exists (name : list byte) (offset sz : Z),
    In (EChunk name offset sz) out /\ sz <= -8.

(* ------------------------------------------------------------------ *)
(** ** The candidates of the extent inference *)

(** [cand] is the code offset of an entry of the SPTR chunk that
    [find_chunk] returns, at a position [calc_code_size] reads. *)
Definition sptr_candidate (fuel : nat) (o : object) (cand : Z) : Prop :=
  exists (c : chunk) (outc oute : list event) (k : Z)
    (entry : common_acse_script_entry),
    find_chunk fuel o SPTR = (outc, Ok (Some c)) /\
    0 <= k /\ k * (if indirect_format o then 8 else 12) < ch_size c /\
    read_acse_script_entry o c
      (ch_data c + k * (if indirect_format o then 8 else 12)) =
      (oute, Ok entry) /\
    cand = se_offset entry.

(** [cand] is the code offset of an entry of the FUNC chunk. *)
Definition func_candidate (fuel : nat) (o : object) (cand : Z) : Prop :=
  exists (c : chunk) (outc oute : list event) (i : Z) (entry : func_entry),
    find_chunk fuel o FUNC = (outc, Ok (Some c)) /\
    0 <= i < to_int (to_size_t (ch_size c) / 8) /\
    load_func_entry o (ch_data c + i * 8) = (oute, Ok entry) /\
    cand = fe_offset entry.

(** [cand] is the code offset of an entry of the script directory. *)
Definition directory_candidate (o : object) (cand : Z) : Prop :=
  exists (outc oute : list event) (count j : Z) (entry : acs0_script_entry),
    load_int o (directory_offset o) = (outc, Ok count) /\
    0 <= j < count /\
    load_acs0_script_entry o (directory_offset o + 4 + 12 * j) =
      (oute, Ok entry) /\
    cand = a0_offset entry.

(** [cand] is the offset of a string of the string directory. *)
Definition string_candidate (o : object) (cand : Z) : Prop :=
  exists (outc oute : list event) (count j : Z),
    load_int o (string_offset o) = (outc, Ok count) /\
    0 <= j < count /\
    load_int o (string_offset o + 4 + 4 * j) = (oute, Ok cand).

(** The tables that apply to the format of the object. *)
Definition end_candidate (fuel : nat) (o : object) (cand : Z) : Prop :=
  ((format o = FORMAT_BIG_E \/ format o = FORMAT_LITTLE_E) /\
   (sptr_candidate fuel o cand \/ func_candidate fuel o cand)) \/
  (script_directory_present o = true /\
   (directory_candidate o cand \/ string_candidate o cand)).

(* ------------------------------------------------------------------ *)
(** ** Predicates on the disassembler's cursor *)

(** The segment is the one of the code at [offset] of [cs] bytes, and
    its cursor lies in it. *)
Definition segment_in_code (offset cs : Z) (s : pcode_segment) : Prop :=
  seg_offset s = offset /\ code_size s = cs /\ 0 <= seg_pos s <= cs.

(** [s'] is [s] with the cursor moved on by [n] bytes at least, and still
    in the segment. *)
Definition moved_on (n : Z) (s s' : pcode_segment) : Prop :=
  seg_offset s' = seg_offset s /\ code_size s' = code_size s /\
  seg_opcode s' = seg_opcode s /\ invalid_opcode s' = invalid_opcode s /\
  seg_pos s + n <= seg_pos s' <= code_size s.

(** The number of iterations the loop of [show_pcode] can still make:
    every instruction takes one byte at least. *)
Definition instructions_left (s : pcode_segment) : nat :=
  if invalid_opcode s then 0%nat else Z.to_nat (code_size s - seg_pos s).

(* ------------------------------------------------------------------ *)
(** ** Predicates on the disassembler's output *)

Definition is_unknown_pcode (e : event) : bool :=
  match e with
  | EUnknownPcode _ _ => true
  | _ => false
  end.

(** The run prints no "unknown pcode" line. *)
Definition no_unknown_pcode {A : Type} (m : M A) : Prop :=
  forallb (fun e => negb (is_unknown_pcode e)) (fst m) = true.

(** If the run prints an "unknown pcode" line, it is the last event of
    the output and the run returns. *)
Definition unknown_pcode_is_last {A : Type} (m : M A) : Prop :=
  forall (l1 l2 : list event) (e : event),
    fst m = l1 ++ e :: l2 -> is_unknown_pcode e = true ->
    l2 = [] /\ exists a : A, snd m = Ok a.

(* ------------------------------------------------------------------ *)
(** ** Text output *)

(** An argument of [printf], with the conversion that prints it: literal
    text, [%d] (and [%hd]), [%u], [%x], [%s] (the characters of the
    string) and [%c]. *)
Inductive printf_item : Type :=
| Txt (s : string)
| Dec (z : Z)
| Uns (z : Z)
| Hex (z : Z)
| Str (s : list byte)
| Chr (b : byte).

Definition render (i : printf_item) : list byte :=
  match i with
  | Txt s => list_byte_of_string s
  | Dec z =>
      list_byte_of_string (DecimalString.NilZero.string_of_int (Z.to_int z))
  | Uns z =>
      list_byte_of_string
        (DecimalString.NilZero.string_of_uint (N.to_uint (Z.to_N z)))
  | Hex z =>
      list_byte_of_string
        (HexadecimalString.NilZero.string_of_uint (N.to_hex_uint (Z.to_N z)))
  | Str s => s
  | Chr b => [b]
  end.

(** [printf]: the characters written, one [EChar] each. *)
Definition printf (items : list printf_item) : M unit :=
  (map EChar (flat_map render items), Ok tt).

(** The line feed. *)
Definition NL : printf_item := Chr x0a.

(** The double quote. *)
Definition QUOTE : printf_item := Chr x22.

(* ------------------------------------------------------------------ *)
(** ** C strings in the buffer *)

(** The characters of the C string at [p], read up to its NUL; [k] is the
    number of bytes of the buffer, which bounds the characters that can
    be read. *)
Fixpoint c_string_from (k : nat) (o : object) (p : Z) : M (list byte) :=
  b <- load o p ;;
  if Byte.eqb b x00 then ret []
  else
    match k with
    | O => fault (p + 1)
    | S k' => bs <- c_string_from k' o (p + 1) ;; ret (b :: bs)
    end.

Definition c_string_at (o : object) (p : Z) : M (list byte) :=
  c_string_from (List.length (data o)) o p.

(** [strlen( data + p )]. *)
Definition strlen (o : object) (p : Z) : M Z :=
  bs <- c_string_at o p ;; ret (Z.of_nat (List.length bs)).

(** [memchr( data + p, '\0', n ) != NULL], [n] a [size_t]: the bytes are
    looked at in order, up to the first NUL; [k] as in [c_string_from]. *)
Fixpoint memchr_nul_from (k : nat) (o : object) (p n : Z) : M bool :=
  if n <=? 0 then ret false
  else
    b <- load o p ;;
    if Byte.eqb b x00 then ret true
    else
      match k with
      | O => fault (p + 1)
      | S k' => memchr_nul_from k' o (p + 1) (n - 1)
      end.

Definition memchr_nul (o : object) (p n : Z) : M bool :=
  memchr_nul_from (List.length (data o)) o p n.

(** [read_chunk_string]: the address of the string. *)
Definition read_chunk_string (o : object) (c : chunk) (offset : Z) : M Z :=
  found <- memchr_nul o (ch_data c + offset)
             (to_size_t (to_int (ch_size c - offset))) ;;
  if negb found then
    diag DIAG_ERR (MsgStringNotTerminated offset (ch_name c)) ;; bail
  else ret (ch_data c + offset).

(** Conversion to [unsigned short]. *)
Definition to_ushort (z : Z) : Z := z mod 2 ^ 16.

Definition load_ushort (o : object) (p : Z) : M Z :=
  bs <- load_bytes o p 2 ;; ret (le_unsigned bs).

(* ------------------------------------------------------------------ *)
(** ** Chunk decoders *)

Definition show_aray (fuel : nat) (o : object) (c : chunk) : M unit :=
  while_fuel fuel (fun pos => pos <? ch_size c)
    (fun pos =>
       expect_chunk_data c (ch_data c + pos) 8 ;;
       number <- load_int o (ch_data c + pos) ;;
       size <- load_int o (ch_data c + pos + 4) ;;
       printf [Txt "index="; Dec number; Txt " size="; Dec size; NL] ;;
       ret (to_int (pos + 8)))
    0 ;;
  ret tt.

Definition show_aini (fuel : nat) (o : object) (c : chunk) : M unit :=
  let pos := 0 in
  expect_chunk_data c (ch_data c + pos) 4 ;;
  index <- load_int o (ch_data c + pos) ;;
  let pos := to_int (pos + 4) in
  printf [Txt "array-index="; Dec index; NL] ;;
  while_fuel fuel (fun pos => pos <? ch_size c)
    (fun pos =>
       expect_chunk_data c (ch_data c + pos) 4 ;;
       value <- load_int o (ch_data c + pos) ;;
       let element := to_int (to_size_t (pos - 4) / 4) in
       printf [Txt "["; Dec element; Txt "] = "; Dec value; NL] ;;
       ret (to_int (pos + 4)))
    pos ;;
  ret tt.

Definition show_aimp (o : object) (c : chunk) : M unit :=
  let p := ch_data c in
  expect_chunk_data c p 4 ;;
  total_arrays <- load_int o p ;;
  let p := p + 4 in
  printf [Txt "total-imported-arrays="; Dec total_arrays; NL] ;;
  for_n (Z.to_nat total_arrays) 0
    (fun _ p =>
       expect_chunk_data c p 4 ;;
       index <- load_uint o p ;;
       let p := p + 4 in
       expect_chunk_data c p 4 ;;
       size <- load_uint o p ;;
       let p := p + 4 in
       string <- read_chunk_string o c (to_int (p - ch_data c)) ;;
       name <- c_string_at o string ;;
       printf [Txt "index="; Uns index; Txt " "; Str name; Txt "[";
               Uns size; Txt "]"; NL] ;;
       len <- strlen o string ;;
       ret (p + (len + 1)))
    p ;;
  ret tt.

Definition show_astr_mstr (fuel : nat) (o : object) (c : chunk) : M unit :=
  while_fuel fuel (fun pos => pos <? ch_size c)
    (fun pos =>
       expect_chunk_data c (ch_data c + pos) 4 ;;
       index <- load_uint o (ch_data c + pos) ;;
       printf [Txt "tagged="; Uns index; NL] ;;
       ret (to_int (pos + 4)))
    0 ;;
  ret tt.

Definition TAG_INTEGER : Z := 0.
Definition TAG_STRING : Z := 1.
Definition TAG_FUNCTION : Z := 2.

Definition show_atag_version0 (o : object) (c : chunk) : M unit :=
  let p := ch_data c in
  expect_chunk_data c p 1 ;;
  version <- load_uchar o p ;;
  let p := p + 1 in
  expect_chunk_data c p 4 ;;
  index <- load_int o p ;;
  let p := p + 4 in
  let total_tags := to_int (to_size_t (ch_size c - 1 - 4) / 1) in
  printf [Txt "chunk-version="; Dec version; Txt " tagged-array="; Dec index;
          Txt " total-tagged-elements="; Dec total_tags; NL] ;;
  for_n (Z.to_nat total_tags) 0
    (fun i p =>
       tag <- load_uchar o p ;;
       let p := p + 1 in
       printf [Txt "["; Dec i; Txt "] "] ;;
       (if tag =? TAG_INTEGER then printf [Txt "integer"]
        else if tag =? TAG_STRING then printf [Txt "string"]
        else if tag =? TAG_FUNCTION then printf [Txt "function"]
        else printf [Txt "unknown (tag-type="; Dec tag; Txt ")"]) ;;
       printf [NL] ;;
       ret p)
    p ;;
  ret tt.

Definition show_atag (o : object) (c : chunk) : M unit :=
  expect_chunk_data c (ch_data c) 1 ;;
  version <- load_uchar o (ch_data c) ;;
  if version =? 0 then show_atag_version0 o c
  else
    printf [Txt "chunk-version="; Dec version; NL] ;;
    printf [Txt "this version not supported"; NL].

Definition show_load (fuel : nat) (o : object) (c : chunk) : M unit :=
  while_fuel fuel (fun pos => pos <? ch_size c)
    (fun pos =>
       name <- read_chunk_string o c pos ;;
       first <- load o name ;;
       (if negb (Byte.eqb first x00) then
          s <- c_string_at o name ;;
          printf [Txt "imported-module="; Str s; NL]
        else ret tt) ;;
       len <- strlen o name ;;
       ret (to_int (pos + (len + 1))))
    0 ;;
  ret tt.

(** The loop of [show_fnam], [show_mexp] and [show_snam]: an offset per
    name, checked and followed to the name, which [line] prints. *)
Definition show_names (o : object) (c : chunk) (total_names p : Z)
  (line : Z -> Z -> list byte -> list printf_item) : M unit :=
  for_n (Z.to_nat total_names) 0
    (fun i p =>
       expect_chunk_data c p 4 ;;
       offset <- load_int o p ;;
       let p := p + 4 in
       expect_chunk_offset_in_chunk c offset ;;
       string <- read_chunk_string o c offset ;;
       name <- c_string_at o string ;;
       printf (line i offset name) ;;
       ret p)
    p ;;
  ret tt.

Definition show_fnam (o : object) (c : chunk) : M unit :=
  let p := ch_data c in
  expect_chunk_data c p 4 ;;
  total_names <- load_int o p ;;
  let p := p + 4 in
  printf [Txt "total-names="; Dec total_names; NL] ;;
  show_names o c total_names p
    (fun i offset name =>
       [Txt "["; Dec i; Txt "] offset="; Dec offset; Txt " "; Str name; NL]).

Definition show_mini (o : object) (c : chunk) : M unit :=
  let p := ch_data c in
  expect_chunk_data c p 4 ;;
  first_var <- load_int o p ;;
  let p := p + 4 in
  printf [Txt "first-var="; Dec first_var; NL] ;;
  let total_values := to_int (to_size_t (ch_size c - 4) / 4) in
  for_n (Z.to_nat total_values) 0
    (fun i p =>
       value <- load_int o p ;;
       let p := p + 4 in
       printf [Txt "index="; Dec (to_int (first_var + i)); Txt " value=";
               Dec value; NL] ;;
       ret p)
    p ;;
  ret tt.

Definition show_mimp (fuel : nat) (o : object) (c : chunk) : M unit :=
  while_fuel fuel (fun pos => pos <? ch_size c)
    (fun pos =>
       expect_chunk_data c (ch_data c + pos) 4 ;;
       index <- load_int o (ch_data c + pos) ;;
       let pos := to_int (pos + 4) in
       name <- read_chunk_string o c pos ;;
       s <- c_string_at o name ;;
       printf [Txt "index="; Dec index; Txt " name="; Str s; NL] ;;
       len <- strlen o name ;;
       ret (to_int (pos + (len + 1))))
    0 ;;
  ret tt.

Definition show_mexp (o : object) (c : chunk) : M unit :=
  let p := ch_data c in
  expect_chunk_data c p 4 ;;
  total_names <- load_int o p ;;
  let p := p + 4 in
  printf [Txt "table-size="; Dec total_names; NL] ;;
  show_names o c total_names p
    (fun i offset name =>
       [Txt "["; Dec i; Txt "] offset="; Dec offset; Txt " "; Str name; NL]).

Definition FLAG_NET : Z := 1.
Definition FLAG_CLIENTSIDE : Z := 2.

(** One of the two blocks of [show_sflg] that print a known flag and take
    it out of [flags]. *)
Definition show_flag (name : string) (flag flags : Z) : M Z :=
  if negb (Z.land flags flag =? 0) then
    let flags := to_ushort (Z.land flags (Z.lnot flag)) in
    printf [Txt name; Txt "(0x"; Hex flag; Txt ")"] ;;
    (if negb (flags =? 0) then printf [Txt "|"] else ret tt) ;;
    ret flags
  else ret flags.

Definition show_sflg (fuel : nat) (o : object) (c : chunk) : M unit :=
  while_fuel fuel (fun pos => pos <? ch_size c)
    (fun pos =>
       expect_chunk_data c (ch_data c + pos) 4 ;;
       number <- load_short o (ch_data c + pos) ;;
       entry_flags <- load_ushort o (ch_data c + pos + 2) ;;
       let pos := to_int (pos + 4) in
       printf [Txt "script="; Dec number; Txt " "] ;;
       let flags := entry_flags in
       printf [Txt "flags="] ;;
       flags <- show_flag "net" FLAG_NET flags ;;
       flags <- show_flag "clientside" FLAG_CLIENTSIDE flags ;;
       (if negb (flags =? 0) then
          printf [Txt "unknown(0x"; Hex flags; Txt ")"]
        else ret tt) ;;
       printf [NL] ;;
       ret pos)
    0 ;;
  ret tt.

Definition show_svct (fuel : nat) (o : object) (c : chunk) : M unit :=
  while_fuel fuel (fun pos => pos <? ch_size c)
    (fun pos =>
       expect_chunk_data c (ch_data c + pos) 4 ;;
       number <- load_short o (ch_data c + pos) ;;
       size <- load_short o (ch_data c + pos + 2) ;;
       let pos := to_int (pos + 4) in
       printf [Txt "script="; Dec number; Txt " new-size="; Dec size; NL] ;;
       ret pos)
    0 ;;
  ret tt.

Definition INITIAL_NAMEDSCRIPT_NUMBER : Z := -1.

Definition show_snam (o : object) (c : chunk) : M unit :=
  let p := ch_data c in
  expect_chunk_data c p 4 ;;
  total_names <- load_int o p ;;
  let p := p + 4 in
  printf [Txt "total-named-scripts="; Dec total_names; NL] ;;
  show_names o c total_names p
    (fun i offset name =>
       [Txt "script-number="; Dec (to_int (INITIAL_NAMEDSCRIPT_NUMBER - i));
        Txt " script-name="; QUOTE; Str name; QUOTE; NL]).

Definition show_sary_fary (o : object) (c : chunk) : M unit :=
  let p := ch_data c in
  expect_chunk_data c p 2 ;;
  index <- load_short o p ;;
  let p := p + 2 in
  let total_arrays := to_int (to_size_t (ch_size c - 2) / 4) in
  printf [Txt (match ch_type c with
               | CHUNK_FARY => "function"
               | _ => "script"
               end);
          Txt "="; Dec index; Txt " total-script-arrays="; Dec total_arrays;
          NL] ;;
  for_n (Z.to_nat total_arrays) 0
    (fun i p =>
       expect_chunk_data c p 4 ;;
       size <- load_int o p ;;
       let p := p + 4 in
       printf [Txt "array-index="; Dec i; Txt " array-size="; Dec size; NL] ;;
       ret p)
    p ;;
  ret tt.

Definition show_alib (c : chunk) : M unit :=
  printf [Txt "library=yes"; NL].

(** The [switch] of [show_chunk]. *)
Definition show_chunk_contents (fuel : nat) (o : object) (c : chunk)
  : M unit :=
  match ch_type c with
  | CHUNK_ARAY => show_aray fuel o c
  | CHUNK_AINI => show_aini fuel o c
  | CHUNK_AIMP => show_aimp o c
  | CHUNK_ASTR | CHUNK_MSTR => show_astr_mstr fuel o c
  | CHUNK_ATAG => show_atag o c
  | CHUNK_LOAD => show_load fuel o c
  | CHUNK_FUNC => show_func fuel o c
  | CHUNK_FNAM => show_fnam o c
  | CHUNK_MINI => show_mini o c
  | CHUNK_MIMP => show_mimp fuel o c
  | CHUNK_MEXP => show_mexp o c
  | CHUNK_SPTR => show_sptr fuel o c
  | CHUNK_SFLG => show_sflg fuel o c
  | CHUNK_SVCT => show_svct fuel o c
  | CHUNK_SNAM => show_snam o c
  | CHUNK_STRL | CHUNK_STRE => show_strl_stre fuel o c
  | CHUNK_SARY | CHUNK_FARY => show_sary_fary o c
  | CHUNK_ALIB => show_alib c
  | CHUNK_UNKNOWN => printf [Txt "chunk not supported"; NL]
  end.

Definition show_chunk (fuel : nat) (o : object) (c : chunk)
  (show_contents : bool) : M bool :=
  print (EChunk (ch_name c) (to_int (ch_data c - 8)) (ch_size c)) ;;
  (if show_contents then show_chunk_contents fuel o c else ret tt) ;;
  ret true.

Definition chunk_type_eq_dec (a b : chunk_type) : {a = b} + {a <> b}.
Proof. decide equality. Defined.

(** The loop of [view_chunk]; [n] bounds the number of chunks read. *)
Fixpoint view_chunk_from (n fuel : nat) (o : object) (type : chunk_type)
  (r : chunk_reader) (found : bool) : M bool :=
  rc <- read_chunk o r ;;
  match rc with
  | (Some c, r') =>
      found <- (if chunk_type_eq_dec (ch_type c) type then
                  show_chunk fuel o c true ;; ret true
                else ret found) ;;
      match n with
      | O => timeout
      | S n' => view_chunk_from n' fuel o type r' found
      end
  | (None, _) => ret found
  end.

(** [view_chunk]; [name] holds the characters of the name. *)
Definition view_chunk (fuel : nat) (o : object) (name : list byte)
  : M bool :=
  let type := get_chunk_type (name ++ [x00]) in
  if chunk_type_eq_dec type CHUNK_UNKNOWN then
    printf [Txt "error: unsupported chunk: "; Str (c_str name); NL] ;;
    ret false
  else
    found <- view_chunk_from fuel fuel o type (init_chunk_reader o) false ;;
    if found then ret true
    else
      printf [Txt "error: `"; Str (c_str name); Txt "` chunk not found";
              NL] ;;
      ret false.

(** The loop of [show_all_chunks]. *)
Fixpoint show_all_chunks_from (n fuel : nat) (o : object) (r : chunk_reader)
  : M unit :=
  rc <- read_chunk o r ;;
  match rc with
  | (Some c, r') =>
      show_chunk fuel o c true ;;
      match n with
      | O => timeout
      | S n' => show_all_chunks_from n' fuel o r'
      end
  | (None, _) => ret tt
  end.

Definition show_all_chunks (fuel : nat) (o : object) : M unit :=
  show_all_chunks_from fuel fuel o (init_chunk_reader o).

Definition show_object (fuel : nat) (o : object) : M unit :=
  (match format o with
   | FORMAT_BIG_E | FORMAT_LITTLE_E => show_all_chunks fuel o
   | _ => ret tt
   end) ;;
  show_directories fuel o.

(* ------------------------------------------------------------------ *)
(** ** Options and operations *)

(** [struct options]; a [NULL] string is [None]. *)
Record options : Type := mk_options {
  opt_file : option (list byte);
  opt_view_chunk : option (list byte);
  opt_list_chunks : bool
}.

Definition init_options : options := mk_options None None false.

Definition option_err (items : list printf_item) : M unit :=
  printf [Txt "option error: "] ;;
  printf items ;;
  printf [NL].

(** The loop of [read_options] and what follows it, from the arguments
    [argv[ i ]] onwards; an argument holds its characters. *)
Fixpoint read_options_from (args : list (list byte)) (opts : options)
  : M (option options) :=
  match args with
  | arg :: rest =>
      if Byte.eqb (nth 0 arg x00) x2d then
        let ch := nth 1 arg x00 in
        if Byte.eqb ch x63 then
          match rest with
          | next :: rest' =>
              read_options_from rest'
                (mk_options (opt_file opts) (Some next)
                   (opt_list_chunks opts))
          | [] =>
              option_err [Txt "missing chunk to view"] ;; ret None
          end
        else if Byte.eqb ch x6c then
          read_options_from rest
            (mk_options (opt_file opts) (opt_view_chunk opts) true)
        else
          option_err [Txt "unknown option: "; Chr ch] ;; ret None
      else
        ret (Some (mk_options (Some arg) (opt_view_chunk opts)
                     (opt_list_chunks opts)))
  | [] => option_err [Txt "missing object file"] ;; ret None
  end.

(** [read_options]: the options when the result is [true]. [argv] is
    [prog] followed by [args] (and the terminating [NULL]). *)
Definition read_options (opts : options) (prog : list byte)
  (args : list (list byte)) : M (option options) :=
  match args with
  | _ :: _ => read_options_from args opts
  | [] =>
      printf [Str prog; Txt " [options] <object-file>"; NL;
              Txt "Options:"; NL;
              Txt "  -c <chunk>    View selected chunk"; NL;
              Txt "  -l            List chunks in object file"; NL] ;;
      ret None
  end.

Definition is_acse (o : object) : bool :=
  match format o with
  | FORMAT_BIG_E | FORMAT_LITTLE_E => true
  | _ => false
  end.

Definition perform_operation (fuel : nat) (opts : options) (v : viewer)
  : M bool :=
  o <- resolve v ;;
  match format o with
  | FORMAT_UNKNOWN => printf [Txt "error: unsupported format"; NL] ;; ret false
  | _ =>
      let format_name := (match format o with
                          | FORMAT_LITTLE_E => "ACSe"
                          | FORMAT_ZERO => "ACS0"
                          | _ => "ACSE"
                          end)%string in
      let indirect :=
        (if indirect_format o then " (indirect)" else "")%string in
      printf [Txt "format: "; Txt format_name; Txt indirect; NL] ;;
      if opt_list_chunks opts then
        if is_acse o then list_chunks fuel o ;; ret true
        else printf [Txt "error: format does not support chunks"; NL] ;;
             ret false
      else
        match opt_view_chunk opts with
        | Some name =>
            if is_acse o then view_chunk fuel o name
            else printf [Txt "error: format does not support chunks"; NL] ;;
                 ret false
        | None => show_object fuel o ;; ret true
        end
  end.

(** [run], for an object file that [fopen] opens and whose bytes are
    [file]: [bail] comes back to the [setjmp] and makes the result
    [false]; the result of [perform_operation] is not looked at. *)
Definition run (fuel : nat) (opts : options) (file : list byte) : M bool :=
  match (v <- read_object_file file ;; perform_operation fuel opts v) with
  | (out, Ok _) => (out, Ok true)
  | (out, Bail) => (out, Ok false)
  | (out, Fault a) => (out, Fault a)
  | (out, Timeout) => (out, Timeout)
  end.

(* ------------------------------------------------------------------ *)
(** ** Predicates on chunks *)

(** The body of the chunk lies in the file, as [init_chunk] checks, and
    its size is an [int]. *)
Definition chunk_in_file (o : object) (c : chunk) : Prop :=
  0 <= ch_data c /\ ch_data c + ch_size c <= size o /\
  - 2 ^ 31 <= ch_size c.

(** The script directory and the string directory lie in the file, and
    every string starts in the buffer: what [show_script_directory],
    [show_string_directory] and [calc_code_size] read without a check. *)
Definition directories_in_file (o : object) : Prop :=
  exists total_scripts total_strings : Z,
    load_int o (directory_offset o) = ret total_scripts /\
    directory_offset o + 4 + 12 * total_scripts <= size o /\
    0 <= string_offset o /\
    load_int o (string_offset o) = ret total_strings /\
    string_offset o + 4 + 4 * total_strings <= size o /\
    forall j : Z, 0 <= j < total_strings ->
      exists offset : Z,
        load_int o (string_offset o + 4 + 4 * j) = ret offset /\
        0 <= offset <= size o.


(** The size of a record of the chunks that hold a sequence of records
    and nothing else. *)
Definition record_size (t : chunk_type) : option Z :=
  match t with
  | CHUNK_ARAY => Some 8
  | CHUNK_ASTR | CHUNK_MSTR | CHUNK_SFLG | CHUNK_SVCT => Some 4
  | _ => None
  end.

(** The [unsigned int], the [short] and the [unsigned short] held at
    position [p] of [bytes], least significant byte first. *)
Definition u32_at (bytes : list byte) (p : Z) : Z :=
  le_unsigned (firstn 4 (skipn (Z.to_nat p) bytes)).

Definition i16_at (bytes : list byte) (p : Z) : Z :=
  to_short (le_unsigned (firstn 2 (skipn (Z.to_nat p) bytes))).

Definition u16_at (bytes : list byte) (p : Z) : Z :=
  le_unsigned (firstn 2 (skipn (Z.to_nat p) bytes)).

(** The line of the record at [pos] in the body of the chunk [c], a
    chunk of records: the text written for the fields of the record,
    which are read at [ch_data c + pos]. *)
Definition record_line (o : object) (c : chunk) (pos : Z) : list event :=
  let p := ch_data c + pos in
  match ch_type c with
  | CHUNK_ARAY =>
      fst (printf [Txt "index="; Dec (i32_at (data o) p);
                   Txt " size="; Dec (i32_at (data o) (p + 4)); NL])
  | CHUNK_ASTR | CHUNK_MSTR =>
      fst (printf [Txt "tagged="; Uns (u32_at (data o) p); NL])
  | CHUNK_SFLG =>
      fst (printf [Txt "script="; Dec (i16_at (data o) p); Txt " "] ;;
           printf [Txt "flags="] ;;
           flags <- show_flag "net" FLAG_NET (u16_at (data o) (p + 2)) ;;
           flags <- show_flag "clientside" FLAG_CLIENTSIDE flags ;;
           (if negb (flags =? 0) then
              printf [Txt "unknown(0x"; Hex flags; Txt ")"]
            else ret tt) ;;
           printf [NL])
  | CHUNK_SVCT =>
      fst (printf [Txt "script="; Dec (i16_at (data o) p);
                   Txt " new-size="; Dec (i16_at (data o) (p + 2)); NL])
  | _ => []
  end.

(** The lines that [line] gives for [n] records of [k] bytes each, the
    first of them at [pos]. *)
Definition lines_from (line : Z -> list event) (k pos : Z) (n : nat)
  : list event :=
  flat_map (fun i => line (pos + k * Z.of_nat i)) (seq 0 n).

(** The lines of the first [n] records, of [k] bytes each, of the
    chunk [c]. *)
Definition record_lines (o : object) (c : chunk) (k : Z) (n : nat)
  : list event :=
  lines_from (record_line o c) k 0 n.

(* ================================================================== *)
(** * Properties *)

(* ------------------------------------------------------------------ *)
(** ** Integers and bytes *)

Lemma to_int_id (z : Z) : - 2 ^ 31 <= z < 2 ^ 31 -> to_int z = z.
Proof.
  intros H. unfold to_int.
  rewrite Z.mod_small by lia. lia.
Qed.

Lemma to_int_range (z : Z) : - 2 ^ 31 <= to_int z < 2 ^ 31.
Proof.
  unfold to_int.
  pose proof (Z.mod_pos_bound (z + 2 ^ 31) (2 ^ 32) ltac:(lia)). lia.
Qed.

Lemma to_int_pred (x : Z) : 2 <= to_int x -> to_int (x - 1) = to_int x - 1.
Proof.
  unfold to_int. intros H.
  replace (x - 1 + 2 ^ 31) with (x + 2 ^ 31 - 1) by lia.
  pose proof (Z.mod_pos_bound (x + 2 ^ 31) (2 ^ 32) ltac:(lia)) as Hb.
  rewrite <- (Zminus_mod_idemp_l (x + 2 ^ 31) 1).
  rewrite (Z.mod_small ((x + 2 ^ 31) mod 2 ^ 32 - 1)) by lia.
  lia.
Qed.

Lemma to_int_mod_256 (x : Z) : to_int x mod 256 = x mod 256.
Proof.
  unfold to_int.
  rewrite Zminus_mod.
  rewrite (Z.mod_mod_divide (x + 2 ^ 31) (2 ^ 32) 256)
    by (exists (2 ^ 24); reflexivity).
  rewrite <- Zminus_mod.
  replace (x + 2 ^ 31 - 2 ^ 31) with x by lia. reflexivity.
Qed.

Lemma to_size_t_mod_4 (x : Z) : to_size_t x mod 4 = x mod 4.
Proof.
  unfold to_size_t. apply Z.mod_mod_divide.
  exists (2 ^ 62). reflexivity.
Qed.

Lemma byte_val_range (b : byte) : 0 <= byte_val b < 256.
Proof.
  unfold byte_val. pose proof (Byte.to_N_bounded b). lia.
Qed.

Lemma byte_of_val (b : byte) : byte_of (byte_val b) = b.
Proof.
  unfold byte_of, byte_val.
  pose proof (Byte.to_N_bounded b).
  rewrite Z.mod_small by lia.
  rewrite N2Z.id, Byte.of_to_N. reflexivity.
Qed.

Lemma byte_val_of (z : Z) : byte_val (byte_of z) = z mod 256.
Proof.
  unfold byte_of, byte_val.
  pose proof (Z.mod_pos_bound z 256 ltac:(lia)) as Hr.
  destruct (Byte.of_N (Z.to_N (z mod 256))) as [b|] eqn:E.
  - apply Byte.to_of_N in E. rewrite E. lia.
  - pose proof (Byte.to_of_N_option_map (Z.to_N (z mod 256))) as Hm.
    rewrite E in Hm. simpl in Hm.
    destruct (N.leb_spec (Z.to_N (z mod 256)) 255); [discriminate | lia].
Qed.

Lemma byte_of_mod (z : Z) (b : byte) : z mod 256 = byte_val b -> byte_of z = b.
Proof.
  intros H. rewrite <- (byte_of_val b). unfold byte_of.
  rewrite H. rewrite (Z.mod_small (byte_val b)) by apply byte_val_range.
  reflexivity.
Qed.

Lemma byte_eqb_eq (a b : byte) : Byte.eqb a b = true <-> a = b.
Proof.
  split.
  - apply Byte.byte_dec_bl.
  - apply Byte.byte_dec_lb.
Qed.

Lemma byte_eqb_neq (a b : byte) : Byte.eqb a b = false <-> a <> b.
Proof.
  split.
  - intros H E. apply byte_eqb_eq in E. congruence.
  - intros H. destruct (Byte.eqb a b) eqn:E; [|reflexivity].
    apply byte_eqb_eq in E. contradiction.
Qed.

Lemma lxor_mod_256 (a b : Z) :
  Z.lxor a b mod 256 = Z.lxor (a mod 256) (b mod 256).
Proof.
  change 256 with (2 ^ 8).
  apply Z.bits_inj'. intros n Hn.
  destruct (Z.lt_ge_cases n 8) as [Hlt|Hge].
  - rewrite Z.mod_pow2_bits_low by lia.
    rewrite !Z.lxor_spec.
    rewrite !Z.mod_pow2_bits_low by lia. reflexivity.
  - rewrite Z.mod_pow2_bits_high by lia.
    rewrite Z.lxor_spec.
    rewrite !Z.mod_pow2_bits_high by lia. reflexivity.
Qed.

Lemma skipn_nth_error {A} (l : list A) (n : nat) (x : A) :
  nth_error l n = Some x -> skipn n l = x :: skipn (S n) l.
Proof.
  revert l. induction n as [|n IH]; intros [|y l] H; try discriminate.
  - inversion H. reflexivity.
  - simpl in H. rewrite (skipn_cons n y l). rewrite (IH l H). reflexivity.
Qed.

(* ------------------------------------------------------------------ *)
(** ** The output monad *)

Lemma bind_ret_l {A B} (a : A) (f : A -> M B) : bind (ret a) f = f a.
Proof.
  unfold bind, ret. destruct (f a) as [out r]. reflexivity.
Qed.

Lemma bind_Ok_inv {A B} (m : M A) (f : A -> M B) (out : list event) (b : B) :
  bind m f = (out, Ok b) ->
  exists out1 a out2,
    m = (out1, Ok a) /\ f a = (out2, Ok b) /\ out = out1 ++ out2.
Proof.
  unfold bind. destruct m as [out1 [a| | |]]; try discriminate.
  destruct (f a) as [out2 r] eqn:E. intros H. inversion H; subst.
  exists out1, a, out2. auto.
Qed.

Lemma bind_print {A} (e : event) (k : unit -> M A) :
  bind (print e) k = (e :: fst (k tt), snd (k tt)).
Proof.
  unfold bind, print. destruct (k tt) as [out r]. reflexivity.
Qed.

Lemma bind_assoc {A B C} (m : M A) (f : A -> M B) (g : B -> M C) :
  bind (bind m f) g = bind m (fun a => bind (f a) g).
Proof.
  unfold bind. destruct m as [out1 [a| | |]]; try reflexivity.
  destruct (f a) as [out2 [b| | |]]; try reflexivity.
  destruct (g b) as [out3 r]. rewrite app_assoc. reflexivity.
Qed.

Lemma diag_bail_not_Ok {A} (flags : Z) (m : diag_msg) (out : list event)
  (a : A) : (diag flags m ;; bail) <> (out, Ok a).
Proof.
  unfold diag, bind, bail, print, ret.
  destruct (Z.testbit flags 0); [discriminate|].
  destruct (Z.testbit flags 1); discriminate.
Qed.

Lemma diag_warn (m : diag_msg) : diag DIAG_WARN m = print (EWarning m).
Proof. reflexivity. Qed.

Lemma for_n_invariant {St : Type} (P : St -> Prop) (body : Z -> St -> M St) :
  (forall (i : Z) (s s' : St) (out : list event),
     P s -> body i s = (out, Ok s') -> P s') ->
  forall (n : nat) (i : Z) (s s' : St) (out : list event),
    P s -> for_n n i body s = (out, Ok s') -> P s'.
Proof.
  intros Hbody n. induction n as [|n IH]; intros i s s' out Hs H.
  - inversion H; subst. exact Hs.
  - simpl in H. apply bind_Ok_inv in H.
    destruct H as (out1 & s1 & out2 & H1 & H2 & _).
    exact (IH _ _ _ _ (Hbody _ _ _ _ Hs H1) H2).
Qed.

Lemma while_fuel_invariant {St : Type} (P : St -> Prop) (cond : St -> bool)
  (body : St -> M St) :
  (forall (s s' : St) (out : list event),
     P s -> body s = (out, Ok s') -> P s') ->
  forall (fuel : nat) (s s' : St) (out : list event),
    P s -> while_fuel fuel cond body s = (out, Ok s') -> P s'.
Proof.
  intros Hbody fuel. induction fuel as [|fuel IH]; intros s s' out Hs H.
  - simpl in H. destruct (cond s); [discriminate|].
    inversion H; subst. exact Hs.
  - simpl in H. destruct (cond s).
    + apply bind_Ok_inv in H.
      destruct H as (out1 & s1 & out2 & H1 & H2 & _).
      exact (IH _ _ _ (Hbody _ _ _ Hs H1) H2).
    + inversion H; subst. exact Hs.
Qed.

(* ------------------------------------------------------------------ *)
(** ** The loader and the NUL byte after the file *)

Lemma read_object_file_Ok (file : list byte) (v : viewer)
  (out : list event) :
  read_object_file file = (out, Ok v) ->
  object_data v = file ++ [x00] /\
  object_size v = Z.of_nat (List.length file) /\
  object_size v <= INT_MAX.
Proof.
  unfold read_object_file, read_object_file_data. intros H.
  destruct (Z.of_nat (List.length file) - INT_MAX >? 0) eqn:E.
  - exfalso. revert H. unfold diag, DIAG_ERR. simpl. discriminate.
  - rewrite bind_ret_l in H. inversion H; subst v; simpl.
    assert (Z.of_nat (List.length file) <= INT_MAX) by lia.
    unfold INT_MAX in *.
    rewrite to_int_id by lia. auto.
Qed.

Lemma bind_Ok {A B} (out : list event) (a : A) (k : A -> M B) :
  bind (out, Ok a) k = (out ++ fst (k a), snd (k a)).
Proof.
  unfold bind. destruct (k a) as [out' r]. reflexivity.
Qed.

Lemma bind_out {A} (out : list event) (k : unit -> M A) :
  bind (out, Ok tt) k = (out ++ fst (k tt), snd (k tt)).
Proof. apply bind_Ok. Qed.

(** The branches of [show_string] write the characters [escaped ch]. *)
Lemma show_string_escapes (ch : byte) :
  (if Byte.eqb ch x22 then print (EChar x5c) ;; print (EChar x22)
   else if Byte.eqb ch x0d then print (EChar x5c) ;; print (EChar x72)
   else if Byte.eqb ch x0a then print (EChar x5c) ;; print (EChar x6e)
   else print (EChar ch)) = (map EChar (escaped ch), Ok tt).
Proof.
  unfold escaped.
  destruct (Byte.eqb ch x22); [reflexivity|].
  destruct (Byte.eqb ch x0d); [reflexivity|].
  destruct (Byte.eqb ch x0a); reflexivity.
Qed.

Lemma show_string_from_eq (fuel : nat) (o : object) (offset value i : Z)
  (is_encoded : bool) :
  show_string_from fuel o offset value i is_encoded =
    (ch <- load o (value + i) ;;
     let ch := if is_encoded then decode_ch offset i ch else ch in
     if Byte.eqb ch x00 then ret tt
     else
       (map EChar (escaped ch), Ok tt) ;;
       match fuel with
       | O => timeout
       | S fuel' => show_string_from fuel' o offset value (i + 1) is_encoded
       end).
Proof.
  destruct (load o (value + i)) as [out [b| | |]] eqn:E;
    destruct fuel; cbn [show_string_from]; rewrite E; try reflexivity;
    rewrite !(bind_Ok out b); cbv beta zeta;
    rewrite show_string_escapes; reflexivity.
Qed.

(** A character that is not escaped is written as it is. *)
Lemma escaped_plain (ch : byte) :
  ch <> x22 -> ch <> x0d -> ch <> x0a -> escaped ch = [ch].
Proof.
  intros H1 H2 H3. unfold escaped.
  destruct (Byte.eqb ch x22) eqn:E1;
    [apply byte_eqb_eq in E1; contradiction|].
  destruct (Byte.eqb ch x0d) eqn:E2;
    [apply byte_eqb_eq in E2; contradiction|].
  destruct (Byte.eqb ch x0a) eqn:E3;
    [apply byte_eqb_eq in E3; contradiction|].
  reflexivity.
Qed.

Section Sentinel.

Variable file : list byte.
Variable o : object.
Hypothesis Hdata : data o = file ++ [x00].
Hypothesis Hsize : size o = Z.of_nat (List.length file).

Lemma load_sentinel : load o (size o) = ret x00.
Proof.
  unfold load.
  replace ((0 <=? size o) && (size o <=? size o)) with true
    by (symmetry; apply andb_true_iff; rewrite !Z.leb_le; lia).
  rewrite Hdata, Hsize, Nat2Z.id.
  rewrite nth_error_app2 by lia.
  rewrite Nat.sub_diag. reflexivity.
Qed.

Lemma load_in_buffer (i : Z) :
  0 <= i <= size o ->
  exists b : byte,
    load o i = ret b /\ nth_error (data o) (Z.to_nat i) = Some b.
Proof.
  intros Hi. unfold load.
  replace ((0 <=? i) && (i <=? size o)) with true
    by (symmetry; apply andb_true_iff; rewrite !Z.leb_le; lia).
  destruct (nth_error (data o) (Z.to_nat i)) as [b|] eqn:E.
  - exists b. auto.
  - exfalso. apply nth_error_None in E.
    rewrite Hdata, length_app in E. simpl in E.
    lia.
Qed.

(** A scan for NUL that starts at [cur], in the buffer, ends at the NUL
    after the file at the latest. *)
Lemma nul_scan_stops (m : nat) :
  forall cur : Z,
    0 <= cur <= size o ->
    Z.to_nat (size o - cur) = m ->
    exists j : Z,
      cur <= j <= size o /\
      load o j = ret x00 /\
      (forall k : Z, cur <= k < j ->
         exists b : byte, load o k = ret b /\ b <> x00) /\
      forall (fuel : nat) (offset value i : Z),
        value + i = cur ->
        (m <= fuel)%nat ->
        show_string_from fuel o offset value i false =
          (map EChar
             (flat_map escaped
                (firstn (Z.to_nat (j - cur))
                   (skipn (Z.to_nat cur) (data o)))), Ok tt).
Proof.
  induction m as [|m IH]; intros cur Hcur Hm.
  - assert (cur = size o) by lia. subst cur.
    exists (size o).
    split; [lia|]. split; [apply load_sentinel|].
    split; [intros k Hk; lia|].
    intros fuel offset value i Hv _.
    rewrite show_string_from_eq, Hv, load_sentinel, bind_ret_l.
    rewrite Z.sub_diag. reflexivity.
  - destruct (load_in_buffer cur Hcur) as (b & Hload & Hnth).
    destruct (Byte.eqb b x00) eqn:Eb.
    + apply byte_eqb_eq in Eb. subst b.
      exists cur.
      split; [lia|]. split; [exact Hload|].
      split; [intros k Hk; lia|].
      intros fuel offset value i Hv _.
      rewrite show_string_from_eq, Hv, Hload, bind_ret_l.
      rewrite Z.sub_diag. reflexivity.
    + destruct (IH (cur + 1) ltac:(lia) ltac:(lia))
        as (j & Hj & Hnul & Hbefore & Hshow).
      exists j.
      split; [lia|]. split; [exact Hnul|]. split.
      * intros k Hk. destruct (Z.eq_dec k cur) as [->|Hne].
        -- exists b. split; [exact Hload|]. apply byte_eqb_neq. exact Eb.
        -- apply Hbefore. lia.
      * intros fuel offset value i Hv Hfuel.
        rewrite show_string_from_eq, Hv, Hload, bind_ret_l.
        cbv zeta. cbv iota. rewrite Eb.
        destruct fuel as [|fuel]; [lia|].
        rewrite bind_out.
        rewrite (Hshow fuel offset value (i + 1)) by lia.
        cbn [fst snd].
        rewrite (skipn_nth_error _ _ _ Hnth).
        replace (Z.to_nat (j - cur)) with (S (Z.to_nat (j - (cur + 1))))
          by lia.
        replace (Z.to_nat (cur + 1)) with (S (Z.to_nat cur)) by lia.
        cbn [firstn flat_map]. rewrite map_app. reflexivity.
Qed.

End Sentinel.

(** C10. The loader makes the buffer one byte longer than the file, the
    bytes of the file followed by NUL: the NUL is the last byte, at
    index N. A scan for NUL that starts in the buffer therefore ends at
    index N at the latest: [show_string] on a plain string that starts
    at [start], with no check before it, writes the bytes up to the
    first NUL, each with its escape, and reads nothing after index N. *)
Theorem loader_nul_sentinel (file : list byte) (v : viewer)
  (out : list event) :
  read_object_file_data file = (out, Ok (Some v)) ->
  object_data v = file ++ [x00] /\
  List.length (object_data v) = S (List.length file) /\
  object_size v = Z.of_nat (List.length file) /\
  nth_error (object_data v) (Z.to_nat (object_size v)) = Some x00 /\
  forall o : object,
    data o = object_data v ->
    size o = object_size v ->
    forall start : Z,
      0 <= start <= size o ->
      exists j : Z,
        start <= j <= size o /\
        load o j = ret x00 /\
        (forall k : Z, start <= k < j ->
           exists b : byte, load o k = ret b /\ b <> x00) /\
        forall (fuel : nat) (index offset : Z),
          (Z.to_nat (size o - start) <= fuel)%nat ->
          show_string fuel o index offset start false =
            (EStringHead index offset ::
             map EChar
               (flat_map escaped
                  (firstn (Z.to_nat (j - start))
                     (skipn (Z.to_nat start) (data o)))) ++
             [EStringEnd], Ok tt).
Proof.
  intros H.
  assert (Hv : object_data v = file ++ [x00] /\
               object_size v = Z.of_nat (List.length file)).
  { unfold read_object_file_data in H.
    destruct (Z.of_nat (List.length file) - INT_MAX >? 0) eqn:E.
    - revert H. unfold diag, DIAG_ERR. simpl. discriminate.
    - inversion H; subst v; simpl. split; [reflexivity|].
      apply to_int_id. unfold INT_MAX in E. lia. }
  destruct Hv as (Hd & Hs).
  split; [exact Hd|].
  split; [rewrite Hd, length_app; simpl; lia|].
  split; [exact Hs|].
  split.
  { rewrite Hd, Hs, Nat2Z.id, nth_error_app2 by lia.
    rewrite Nat.sub_diag. reflexivity. }
  intros o Hdo Hso start Hstart.
  rewrite Hd in Hdo. rewrite Hs in Hso.
  destruct (nul_scan_stops file o Hdo Hso (Z.to_nat (size o - start)) start
              Hstart eq_refl) as (j & Hj & Hnul & Hbefore & Hshow).
  exists j.
  split; [lia|]. split; [exact Hnul|]. split; [exact Hbefore|].
  intros fuel index offset Hfuel.
  unfold show_string. rewrite bind_print.
  rewrite (Hshow fuel offset start 0) by lia.
  reflexivity.
Qed.

Lemma loader_nul_sentinel_witness :
  exists j : Z,
    20 <= j <= size (object_of file_acs0_string_hi) /\
    load (object_of file_acs0_string_hi) j = ret x00 /\
    (forall k : Z, 20 <= k < j ->
       exists b : byte,
         load (object_of file_acs0_string_hi) k = ret b /\ b <> x00) /\
    forall (fuel : nat) (index offset : Z),
      (Z.to_nat (size (object_of file_acs0_string_hi) - 20) <= fuel)%nat ->
      show_string fuel (object_of file_acs0_string_hi) index offset 20 false =
        (EStringHead index offset ::
         map EChar
           (flat_map escaped
              (firstn (Z.to_nat (j - 20))
                 (skipn (Z.to_nat 20)
                    (data (object_of file_acs0_string_hi))))) ++
         [EStringEnd], Ok tt).
Proof.
  exact (proj2 (proj2 (proj2 (proj2
           (loader_nul_sentinel file_acs0_string_hi
              (mk_viewer (file_acs0_string_hi ++ [x00]) 22) [] eq_refl))))
           (object_of file_acs0_string_hi) eq_refl eq_refl 20
           ltac:(vm_compute; split; discriminate)).
Defined.

(** The string directory of [file_acs0_string_hi]: the string ends at
    the NUL after the file. *)
Example string_directory_ends_at_sentinel :
  show_string_directory 2 (object_of file_acs0_string_hi) =
    ([EStringDirectory 12; ETotalStrings 1; EStringHead 0 20;
      EChar "H"%byte; EChar "i"%byte; EStringEnd], Ok tt).
Proof. vm_compute. reflexivity. Qed.

(** The string directory of [file_acs0_string_escapes]: the double
    quote, the carriage return and the line feed are each written as a
    backslash and a second character. *)
Example string_directory_escapes :
  show_string_directory 5 (object_of file_acs0_string_escapes) =
    ([EStringDirectory 12; ETotalStrings 1; EStringHead 0 20;
      EChar x61; EChar x5c; EChar x22; EChar x5c; EChar x72;
      EChar x5c; EChar x6e; EStringEnd], Ok tt).
Proof. vm_compute. reflexivity. Qed.

(* ------------------------------------------------------------------ *)
(** ** The format resolver *)

Lemma offset_in_object_file_spec (o : object) (z : Z) :
  offset_in_object_file o z = true <-> 0 <= z < size o.
Proof.
  unfold offset_in_object_file, offset_in_range.
  rewrite andb_true_iff, Z.leb_le, Z.ltb_lt. tauto.
Qed.

Lemma expect_offset_in_object_file_Ok (o : object) (z : Z)
  (out : list event) (u : unit) :
  expect_offset_in_object_file o z = (out, Ok u) -> 0 <= z < size o.
Proof.
  unfold expect_offset_in_object_file.
  destruct (offset_in_object_file o z) eqn:E; simpl.
  - intros _. apply offset_in_object_file_spec. exact E.
  - discriminate.
Qed.

Lemma expect_data_Ok (o : object) (p sz : Z) :
  sz <= data_left o p -> expect_data o p sz = ret tt.
Proof.
  intros H. unfold expect_data.
  replace (data_left o p <? sz) with false
    by (symmetry; apply Z.ltb_ge; lia).
  reflexivity.
Qed.

(** What [determine_format] leaves in the object when it returns. *)
Lemma determine_format_Ok (o o' : object) (out : list event) :
  indirect_format o = false ->
  determine_format o = (out, Ok o') ->
  size o' = size o /\ data o' = data o /\
  0 <= directory_offset o' < size o /\
  (indirect_format o' = true ->
   real_header_offset o' = to_int (to_int (directory_offset o' - 4) - 4) /\
   0 <= real_header_offset o' < size o).
Proof.
  intros Hind H. unfold determine_format in H.
  destruct (to_size_t (data_left o 0) <? 8).
  { exfalso. exact (diag_bail_not_Ok _ _ _ _ H). }
  apply bind_Ok_inv in H. destruct H as (out1 & header_id & out2 & _ & H & _).
  apply bind_Ok_inv in H. destruct H as (out3 & ho & out4 & _ & H & _).
  apply bind_Ok_inv in H. destruct H as (out5 & u & out6 & Hho & H & _).
  apply expect_offset_in_object_file_Ok in Hho.
  apply bind_Ok_inv in H. destruct H as (out7 & o1 & out8 & H1 & H & _).
  assert (Hfin : size o1 = size o /\ data o1 = data o /\
                 directory_offset o1 = ho /\
                 (indirect_format o1 = true ->
                  real_header_offset o1 = to_int (to_int (ho - 4) - 4) /\
                  0 <= real_header_offset o1 < size o)).
  { destruct (list_byte_eqb header_id ID_ACSE || list_byte_eqb header_id ID_ACSe).
    - inversion H1; subst o1; simpl. repeat split; auto; congruence.
    - destruct (list_byte_eqb header_id ID_ACS0).
      + apply bind_Ok_inv in H1.
        destruct H1 as (out9 & real & out10 & _ & H1 & _).
        destruct real.
        * apply bind_Ok_inv in H1.
          destruct H1 as (out11 & e & out12 & _ & H1 & _).
          apply bind_Ok_inv in H1.
          destruct H1 as (out13 & u' & out14 & Hrh & H1 & _).
          apply expect_offset_in_object_file_Ok in Hrh. simpl in Hrh.
          apply bind_Ok_inv in H1.
          destruct H1 as (out15 & co & out16 & _ & H1 & _).
          inversion H1; subst o1; simpl. repeat split; auto; lia.
        * inversion H1; subst o1; simpl. repeat split; auto; congruence.
      + inversion H1; subst o1; simpl. repeat split; auto; congruence. }
  destruct Hfin as (Hs & Hd & Hdo & Hrh).
  destruct (format_eqb (format o1) FORMAT_LITTLE_E);
    inversion H; subst o'; simpl; rewrite ?Hdo; repeat split; auto; try lia;
    apply Hrh; assumption.
Qed.

(** What [determine_object_offsets] leaves in the object when it
    returns. *)
Lemma determine_object_offsets_Ok (o o' : object) (out : list event) :
  determine_object_offsets o = (out, Ok o') ->
  size o' = size o /\ data o' = data o /\ format o' = format o /\
  directory_offset o' = directory_offset o /\
  real_header_offset o' = real_header_offset o /\
  chunk_offset o' = chunk_offset o /\
  indirect_format o' = indirect_format o /\
  small_code o' = small_code o /\
  (script_directory_present o = true -> 0 <= string_offset o' < size o).
Proof.
  unfold determine_object_offsets. intros H.
  destruct (script_directory_present o).
  - apply bind_Ok_inv in H. destruct H as (out1 & u & out2 & _ & H & _).
    apply bind_Ok_inv in H. destruct H as (out3 & total & out4 & _ & H & _).
    apply bind_Ok_inv in H. destruct H as (out5 & u' & out6 & Hso & H & _).
    apply expect_offset_in_object_file_Ok in Hso.
    inversion H; subst o'; simpl. repeat split; auto; lia.
  - inversion H; subst o'. repeat split; auto; discriminate.
Qed.

(** The offsets the resolver checks are in the file. *)
Lemma resolver_checked_offsets (file : list byte) (o : object)
  (out : list event) :
  open_object file = (out, Ok o) ->
  data o = file ++ [x00] /\
  size o = Z.of_nat (List.length file) /\
  size o <= INT_MAX /\
  0 <= directory_offset o < size o /\
  (indirect_format o = true ->
   real_header_offset o = directory_offset o - 8 /\
   0 <= real_header_offset o < size o) /\
  (script_directory_present o = true -> 0 <= string_offset o < size o).
Proof.
  unfold open_object, resolve. intros H.
  apply bind_Ok_inv in H. destruct H as (out1 & v & out2 & Hv & H & _).
  apply read_object_file_Ok in Hv. destruct Hv as (Hvd & Hvs & Hvm).
  apply bind_Ok_inv in H. destruct H as (out3 & o1 & out4 & H1 & H2 & _).
  apply determine_format_Ok in H1; [|reflexivity].
  simpl in H1. destruct H1 as (Hs1 & Hd1 & Hdo1 & Hrh1).
  pose proof (determine_object_offsets_Ok _ _ _ H2)
    as (Hs & Hd & Hf & Hdo & Hrh & Hco & Hi & Hsc & Hso).
  assert (Hsd : script_directory_present o = script_directory_present o1).
  { unfold script_directory_present. rewrite Hf, Hi. reflexivity. }
  rewrite Hs, Hd, Hdo, Hrh, Hi, Hsd, Hs1, Hd1. simpl.
  assert (Hrh' : indirect_format o1 = true ->
                 real_header_offset o1 = directory_offset o1 - 8 /\
                 0 <= real_header_offset o1 < object_size v).
  { intros Ht. destruct (Hrh1 Ht) as (E & R). unfold INT_MAX in *.
    rewrite (to_int_id (directory_offset o1 - 4)) in E by lia.
    rewrite to_int_id in E by lia. lia. }
  rewrite Hs1 in Hso. simpl in Hso.
  repeat split; try assumption; try lia;
    try (match goal with
         | Ht : indirect_format _ = true |- _ => specialize (Hrh' Ht); lia
         end);
    match goal with
    | Ht : script_directory_present _ = true |- _ => specialize (Hso Ht); lia
    end.
Qed.

(** The smallest ACS0 file resolves to [FORMAT_ZERO] with both
    directories empty. *)
Example minimal_acs0_dump :
  open_object file_minimal_acs0 =
    ([], Ok (mk_object (file_minimal_acs0 ++ [x00]) 16 FORMAT_ZERO
               8 12 0 0 false false)) /\
  show_directories 1 (object_of file_minimal_acs0) =
    ([EScriptDirectory 8; ETotalScripts 0;
      EStringDirectory 12; ETotalStrings 0], Ok tt).
Proof. split; vm_compute; reflexivity. Qed.

(** An indirect ACSe file is detected, with small code; its chunk
    section, which starts at the real header, is empty. *)
Example indirect_acse_small_detected :
  open_object file_indirect_acse_small =
    ([], Ok (mk_object (file_indirect_acse_small ++ [x00]) 24
               FORMAT_LITTLE_E 16 20 8 8 true true)) /\
  list_chunks 1 (object_of file_indirect_acse_small) = ([], Ok tt).
Proof. split; vm_compute; reflexivity. Qed.

(** C1 (code defect). The resolver accepts an indirect file whose hidden
    real header holds the chunk offset -1: it returns with
    [chunk_offset = -1], which is not in [0, N) for N = 24, and the chunk
    walk that starts there reads the byte before the buffer. *)
Theorem resolver_accepts_chunk_offset_outside_file :
  exists o : object,
    open_object file_indirect_chunk_offset_minus1 = ([], Ok o) /\
    size o = 24 /\
    indirect_format o = true /\
    chunk_offset o = -1 /\
    offset_in_object_file o (chunk_offset o) = false /\
    forall fuel : nat, list_chunks fuel o = ([], Fault (-1)).
Proof.
  eexists. split; [vm_compute; reflexivity|].
  split; [reflexivity|]. split; [reflexivity|]. split; [reflexivity|].
  split; [reflexivity|].
  intros fuel. destruct fuel; vm_compute; reflexivity.
Qed.

(* ------------------------------------------------------------------ *)
(** ** The chunk walker *)

(** A chunk that leaves the reader where it was is listed for ever. *)
Lemma list_chunks_from_fixed_reader (o : object) (r : chunk_reader)
  (c : chunk) :
  read_chunk o r = ([], Ok (Some c, r)) ->
  forall fuel : nat,
    list_chunks_from fuel o r =
      (repeat (EChunk (ch_name c) (to_int (ch_data c - 8)) (ch_size c))
         (S fuel), Timeout).
Proof.
  intros Hr fuel. induction fuel as [|fuel IH].
  - simpl. rewrite Hr. reflexivity.
  - change (list_chunks_from (S fuel) o r) with
      (rc <- read_chunk o r ;;
       match rc with
       | (Some c, r') => show_chunk_header o c ;; list_chunks_from fuel o r'
       | (None, _) => ret tt
       end).
    rewrite Hr. unfold bind at 1. simpl app.
    rewrite IH. reflexivity.
Qed.

(** C5 (code defect). A chunk of declared size -8 passes [init_chunk]
    and advances the reader by 8 + (-8) = 0, so the walk over the file
    never ends; a chunk of declared size -16 moves the reader back, from
    8 to 0. *)
Theorem chunk_walk_negative_size :
  (exists (o : object) (c : chunk),
     open_object file_chunk_size_minus8 = ([], Ok o) /\
     read_chunk o (init_chunk_reader o) =
       ([], Ok (Some c, init_chunk_reader o)) /\
     ch_size c = -8 /\
     forall fuel : nat,
       list_chunks fuel o =
         (repeat (EChunk (ch_name c) 8 (-8)) (S fuel), Timeout)) /\
  (exists (o : object) (c : chunk) (r : chunk_reader),
     open_object file_chunk_size_minus16 = ([], Ok o) /\
     read_chunk o (init_chunk_reader o) = ([], Ok (Some c, r)) /\
     ch_size c = -16 /\
     pos (init_chunk_reader o) = 8 /\
     pos r = 0).
Proof.
  split.
  - eexists. eexists. split; [vm_compute; reflexivity|].
    split; [vm_compute; reflexivity|].
    split; [reflexivity|].
    intros fuel. unfold list_chunks.
    erewrite list_chunks_from_fixed_reader by (vm_compute; reflexivity).
    reflexivity.
  - eexists. eexists. eexists. split; [vm_compute; reflexivity|].
    split; [vm_compute; reflexivity|].
    split; [reflexivity|]. split; reflexivity.
Qed.

(* ------------------------------------------------------------------ *)
(** ** Extent inference *)

(** A candidate lowers the end offset only to a value above the target
    offset. *)
Lemma candidate_keeps_bounds (offset hi cand end_offset : Z) :
  offset < end_offset <= hi ->
  offset < (if (cand >? offset) && (cand <? end_offset)
            then cand else end_offset) <= hi.
Proof.
  intros H.
  destruct ((cand >? offset) && (cand <? end_offset)) eqn:E; [|exact H].
  apply andb_true_iff in E. destruct E as (E1 & E2).
  apply Z.gtb_lt in E1. apply Z.ltb_lt in E2. lia.
Qed.

(** Where [calc_code_size] returns, the end offset it has after the
    tables and the directories ([e]) is above the target offset and not
    above N; the chunk offset and the directory offset are then applied
    to it. *)
Lemma calc_code_size_end_offset (fuel : nat) (o : object) (offset r : Z)
  (out : list event) :
  calc_code_size fuel o offset = (out, Ok r) ->
  offset < size o ->
  exists e : Z,
    offset < e <= size o /\
    r = to_int
          ((let e3 := if format_eqb (format o) FORMAT_BIG_E ||
                         format_eqb (format o) FORMAT_LITTLE_E
                      then if chunk_offset o <? e then chunk_offset o else e
                      else e in
            if script_directory_present o && (directory_offset o <? e3)
            then directory_offset o else e3) - offset).
Proof.
  intros H Hoff. unfold calc_code_size in H.
  apply bind_Ok_inv in H. destruct H as (out1 & e1 & out2 & H1 & H & _).
  apply bind_Ok_inv in H. destruct H as (out3 & e2 & out4 & H2 & H & _).
  assert (B1 : offset < e1 <= size o).
  { destruct (format_eqb (format o) FORMAT_BIG_E ||
              format_eqb (format o) FORMAT_LITTLE_E).
    - apply bind_Ok_inv in H1.
      destruct H1 as (o1 & found & o2 & _ & H1 & _).
      apply bind_Ok_inv in H1.
      destruct H1 as (o3 & e & o4 & Hs & H1 & _).
      assert (Be : offset < e <= size o).
      { destruct found as [c|].
        - apply bind_Ok_inv in Hs.
          destruct Hs as (o5 & st & o6 & Hw & Hs & _).
          inversion Hs; subst e.
          apply (while_fuel_invariant
                   (fun st : Z * Z => offset < snd st <= size o))
            in Hw; [exact Hw| |simpl; lia].
          intros [sz en] s' ou Hp Hb. simpl in Hp.
          apply bind_Ok_inv in Hb.
          destruct Hb as (o7 & entry & o8 & _ & Hb & _).
          pose proof (candidate_keeps_bounds offset (size o)
                        (se_offset entry) en Hp) as Hc.
          destruct ((se_offset entry >? offset) && (se_offset entry <? en));
            inversion Hb; subst s'; simpl; lia.
        - inversion Hs; subst e. lia. }
      apply bind_Ok_inv in H1.
      destruct H1 as (o9 & found' & o10 & _ & H1 & _).
      destruct found' as [c|].
      + apply (for_n_invariant (fun en : Z => offset < en <= size o))
          in H1; [exact H1| |exact Be].
        intros i en s' ou Hp Hb.
        apply bind_Ok_inv in Hb.
        destruct Hb as (o7 & entry & o8 & _ & Hb & _).
        pose proof (candidate_keeps_bounds offset (size o)
                      (fe_offset entry) en Hp) as Hc.
        destruct ((fe_offset entry >? offset) && (fe_offset entry <? en));
          inversion Hb; subst s'; lia.
      + inversion H1; subst e1. exact Be.
    - inversion H1; subst e1. lia. }
  assert (B2 : offset < e2 <= size o).
  { destruct (script_directory_present o).
    - apply bind_Ok_inv in H2.
      destruct H2 as (o1 & count & o2 & _ & H2 & _).
      apply bind_Ok_inv in H2.
      destruct H2 as (o3 & st & o4 & Hl & H2 & _).
      apply (for_n_invariant (fun st : Z * Z => offset < snd st <= size o))
        in Hl.
      + apply bind_Ok_inv in H2.
        destruct H2 as (o5 & count' & o6 & _ & H2 & _).
        apply bind_Ok_inv in H2.
        destruct H2 as (o7 & st' & o8 & Hl' & H2 & _).
        inversion H2; subst e2.
        apply (for_n_invariant
                 (fun st : Z * Z => offset < snd st <= size o)) in Hl';
          [exact Hl'| |exact Hl].
        intros i [p en] s' ou Hp Hb. simpl in Hp.
        apply bind_Ok_inv in Hb.
        destruct Hb as (o9 & so & o10 & _ & Hb & _).
        pose proof (candidate_keeps_bounds offset (size o) so en Hp) as Hc.
        destruct ((so >? offset) && (so <? en));
          inversion Hb; subst s'; simpl; lia.
      + intros i [p en] s' ou Hp Hb. simpl in Hp.
        apply bind_Ok_inv in Hb.
        destruct Hb as (o9 & entry & o10 & _ & Hb & _).
        pose proof (candidate_keeps_bounds offset (size o)
                      (a0_offset entry) en Hp) as Hc.
        destruct ((a0_offset entry >? offset) && (a0_offset entry <? en));
          inversion Hb; subst s'; simpl; lia.
      + simpl. exact B1.
    - inversion H2; subst e2. exact B1. }
  exists e2. split; [exact B2|].
  inversion H. reflexivity.
Qed.

(** Where [calc_code_size] returns and the chunk and directory offsets
    are not negative, the size it returns does not reach past the end of
    the file. *)
Lemma calc_code_size_upper_bound (fuel : nat) (o : object) (offset r : Z)
  (out : list event) :
  calc_code_size fuel o offset = (out, Ok r) ->
  0 <= offset < size o ->
  size o <= INT_MAX ->
  0 <= chunk_offset o ->
  0 <= directory_offset o ->
  r + offset <= size o.
Proof.
  intros H Hoff Hmax Hco Hdo.
  destruct (calc_code_size_end_offset _ _ _ _ _ H ltac:(lia))
    as (e2 & B2 & ->). cbv zeta.
  set (e3 := if format_eqb (format o) FORMAT_BIG_E ||
                format_eqb (format o) FORMAT_LITTLE_E
             then if chunk_offset o <? e2 then chunk_offset o else e2
             else e2).
  assert (B3 : 0 <= e3 <= size o).
  { unfold e3.
    destruct (format_eqb (format o) FORMAT_BIG_E ||
              format_eqb (format o) FORMAT_LITTLE_E); [|lia].
    destruct (chunk_offset o <? e2) eqn:E; [|lia].
    apply Z.ltb_lt in E. lia. }
  set (e4 := if script_directory_present o && (directory_offset o <? e3)
             then directory_offset o else e3).
  assert (B4 : 0 <= e4 <= size o).
  { unfold e4.
    destruct (script_directory_present o && (directory_offset o <? e3))
      eqn:E; [|lia].
    apply andb_true_iff in E. destruct E as (_ & E).
    apply Z.ltb_lt in E. lia. }
  unfold INT_MAX in Hmax.
  rewrite to_int_id by lia. lia.
Qed.

(** Two scripts in front of the chunk section: the first ends where the
    second starts, the second where the chunk section starts. *)
Example two_scripts_extents :
  calc_code_size 2 (object_of file_two_scripts) 12 = ([], Ok 68) /\
  calc_code_size 2 (object_of file_two_scripts) 80 = ([], Ok 16).
Proof. split; vm_compute; reflexivity. Qed.

(** C4 (code defect). In a direct ACSE file with the chunk section at 8
    and a script at 28, [calc_code_size] takes the chunk offset as the end
    of the script although it is before the script, and returns -20: the
    script is shown without its code. The same happens with the
    directory offset, in an ACS0 file with the script directory at 8 and
    a script at 28. *)
Theorem calc_code_size_negative :
  (exists o : object,
     open_object file_code_after_chunks = ([], Ok o) /\
     size o = 32 /\
     chunk_offset o = 8 /\
     offset_in_object_file o 28 = true /\
     forall n : nat,
       calc_code_size (S n) o 28 = ([], Ok (-20)) /\
       exists c : chunk,
         find_chunk (S n) o SPTR = ([], Ok (Some c)) /\
         show_sptr (S n) o c =
           ([EScript 1 0 (Some "closed"%string) 0 28], Ok tt)) /\
  (exists o : object,
     open_object file_code_after_directories = ([], Ok o) /\
     size o = 32 /\
     directory_offset o = 8 /\
     offset_in_object_file o 28 = true /\
     forall fuel : nat,
       calc_code_size fuel o 28 = ([], Ok (-20)) /\
       show_script_directory fuel o =
         ([EScriptDirectory 8; ETotalScripts 1;
           EScript 1 0 (Some "closed"%string) 0 28], Ok tt)).
Proof.
  split.
  - eexists. split; [vm_compute; reflexivity|].
    split; [reflexivity|]. split; [reflexivity|]. split; [reflexivity|].
    intros n. split.
    + destruct n; vm_compute; reflexivity.
    + eexists. split.
      * destruct n; vm_compute; reflexivity.
      * destruct n; vm_compute; reflexivity.
  - eexists. split; [vm_compute; reflexivity|].
    split; [reflexivity|]. split; [reflexivity|]. split; [reflexivity|].
    intros fuel. split.
    + vm_compute. reflexivity.
    + destruct fuel; vm_compute; reflexivity.
Qed.

(* ------------------------------------------------------------------ *)
(** ** The disassembler *)

Lemma expect_pcode_data_Ok (s : pcode_segment) (sz : Z) :
  sz <= to_int (code_size s - seg_pos s) -> expect_pcode_data s sz = ret tt.
Proof.
  intros H. unfold expect_pcode_data.
  replace (to_int (code_size s - seg_pos s) <? sz) with false
    by (symmetry; apply Z.ltb_ge; lia).
  reflexivity.
Qed.

Lemma read_pcode_uchar_Ok (o : object) (s : pcode_segment) (b : byte) :
  1 <= to_int (code_size s - seg_pos s) ->
  load o (seg_data s) = ret b ->
  read_pcode_uchar o s = ret (byte_val b, advance s 1).
Proof.
  intros Hleft Hload. unfold read_pcode_uchar, load_uchar.
  rewrite expect_pcode_data_Ok by lia.
  rewrite Hload. reflexivity.
Qed.

(** C7. In small code [show_opcode] reads one byte [b]. If [b < 240] the
    instruction is [b] and the cursor has advanced by one byte. If
    [b >= 240] a second byte [c] is read, the instruction is [b + c] and
    the cursor has advanced by two bytes. *)
Theorem show_opcode_small_code (o : object) (s : pcode_segment) (b : byte) :
  small_code o = true ->
  1 <= to_int (code_size s - seg_pos s) ->
  load o (seg_data s) = ret b ->
  (byte_val b < 240 ->
   show_opcode o s =
     ([EOpcode (to_int (seg_offset s + to_int (seg_pos s)))
         (pcode_name (byte_val b))],
      Ok (set_opcode (advance s 1) (byte_val b)))) /\
  (240 <= byte_val b ->
   forall c : byte,
     2 <= to_int (code_size s - seg_pos s) ->
     load o (seg_data s + 1) = ret c ->
     show_opcode o s =
       if byte_val b + byte_val c <? PCD_TOTAL then
         ([EOpcode (to_int (seg_offset s + to_int (seg_pos s)))
             (pcode_name (byte_val b + byte_val c))],
          Ok (set_opcode (advance s 2) (byte_val b + byte_val c)))
       else
         ([EUnknownPcode (to_int (seg_offset s + to_int (seg_pos s)))
             (byte_val b + byte_val c)],
          Ok (set_invalid_opcode (advance s 2) true))).
Proof.
  intros Hsmall Hleft Hload.
  pose proof (byte_val_range b) as Hb.
  split.
  - intros Hlt. unfold show_opcode. rewrite Hsmall.
    rewrite (read_pcode_uchar_Ok o s b Hleft Hload).
    rewrite bind_ret_l.
    replace (240 <=? byte_val b) with false
      by (symmetry; apply Z.leb_gt; lia).
    rewrite bind_ret_l.
    replace ((PCD_NOP <=? byte_val b) && (byte_val b <? PCD_TOTAL))
      with true.
    + reflexivity.
    + symmetry. apply andb_true_iff. unfold PCD_NOP, PCD_TOTAL.
      rewrite Z.leb_le, Z.ltb_lt. lia.
  - intros Hge c Hleft2 Hload2.
    pose proof (byte_val_range c) as Hc.
    unfold show_opcode. rewrite Hsmall.
    rewrite (read_pcode_uchar_Ok o s b Hleft Hload).
    rewrite bind_ret_l.
    replace (240 <=? byte_val b) with true
      by (symmetry; apply Z.leb_le; lia).
    assert (Hleft' : 1 <= to_int (code_size (advance s 1)
                                  - seg_pos (advance s 1))).
    { simpl.
      replace (code_size s - (seg_pos s + 1))
        with (code_size s - seg_pos s - 1) by lia.
      rewrite to_int_pred by lia. lia. }
    assert (Hload' : load o (seg_data (advance s 1)) = ret c).
    { unfold seg_data in *. simpl.
      rewrite <- Hload2. f_equal. lia. }
    rewrite (read_pcode_uchar_Ok o (advance s 1) c Hleft' Hload').
    rewrite !bind_ret_l.
    rewrite (to_int_id (byte_val b + byte_val c)) by lia.
    replace (advance (advance s 1) 1) with (advance s 2)
      by (unfold advance; simpl; f_equal; lia).
    replace (PCD_NOP <=? byte_val b + byte_val c) with true
      by (symmetry; apply Z.leb_le; unfold PCD_NOP; lia).
    rewrite andb_true_l.
    destruct (byte_val b + byte_val c <? PCD_TOTAL); reflexivity.
Qed.

Lemma show_opcode_small_code_witness :
  show_opcode (object_of file_opcode_239) (mk_segment 8 0 1 PCD_NOP false) =
    ([EOpcode 8 (pcode_name 239)], Ok (mk_segment 8 1 1 239 false)) /\
  show_opcode (object_of file_opcode_240_5) (mk_segment 8 0 2 PCD_NOP false) =
    ([EOpcode 8 (pcode_name 245)], Ok (mk_segment 8 2 2 245 false)).
Proof.
  split.
  - apply (proj1 (show_opcode_small_code (object_of file_opcode_239)
                    (mk_segment 8 0 1 PCD_NOP false) xef
                    eq_refl ltac:(vm_compute; discriminate) eq_refl)
             eq_refl).
  - apply (proj2 (show_opcode_small_code (object_of file_opcode_240_5)
                    (mk_segment 8 0 2 PCD_NOP false) xf0
                    eq_refl ltac:(vm_compute; discriminate) eq_refl)
             ltac:(vm_compute; discriminate) x05
             ltac:(vm_compute; discriminate) eq_refl).
Defined.

(* ------------------------------------------------------------------ *)
(** ** Entries that point outside the file *)

(** C9. A script entry of SPTR, a function entry of FUNC or a script
    entry of the script directory whose code offset is not in the file
    has its line printed, then a warning, and nothing else; the loop goes
    on with the next entry of the table. *)
Theorem entries_outside_file_are_skipped (fuel : nat) (o : object) :
  (forall (n : nat) (c : chunk) (pos : Z) (entry : common_acse_script_entry),
     (pos <? ch_size c) = true ->
     read_acse_script_entry o c (ch_data c + pos) = ret entry ->
     offset_in_object_file o (se_offset entry) = false ->
     show_sptr_from (S n) fuel o c pos =
       (print (EScript (se_number entry) (se_type entry)
                 (get_script_type_name (se_type entry))
                 (se_num_param entry) (se_offset entry)) ;;
        print (EWarning (MsgScriptCodeNotShown (se_offset entry))) ;;
        show_sptr_from n fuel o c (to_int (pos + real_entry_size entry)))) /\
  (forall (n : nat) (c : chunk) (i : Z) (entry : func_entry),
     load_func_entry o (ch_data c + i * 8) = ret entry ->
     offset_in_object_file o (fe_offset entry) = false ->
     show_func_from (S n) fuel o c i =
       (print (EFunc i (fe_num_param entry) (fe_size entry)
                 (fe_has_return entry) (fe_offset entry)) ;;
        print (EWarning (MsgFunctionCodeNotShown (fe_offset entry))) ;;
        show_func_from n fuel o c (i + 1))) /\
  (forall (n : nat) (i p : Z) (entry : acs0_script_entry),
     12 <= data_left o p ->
     load_acs0_script_entry o p = ret entry ->
     offset_in_object_file o (a0_offset entry) = false ->
     show_script_directory_from (S n) fuel o i p =
       (print (EScript (Z.rem (a0_number entry) 1000)
                 (Z.quot (a0_number entry) 1000)
                 (get_script_type_name (Z.quot (a0_number entry) 1000))
                 (a0_num_param entry) (a0_offset entry)) ;;
        print (EWarning (MsgScriptCodeNotShown (a0_offset entry))) ;;
        show_script_directory_from n fuel o (i + 1) (p + 12))).
Proof.
  split; [|split].
  - intros n c pos entry Hpos Hread Hout.
    unfold show_sptr_from. simpl while_fuel. rewrite Hpos.
    unfold show_sptr_entry.
    rewrite Hread, bind_ret_l, Hout, diag_warn.
    rewrite !bind_assoc, !bind_print, bind_ret_l. reflexivity.
  - intros n c i entry Hload Hout.
    unfold show_func_from. simpl for_n.
    unfold show_func_entry.
    rewrite Hload, bind_ret_l, Hout, diag_warn.
    rewrite !bind_assoc, !bind_print. reflexivity.
  - intros n i p entry Hleft Hload Hout.
    unfold show_script_directory_from. simpl for_n.
    unfold show_script_directory_entry.
    rewrite expect_data_Ok by exact Hleft.
    rewrite bind_ret_l, Hload, bind_ret_l, Hout, diag_warn.
    rewrite !bind_assoc, !bind_print, bind_ret_l. reflexivity.
Qed.

Lemma entries_outside_file_are_skipped_witness :
  show_sptr_from 2 4 (object_of file_entries_outside)
    (mk_chunk SPTR 20 16 CHUNK_SPTR) 0 =
    ([EScript 1 0 (Some "closed"%string) 0 1000;
      EWarning (MsgScriptCodeNotShown 1000);
      EScript 2 1 (Some "open"%string) 0 8;
      EOpcode 8 "terminate"%string; ENewline], Ok 16) /\
  show_func_from 2 4 (object_of file_entries_outside)
    (mk_chunk FUNC 44 16 CHUNK_FUNC) 0 =
    ([EFunc 0 1 2 0 (-5); EWarning (MsgFunctionCodeNotShown (-5));
      EFunc 1 0 0 1 0; EImported], Ok tt) /\
  show_script_directory_from 2 4 (object_of file_entries_outside) 0 72 =
    ([EScript 1 0 (Some "closed"%string) 0 2000;
      EWarning (MsgScriptCodeNotShown 2000);
      EScript 2 1 (Some "open"%string) 0 8;
      EOpcode 8 "terminate"%string; ENewline], Ok 96).
Proof.
  pose proof (entries_outside_file_are_skipped 4
                (object_of file_entries_outside)) as (Hs & Hf & Hd).
  split; [|split].
  - exact (Hs 1%nat (mk_chunk SPTR 20 16 CHUNK_SPTR) 0
             (mk_script_entry 1 0 0 1000 8) eq_refl eq_refl eq_refl).
  - exact (Hf 1%nat (mk_chunk FUNC 44 16 CHUNK_FUNC) 0
             (mk_func_entry 1 2 0 0 (-5)) eq_refl eq_refl).
  - exact (Hd 1%nat 0 72 (mk_acs0_entry 1 2000 0)
             ltac:(vm_compute; discriminate) eq_refl eq_refl).
Defined.

(** The chunks of [file_entries_outside] as the walker finds them, and
    the whole of its dump of SPTR, FUNC and the script directory. *)
Example entries_outside_file_dump :
  find_chunk 4 (object_of file_entries_outside) SPTR =
    ([], Ok (Some (mk_chunk SPTR 20 16 CHUNK_SPTR))) /\
  find_chunk 4 (object_of file_entries_outside) FUNC =
    ([], Ok (Some (mk_chunk FUNC 44 16 CHUNK_FUNC))) /\
  show_sptr 4 (object_of file_entries_outside)
    (mk_chunk SPTR 20 16 CHUNK_SPTR) =
    ([EScript 1 0 (Some "closed"%string) 0 1000;
      EWarning (MsgScriptCodeNotShown 1000);
      EScript 2 1 (Some "open"%string) 0 8;
      EOpcode 8 "terminate"%string; ENewline], Ok tt) /\
  show_func 4 (object_of file_entries_outside)
    (mk_chunk FUNC 44 16 CHUNK_FUNC) =
    ([EFunc 0 1 2 0 (-5); EWarning (MsgFunctionCodeNotShown (-5));
      EFunc 1 0 0 1 0; EImported], Ok tt) /\
  show_script_directory 4 (object_of file_entries_outside) =
    ([EScriptDirectory 68; ETotalScripts 2;
      EScript 1 0 (Some "closed"%string) 0 2000;
      EWarning (MsgScriptCodeNotShown 2000);
      EScript 2 1 (Some "open"%string) 0 8;
      EOpcode 8 "terminate"%string; ENewline], Ok tt).
Proof.
  split; [vm_compute; reflexivity|].
  split; [vm_compute; reflexivity|].
  split; [vm_compute; reflexivity|].
  split; vm_compute; reflexivity.
Qed.

(* ------------------------------------------------------------------ *)
(** ** Strings *)

(** C3 (code defect). [show_string_directory] passes the string offset
    1000 of a 20-byte ACS0 file to [show_string] unchecked, and the first
    byte of the string is read outside the buffer. *)
Theorem string_directory_offset_unchecked :
  exists o : object,
    open_object file_acs0_string_1000 = ([], Ok o) /\
    size o = 20 /\
    forall fuel : nat,
      show_string_directory fuel o =
        ([EStringDirectory 12; ETotalStrings 1; EStringHead 0 1000],
         Fault 1000).
Proof.
  eexists. split; [vm_compute; reflexivity|].
  split; [reflexivity|].
  intros fuel. destruct fuel; vm_compute; reflexivity.
Qed.

Lemma decode_encode_ch (s k : Z) (c : byte) :
  0 <= k -> decode_ch s k (encode_ch s k c) = c.
Proof.
  intros Hk. unfold decode_ch, encode_ch.
  rewrite Z.quot_div_nonneg by lia.
  set (K := s * 157135 + k / 2).
  apply byte_of_mod.
  rewrite byte_val_of.
  rewrite lxor_mod_256, Z.mod_mod by lia.
  rewrite to_int_mod_256.
  rewrite lxor_mod_256, Z.mod_mod by lia.
  rewrite (Z.mod_small (byte_val c)) by apply byte_val_range.
  rewrite Z.lxor_assoc, Z.lxor_nilpotent, Z.lxor_0_r. reflexivity.
Qed.

Lemma decode_encode_from (s : Z) (l : list byte) :
  forall k : Z, 0 <= k -> decode_from s k (encode_from s k l) = l.
Proof.
  induction l as [|c l IH]; intros k Hk; simpl.
  - reflexivity.
  - rewrite decode_encode_ch by lia. rewrite IH by lia. reflexivity.
Qed.

(** [show_string] on the stored form of the characters [l], from
    character [i] on. *)
Lemma show_string_from_encoded (o : object) (s value : Z) (l : list byte) :
  forall (i : Z) (fuel : nat),
    0 <= i ->
    ~ In x00 l ->
    (forall (k : nat) (b : byte),
       nth_error (encode_from s i (l ++ [x00])) k = Some b ->
       load o (value + i + Z.of_nat k) = ret b) ->
    (List.length l <= fuel)%nat ->
    show_string_from fuel o s value i true =
      (map EChar (flat_map escaped l), Ok tt).
Proof.
  induction l as [|c l IH]; intros i fuel Hi Hnul Hmem Hfuel.
  - rewrite show_string_from_eq.
    pose proof (Hmem 0%nat _ eq_refl) as H0.
    rewrite Z.add_0_r in H0. rewrite H0, bind_ret_l.
    rewrite decode_encode_ch by lia. reflexivity.
  - rewrite show_string_from_eq.
    pose proof (Hmem 0%nat _ eq_refl) as H0.
    rewrite Z.add_0_r in H0. rewrite H0, bind_ret_l.
    rewrite decode_encode_ch by lia.
    assert (Hc : Byte.eqb c x00 = false).
    { apply byte_eqb_neq. intros E. apply Hnul. left. auto. }
    cbv zeta. rewrite Hc.
    destruct fuel as [|fuel]; [simpl in Hfuel; lia|].
    rewrite bind_out.
    assert (Hrest : show_string_from fuel o s value (i + 1) true =
                    (map EChar (flat_map escaped l), Ok tt)).
    { apply IH.
      - lia.
      - intros E. apply Hnul. right. exact E.
      - intros k b Hk.
        replace (value + (i + 1) + Z.of_nat k)
          with (value + i + Z.of_nat (S k)) by lia.
        apply Hmem. exact Hk.
      - simpl in Hfuel. lia. }
    rewrite Hrest. cbn [fst snd flat_map]. rewrite map_app. reflexivity.
Qed.

(** [is_strl_stre_string_nul_terminated] on the stored form of the
    characters [l], from character [idx] on. *)
Lemma nul_terminated_from_encoded (o : object) (c : chunk) (s : Z)
  (l : list byte) :
  chunk_is_stre c = true ->
  forall (idx : Z) (n : nat),
    0 <= idx ->
    (forall (k : nat) (b : byte),
       nth_error (encode_from s idx (l ++ [x00])) k = Some b ->
       load o (ch_data c + (s + idx) + Z.of_nat k) = ret b) ->
    (List.length l < n)%nat ->
    nul_terminated_from n o c s (s + idx) = ret true.
Proof.
  intros Hstre.
  induction l as [|ch l IH]; intros idx n Hidx Hmem Hn.
  - destruct n as [|n]; [simpl in Hn; lia|].
    simpl nul_terminated_from.
    pose proof (Hmem 0%nat _ eq_refl) as H0.
    rewrite Z.add_0_r in H0. rewrite H0, bind_ret_l, Hstre.
    replace (s + idx - s) with idx by lia.
    rewrite decode_encode_ch by lia. reflexivity.
  - destruct n as [|n]; [simpl in Hn; lia|].
    simpl nul_terminated_from.
    pose proof (Hmem 0%nat _ eq_refl) as H0.
    rewrite Z.add_0_r in H0. rewrite H0, bind_ret_l, Hstre.
    replace (s + idx - s) with idx by lia.
    rewrite decode_encode_ch by lia.
    destruct (Byte.eqb ch x00); [reflexivity|].
    replace (s + idx + 1) with (s + (idx + 1)) by lia.
    apply IH.
    + lia.
    + intros k b Hk.
      replace (ch_data c + (s + (idx + 1)) + Z.of_nat k)
        with (ch_data c + (s + idx) + Z.of_nat (S k)) by lia.
      apply Hmem. exact Hk.
    + simpl in Hn. lia.
Qed.

(** C8. Decoding undoes the encoding of an STRE string, for every string
    and every chunk-local offset [s]: character by character,
    [decode_ch] recovers the byte that was encoded; and where the buffer
    holds the stored form of a string [str] at chunk-local offset [s],
    the string passes the check for termination and [show_string] writes
    the characters of [str], each with its escape ([escaped]: the double
    quote, the carriage return and the line feed are written as a
    backslash and a second character, every other character as it
    is). *)
Theorem stre_decode_encode (s : Z) :
  (forall (k : Z) (c : byte),
     0 <= k -> decode_ch s k (encode_ch s k c) = c) /\
  (forall str : list byte,
     decode_from s 0 (stre_encode s str) = str ++ [x00]) /\
  (forall (o : object) (value : Z) (str : list byte),
     (forall (k : nat) (b : byte),
        nth_error (stre_encode s str) k = Some b ->
        load o (value + Z.of_nat k) = ret b) ->
     ~ In x00 str ->
     (forall (fuel : nat) (index : Z),
        (List.length str <= fuel)%nat ->
        show_string fuel o index s value true =
          (EStringHead index s :: map EChar (flat_map escaped str) ++
           [EStringEnd], Ok tt)) /\
     (forall c : chunk,
        chunk_is_stre c = true ->
        value = ch_data c + s ->
        Z.of_nat (List.length str) < ch_size c - s ->
        is_strl_stre_string_nul_terminated o c s = ret true)).
Proof.
  split; [|split].
  - intros k c Hk. apply decode_encode_ch. exact Hk.
  - intros str. unfold stre_encode. apply decode_encode_from. lia.
  - intros o value str Hmem Hnul. split.
    + intros fuel index Hfuel. unfold show_string.
      rewrite bind_print.
      rewrite (show_string_from_encoded o s value str 0 fuel); try lia;
        try assumption.
      * reflexivity.
      * intros k b Hk. rewrite Z.add_0_r. apply Hmem. exact Hk.
    + intros c Hstre Hvalue Hsize.
      unfold is_strl_stre_string_nul_terminated.
      replace s with (s + 0) at 3 by lia.
      apply (nul_terminated_from_encoded o c s str Hstre); try lia.
      intros k b Hk. rewrite Z.add_0_r, <- Hvalue.
      apply Hmem. exact Hk.
Qed.

Lemma stre_decode_encode_witness :
  show_string 3 (object_of file_stre_abc) 0 20 36 true =
    (EStringHead 0 20 ::
     map EChar (flat_map escaped (list_byte_of_string "ABC")) ++
     [EStringEnd], Ok tt) /\
  is_strl_stre_string_nul_terminated (object_of file_stre_abc)
    (mk_chunk (list_byte_of_string "STRE") 16 24 CHUNK_STRE) 20 = ret true.
Proof.
  assert (Hmem : forall (k : nat) (b : byte),
            nth_error (stre_encode 20 (list_byte_of_string "ABC")) k = Some b ->
            load (object_of file_stre_abc) (36 + Z.of_nat k) = ret b).
  { intros k b H.
    do 4 (destruct k as [|k]; [inversion H; vm_compute; reflexivity|]).
    vm_compute in H. destruct k; discriminate. }
  assert (Hnul : ~ In x00 (list_byte_of_string "ABC")).
  { intros [H|[H|[H|[]]]]; discriminate. }
  destruct (proj2 (proj2 (stre_decode_encode 20))
              (object_of file_stre_abc) 36 (list_byte_of_string "ABC")
              Hmem Hnul) as (Hshow & Hterm).
  split.
  - apply Hshow. apply le_n.
  - apply Hterm.
    + reflexivity.
    + reflexivity.
    + reflexivity.
Defined.

(** The STRE chunk of [file_stre_abc] as the walker finds it, and its
    dump. *)
Example stre_chunk_dump :
  find_chunk 2 (object_of file_stre_abc) (list_byte_of_string "STRE") =
    ([], Ok (Some (mk_chunk (list_byte_of_string "STRE") 16 24 CHUNK_STRE))) /\
  show_strl_stre 3 (object_of file_stre_abc)
    (mk_chunk (list_byte_of_string "STRE") 16 24 CHUNK_STRE) =
    ([ETableSize 1; EStringHead 0 20;
      EChar "A"%byte; EChar "B"%byte; EChar "C"%byte; EStringEnd], Ok tt).
Proof. split; vm_compute; reflexivity. Qed.

(* ------------------------------------------------------------------ *)
(** ** Runs that end well *)

Lemma ends_well_ret {A} (P : A -> Prop) (a : A) : P a -> ends_well P (ret a).
Proof. intros H. exact H. Qed.

Lemma ends_well_bail {A} (P : A -> Prop) (out : list event) :
  ends_well P (out, @Bail A).
Proof. exact I. Qed.

Lemma ends_well_bind {A B} (Q : A -> Prop) (P : B -> Prop) (m : M A)
  (f : A -> M B) :
  ends_well Q m ->
  (forall a : A, Q a -> ends_well P (f a)) ->
  ends_well P (bind m f).
Proof.
  unfold ends_well, bind. destruct m as [out [a| | |]]; simpl; try tauto.
  intros Ha Hf. specialize (Hf a Ha). destruct (f a) as [out' r]. exact Hf.
Qed.

Lemma ends_well_weaken {A} (P Q : A -> Prop) (m : M A) :
  ends_well P m -> (forall a : A, P a -> Q a) -> ends_well Q m.
Proof.
  unfold ends_well. destruct (snd m); auto.
Qed.

Lemma ends_well_print {A} (P : A -> Prop) (e : event) (k : unit -> M A) :
  ends_well P (k tt) -> ends_well P (bind (print e) k).
Proof.
  intros H. rewrite bind_print. exact H.
Qed.

Lemma ends_well_out {A} (P : A -> Prop) (out : list event)
  (k : unit -> M A) :
  ends_well P (k tt) -> ends_well P (bind (out, Ok tt) k).
Proof.
  intros H. rewrite bind_out. exact H.
Qed.

Lemma ends_well_diag_bail {A} (P : A -> Prop) (flags : Z) (m : diag_msg) :
  ends_well P (diag flags m ;; bail).
Proof.
  unfold diag, bind, bail, print, ret, ends_well.
  destruct (Z.testbit flags 0); [exact I|].
  destruct (Z.testbit flags 1); exact I.
Qed.

Lemma ends_well_Ok_inv {A} (P : A -> Prop) (m : M A) (out : list event)
  (a : A) : ends_well P m -> m = (out, Ok a) -> P a.
Proof.
  intros H E. rewrite E in H. exact H.
Qed.

(** [for_n] keeps an invariant that may depend on the index. *)
Lemma ends_well_for_n {St : Type} (Inv : Z -> St -> Prop)
  (body : Z -> St -> M St) :
  (forall (i : Z) (s : St), Inv i s -> ends_well (Inv (i + 1)) (body i s)) ->
  forall (n : nat) (i : Z) (s : St),
    Inv i s -> ends_well (Inv (i + Z.of_nat n)) (for_n n i body s).
Proof.
  intros Hbody n. induction n as [|n IH]; intros i s Hs.
  - simpl. rewrite Z.add_0_r. exact Hs.
  - simpl for_n. apply (ends_well_bind (Inv (i + 1))).
    + apply Hbody. exact Hs.
    + intros s' Hs'.
      replace (i + Z.of_nat (S n)) with (i + 1 + Z.of_nat n) by lia.
      apply IH. exact Hs'.
Qed.

(** [while_fuel] keeps an invariant and ends when a measure that the
    body decreases fits in the fuel. *)
Lemma ends_well_while_fuel {St : Type} (Inv : St -> Prop) (mu : St -> nat)
  (cond : St -> bool) (body : St -> M St) :
  (forall s : St, Inv s -> cond s = true -> (0 < mu s)%nat) ->
  (forall s : St, Inv s -> cond s = true ->
     ends_well (fun s' => Inv s' /\ (mu s' < mu s)%nat) (body s)) ->
  forall (fuel : nat) (s : St),
    Inv s -> (mu s <= fuel)%nat ->
    ends_well (fun s' => Inv s' /\ cond s' = false)
      (while_fuel fuel cond body s).
Proof.
  intros Hpos Hbody fuel. induction fuel as [|fuel IH]; intros s Hs Hmu.
  - simpl. destruct (cond s) eqn:E.
    + specialize (Hpos s Hs E). lia.
    + apply ends_well_ret. auto.
  - simpl. destruct (cond s) eqn:E.
    + apply (ends_well_bind (fun s' => Inv s' /\ (mu s' < mu s)%nat)).
      * apply Hbody; assumption.
      * intros s' (Hs' & Hlt). apply IH; [exact Hs'|lia].
    + apply ends_well_ret. auto.
Qed.

(* ------------------------------------------------------------------ *)
(** ** Reads inside the buffer *)

Lemma load_ok (o : object) (i : Z) :
  buffer_ok o -> 0 <= i <= size o -> exists b : byte, load o i = ret b.
Proof.
  intros (Hlen & Hsz) Hi. unfold load.
  replace ((0 <=? i) && (i <=? size o)) with true
    by (symmetry; apply andb_true_iff; rewrite !Z.leb_le; lia).
  destruct (nth_error (data o) (Z.to_nat i)) as [b|] eqn:E.
  - exists b. reflexivity.
  - exfalso. apply nth_error_None in E. lia.
Qed.

Lemma load_bytes_ok (o : object) (n : nat) :
  buffer_ok o ->
  forall p : Z,
    0 <= p -> p + Z.of_nat n <= size o + 1 ->
    exists bs : list byte,
      load_bytes o p n = ret bs /\ List.length bs = n.
Proof.
  intros Hbuf. induction n as [|n IH]; intros p Hp Hn.
  - exists []. split; reflexivity.
  - destruct (load_ok o p Hbuf ltac:(lia)) as (b & Hb).
    destruct (IH (p + 1) ltac:(lia) ltac:(lia)) as (bs & Hbs & Hl).
    exists (b :: bs). simpl load_bytes.
    rewrite Hb, bind_ret_l, Hbs, bind_ret_l. split; [reflexivity|].
    simpl. rewrite Hl. reflexivity.
Qed.

Lemma le_unsigned_range (bs : list byte) :
  0 <= le_unsigned bs < 256 ^ Z.of_nat (List.length bs).
Proof.
  induction bs as [|b bs IH].
  - simpl. lia.
  - change (le_unsigned (b :: bs)) with (byte_val b + 256 * le_unsigned bs).
    replace (Z.of_nat (List.length (b :: bs)))
      with (Z.succ (Z.of_nat (List.length bs))) by (simpl; lia).
    rewrite Z.pow_succ_r by lia.
    pose proof (byte_val_range b). lia.
Qed.

Lemma load_int_ok (o : object) (p : Z) :
  buffer_ok o -> 0 <= p -> p + 4 <= size o + 1 ->
  exists v : Z, load_int o p = ret v /\ - 2 ^ 31 <= v < 2 ^ 31.
Proof.
  intros Hbuf Hp Hn.
  destruct (load_bytes_ok o 4 Hbuf p Hp ltac:(lia)) as (bs & Hbs & _).
  exists (to_int (le_unsigned bs)). unfold load_int.
  rewrite Hbs, bind_ret_l. split; [reflexivity|apply to_int_range].
Qed.

Lemma load_uint_ok (o : object) (p : Z) :
  buffer_ok o -> 0 <= p -> p + 4 <= size o + 1 ->
  exists v : Z, load_uint o p = ret v /\ 0 <= v < 2 ^ 32.
Proof.
  intros Hbuf Hp Hn.
  destruct (load_bytes_ok o 4 Hbuf p Hp ltac:(lia)) as (bs & Hbs & Hl).
  exists (le_unsigned bs). unfold load_uint.
  rewrite Hbs, bind_ret_l. split; [reflexivity|].
  pose proof (le_unsigned_range bs) as Hr. rewrite Hl in Hr. exact Hr.
Qed.

Lemma to_short_range (z : Z) : - 2 ^ 15 <= to_short z < 2 ^ 15.
Proof.
  unfold to_short.
  pose proof (Z.mod_pos_bound (z + 2 ^ 15) (2 ^ 16) ltac:(lia)). lia.
Qed.

Lemma load_short_ok (o : object) (p : Z) :
  buffer_ok o -> 0 <= p -> p + 2 <= size o + 1 ->
  exists v : Z, load_short o p = ret v /\ - 2 ^ 15 <= v < 2 ^ 15.
Proof.
  intros Hbuf Hp Hn.
  destruct (load_bytes_ok o 2 Hbuf p Hp ltac:(lia)) as (bs & Hbs & _).
  exists (to_short (le_unsigned bs)). unfold load_short.
  rewrite Hbs, bind_ret_l. split; [reflexivity|apply to_short_range].
Qed.

Lemma load_uchar_ok (o : object) (p : Z) :
  buffer_ok o -> 0 <= p <= size o ->
  exists v : Z, load_uchar o p = ret v /\ 0 <= v < 256.
Proof.
  intros Hbuf Hp.
  destruct (load_ok o p Hbuf Hp) as (b & Hb).
  exists (byte_val b). unfold load_uchar.
  rewrite Hb, bind_ret_l. split; [reflexivity|apply byte_val_range].
Qed.

(** A read that succeeds was inside the buffer. *)
Lemma load_Ok_inv (o : object) (i : Z) (out : list event) (b : byte) :
  load o i = (out, Ok b) -> 0 <= i <= size o.
Proof.
  unfold load.
  destruct ((0 <=? i) && (i <=? size o)) eqn:E; [|discriminate].
  intros _. apply andb_true_iff in E. rewrite !Z.leb_le in E. exact E.
Qed.

Lemma load_bytes_Ok_inv (o : object) (n : nat) :
  forall (p : Z) (out : list event) (bs : list byte),
    load_bytes o p (S n) = (out, Ok bs) ->
    0 <= p /\ p + Z.of_nat n <= size o.
Proof.
  induction n as [|n IH]; intros p out bs H.
  - simpl in H. apply bind_Ok_inv in H.
    destruct H as (o1 & b & o2 & Hb & _).
    apply load_Ok_inv in Hb. lia.
  - change (load_bytes o p (S (S n))) with
      (b <- load o p ;; bs <- load_bytes o (p + 1) (S n) ;; ret (b :: bs))
      in H.
    apply bind_Ok_inv in H. destruct H as (o1 & b & o2 & Hb & H & _).
    apply load_Ok_inv in Hb.
    apply bind_Ok_inv in H. destruct H as (o3 & bs' & o4 & Hbs & _).
    apply IH in Hbs. lia.
Qed.

Lemma loaded_buffer_ok (file : list byte) (v : viewer) (out : list event) :
  read_object_file file = (out, Ok v) ->
  buffer_ok (init_object (object_data v) (object_size v)).
Proof.
  intros H. apply read_object_file_Ok in H. destruct H as (Hd & Hs & Hm).
  unfold buffer_ok. simpl. rewrite Hd, Hs, length_app. simpl.
  rewrite Hs in Hm. lia.
Qed.

Lemma expect_data_Ok_inv (o : object) (p sz : Z) (out : list event)
  (u : unit) :
  expect_data o p sz = (out, Ok u) -> sz <= data_left o p.
Proof.
  unfold expect_data. destruct (data_left o p <? sz) eqn:E.
  - intros H. exfalso. exact (diag_bail_not_Ok _ _ _ _ H).
  - intros _. apply Z.ltb_ge in E. exact E.
Qed.

Lemma data_left_id (o : object) (p : Z) :
  buffer_ok o -> 0 <= p <= 2 ^ 31 -> data_left o p = size o - p.
Proof.
  intros (_ & Hs) Hp. unfold data_left, INT_MAX in *.
  apply to_int_id. lia.
Qed.

Lemma load_bytes_spec (o : object) (n : nat) :
  buffer_ok o ->
  forall p : Z,
    0 <= p -> p + Z.of_nat n <= size o + 1 ->
    load_bytes o p n = ret (firstn n (skipn (Z.to_nat p) (data o))).
Proof.
  intros Hbuf. induction n as [|n IH]; intros p Hp Hn.
  - reflexivity.
  - simpl load_bytes. unfold load.
    replace ((0 <=? p) && (p <=? size o)) with true
      by (symmetry; apply andb_true_iff; rewrite !Z.leb_le; lia).
    destruct (nth_error (data o) (Z.to_nat p)) as [b|] eqn:E.
    + rewrite bind_ret_l, (IH (p + 1)) by lia. rewrite bind_ret_l.
      rewrite (skipn_nth_error _ _ _ E).
      replace (Z.to_nat (p + 1)) with (S (Z.to_nat p)) by lia.
      reflexivity.
    + exfalso. apply nth_error_None in E. destruct Hbuf as (Hl & _). lia.
Qed.

(* ------------------------------------------------------------------ *)
(** ** The arguments of CASEGOTOSORTED *)

Ltac seg_lia :=
  unfold seg_data, advance; cbn [seg_offset seg_pos code_size]; lia.

Lemma advance_advance (s : pcode_segment) (a b : Z) :
  advance (advance s a) b = advance s (a + b).
Proof.
  unfold advance. cbn [seg_offset seg_pos code_size seg_opcode invalid_opcode].
  f_equal. lia.
Qed.

Lemma load_int_at (o : object) (p : Z) :
  buffer_ok o -> 0 <= p -> p + 4 <= size o + 1 ->
  load_int o p = ret (i32_at (data o) p).
Proof.
  intros Hbuf Hp Hn. unfold load_int, i32_at.
  rewrite (load_bytes_spec o 4 Hbuf p Hp) by lia.
  rewrite bind_ret_l. reflexivity.
Qed.

(** A segment that lies in the file, the cursor in the segment. *)
Lemma read_pcode_int_at (o : object) (s : pcode_segment) :
  buffer_ok o ->
  0 <= seg_offset s -> 0 <= seg_pos s ->
  seg_offset s + code_size s <= size o ->
  4 <= code_size s - seg_pos s ->
  read_pcode_int o s = ret (i32_at (data o) (seg_data s), advance s 4).
Proof.
  intros Hbuf Ho Hp Hfile Hleft.
  pose proof (proj2 Hbuf) as Hsz. unfold INT_MAX in Hsz.
  unfold read_pcode_int.
  rewrite expect_pcode_data_Ok by (rewrite to_int_id; lia).
  rewrite bind_ret_l.
  rewrite (load_int_at o (seg_data s) Hbuf) by seg_lia.
  rewrite bind_ret_l. reflexivity.
Qed.

Lemma case_pairs_step (bytes : list byte) (b : Z) (n : nat) :
  map (fun j => (i32_at bytes (b + 8 * Z.of_nat j),
                 i32_at bytes (b + 8 * Z.of_nat j + 4))) (seq 0 (S n)) =
  (i32_at bytes b, i32_at bytes (b + 4)) ::
  map (fun j => (i32_at bytes (b + 8 + 8 * Z.of_nat j),
                 i32_at bytes (b + 8 + 8 * Z.of_nat j + 4))) (seq 0 n).
Proof.
  cbn [seq map]. rewrite <- seq_shift, map_map.
  f_equal.
  - f_equal; f_equal; lia.
  - apply map_ext. intros j. f_equal; f_equal; lia.
Qed.

(** The loop of [show_cases] on [n] cases that lie in the segment. *)
Lemma show_cases_loop (o : object) (n : nat) :
  buffer_ok o ->
  forall (i : Z) (s : pcode_segment),
    0 <= seg_offset s -> 0 <= seg_pos s ->
    seg_offset s + code_size s <= size o ->
    8 * Z.of_nat n <= code_size s - seg_pos s ->
    for_n n i
      (fun _ s =>
         r <- read_pcode_int o s ;;
         let (value, s) := r in
         print (ECaseValue (to_int (seg_offset s + to_int (seg_pos s)))
                  value) ;;
         r <- read_pcode_int o s ;;
         let (offset, s) := r in
         print (ECaseTarget offset) ;;
         ret s)
      s =
    (case_lines (seg_data s)
       (map (fun j => (i32_at (data o) (seg_data s + 8 * Z.of_nat j),
                       i32_at (data o) (seg_data s + 8 * Z.of_nat j + 4)))
          (seq 0 n)),
     Ok (advance s (8 * Z.of_nat n))).
Proof.
  intros Hbuf. pose proof (proj2 Hbuf) as Hsz. unfold INT_MAX in Hsz.
  induction n as [|n IH]; intros i s Ho Hp Hfile Hleft.
  - cbn [for_n seq map case_lines]. unfold ret. f_equal. f_equal.
    unfold advance. destruct s. cbn. f_equal. lia.
  - rewrite case_pairs_step. cbn [for_n case_lines].
    rewrite (read_pcode_int_at o s Hbuf Ho Hp Hfile) by lia.
    rewrite bind_ret_l. rewrite bind_print.
    assert (Hp1 : 0 <= seg_pos (advance s 4)) by seg_lia.
    rewrite (read_pcode_int_at o (advance s 4) Hbuf Ho Hp1 Hfile)
      by seg_lia.
    rewrite bind_ret_l. rewrite bind_print.
    change (fst (ret (advance (advance s 4) 4))) with (@nil event).
    change (snd (ret (advance (advance s 4) 4)))
      with (Ok (advance (advance s 4) 4)).
    cbn [fst snd]. rewrite bind_Ok.
    rewrite advance_advance.
    rewrite (IH (i + 1) (advance s (4 + 4)) Ho ltac:(seg_lia) Hfile
               ltac:(seg_lia)).
    rewrite advance_advance.
    cbn [fst snd app].
    replace (seg_data (advance s (4 + 4))) with (seg_data s + 8)
      by seg_lia.
    replace (seg_data (advance s 4)) with (seg_data s + 4)
      by seg_lia.
    replace (to_int (seg_offset (advance s 4) +
                     to_int (seg_pos (advance s 4))))
      with (seg_data s + 4)
      by (unfold seg_data, advance; cbn [seg_offset seg_pos code_size];
          rewrite (to_int_id (seg_pos s + 4)) by lia;
          rewrite to_int_id by lia; lia).
    f_equal. f_equal. f_equal. lia.
Qed.

(** [show_cases] on a count and cases that lie in the segment: what it
    writes and where it leaves the cursor. *)
Lemma show_cases_layout (o : object) (s : pcode_segment) (count : Z)
  (pairs : list (Z * Z)) :
  buffer_ok o ->
  0 <= seg_offset s -> 0 <= seg_pos s ->
  seg_offset s + code_size s <= size o ->
  casegotosorted_layout 0 (data o) (seg_data s) = (count, pairs) ->
  casegotosorted_size 0 count <= code_size s - seg_pos s ->
  show_cases o s =
    (ENumCases count :: case_lines (seg_data s + 4) pairs,
     Ok (advance s (casegotosorted_size 0 count))).
Proof.
  intros Hbuf Ho Hp Hfile Hlay Hleft.
  unfold casegotosorted_size in *. unfold casegotosorted_layout in Hlay.
  cbv zeta in Hlay. rewrite Z.add_0_r in Hlay.
  pose proof (f_equal fst Hlay) as Hcount.
  pose proof (f_equal snd Hlay) as Hpairs.
  cbn [fst snd] in Hcount, Hpairs. clear Hlay.
  rewrite Hcount in Hpairs.
  unfold show_cases.
  rewrite (read_pcode_int_at o s Hbuf Ho Hp Hfile) by lia.
  rewrite Hcount. rewrite bind_ret_l. rewrite bind_print.
  rewrite (show_cases_loop o (Z.to_nat count) Hbuf 0 (advance s 4) Ho
             ltac:(seg_lia) Hfile ltac:(seg_lia)).
  rewrite advance_advance. cbn [fst snd].
  replace (seg_data (advance s 4)) with (seg_data s + 4)
    by seg_lia.
  rewrite Hpairs.
  f_equal. f_equal. f_equal. lia.
Qed.

Lemma casegotosorted_layout_padding (padding : Z) (bytes : list byte)
  (p : Z) :
  casegotosorted_layout 0 bytes (p + padding) =
  casegotosorted_layout padding bytes p.
Proof.
  unfold casegotosorted_layout. cbv zeta. rewrite Z.add_0_r. reflexivity.
Qed.

Lemma padding_to_align_cases (p : Z) :
  (p mod 4 = 0 /\ padding_to_align p = 0) \/
  (0 < p mod 4 < 4 /\ padding_to_align p = 4 - p mod 4).
Proof.
  unfold padding_to_align.
  pose proof (Z.mod_pos_bound p 4 ltac:(lia)) as Hr.
  destruct (Z.eq_dec (p mod 4) 0) as [E|E].
  - left. rewrite E. split; reflexivity.
  - right. rewrite (Z.mod_small (4 - p mod 4)) by lia. lia.
Qed.

(** C6 (counterexample). The script at offset 9 of the file has its
    CASEGOTOSORTED (at 11, two bytes) followed by a cursor that is 4
    bytes from the start of the segment, so that the padding reckoned
    from the start of the segment is 0 and the layout with that padding
    has its count in the bytes 13 to 16: 16777216. The code consumes
    three bytes of padding and reads the count 1 at 16 and one case, as
    the layout with padding 3 has it: what it writes is not what the
    layout with the padding 0 gives. *)
Lemma casegotosorted_segment_relative_counterexample :
  exists (o : object) (s s' : pcode_segment),
    open_object file_casegotosorted_at_9 = ([], Ok o) /\
    show_opcode o (mk_segment 9 2 19 PCD_NOP false) =
      ([EOpcode 11 "casegotosorted"%string], Ok s) /\
    seg_pos s mod 4 = 0 /\
    padding_to_align (seg_pos s) = 0 /\
    fst (casegotosorted_layout (padding_to_align (seg_pos s)) (data o)
           (seg_data s)) = 16777216 /\
    casegotosorted_layout 3 (data o) (seg_data s) = (1, [(7, 9)]) /\
    show_args_casegotosorted o s =
      ([ENumCases 1; ECaseValue 24 7; ECaseTarget 9], Ok s') /\
    seg_pos s' = seg_pos s + casegotosorted_size 3 1 /\
    fst (show_args_casegotosorted o s) <>
      ENumCases
        (fst (casegotosorted_layout (padding_to_align (seg_pos s)) (data o)
                (seg_data s))) ::
      case_lines (seg_data s + padding_to_align (seg_pos s) + 4)
        (snd (casegotosorted_layout (padding_to_align (seg_pos s)) (data o)
                (seg_data s))).
Proof.
  eexists. eexists. eexists. split; [vm_compute; reflexivity|].
  split; [vm_compute; reflexivity|].
  split; [reflexivity|].
  split; [reflexivity|].
  split; [unfold casegotosorted_layout; cbn [fst]; vm_compute; reflexivity|].
  split; [vm_compute; reflexivity|].
  split; [vm_compute; reflexivity|].
  split; [reflexivity|].
  intros H.
  apply (f_equal (fun l => match l with
                           | ENumCases count :: _ => count
                           | _ => 0
                           end)) in H.
  lazy in H. discriminate H.
Qed.

(** C6 (amended). CASEGOTOSORTED pads the cursor to 4-byte alignment
    computed from the position in the object file ([seg_data]: the
    offset of the segment plus the cursor), then reads a 4-byte count
    and count pairs of 4-byte (value, target). If the segment lies in
    the file and holds the padding, the count and the pairs, the code
    writes the count and the pairs of that layout, one line a pair with
    the position of its target, and leaves the cursor after the last
    pair. If the position in the object file is already a multiple of 4,
    the padding is 0. *)
Theorem casegotosorted_aligns_to_file_position (o : object)
  (s : pcode_segment) (count : Z) (pairs : list (Z * Z)) :
  buffer_ok o ->
  0 <= seg_offset s -> 0 <= seg_pos s ->
  seg_offset s + code_size s <= size o ->
  casegotosorted_layout (padding_to_align (seg_data s)) (data o) (seg_data s)
    = (count, pairs) ->
  casegotosorted_size (padding_to_align (seg_data s)) count
    <= code_size s - seg_pos s ->
  show_args_casegotosorted o s =
    (ENumCases count ::
     case_lines (seg_data s + padding_to_align (seg_data s) + 4) pairs,
     Ok (advance s
           (casegotosorted_size (padding_to_align (seg_data s)) count))) /\
  (seg_data s mod 4 = 0 -> padding_to_align (seg_data s) = 0).
Proof.
  intros Hbuf Ho Hp Hfile Hlay Hleft.
  pose proof (proj2 Hbuf) as Hsz. unfold INT_MAX in Hsz.
  split.
  2:{ intros E. destruct (padding_to_align_cases (seg_data s))
        as [(_ & H)|(H & _)]; [exact H|lia]. }
  unfold show_args_casegotosorted. fold (seg_data s).
  rewrite to_size_t_mod_4.
  pose proof (Z.mod_pos_bound (seg_data s) 4 ltac:(lia)) as Hr.
  rewrite (to_int_id (seg_data s mod 4)) by lia.
  rewrite (to_int_id (4 - seg_data s mod 4)) by lia.
  rewrite <- casegotosorted_layout_padding in Hlay.
  destruct (padding_to_align_cases (seg_data s)) as [(E & Hpad)|(E & Hpad)].
  - rewrite E. change (0 >? 0) with false. cbv iota.
    rewrite bind_ret_l.
    rewrite Hpad in *. rewrite Z.add_0_r in *.
    rewrite (show_cases_layout o s count pairs Hbuf Ho Hp Hfile Hlay Hleft).
    reflexivity.
  - replace (seg_data s mod 4 >? 0) with true
      by (symmetry; apply Z.gtb_lt; lia).
    rewrite <- Hpad in *.
    set (padding := padding_to_align (seg_data s)) in *.
    unfold casegotosorted_size in Hleft.
    rewrite expect_pcode_data_Ok by (rewrite to_int_id; lia).
    rewrite !bind_ret_l.
    assert (Hd : seg_data (advance s padding) = seg_data s + padding)
      by seg_lia.
    rewrite <- Hd in Hlay.
    rewrite (show_cases_layout o (advance s padding) count pairs Hbuf Ho
               ltac:(seg_lia) Hfile Hlay)
      by (unfold casegotosorted_size; seg_lia).
    rewrite Hd, advance_advance. unfold casegotosorted_size.
    f_equal. f_equal. f_equal. lia.
Qed.

Lemma casegotosorted_aligns_to_file_position_witness :
  show_args_casegotosorted (object_of file_casegotosorted_at_9)
    (mk_segment 9 4 19 PCD_CASEGOTOSORTED false) =
    ([ENumCases 1; ECaseValue 24 7; ECaseTarget 9],
     Ok (mk_segment 9 19 19 PCD_CASEGOTOSORTED false)).
Proof.
  apply (proj1 (casegotosorted_aligns_to_file_position
                  (object_of file_casegotosorted_at_9)
                  (mk_segment 9 4 19 PCD_CASEGOTOSORTED false)
                  1 [(7, 9)]
                  ltac:(vm_compute; repeat split; discriminate)
                  ltac:(vm_compute; discriminate)
                  ltac:(vm_compute; discriminate)
                  ltac:(vm_compute; discriminate)
                  ltac:(vm_compute; reflexivity)
                  ltac:(vm_compute; discriminate))).
Defined.

(* ------------------------------------------------------------------ *)
(** ** The chunk offset of an indirect file *)

Lemma le32_value (v : Z) :
  - 2 ^ 31 <= v < 2 ^ 31 -> to_int (le_unsigned (le32 v)) = v.
Proof.
  intros Hv. unfold le32. cbn [le_unsigned]. rewrite !byte_val_of.
  unfold to_int.
  change (2 ^ 31) with 2147483648 in *.
  change (2 ^ 32) with 4294967296.
  Z.div_mod_to_equations. lia.
Qed.

(** In an indirect file the chunk offset is the integer in the four
    bytes of the real header, whatever it is. *)
Lemma determine_format_chunk_offset (o o' : object) (out : list event) :
  buffer_ok o ->
  indirect_format o = false ->
  determine_format o = (out, Ok o') ->
  indirect_format o' = true ->
  chunk_offset o' = i32_at (data o) (real_header_offset o').
Proof.
  intros Hbuf Hind H Ht. unfold determine_format in H.
  destruct (to_size_t (data_left o 0) <? 8).
  { exfalso. exact (diag_bail_not_Ok _ _ _ _ H). }
  apply bind_Ok_inv in H. destruct H as (out1 & header_id & out2 & _ & H & _).
  apply bind_Ok_inv in H. destruct H as (out3 & ho & out4 & _ & H & _).
  apply bind_Ok_inv in H. destruct H as (out5 & u & out6 & Hho & H & _).
  apply bind_Ok_inv in H. destruct H as (out7 & o1 & out8 & H1 & H & _).
  assert (Hfin : indirect_format o1 = true ->
                 chunk_offset o1 = i32_at (data o) (real_header_offset o1)).
  { destruct (list_byte_eqb header_id ID_ACSE || list_byte_eqb header_id ID_ACSe).
    - inversion H1; subst o1; simpl. congruence.
    - destruct (list_byte_eqb header_id ID_ACS0).
      + apply bind_Ok_inv in H1.
        destruct H1 as (out9 & real & out10 & _ & H1 & _).
        destruct real.
        * apply bind_Ok_inv in H1.
          destruct H1 as (out11 & e & out12 & _ & H1 & _).
          apply bind_Ok_inv in H1.
          destruct H1 as (out13 & u' & out14 & Hrh & H1 & _).
          apply expect_offset_in_object_file_Ok in Hrh.
          cbn [size set_format set_directory_offset] in Hrh.
          apply bind_Ok_inv in H1.
          destruct H1 as (out15 & co & out16 & Hco & H1 & _).
          pose proof (proj2 Hbuf) as Hsz. unfold INT_MAX in Hsz.
          apply expect_offset_in_object_file_Ok in Hho.
          match type of Hco with
          | load_int ?x ?p = _ =>
              rewrite (load_int_at x p Hbuf (proj1 Hrh)) in Hco
                by (cbn [size set_format set_directory_offset];
                    rewrite (to_int_id (ho - 4)) by lia;
                    rewrite to_int_id by lia; lia)
          end.
          inversion Hco; subst co.
          inversion H1; subst o1. intros _. reflexivity.
        * inversion H1; subst o1; simpl. congruence.
      + inversion H1; subst o1; simpl. congruence. }
  destruct (format_eqb (format o1) FORMAT_LITTLE_E);
    inversion H; subst o'; apply Hfin; exact Ht.
Qed.

Lemma resolver_chunk_offset (file : list byte) (o : object)
  (out : list event) :
  open_object file = (out, Ok o) ->
  indirect_format o = true ->
  chunk_offset o = i32_at (data o) (real_header_offset o).
Proof.
  unfold open_object, resolve. intros H Ht.
  apply bind_Ok_inv in H. destruct H as (out1 & v & out2 & Hv & H & _).
  pose proof (loaded_buffer_ok _ _ _ Hv) as Hbuf.
  apply bind_Ok_inv in H. destruct H as (out3 & o1 & out4 & H1 & H2 & _).
  pose proof (determine_object_offsets_Ok _ _ _ H2)
    as (Hs & Hd & Hf & Hdo & Hrh & Hco & Hi & Hsc & Hso).
  assert (Hd1 : data o1 = data (init_object (object_data v) (object_size v))).
  { apply determine_format_Ok in H1; [|reflexivity]. apply H1. }
  rewrite Hi in Ht.
  rewrite Hco, Hrh, Hd, Hd1.
  apply (determine_format_chunk_offset _ _ out3 Hbuf); auto.
Qed.

(** The resolver accepts [file_indirect_chunk_offset v] for every
    [int] [v]. *)
Lemma open_object_indirect_chunk_offset (v : Z) :
  - 2 ^ 31 <= v < 2 ^ 31 ->
  open_object (file_indirect_chunk_offset v) =
    ([], Ok (mk_object (file_indirect_chunk_offset v ++ [x00]) 24
               FORMAT_BIG_E 16 20 8 v true false)).
Proof.
  intros Hv. rewrite <- (le32_value v Hv) at 3. reflexivity.
Qed.




(* ------------------------------------------------------------------ *)
(** ** The format resolver: every file *)

Lemma list_byte_eqb_spec (a b : list byte) :
  list_byte_eqb a b = true <-> a = b.
Proof.
  unfold list_byte_eqb. destruct (list_eq_dec Byte.byte_eq_dec a b).
  - tauto.
  - split; [discriminate|contradiction].
Qed.

Lemma read_object_file_ends_well (file : list byte) :
  ends_well (fun v => buffer_ok (init_object (object_data v) (object_size v)))
    (read_object_file file).
Proof.
  destruct (read_object_file file) as [out [v| | |]] eqn:E.
  - exact (loaded_buffer_ok _ _ _ E).
  - exact I.
  - exfalso. revert E. unfold read_object_file, read_object_file_data.
    destruct (Z.of_nat (List.length file) - INT_MAX >? 0); discriminate.
  - exfalso. revert E. unfold read_object_file, read_object_file_data.
    destruct (Z.of_nat (List.length file) - INT_MAX >? 0); discriminate.
Qed.

Lemma expect_offset_in_object_file_ends_well (o : object) (z : Z) :
  ends_well (fun _ => 0 <= z < size o) (expect_offset_in_object_file o z).
Proof.
  unfold expect_offset_in_object_file.
  destruct (offset_in_object_file o z) eqn:E; simpl negb; cbv iota.
  - apply ends_well_ret. apply offset_in_object_file_spec. exact E.
  - apply ends_well_diag_bail.
Qed.

Lemma expect_data_ends_well (o : object) (p sz : Z) :
  ends_well (fun _ => sz <= data_left o p) (expect_data o p sz).
Proof.
  unfold expect_data. destruct (data_left o p <? sz) eqn:E.
  - apply ends_well_diag_bail.
  - apply ends_well_ret. apply Z.ltb_ge in E. exact E.
Qed.

Lemma peek_real_id_ends_well (o : object) (ho : Z) :
  buffer_ok o -> 0 <= ho < size o ->
  ends_well
    (fun real => real = true ->
                 0 <= to_int (ho - 4) /\ to_int (ho - 4) = ho - 4)
    (peek_real_id o ho).
Proof.
  intros Hbuf Hho. pose proof Hbuf as (_ & Hsz). unfold INT_MAX in Hsz.
  unfold peek_real_id.
  rewrite (to_int_id (ho - 4)) by lia.
  destruct (offset_in_object_file o (ho - 4)) eqn:E.
  - apply offset_in_object_file_spec in E.
    destruct (load_bytes_ok o 4 Hbuf (ho - 4) ltac:(lia) ltac:(lia))
      as (id & Hid & _).
    rewrite Hid, bind_ret_l.
    destruct (list_byte_eqb id ID_ACSE || list_byte_eqb id ID_ACSe);
      apply ends_well_ret; intros; try discriminate; lia.
  - apply ends_well_ret. discriminate.
Qed.

Lemma determine_format_ends_well (o : object) :
  buffer_ok o ->
  ends_well (fun o' => buffer_ok o' /\ 0 <= directory_offset o' < size o')
    (determine_format o).
Proof.
  intros Hbuf. pose proof Hbuf as (_ & Hsz). unfold INT_MAX in Hsz.
  unfold determine_format.
  destruct (to_size_t (data_left o 0) <? 8) eqn:E.
  { apply ends_well_diag_bail. }
  apply Z.ltb_ge in E.
  rewrite data_left_id in E by (try assumption; lia).
  unfold to_size_t in E. rewrite Z.mod_small in E by lia.
  destruct (load_bytes_ok o 4 Hbuf 0 ltac:(lia) ltac:(lia)) as (id & Hid & _).
  rewrite Hid, bind_ret_l.
  destruct (load_int_ok o 4 Hbuf ltac:(lia) ltac:(lia)) as (ho & Hho & Hr).
  rewrite Hho, bind_ret_l.
  apply (ends_well_bind (fun _ => 0 <= ho < size o)).
  { apply expect_offset_in_object_file_ends_well. }
  intros _ Hin. cbv zeta.
  apply (ends_well_bind
           (fun o1 => buffer_ok o1 /\ 0 <= directory_offset o1 < size o1)).
  - destruct (list_byte_eqb id ID_ACSE || list_byte_eqb id ID_ACSe).
    + apply ends_well_ret. split; [exact Hbuf|exact Hin].
    + destruct (list_byte_eqb id ID_ACS0).
      * apply (ends_well_bind
                 (fun real => real = true ->
                    0 <= to_int (ho - 4) /\ to_int (ho - 4) = ho - 4)).
        { apply (peek_real_id_ends_well (set_directory_offset o ho) ho);
            [exact Hbuf|exact Hin]. }
        intros [|] Hreal.
        -- destruct (Hreal eq_refl) as (H0 & H4). rewrite H4.
           destruct (load_ok (set_directory_offset o ho) (ho - 4 + 3) Hbuf)
             as (e & He); [simpl; lia|].
           rewrite He, bind_ret_l.
           apply (ends_well_bind
                    (fun _ => 0 <= to_int (ho - 4 - 4) < size o)).
           { apply (expect_offset_in_object_file_ends_well
                      (set_format (set_directory_offset o ho)
                         (if Byte.eqb e CHAR_E
                          then FORMAT_BIG_E else FORMAT_LITTLE_E))). }
           intros _ Hrh.
           rewrite (to_int_id (ho - 4 - 4)) in * by lia.
           match goal with
           | |- context [load_int ?ob ?p] =>
               destruct (load_int_ok ob p Hbuf ltac:(lia)
                           ltac:(simpl; lia)) as (co & Hco & _);
               rewrite Hco, bind_ret_l
           end.
           apply ends_well_ret. split; [exact Hbuf|exact Hin].
        -- apply ends_well_ret. split; [exact Hbuf|exact Hin].
      * apply ends_well_ret. split; [exact Hbuf|exact Hin].
  - intros o1 (Hb1 & Hd1).
    destruct (format_eqb (format o1) FORMAT_LITTLE_E);
      apply ends_well_ret; split; assumption.
Qed.

Lemma determine_object_offsets_ends_well (o : object) :
  buffer_ok o -> 0 <= directory_offset o < size o ->
  ends_well (fun o' => buffer_ok o') (determine_object_offsets o).
Proof.
  intros Hbuf Hd. pose proof Hbuf as (_ & Hsz). unfold INT_MAX in Hsz.
  unfold determine_object_offsets.
  destruct (script_directory_present o); [|apply ends_well_ret; exact Hbuf].
  apply (ends_well_bind (fun _ => 4 <= data_left o (directory_offset o))).
  { apply expect_data_ends_well. }
  intros _ Hleft. rewrite data_left_id in Hleft by (try assumption; lia).
  destruct (load_int_ok o (directory_offset o) Hbuf ltac:(lia) ltac:(lia))
    as (total & Ht & _).
  rewrite Ht, bind_ret_l. cbv zeta.
  apply (ends_well_bind (fun _ => True)).
  { eapply ends_well_weaken;
      [apply expect_offset_in_object_file_ends_well|auto]. }
  intros _ _. apply ends_well_ret. exact Hbuf.
Qed.

(** X1. The resolver reads nothing outside the buffer, whatever the
    file: it returns an object or ends with [bail]. *)
Theorem resolver_ends_well (file : list byte) :
  ends_well (fun o => buffer_ok o) (open_object file).
Proof.
  unfold open_object.
  eapply ends_well_bind; [apply read_object_file_ends_well|].
  intros v Hv. unfold resolve.
  eapply ends_well_bind; [apply determine_format_ends_well; exact Hv|].
  intros o1 (Hb & Hd).
  apply determine_object_offsets_ends_well; assumption.
Qed.

Lemma read_object_file_eq (file : list byte) :
  Z.of_nat (List.length file) <= INT_MAX ->
  read_object_file file =
    ret (mk_viewer (file ++ [x00]) (Z.of_nat (List.length file))).
Proof.
  intros H. unfold read_object_file, read_object_file_data.
  replace (Z.of_nat (List.length file) - INT_MAX >? 0) with false
    by (symmetry; rewrite Z.gtb_ltb; apply Z.ltb_ge; lia).
  rewrite bind_ret_l. unfold INT_MAX in H.
  rewrite to_int_id by lia. reflexivity.
Qed.

Lemma open_object_too_small (file : list byte) :
  (List.length file < 8)%nat ->
  open_object file = ([EError MsgTooSmall], Bail).
Proof.
  intros Hlen. unfold open_object.
  rewrite read_object_file_eq by (unfold INT_MAX; lia).
  rewrite bind_ret_l. unfold resolve, determine_format.
  replace (to_size_t (data_left
             (init_object
                (object_data
                   (mk_viewer (file ++ [x00]) (Z.of_nat (List.length file))))
                (object_size
                   (mk_viewer (file ++ [x00]) (Z.of_nat (List.length file)))))
             0) <? 8) with true.
  - reflexivity.
  - symmetry. apply Z.ltb_lt. unfold data_left. simpl size.
    rewrite Z.sub_0_r, to_int_id by lia.
    unfold to_size_t. rewrite Z.mod_small by lia. lia.
Qed.

(** X2. A file shorter than the 8-byte header is rejected with the
    "too small" error before any byte is read. *)
Theorem resolver_rejects_short_file (file : list byte) :
  (List.length file < 8)%nat ->
  open_object file = ([EError MsgTooSmall], Bail).
Proof.
  exact (open_object_too_small file).
Qed.

Lemma resolver_rejects_short_file_witness :
  open_object [] = ([EError MsgTooSmall], Bail).
Proof.
  apply resolver_rejects_short_file. simpl. lia.
Defined.

(** X3. A file whose header offset does not lie in [0, N) is rejected
    with the "offset outside the object file" error. *)
Theorem resolver_rejects_offset_outside (file : list byte) :
  (8 <= List.length file)%nat ->
  Z.of_nat (List.length file) <= INT_MAX ->
  ~ (0 <= to_int (le_unsigned (firstn 4 (skipn 4 file)))
       < Z.of_nat (List.length file)) ->
  open_object file =
    ([EError (MsgOffsetOutsideFile
                (to_int (le_unsigned (firstn 4 (skipn 4 file)))))], Bail).
Proof.
  intros Hlen Hmax Hout. unfold open_object.
  rewrite read_object_file_eq by exact Hmax.
  rewrite bind_ret_l. unfold resolve. simpl object_data. simpl object_size.
  set (o := init_object (file ++ [x00]) (Z.of_nat (List.length file))).
  assert (Hbuf : buffer_ok o).
  { unfold buffer_ok, o. simpl. rewrite length_app. simpl. lia. }
  unfold determine_format.
  replace (to_size_t (data_left o 0) <? 8) with false.
  2:{ symmetry. apply Z.ltb_ge. unfold data_left, o. simpl size.
      unfold INT_MAX in Hmax.
      rewrite Z.sub_0_r, to_int_id by lia.
      unfold to_size_t. rewrite Z.mod_small by lia. lia. }
  rewrite (load_bytes_spec o 4 Hbuf 0) by (unfold o; simpl; lia).
  rewrite bind_ret_l. unfold load_int.
  rewrite (load_bytes_spec o 4 Hbuf 4) by (unfold o; simpl; lia).
  rewrite !bind_ret_l.
  replace (firstn 4 (skipn (Z.to_nat 4) (data o)))
    with (firstn 4 (skipn 4 file)).
  2:{ unfold o. simpl data. change (Z.to_nat 4) with 4%nat.
      rewrite skipn_app, firstn_app.
      rewrite length_skipn.
      replace (4 - (List.length file - 4))%nat with 0%nat by lia.
      rewrite firstn_O, app_nil_r. reflexivity. }
  unfold expect_offset_in_object_file.
  replace (offset_in_object_file o
             (to_int (le_unsigned (firstn 4 (skipn 4 file))))) with false.
  - reflexivity.
  - symmetry. apply not_true_iff_false. intros E.
    apply offset_in_object_file_spec in E. apply Hout. exact E.
Qed.

Lemma resolver_rejects_offset_outside_witness :
  open_object (ID_ACS0 ++ le32 8) = ([EError (MsgOffsetOutsideFile 8)], Bail).
Proof.
  apply (resolver_rejects_offset_outside (ID_ACS0 ++ le32 8)).
  - simpl. lia.
  - vm_compute. discriminate.
  - vm_compute. intros (_ & H). discriminate H.
Defined.

Lemma load_silent (o : object) (i : Z) (out : list event) (b : byte) :
  load o i = (out, Ok b) -> out = [].
Proof.
  unfold load. destruct ((0 <=? i) && (i <=? size o)); [|discriminate].
  destruct (nth_error (data o) (Z.to_nat i)); [|discriminate].
  intros E. inversion E. reflexivity.
Qed.

Lemma load_bytes_silent (o : object) (n : nat) :
  forall (p : Z) (out : list event) (bs : list byte),
    load_bytes o p n = (out, Ok bs) -> out = [].
Proof.
  induction n as [|n IH]; intros p out bs H.
  - inversion H. reflexivity.
  - simpl in H. apply bind_Ok_inv in H.
    destruct H as (o1 & b & o2 & Hb & H & ->).
    apply load_silent in Hb. subst o1.
    apply bind_Ok_inv in H. destruct H as (o3 & bs' & o4 & Hbs & H & ->).
    apply IH in Hbs. subst o3. inversion H. reflexivity.
Qed.

Lemma format_eqb_spec (a b : format_t) : format_eqb a b = true <-> a = b.
Proof.
  destruct a, b; simpl; split; intros H; try reflexivity; discriminate.
Qed.

(** How the object [determine_format] returns depends on the four bytes
    [id] at the start of the buffer. *)
Lemma determine_format_cases (o o' : object) (out : list event) :
  format o = FORMAT_UNKNOWN ->
  indirect_format o = false ->
  small_code o = false ->
  determine_format o = (out, Ok o') ->
  exists id : list byte,
    load_bytes o 0 4 = ret id /\
    (small_code o' = true <-> format o' = FORMAT_LITTLE_E) /\
    (indirect_format o' = true ->
     (format o' = FORMAT_BIG_E \/ format o' = FORMAT_LITTLE_E) /\
     id = ID_ACS0) /\
    (indirect_format o' = false ->
     format o' = FORMAT_BIG_E \/ format o' = FORMAT_LITTLE_E ->
     chunk_offset o' = directory_offset o' /\
     (id = ID_ACSE \/ id = ID_ACSe)) /\
    (id = ID_ACSE -> format o' = FORMAT_BIG_E /\ indirect_format o' = false) /\
    (id = ID_ACSe ->
     format o' = FORMAT_LITTLE_E /\ indirect_format o' = false) /\
    (format o' = FORMAT_ZERO -> id = ID_ACS0 /\ indirect_format o' = false) /\
    (format o' = FORMAT_UNKNOWN <->
     id <> ID_ACSE /\ id <> ID_ACSe /\ id <> ID_ACS0).
Proof.
  intros Hf Hi Hsc H. unfold determine_format in H.
  destruct (to_size_t (data_left o 0) <? 8).
  { exfalso. exact (diag_bail_not_Ok _ _ _ _ H). }
  apply bind_Ok_inv in H. destruct H as (out1 & id & out2 & Hid & H & _).
  assert (Hid' : load_bytes o 0 4 = ret id).
  { rewrite Hid. rewrite (load_bytes_silent _ _ _ _ _ Hid) at 1. reflexivity. }
  exists id. split; [exact Hid'|]. clear Hid Hid'.
  apply bind_Ok_inv in H. destruct H as (out3 & ho & out4 & _ & H & _).
  apply bind_Ok_inv in H. destruct H as (out5 & u & out6 & _ & H & _).
  apply bind_Ok_inv in H. destruct H as (out7 & o1 & out8 & H1 & H & _).
  assert (H1' :
    small_code o1 = false /\
    (indirect_format o1 = true ->
     (format o1 = FORMAT_BIG_E \/ format o1 = FORMAT_LITTLE_E) /\
     id = ID_ACS0) /\
    (indirect_format o1 = false ->
     format o1 = FORMAT_BIG_E \/ format o1 = FORMAT_LITTLE_E ->
     chunk_offset o1 = directory_offset o1 /\
     (id = ID_ACSE \/ id = ID_ACSe)) /\
    (id = ID_ACSE -> format o1 = FORMAT_BIG_E /\ indirect_format o1 = false) /\
    (id = ID_ACSe ->
     format o1 = FORMAT_LITTLE_E /\ indirect_format o1 = false) /\
    (format o1 = FORMAT_ZERO -> id = ID_ACS0 /\ indirect_format o1 = false) /\
    (format o1 = FORMAT_UNKNOWN <->
     id <> ID_ACSE /\ id <> ID_ACSe /\ id <> ID_ACS0)).
  { destruct (list_byte_eqb id ID_ACSE) eqn:EE;
      [apply list_byte_eqb_spec in EE|].
    { subst id. simpl in H1. inversion H1; subst o1; simpl.
      rewrite Hi, Hsc.
      repeat split; intros; auto; try discriminate;
        try (exfalso; tauto). }
    destruct (list_byte_eqb id ID_ACSe) eqn:Ee;
      [apply list_byte_eqb_spec in Ee|].
    { subst id. simpl in H1. inversion H1; subst o1; simpl.
      rewrite Hi, Hsc.
      repeat split; intros; auto; try discriminate;
        try (exfalso; tauto). }
    assert (NE : id <> ID_ACSE).
    { intros E. apply list_byte_eqb_spec in E. congruence. }
    assert (Ne : id <> ID_ACSe).
    { intros E. apply list_byte_eqb_spec in E. congruence. }
    simpl orb in H1. cbv iota in H1.
    destruct (list_byte_eqb id ID_ACS0) eqn:E0;
      [apply list_byte_eqb_spec in E0|].
    - apply bind_Ok_inv in H1.
      destruct H1 as (o9 & real & o10 & _ & H1 & _).
      destruct real.
      + apply bind_Ok_inv in H1.
        destruct H1 as (o11 & e & o12 & _ & H1 & _).
        apply bind_Ok_inv in H1.
        destruct H1 as (o13 & u' & o14 & _ & H1 & _).
        apply bind_Ok_inv in H1.
        destruct H1 as (o15 & co & o16 & _ & H1 & _).
        inversion H1; subst o1; simpl. rewrite Hsc.
        destruct (Byte.eqb e CHAR_E);
          repeat split; intros; auto; try discriminate; try contradiction;
          try (exfalso; tauto);
          match goal with
          | Hx : _ \/ _ |- _ => destruct Hx; discriminate
          | Hx : _ /\ _ |- _ => exfalso; tauto
          | _ => idtac
          end.
      + inversion H1; subst o1; simpl. rewrite Hi, Hsc.
        repeat split; intros; auto; try discriminate; try contradiction;
          try (exfalso; tauto);
          match goal with
          | Hx : _ \/ _ |- _ => destruct Hx; discriminate
          | _ => idtac
          end.
    - assert (N0 : id <> ID_ACS0).
      { intros E. apply list_byte_eqb_spec in E. congruence. }
      inversion H1; subst o1; simpl. rewrite Hf, Hi, Hsc.
      repeat split; intros; auto; try discriminate; try contradiction;
        match goal with
        | Hx : _ \/ _ |- _ => destruct Hx; discriminate
        | _ => idtac
        end. }
  destruct H1' as (S1 & B1 & C1 & D1 & E1 & F1 & G1).
  destruct (format_eqb (format o1) FORMAT_LITTLE_E) eqn:EL.
  - apply format_eqb_spec in EL.
    inversion H; subst o'; simpl.
    repeat split; intros; auto; try tauto; try congruence;
      try (apply B1; assumption); try (apply C1; assumption);
      try (apply D1; assumption); try (apply E1; assumption);
      try (apply F1; assumption); try (apply G1; assumption).
  - assert (NL : format o1 <> FORMAT_LITTLE_E).
    { intros E. apply format_eqb_spec in E. congruence. }
    inversion H; subst o'.
    repeat split; intros; auto; try tauto; try congruence;
      try (apply B1; assumption); try (apply C1; assumption);
      try (apply D1; assumption); try (apply E1; assumption);
      try (apply F1; assumption); try (apply G1; assumption).
Qed.

Lemma open_object_Ok_inv (file : list byte) (o : object) (out : list event) :
  open_object file = (out, Ok o) ->
  (8 <= List.length file)%nat /\
  Z.of_nat (List.length file) <= INT_MAX /\
  exists (o1 : object) (out1 out2 : list event),
    determine_format
      (init_object (file ++ [x00]) (Z.of_nat (List.length file))) =
      (out1, Ok o1) /\
    determine_object_offsets o1 = (out2, Ok o).
Proof.
  intros H.
  assert (Hlen : (8 <= List.length file)%nat).
  { destruct (le_lt_dec 8 (List.length file)) as [Hl|Hl]; [exact Hl|].
    rewrite (open_object_too_small file Hl) in H. discriminate. }
  split; [exact Hlen|].
  unfold open_object in H.
  apply bind_Ok_inv in H. destruct H as (o1 & v & o2 & Hv & H & _).
  apply read_object_file_Ok in Hv. destruct Hv as (Hd & Hs & Hm).
  split; [rewrite <- Hs; exact Hm|].
  unfold resolve in H. rewrite Hd, Hs in H.
  apply bind_Ok_inv in H. destruct H as (o3 & ob & o4 & H1 & H2 & _).
  exists ob, o3, o4. split; assumption.
Qed.

(** X4. For every file the resolver accepts: small code goes with the
    ACSe format and only with it; an indirect file is ACSE or ACSe; the
    script directory is present exactly for ACS0 and for the indirect
    files; and in a direct ACSE or ACSe file the chunk section starts at
    the header's offset, inside the file. *)
Theorem resolver_format_flags (file : list byte) (out : list event)
  (o : object) :
  open_object file = (out, Ok o) ->
  (small_code o = true <-> format o = FORMAT_LITTLE_E) /\
  (indirect_format o = true ->
   format o = FORMAT_BIG_E \/ format o = FORMAT_LITTLE_E) /\
  (script_directory_present o = true <->
   format o = FORMAT_ZERO \/ indirect_format o = true) /\
  (indirect_format o = false ->
   format o = FORMAT_BIG_E \/ format o = FORMAT_LITTLE_E ->
   chunk_offset o = directory_offset o /\ 0 <= chunk_offset o < size o).
Proof.
  intros H.
  pose proof (resolver_checked_offsets _ _ _ H) as (_ & _ & _ & Hd & _).
  destruct (open_object_Ok_inv _ _ _ H) as (_ & _ & o1 & out1 & out2 & H1 & H2).
  destruct (determine_format_cases
              (init_object (file ++ [x00]) (Z.of_nat (List.length file)))
              o1 out1 eq_refl eq_refl eq_refl H1)
    as (id & _ & A & B & C & _).
  destruct (determine_object_offsets_Ok _ _ _ H2)
    as (_ & _ & Hf & Hdo & _ & Hco & Hi & Hsc & _).
  rewrite Hf, Hi, Hsc, Hco, Hdo in *.
  split; [exact A|]. split; [intros Ht; apply B; exact Ht|].
  split.
  - unfold script_directory_present. rewrite Hf, Hi.
    destruct (format o1) eqn:Ef; destruct (indirect_format o1) eqn:Ei;
      simpl; split; intros Hx; auto; try discriminate;
      try (destruct Hx; discriminate);
      try (destruct (B eq_refl) as ([Hb|Hb] & _); discriminate).
  - intros Hnot Hfmt. destruct (C Hnot Hfmt) as (Hc & _).
    rewrite Hc. split; [reflexivity|exact Hd].
Qed.

Lemma resolver_format_flags_witness :
  (small_code (object_of file_indirect_acse_small) = true <->
   format (object_of file_indirect_acse_small) = FORMAT_LITTLE_E) /\
  (indirect_format (object_of file_indirect_acse_small) = true ->
   format (object_of file_indirect_acse_small) = FORMAT_BIG_E \/
   format (object_of file_indirect_acse_small) = FORMAT_LITTLE_E) /\
  (script_directory_present (object_of file_indirect_acse_small) = true <->
   format (object_of file_indirect_acse_small) = FORMAT_ZERO \/
   indirect_format (object_of file_indirect_acse_small) = true) /\
  (indirect_format (object_of file_indirect_acse_small) = false ->
   format (object_of file_indirect_acse_small) = FORMAT_BIG_E \/
   format (object_of file_indirect_acse_small) = FORMAT_LITTLE_E ->
   chunk_offset (object_of file_indirect_acse_small) =
     directory_offset (object_of file_indirect_acse_small) /\
   0 <= chunk_offset (object_of file_indirect_acse_small)
     < size (object_of file_indirect_acse_small)).
Proof.
  apply (resolver_format_flags file_indirect_acse_small []).
  vm_compute. reflexivity.
Defined.



(* ------------------------------------------------------------------ *)
(** ** The chunk walker: every file *)

Lemma init_chunk_Ok_inv (o : object) (p : Z) (c : chunk)
  (out : list event) :
  buffer_ok o ->
  init_chunk o p = (out, Ok c) ->
  0 <= p /\
  ch_data c = p + 8 /\
  ch_data c + ch_size c <= size o /\
  - 2 ^ 31 <= ch_size c < 2 ^ 31 /\
  ch_name c = firstn 4 (skipn (Z.to_nat p) (data o)) /\
  List.length (ch_name c) = 4%nat /\
  ch_type c = get_chunk_type (ch_name c ++ [x00]).
Proof.
  intros Hbuf H. pose proof Hbuf as (Hlen & Hsz). unfold INT_MAX in Hsz.
  unfold init_chunk in H. cbv zeta in H.
  apply bind_Ok_inv in H. destruct H as (o1 & u & o2 & He & H & _).
  apply expect_data_Ok_inv in He.
  apply bind_Ok_inv in H. destruct H as (o3 & name & o4 & Hn & H & _).
  pose proof (load_bytes_Ok_inv _ _ _ _ _ Hn) as (Hp0 & Hp3).
  simpl in Hp3.
  rewrite data_left_id in He by (try assumption; lia).
  rewrite (load_bytes_spec o 4 Hbuf p) in Hn by lia.
  unfold ret in Hn.
  assert (Hname : name = firstn 4 (skipn (Z.to_nat p) (data o)))
    by congruence.
  clear Hn.
  apply bind_Ok_inv in H. destruct H as (o5 & sz & o6 & Hs & H & _).
  destruct (load_int_ok o (p + 4) Hbuf ltac:(lia) ltac:(lia))
    as (sz' & Hs' & Hr).
  rewrite Hs' in Hs. inversion Hs; subst sz'. clear Hs.
  apply bind_Ok_inv in H. destruct H as (o7 & u' & o8 & He2 & H & _).
  apply expect_data_Ok_inv in He2. simpl in He2.
  rewrite data_left_id in He2 by (try assumption; lia).
  inversion H; subst c; simpl.
  split; [lia|]. split; [reflexivity|]. split; [lia|]. split; [lia|].
  split; [exact Hname|].
  split; [|reflexivity].
  rewrite Hname, length_firstn, length_skipn. lia.
Qed.

(** X6. A chunk that [init_chunk] returns lies in the file: its header
    starts at a position that is not negative, its body follows the
    8-byte header and ends at N at the latest ([data_offset + size <= N]),
    its name has four bytes and its type is the type of its name. *)
Theorem init_chunk_in_file (o : object) (p : Z) (c : chunk)
  (out : list event) :
  buffer_ok o ->
  init_chunk o p = (out, Ok c) ->
  0 <= p /\
  ch_data c = p + 8 /\
  ch_data c + ch_size c <= size o /\
  - 2 ^ 31 <= ch_size c < 2 ^ 31 /\
  ch_name c = firstn 4 (skipn (Z.to_nat p) (data o)) /\
  List.length (ch_name c) = 4%nat /\
  ch_type c = get_chunk_type (ch_name c ++ [x00]).
Proof.
  exact (init_chunk_Ok_inv o p c out).
Qed.

Lemma init_chunk_in_file_witness :
  0 <= 12 /\
  ch_data (mk_chunk SPTR 20 16 CHUNK_SPTR) = 12 + 8 /\
  ch_data (mk_chunk SPTR 20 16 CHUNK_SPTR)
    + ch_size (mk_chunk SPTR 20 16 CHUNK_SPTR)
    <= size (object_of file_entries_outside) /\
  - 2 ^ 31 <= ch_size (mk_chunk SPTR 20 16 CHUNK_SPTR) < 2 ^ 31 /\
  ch_name (mk_chunk SPTR 20 16 CHUNK_SPTR) =
    firstn 4 (skipn (Z.to_nat 12) (data (object_of file_entries_outside))) /\
  List.length (ch_name (mk_chunk SPTR 20 16 CHUNK_SPTR)) = 4%nat /\
  ch_type (mk_chunk SPTR 20 16 CHUNK_SPTR) =
    get_chunk_type (ch_name (mk_chunk SPTR 20 16 CHUNK_SPTR) ++ [x00]).
Proof.
  apply (init_chunk_in_file (object_of file_entries_outside) 12
           (mk_chunk SPTR 20 16 CHUNK_SPTR) []).
  - vm_compute. split; [reflexivity|]. split; discriminate.
  - vm_compute. reflexivity.
Defined.

Lemma init_chunk_ends_well (o : object) (p : Z) :
  buffer_ok o -> 0 <= p <= INT_MAX ->
  ends_well (fun _ => True) (init_chunk o p).
Proof.
  intros Hbuf Hp. pose proof Hbuf as (Hlen & Hsz). unfold INT_MAX in *.
  unfold init_chunk. cbv zeta.
  apply (ends_well_bind (fun _ => 8 <= data_left o p)).
  { apply expect_data_ends_well. }
  intros _ He. rewrite data_left_id in He by (try assumption; lia).
  destruct (load_bytes_ok o 4 Hbuf p ltac:(lia) ltac:(lia)) as (n & Hn & _).
  rewrite Hn, bind_ret_l.
  destruct (load_int_ok o (p + 4) Hbuf ltac:(lia) ltac:(lia))
    as (sz & Hs & _).
  rewrite Hs, bind_ret_l.
  apply (ends_well_bind (fun _ => True)).
  { eapply ends_well_weaken; [apply expect_data_ends_well|auto]. }
  intros _ _. apply ends_well_ret. exact I.
Qed.

Lemma list_chunks_from_eq (fuel : nat) (o : object) (r : chunk_reader) :
  list_chunks_from fuel o r =
    (rc <- read_chunk o r ;;
     match rc with
     | (Some c, r') =>
         show_chunk_header o c ;;
         match fuel with
         | O => timeout
         | S fuel' => list_chunks_from fuel' o r'
         end
     | (None, _) => ret tt
     end).
Proof. destruct fuel; reflexivity. Qed.

Lemma fst_bind_Ok {A B} (out : list event) (a : A) (f : A -> M B) :
  fst (bind (out, Ok a) f) = out ++ fst (f a).
Proof.
  unfold bind. destruct (f a). reflexivity.
Qed.

Lemma snd_bind_Ok {A B} (out : list event) (a : A) (f : A -> M B) :
  snd (bind (out, Ok a) f) = snd (f a).
Proof.
  unfold bind. destruct (f a). reflexivity.
Qed.

Lemma expect_data_silent (o : object) (p sz : Z) (out : list event)
  (u : unit) : expect_data o p sz = (out, Ok u) -> out = [].
Proof.
  unfold expect_data. destruct (data_left o p <? sz).
  - intros H. exfalso. exact (diag_bail_not_Ok _ _ _ _ H).
  - intros H. inversion H. reflexivity.
Qed.

Lemma load_int_silent (o : object) (p : Z) (out : list event) (v : Z) :
  load_int o p = (out, Ok v) -> out = [].
Proof.
  unfold load_int. intros H. apply bind_Ok_inv in H.
  destruct H as (o1 & bs & o2 & Hb & H & ->).
  apply load_bytes_silent in Hb. subst o1. inversion H. reflexivity.
Qed.

Lemma init_chunk_silent (o : object) (p : Z) (c : chunk) (out : list event) :
  init_chunk o p = (out, Ok c) -> out = [].
Proof.
  unfold init_chunk. cbv zeta. intros H.
  apply bind_Ok_inv in H. destruct H as (o1 & u & o2 & He & H & ->).
  apply expect_data_silent in He. subst o1.
  apply bind_Ok_inv in H. destruct H as (o3 & name & o4 & Hn & H & ->).
  apply load_bytes_silent in Hn. subst o3.
  apply bind_Ok_inv in H. destruct H as (o5 & sz & o6 & Hs & H & ->).
  apply load_int_silent in Hs. subst o5.
  apply bind_Ok_inv in H. destruct H as (o7 & u' & o8 & He2 & H & ->).
  apply expect_data_silent in He2. subst o7.
  inversion H. reflexivity.
Qed.

(** The three ways [read_chunk] ends at a position that is not
    negative. *)
Lemma read_chunk_cases (o : object) (r : chunk_reader) :
  buffer_ok o -> 0 <= pos r <= INT_MAX ->
  (exists out : list event, read_chunk o r = (out, Bail)) \/
  read_chunk o r = ret (None, r) \/
  (exists c : chunk,
     read_chunk o r =
       ret (Some c, mk_chunk_reader (end_pos r) (pos r + 8 + ch_size c)) /\
     init_chunk o (pos r) = ret c /\
     ch_data c = pos r + 8 /\
     ch_data c + ch_size c <= size o /\
     - 2 ^ 31 <= ch_size c).
Proof.
  intros Hbuf Hpos. pose proof Hbuf as (Hlen & Hsz). unfold read_chunk.
  destruct (8 <=? to_size_t (to_int (end_pos r - pos r)));
    [|right; left; reflexivity].
  pose proof (init_chunk_ends_well o (pos r) Hbuf Hpos) as Hw.
  destruct (init_chunk o (pos r)) as [out1 [c| | |]] eqn:E;
    try contradiction.
  - right. right. exists c.
    pose proof (init_chunk_silent _ _ _ _ E). subst out1.
    destruct (init_chunk_Ok_inv o (pos r) c [] Hbuf E)
      as (_ & Hd & Hin & Hr & _).
    unfold INT_MAX in *.
    unfold bind, ret. cbv iota beta.
    rewrite (to_int_id (pos r + 8 + ch_size c)) by lia.
    split; [reflexivity|]. split; [reflexivity|].
    split; [exact Hd|]. split; [exact Hin|lia].
  - left. exists out1. reflexivity.
Qed.

Lemma list_chunks_from_ends_well (o : object) :
  buffer_ok o ->
  forall (fuel : nat) (r : chunk_reader),
    0 <= pos r <= INT_MAX ->
    (Z.to_nat (size o - pos r) <= fuel)%nat ->
    ends_well (fun _ => True) (list_chunks_from fuel o r) \/
    lists_chunk_below_minus8 (fst (list_chunks_from fuel o r)).
Proof.
  intros Hbuf. pose proof Hbuf as (Hlen & Hsz). unfold INT_MAX in Hsz.
  induction fuel as [|fuel IH]; intros r Hpos Hfuel;
    rewrite list_chunks_from_eq;
    destruct (read_chunk_cases o r Hbuf Hpos)
      as [(out1 & E)|[E|(c & E & _ & Hd & Hin & Hr)]];
    rewrite E.
  - left. exact I.
  - left. rewrite bind_ret_l. exact I.
  - rewrite bind_ret_l. unfold show_chunk_header.
    rewrite bind_assoc, bind_print.
    destruct (Z_le_gt_dec (ch_size c) (-8)) as [Hbad|Hgood].
    + right. exists (ch_name c), (to_int (ch_data c - 8)), (ch_size c).
      split; [left; reflexivity|exact Hbad].
    + exfalso. unfold INT_MAX in *. lia.
  - left. exact I.
  - left. rewrite bind_ret_l. exact I.
  - rewrite bind_ret_l. unfold show_chunk_header.
    rewrite bind_assoc, bind_print, bind_ret_l.
    destruct (Z_le_gt_dec (ch_size c) (-8)) as [Hbad|Hgood].
    + right. exists (ch_name c), (to_int (ch_data c - 8)), (ch_size c).
      split; [left; reflexivity|exact Hbad].
    + unfold INT_MAX in *.
      destruct (IH (mk_chunk_reader (end_pos r) (pos r + 8 + ch_size c)))
        as [Hok|(n & off & sz & Hin' & Hsz')]; simpl pos; try lia.
      * left. exact Hok.
      * right. exists n, off, sz. split; [right; exact Hin'|exact Hsz'].
Qed.

(** X7. The chunk walk of [list_chunks], started at a position that is
    not negative and given fuel for one chunk per byte of the file,
    either ends (it returns or it bails) without a read outside the
    buffer, or has listed a chunk whose declared size is -8 or less. *)
Theorem list_chunks_ends_well (fuel : nat) (o : object) :
  buffer_ok o ->
  0 <= chunk_offset o <= INT_MAX ->
  (Z.to_nat (size o - chunk_offset o) <= fuel)%nat ->
  ends_well (fun _ => True) (list_chunks fuel o) \/
  lists_chunk_below_minus8 (fst (list_chunks fuel o)).
Proof.
  intros Hbuf Hco Hfuel. unfold list_chunks.
  apply list_chunks_from_ends_well; assumption.
Qed.

Lemma list_chunks_ends_well_witness :
  ends_well (fun _ => True) (list_chunks 88 (object_of file_entries_outside)) \/
  lists_chunk_below_minus8
    (fst (list_chunks 88 (object_of file_entries_outside))).
Proof.
  apply (list_chunks_ends_well 88 (object_of file_entries_outside)).
  - vm_compute. split; [reflexivity|]. split; discriminate.
  - vm_compute. split; discriminate.
  - vm_compute. apply le_n.
Defined.

Lemma c_str_app_nul (l : list byte) : c_str (l ++ [x00]) = c_str l.
Proof.
  induction l as [|b l IH]; simpl.
  - reflexivity.
  - destruct (Byte.eqb b x00); [reflexivity|]. rewrite IH. reflexivity.
Qed.

Lemma c_str_no_nul (l : list byte) : ~ In x00 l -> c_str l = l.
Proof.
  induction l as [|b l IH]; intros H; simpl.
  - reflexivity.
  - destruct (Byte.eqb b x00) eqn:E.
    + apply byte_eqb_eq in E. exfalso. apply H. left. exact E.
    + rewrite IH; [reflexivity|]. intros Hin. apply H. right. exact Hin.
Qed.

Lemma c_str_prefix (l : list byte) : exists rest, l = c_str l ++ rest.
Proof.
  induction l as [|b l (rest & IH)]; simpl.
  - exists []. reflexivity.
  - destruct (Byte.eqb b x00).
    + exists (b :: l). reflexivity.
    + exists rest. simpl. rewrite <- IH. reflexivity.
Qed.

(** [strcmp] against a four-byte name without NUL succeeds only for that
    name. *)
Lemma strcmp_eq_name (name n4 : list byte) :
  List.length name = 4%nat -> List.length n4 = 4%nat -> ~ In x00 name ->
  strcmp_eq name (n4 ++ [x00]) = true -> n4 = name.
Proof.
  intros Hl Hl4 Hnul H. unfold strcmp_eq in H.
  apply list_byte_eqb_spec in H.
  rewrite c_str_app_nul, (c_str_no_nul name Hnul) in H.
  destruct (c_str_prefix n4) as (rest & Hp).
  rewrite <- H in Hp.
  assert (Hr : rest = []).
  { destruct rest; [reflexivity|].
    apply (f_equal (@List.length byte)) in Hp.
    rewrite length_app in Hp. simpl in Hp. lia. }
  subst rest. rewrite app_nil_r in Hp. exact Hp.
Qed.

Lemma find_chunk_from_eq (fuel : nat) (o : object) (name : list byte)
  (r : chunk_reader) :
  find_chunk_from fuel o name r =
    (rc <- read_chunk o r ;;
     match rc with
     | (Some c, r') =>
         if strcmp_eq name (ch_name c ++ [x00]) then ret (Some c)
         else
           match fuel with
           | O => timeout
           | S fuel' => find_chunk_from fuel' o name r'
           end
     | (None, _) => ret None
     end).
Proof. destruct fuel; reflexivity. Qed.

Lemma read_chunk_Some_inv (o : object) (r r' : chunk_reader) (c : chunk)
  (out : list event) :
  read_chunk o r = (out, Ok (Some c, r')) ->
  exists out' : list event, init_chunk o (pos r) = (out', Ok c).
Proof.
  unfold read_chunk.
  destruct (8 <=? to_size_t (to_int (end_pos r - pos r))); [|discriminate].
  intros H. apply bind_Ok_inv in H.
  destruct H as (o1 & c' & o2 & Hc & H & _).
  inversion H; subst c'. exists o1. exact Hc.
Qed.

Lemma find_chunk_Some_inv (fuel : nat) (o : object) (name : list byte)
  (c : chunk) (out : list event) :
  buffer_ok o ->
  find_chunk fuel o name = (out, Ok (Some c)) ->
  strcmp_eq name (ch_name c ++ [x00]) = true /\
  List.length (ch_name c) = 4%nat /\
  8 <= ch_data c /\
  ch_data c + ch_size c <= size o /\
  - 2 ^ 31 <= ch_size c < 2 ^ 31 /\
  ch_type c = get_chunk_type (ch_name c ++ [x00]).
Proof.
  intros Hbuf. unfold find_chunk. generalize (init_chunk_reader o) as r.
  revert out. induction fuel as [|fuel IH]; intros out r H;
    rewrite find_chunk_from_eq in H;
    apply bind_Ok_inv in H;
    destruct H as (o1 & [[c'|] r'] & o2 & Hr & H & _);
    try (inversion H; fail);
    destruct (strcmp_eq name (ch_name c' ++ [x00])) eqn:E;
    try discriminate;
    try (apply (IH _ _ H)).
  all: inversion H; subst c';
    destruct (read_chunk_Some_inv _ _ _ _ _ Hr) as (out' & Hi);
    destruct (init_chunk_Ok_inv _ _ _ _ Hbuf Hi)
      as (Hp & Hd & Hin & Hrange & _ & Hl & Ht);
    split; [exact E|]; split; [exact Hl|]; split; [lia|];
    split; [exact Hin|]; split; [exact Hrange|exact Ht].
Qed.

(** X8. A chunk that [find_chunk] returns has the name that was asked
    for, byte for byte (the search is case-sensitive), and lies in the
    file: its body starts after an 8-byte header and ends at N at the
    latest. *)
Theorem find_chunk_found (fuel : nat) (o : object) (name : list byte)
  (c : chunk) (out : list event) :
  buffer_ok o ->
  find_chunk fuel o name = (out, Ok (Some c)) ->
  strcmp_eq name (ch_name c ++ [x00]) = true /\
  (List.length name = 4%nat -> ~ In x00 name -> ch_name c = name) /\
  8 <= ch_data c /\
  ch_data c + ch_size c <= size o /\
  ch_type c = get_chunk_type (ch_name c ++ [x00]).
Proof.
  intros Hbuf H.
  destruct (find_chunk_Some_inv _ _ _ _ _ Hbuf H)
    as (E & Hl & Hd & Hin & _ & Ht).
  split; [exact E|].
  split; [intros Hn Hnul; apply strcmp_eq_name; assumption|].
  split; [exact Hd|]. split; assumption.
Qed.

Lemma find_chunk_found_witness :
  strcmp_eq FUNC (ch_name (mk_chunk FUNC 44 16 CHUNK_FUNC) ++ [x00]) = true /\
  (List.length FUNC = 4%nat -> ~ In x00 FUNC ->
   ch_name (mk_chunk FUNC 44 16 CHUNK_FUNC) = FUNC) /\
  8 <= ch_data (mk_chunk FUNC 44 16 CHUNK_FUNC) /\
  ch_data (mk_chunk FUNC 44 16 CHUNK_FUNC)
    + ch_size (mk_chunk FUNC 44 16 CHUNK_FUNC)
    <= size (object_of file_entries_outside) /\
  ch_type (mk_chunk FUNC 44 16 CHUNK_FUNC) =
    get_chunk_type (ch_name (mk_chunk FUNC 44 16 CHUNK_FUNC) ++ [x00]).
Proof.
  apply (find_chunk_found 4 (object_of file_entries_outside) FUNC
           (mk_chunk FUNC 44 16 CHUNK_FUNC) []).
  - vm_compute. split; [reflexivity|]. split; discriminate.
  - vm_compute. reflexivity.
Defined.

(* ------------------------------------------------------------------ *)
(** ** Chunk names *)

Lemma toupper_idempotent (b : byte) : toupper (toupper b) = toupper b.
Proof. destruct b; reflexivity. Qed.

Lemma lookup_chunk_type_found (buff : list byte)
  (table : list (list byte * chunk_type)) (t : chunk_type) :
  lookup_chunk_type buff table = t -> t <> CHUNK_UNKNOWN ->
  exists n : list byte, In (n, t) table /\ strcmp_eq buff n = true.
Proof.
  induction table as [|[n t'] table IH]; simpl; intros H Ht.
  - congruence.
  - destruct (strcmp_eq buff n) eqn:E.
    + subst t'. exists n. split; [left; reflexivity|exact E].
    + destruct (IH H Ht) as (n' & Hin & Hn').
      exists n'. split; [right; exact Hin|exact Hn'].
Qed.

Lemma supported_names :
  Forall (fun p : list byte * chunk_type =>
            List.length (fst p) = 4%nat /\ ~ In x00 (fst p) /\
            lookup_chunk_type (fst p ++ [x00]) supported = snd p)
    supported.
Proof.
  unfold supported.
  repeat (apply Forall_cons;
          [split; [reflexivity|split; [|vm_compute; reflexivity]];
           simpl; intros H;
           repeat (destruct H as [H|H]; [discriminate|]); exact H|]).
  apply Forall_nil.
Qed.

(** X9. [get_chunk_type] does not tell the case of letters apart, and it
    gives a type other than unknown to a name exactly when the first
    four bytes of the name, in upper case, are one of the 21 names of the
    table, which then gives the type. *)
Theorem get_chunk_type_by_upper_case (name : list byte) :
  get_chunk_type (map toupper name) = get_chunk_type name /\
  forall t : chunk_type,
    (get_chunk_type name = t /\ t <> CHUNK_UNKNOWN) <->
    In (map toupper (firstn 4 name), t) supported.
Proof.
  split.
  - unfold get_chunk_type.
    rewrite firstn_map, map_map.
    rewrite (map_ext _ _ toupper_idempotent). reflexivity.
  - intros t. split.
    + intros (H & Ht). unfold get_chunk_type in H.
      destruct (lookup_chunk_type_found _ _ _ H Ht) as (n & Hin & Hn).
      pose proof (proj1 (Forall_forall _ _) supported_names _ Hin)
        as (Hl & Hnul & _).
      simpl in Hl, Hnul.
      assert (Hlen : (List.length (map toupper (firstn 4 name)) <= 4)%nat).
      { rewrite length_map, length_firstn. lia. }
      remember (map toupper (firstn 4 name)) as u eqn:Hu. clear Hu.
      unfold strcmp_eq in Hn. apply list_byte_eqb_spec in Hn.
      rewrite c_str_app_nul, (c_str_no_nul n Hnul) in Hn.
      destruct (c_str_prefix u) as (rest & Hp).
      rewrite Hn in Hp.
      assert (Hr : rest = []).
      { destruct rest; [reflexivity|].
        apply (f_equal (@List.length byte)) in Hp.
        rewrite length_app in Hp. simpl in Hp. lia. }
      subst rest. rewrite app_nil_r in Hp. rewrite Hp. exact Hin.
    + intros Hin.
      pose proof (proj1 (Forall_forall _ _) supported_names _ Hin)
        as (_ & _ & Hlook).
      simpl in Hlook. unfold get_chunk_type. split; [exact Hlook|].
      revert Hin. generalize (map toupper (firstn 4 name)).
      intros n Hin. unfold supported in Hin. simpl in Hin.
      repeat (destruct Hin as [Hin|Hin];
              [inversion Hin; discriminate|]).
      contradiction.
Qed.

Lemma for_n_invariant_indexed {St : Type} (Inv : Z -> St -> Prop)
  (body : Z -> St -> M St) :
  (forall (i : Z) (s s' : St) (out : list event),
     Inv i s -> body i s = (out, Ok s') -> Inv (i + 1) s') ->
  forall (n : nat) (i : Z) (s s' : St) (out : list event),
    Inv i s -> for_n n i body s = (out, Ok s') -> Inv (i + Z.of_nat n) s'.
Proof.
  intros Hbody n. induction n as [|n IH]; intros i s s' out Hs H.
  - inversion H; subst. rewrite Z.add_0_r. exact Hs.
  - simpl for_n in H. apply bind_Ok_inv in H.
    destruct H as (out1 & s1 & out2 & H1 & H2 & _).
    replace (i + Z.of_nat (S n)) with (i + 1 + Z.of_nat n) by lia.
    exact (IH _ _ _ _ (Hbody _ _ _ _ Hs H1) H2).
Qed.

Lemma while_fuel_invariant_exit {St : Type} (P : St -> Prop)
  (cond : St -> bool) (body : St -> M St) :
  (forall (s s' : St) (out : list event),
     P s -> cond s = true -> body s = (out, Ok s') -> P s') ->
  forall (fuel : nat) (s s' : St) (out : list event),
    P s -> while_fuel fuel cond body s = (out, Ok s') ->
    P s' /\ cond s' = false.
Proof.
  intros Hbody fuel. induction fuel as [|fuel IH]; intros s s' out Hs H.
  - simpl in H. destruct (cond s) eqn:E; [discriminate|].
    inversion H; subst. auto.
  - simpl in H. destruct (cond s) eqn:E.
    + apply bind_Ok_inv in H.
      destruct H as (out1 & s1 & out2 & H1 & H2 & _).
      exact (IH _ _ _ (Hbody _ _ _ Hs E H1) H2).
    + inversion H; subst. auto.
Qed.

Lemma expect_chunk_data_Ok_inv (c : chunk) (p sz : Z) (out : list event)
  (u : unit) :
  expect_chunk_data c p sz = (out, Ok u) -> sz <= chunk_data_left c p.
Proof.
  unfold expect_chunk_data. destruct (chunk_data_left c p <? sz) eqn:E.
  - intros H. exfalso. exact (diag_bail_not_Ok _ _ _ _ H).
  - intros _. apply Z.ltb_ge in E. exact E.
Qed.

(** A script entry that [read_acse_script_entry] returns has the size of
    its layout, and that many bytes were left in the chunk. *)
Lemma read_acse_script_entry_Ok_inv (o : object) (c : chunk) (p : Z)
  (entry : common_acse_script_entry) (out : list event) :
  read_acse_script_entry o c p = (out, Ok entry) ->
  real_entry_size entry = (if indirect_format o then 8 else 12) /\
  real_entry_size entry <= chunk_data_left c p.
Proof.
  unfold read_acse_script_entry. intros H.
  destruct (indirect_format o).
  - apply bind_Ok_inv in H. destruct H as (o1 & u & o2 & He & H & _).
    apply expect_chunk_data_Ok_inv in He.
    apply bind_Ok_inv in H. destruct H as (o3 & n & o4 & _ & H & _).
    apply bind_Ok_inv in H. destruct H as (o5 & t & o6 & _ & H & _).
    apply bind_Ok_inv in H. destruct H as (o7 & np & o8 & _ & H & _).
    apply bind_Ok_inv in H. destruct H as (o9 & off & o10 & _ & H & _).
    inversion H; subst entry; simpl. auto.
  - apply bind_Ok_inv in H. destruct H as (o1 & u & o2 & He & H & _).
    apply expect_chunk_data_Ok_inv in He.
    apply bind_Ok_inv in H. destruct H as (o3 & n & o4 & _ & H & _).
    apply bind_Ok_inv in H. destruct H as (o5 & t & o6 & _ & H & _).
    apply bind_Ok_inv in H. destruct H as (o7 & off & o8 & _ & H & _).
    apply bind_Ok_inv in H. destruct H as (o9 & np & o10 & _ & H & _).
    inversion H; subst entry; simpl. auto.
Qed.


Lemma candidate_step (offset cand en : Z) :
  offset < en ->
  offset < (if (cand >? offset) && (cand <? en) then cand else en) /\
  (if (cand >? offset) && (cand <? en) then cand else en) <= en /\
  (offset < cand ->
   (if (cand >? offset) && (cand <? en) then cand else en) <= cand).
Proof.
  intros H.
  destruct (cand >? offset) eqn:E1; destruct (cand <? en) eqn:E2; simpl;
    try apply Z.gtb_lt in E1; try apply Z.ltb_lt in E2;
    try apply Z.ltb_ge in E2; try lia.
  all: assert (~ offset < cand)
         by (intros Hc; apply Z.gtb_lt in Hc; congruence); lia.
Qed.

Lemma format_is_acse (o : object) :
  format_eqb (format o) FORMAT_BIG_E || format_eqb (format o) FORMAT_LITTLE_E
    = true <->
  format o = FORMAT_BIG_E \/ format o = FORMAT_LITTLE_E.
Proof.
  rewrite orb_true_iff, !format_eqb_spec. tauto.
Qed.

(** Where [calc_code_size] returns, the end offset it has after the
    tables and the directories ([e]) is above the target offset, not
    above N and not above any candidate that is above the target; the
    chunk offset and the directory offset are then applied to it. *)
Lemma calc_code_size_end_candidates (fuel : nat) (o : object)
  (offset r : Z) (out : list event) :
  buffer_ok o ->
  calc_code_size fuel o offset = (out, Ok r) ->
  offset < size o ->
  exists e : Z,
    offset < e <= size o /\
    (forall cand : Z, end_candidate fuel o cand -> offset < cand ->
       e <= cand) /\
    r = to_int
          ((let e3 := if format_eqb (format o) FORMAT_BIG_E ||
                         format_eqb (format o) FORMAT_LITTLE_E
                      then if chunk_offset o <? e then chunk_offset o else e
                      else e in
            if script_directory_present o && (directory_offset o <? e3)
            then directory_offset o else e3) - offset).
Proof.
  intros Hbuf H Hoff. unfold calc_code_size in H.
  apply bind_Ok_inv in H. destruct H as (out1 & e1 & out2 & H1 & H & _).
  apply bind_Ok_inv in H. destruct H as (out3 & e2 & out4 & H2 & H & _).
  assert (B1 : offset < e1 <= size o /\
               (format o = FORMAT_BIG_E \/ format o = FORMAT_LITTLE_E ->
                forall cand : Z,
                  sptr_candidate fuel o cand \/ func_candidate fuel o cand ->
                  offset < cand -> e1 <= cand)).
  { destruct (format_eqb (format o) FORMAT_BIG_E ||
              format_eqb (format o) FORMAT_LITTLE_E) eqn:Efmt.
    2:{ inversion H1; subst e1. split; [lia|].
        intros Hf. apply format_is_acse in Hf. congruence. }
    apply bind_Ok_inv in H1.
    destruct H1 as (o1 & found & o2 & Hfound & H1 & _).
    apply bind_Ok_inv in H1.
    destruct H1 as (o3 & e & o4 & Hs & H1 & _).
    assert (Be : offset < e <= size o /\
                 forall cand : Z, sptr_candidate fuel o cand ->
                                  offset < cand -> e <= cand).
    { destruct found as [c|].
      - apply bind_Ok_inv in Hs.
        destruct Hs as (o5 & st & o6 & Hw & Hs & _).
        inversion Hs; subst e. clear Hs.
        destruct (find_chunk_Some_inv _ _ _ _ _ Hbuf Hfound)
          as (_ & _ & _ & _ & Hrange & _).
        set (step := if indirect_format o then 8 else 12) in *.
        assert (Hstep : step = 8 \/ step = 12)
          by (unfold step; destruct (indirect_format o); auto).
        apply (while_fuel_invariant_exit
                 (fun st : Z * Z =>
                    offset < snd st <= size o /\
                    (exists m : Z, 0 <= m /\ fst st = m * step) /\
                    forall (k : Z) (oute : list event)
                      (entry : common_acse_script_entry),
                      0 <= k -> k * step < fst st ->
                      read_acse_script_entry o c (ch_data c + k * step) =
                        (oute, Ok entry) ->
                      offset < se_offset entry ->
                      snd st <= se_offset entry)) in Hw.
        + destruct Hw as ((Hb & _ & Hall) & Hexit).
          apply Z.ltb_ge in Hexit.
          split; [exact Hb|].
          intros cand (c' & outc & oute & k & entry & Hc & Hk & Hks & He & ->)
            Hlt.
          assert (c' = c) by congruence. subst c'.
          apply (Hall k oute entry); try assumption. fold step in Hks. lia.
        + intros [sz en] s' ou (Hb & (m & Hm & Hsz) & Hall) Hcond Hbody.
          cbn [fst snd] in Hb, Hsz, Hall, Hcond. apply Z.ltb_lt in Hcond.
          apply bind_Ok_inv in Hbody.
          destruct Hbody as (o7 & entry & o8 & Hentry & Hbody & _).
          destruct (read_acse_script_entry_Ok_inv _ _ _ _ _ Hentry)
            as (Hres & Hleft).
          fold step in Hres. unfold chunk_data_left in Hleft.
          replace (ch_data c + ch_size c - (ch_data c + sz))
            with (ch_size c - sz) in Hleft by lia.
          rewrite to_int_id in Hleft by lia.
          cbv zeta in Hbody.
          rewrite Hres, (to_int_id (sz + step)) in Hbody by lia.
          destruct (candidate_step offset (se_offset entry) en
                      ltac:(lia)) as (C1 & C2 & C3).
          assert (Hs' : s' = (sz + step,
                              if (se_offset entry >? offset) &&
                                 (se_offset entry <? en)
                              then se_offset entry else en)).
          { destruct ((se_offset entry >? offset) &&
                      (se_offset entry <? en));
              inversion Hbody; reflexivity. }
          subst s'. cbn [fst snd].
          split; [lia|]. split; [exists (m + 1); lia|].
          intros k oute entry' Hk Hks Hek Hltk.
          destruct (Z.eq_dec k m) as [->|Hne].
          * rewrite <- Hsz in Hek.
            assert (entry' = entry) by congruence. subst entry'.
            apply C3. exact Hltk.
          * assert (k * step < sz) by lia.
            specialize (Hall k oute entry' Hk H0 Hek Hltk). lia.
        + cbn [fst snd]. split; [lia|]. split; [exists 0; lia|].
          intros k oute entry Hk Hks. lia.
      - inversion Hs; subst e. split; [lia|].
        intros cand (c' & outc & oute & k & entry & Hc & _) _.
        congruence. }
    destruct Be as (Be & Bs).
    apply bind_Ok_inv in H1.
    destruct H1 as (o9 & found' & o10 & Hfound' & H1 & _).
    assert (Bf : offset < e1 <= size o /\ e1 <= e /\
                 forall cand : Z, func_candidate fuel o cand ->
                                  offset < cand -> e1 <= cand).
    { destruct found' as [c|].
      - apply (for_n_invariant_indexed
                 (fun (i : Z) (en : Z) =>
                    offset < en <= size o /\ en <= e /\
                    forall (j : Z) (oute : list event) (entry : func_entry),
                      0 <= j < i ->
                      load_func_entry o (ch_data c + j * 8) =
                        (oute, Ok entry) ->
                      offset < fe_offset entry -> en <= fe_offset entry))
          in H1.
        + destruct H1 as (Hb & Hle & Hall).
          split; [exact Hb|]. split; [exact Hle|].
          intros cand (c' & outc & oute & i & entry & Hc & Hi & He & ->) Hlt.
          assert (c' = c) by congruence. subst c'.
          apply (Hall i oute entry); try assumption. lia.
        + intros i en s' ou (Hb & Hle & Hall) Hbody.
          apply bind_Ok_inv in Hbody.
          destruct Hbody as (o7 & entry & o8 & Hentry & Hbody & _).
          destruct (candidate_step offset (fe_offset entry) en
                      ltac:(lia)) as (C1 & C2 & C3).
          assert (Hs' : s' = if (fe_offset entry >? offset) &&
                                (fe_offset entry <? en)
                             then fe_offset entry else en).
          { destruct ((fe_offset entry >? offset) &&
                      (fe_offset entry <? en));
              inversion Hbody; reflexivity. }
          subst s'.
          split; [lia|]. split; [lia|].
          intros j oute entry' Hj Hej Hltj.
          destruct (Z.eq_dec j i) as [->|Hne].
          * assert (entry' = entry) by congruence. subst entry'.
            apply C3. exact Hltj.
          * specialize (Hall j oute entry' ltac:(lia) Hej Hltj). lia.
        + split; [exact Be|]. split; [lia|]. intros j oute entry Hj. lia.
      - inversion H1; subst e1. split; [exact Be|]. split; [lia|].
        intros cand (c' & outc & oute & i & entry & Hc & _) _.
        congruence. }
    destruct Bf as (Bf & Hle & Bfc).
    split; [exact Bf|].
    intros _ cand [Hc|Hc] Hlt.
    - specialize (Bs cand Hc Hlt). lia.
    - exact (Bfc cand Hc Hlt). }
  destruct B1 as (B1 & B1c).
  assert (B2 : offset < e2 <= size o /\ e2 <= e1 /\
               (script_directory_present o = true ->
                forall cand : Z,
                  directory_candidate o cand \/ string_candidate o cand ->
                  offset < cand -> e2 <= cand)).
  { destruct (script_directory_present o) eqn:Edir.
    2:{ inversion H2; subst e2. split; [exact B1|]. split; [lia|].
        discriminate. }
    apply bind_Ok_inv in H2.
    destruct H2 as (o1 & count & o2 & Hcount & H2 & _).
    apply bind_Ok_inv in H2.
    destruct H2 as (o3 & st & o4 & Hl & H2 & _).
    cbv zeta in Hl.
    apply (for_n_invariant_indexed
             (fun (i : Z) (st : Z * Z) =>
                fst st = directory_offset o + 4 + 12 * i /\
                offset < snd st <= size o /\ snd st <= e1 /\
                forall (j : Z) (oute : list event)
                  (entry : acs0_script_entry),
                  0 <= j < i ->
                  load_acs0_script_entry o
                    (directory_offset o + 4 + 12 * j) = (oute, Ok entry) ->
                  offset < a0_offset entry -> snd st <= a0_offset entry))
      in Hl.
    - destruct Hl as (_ & Hb & Hle & Hall).
      cbv zeta in H2.
      apply bind_Ok_inv in H2.
      destruct H2 as (o5 & count' & o6 & Hcount' & H2 & _).
      apply bind_Ok_inv in H2.
      destruct H2 as (o7 & st' & o8 & Hl' & H2 & _).
      inversion H2; subst e2. clear H2.
      apply (for_n_invariant_indexed
               (fun (i : Z) (st' : Z * Z) =>
                  fst st' = string_offset o + 4 + 4 * i /\
                  offset < snd st' <= size o /\ snd st' <= snd st /\
                  forall (j : Z) (oute : list event) (so : Z),
                    0 <= j < i ->
                    load_int o (string_offset o + 4 + 4 * j) =
                      (oute, Ok so) ->
                    offset < so -> snd st' <= so))
        in Hl'.
      + destruct Hl' as (_ & Hb' & Hle' & Hall').
        split; [exact Hb'|]. split; [lia|].
        intros _ cand [Hc|Hc] Hlt.
        * destruct Hc as (outc & oute & cnt & j & entry & Hcnt & Hj & He & ->).
          assert (cnt = count) by congruence. subst cnt.
          specialize (Hall j oute entry ltac:(lia) He Hlt). lia.
        * destruct Hc as (outc & oute & cnt & j & Hcnt & Hj & He).
          assert (cnt = count') by congruence. subst cnt.
          apply (Hall' j oute cand); try assumption. lia.
      + intros i [p en] s' ou (Hp & Hb' & Hle' & Hall') Hbody.
        cbn [fst snd] in Hp, Hb', Hle', Hall'.
        apply bind_Ok_inv in Hbody.
        destruct Hbody as (o9 & so & o10 & Hso & Hbody & _).
        destruct (candidate_step offset so en ltac:(lia)) as (C1 & C2 & C3).
        assert (Hs' : s' = (p + 4,
                            if (so >? offset) && (so <? en)
                            then so else en)).
        { cbv zeta in Hbody.
          destruct ((so >? offset) && (so <? en));
            inversion Hbody; reflexivity. }
        subst s'. cbn [fst snd].
        split; [lia|]. split; [lia|]. split; [lia|].
        intros j oute so' Hj Hej Hltj.
        destruct (Z.eq_dec j i) as [->|Hne].
        * rewrite <- Hp in Hej.
          assert (so' = so) by congruence. subst so'.
          apply C3. exact Hltj.
        * specialize (Hall' j oute so' ltac:(lia) Hej Hltj). lia.
      + cbn [fst snd]. split; [lia|]. split; [exact Hb|]. split; [lia|].
        intros j oute so Hj. lia.
    - intros i [p en] s' ou (Hp & Hb' & Hle' & Hall') Hbody.
      cbn [fst snd] in Hp, Hb', Hle', Hall'.
      apply bind_Ok_inv in Hbody.
      destruct Hbody as (o9 & entry & o10 & Hentry & Hbody & _).
      destruct (candidate_step offset (a0_offset entry) en ltac:(lia))
        as (C1 & C2 & C3).
      assert (Hs' : s' = (p + 12,
                          if (a0_offset entry >? offset) &&
                             (a0_offset entry <? en)
                          then a0_offset entry else en)).
      { cbv zeta in Hbody.
        destruct ((a0_offset entry >? offset) && (a0_offset entry <? en));
          inversion Hbody; reflexivity. }
      subst s'. cbn [fst snd].
      split; [lia|]. split; [lia|]. split; [lia|].
      intros j oute entry' Hj Hej Hltj.
      destruct (Z.eq_dec j i) as [->|Hne].
      + rewrite <- Hp in Hej.
        assert (entry' = entry) by congruence. subst entry'.
        apply C3. exact Hltj.
      + specialize (Hall' j oute entry' ltac:(lia) Hej Hltj). lia.
    - cbn [fst snd]. split; [lia|]. split; [exact B1|]. split; [lia|].
      intros j oute entry Hj. lia. }
  destruct B2 as (B2 & Hle2 & B2c).
  exists e2. split; [exact B2|]. split.
  - intros cand [(Hf & Hc)|(Hd & Hc)] Hlt.
    + specialize (B1c Hf cand Hc Hlt). lia.
    + exact (B2c Hd cand Hc Hlt).
  - inversion H. reflexivity.
Qed.

Lemma end_offset_choice (fmt dir : bool) (co d e : Z) :
  let e3 := if fmt then if co <? e then co else e else e in
  let E := if dir && (d <? e3) then d else e3 in
  E <= e /\
  (E = e \/ (fmt = true /\ E = co) \/ (dir = true /\ E = d)).
Proof.
  cbv zeta.
  destruct fmt, dir; cbn [andb];
    destruct (co <? e) eqn:E1;
    try (destruct (d <? co) eqn:E2);
    try (destruct (d <? e) eqn:E3);
    try apply Z.ltb_lt in E1; try apply Z.ltb_ge in E1;
    try apply Z.ltb_lt in E2; try apply Z.ltb_ge in E2;
    try apply Z.ltb_lt in E3; try apply Z.ltb_ge in E3;
    split; try lia; auto.
Qed.

(** X10. Where the target offset lies in the file, before the chunk
    section of an ACSE object and before the script directory when there
    is one, the inferred code size is positive and the extent
    [offset, offset + size) lies in the file. *)
Theorem calc_code_size_in_file (fuel : nat) (o : object) (offset r : Z)
  (out : list event) :
  buffer_ok o ->
  calc_code_size fuel o offset = (out, Ok r) ->
  0 <= offset < size o ->
  (format o = FORMAT_BIG_E \/ format o = FORMAT_LITTLE_E ->
   offset < chunk_offset o) ->
  (script_directory_present o = true -> offset < directory_offset o) ->
  0 < r /\ offset + r <= size o.
Proof.
  intros Hbuf H Hoff Hco Hdo. pose proof Hbuf as (_ & Hsz).
  unfold INT_MAX in Hsz.
  destruct (calc_code_size_end_candidates _ _ _ _ _ Hbuf H ltac:(lia))
    as (e & He & _ & ->).
  destruct (end_offset_choice
              (format_eqb (format o) FORMAT_BIG_E ||
               format_eqb (format o) FORMAT_LITTLE_E)
              (script_directory_present o)
              (chunk_offset o) (directory_offset o) e) as (Hle & Hc).
  cbv zeta in Hle, Hc |- *.
  set (E := if script_directory_present o && _ then _ else _) in *.
  assert (HE : offset < E).
  { destruct Hc as [Hc|[(Hf & Hc)|(Hd & Hc)]].
    - lia.
    - apply format_is_acse in Hf. specialize (Hco Hf). lia.
    - specialize (Hdo Hd). lia. }
  rewrite to_int_id by lia. lia.
Qed.

Lemma calc_code_size_in_file_witness :
  0 < 68 /\ 12 + 68 <= size (object_of file_two_scripts).
Proof.
  apply (calc_code_size_in_file 2 (object_of file_two_scripts) 12 68 []).
  - vm_compute. split; [reflexivity|]. split; discriminate.
  - vm_compute. reflexivity.
  - vm_compute. split; [discriminate|reflexivity].
  - intros _. vm_compute. reflexivity.
  - intros _. vm_compute. reflexivity.
Defined.

(** X11. The inferred extent of the code at [offset] does not run into
    the code of another script or function, or into a string, that the
    tables of the object place after [offset]: for every such candidate
    [cand], [offset + size <= cand]. *)
Theorem calc_code_size_stops_at_next_entry (fuel : nat) (o : object)
  (offset r cand : Z) (out : list event) :
  buffer_ok o ->
  calc_code_size fuel o offset = (out, Ok r) ->
  0 <= offset < size o ->
  0 <= chunk_offset o ->
  0 <= directory_offset o ->
  end_candidate fuel o cand ->
  offset < cand ->
  offset + r <= cand.
Proof.
  intros Hbuf H Hoff Hco Hdo Hcand Hlt. pose proof Hbuf as (_ & Hsz).
  unfold INT_MAX in Hsz.
  destruct (calc_code_size_end_candidates _ _ _ _ _ Hbuf H ltac:(lia))
    as (e & He & Hall & ->).
  specialize (Hall cand Hcand Hlt).
  destruct (end_offset_choice
              (format_eqb (format o) FORMAT_BIG_E ||
               format_eqb (format o) FORMAT_LITTLE_E)
              (script_directory_present o)
              (chunk_offset o) (directory_offset o) e) as (Hle & Hc).
  cbv zeta in Hle, Hc |- *.
  set (E := if script_directory_present o && _ then _ else _) in *.
  assert (HE : 0 <= E) by (destruct Hc as [Hc|[(_ & Hc)|(_ & Hc)]]; lia).
  rewrite to_int_id by lia. lia.
Qed.

Lemma calc_code_size_stops_at_next_entry_witness :
  12 + 68 <= 80.
Proof.
  apply (calc_code_size_stops_at_next_entry 2 (object_of file_two_scripts)
           12 68 80 []).
  - vm_compute. split; [reflexivity|]. split; discriminate.
  - vm_compute. reflexivity.
  - vm_compute. split; [discriminate|reflexivity].
  - vm_compute. discriminate.
  - vm_compute. discriminate.
  - left. split; [left; vm_compute; reflexivity|]. left.
    exists (mk_chunk SPTR 104 24 CHUNK_SPTR), [], [], 1,
      (mk_script_entry 2 1 0 80 12).
    split; [vm_compute; reflexivity|].
    split; [lia|].
    split; [vm_compute; reflexivity|].
    split; vm_compute; reflexivity.
  - lia.
Defined.

(* ------------------------------------------------------------------ *)
(** ** The disassembler: every code segment in the file *)

Lemma ends_well_for_n_bounded {St : Type} (lo hi : Z)
  (Inv : Z -> St -> Prop) (body : Z -> St -> M St) :
  (forall (i : Z) (s : St),
     lo <= i < hi -> Inv i s -> ends_well (Inv (i + 1)) (body i s)) ->
  forall (n : nat) (i : Z) (s : St),
    lo <= i -> i + Z.of_nat n <= hi ->
    Inv i s -> ends_well (Inv (i + Z.of_nat n)) (for_n n i body s).
Proof.
  intros Hbody n. induction n as [|n IH]; intros i s Hlo Hhi Hs.
  - simpl. rewrite Z.add_0_r. exact Hs.
  - simpl for_n. apply (ends_well_bind (Inv (i + 1))).
    + apply Hbody; [lia|exact Hs].
    + intros s' Hs'.
      replace (i + Z.of_nat (S n)) with (i + 1 + Z.of_nat n) by lia.
      apply IH; [lia|lia|exact Hs'].
Qed.

Lemma load_ints_ok (o : object) (n : nat) :
  buffer_ok o ->
  forall p : Z,
    0 <= p -> p + 4 * Z.of_nat n <= size o + 1 ->
    exists vs : list Z, load_ints o p n = ret vs.
Proof.
  intros Hbuf. induction n as [|n IH]; intros p Hp Hn.
  - exists []. reflexivity.
  - destruct (load_int_ok o p Hbuf Hp ltac:(lia)) as (v & Hv & _).
    destruct (IH (p + 4) ltac:(lia) ltac:(lia)) as (vs & Hvs).
    exists (v :: vs). simpl. rewrite Hv, bind_ret_l, Hvs, bind_ret_l.
    reflexivity.
Qed.

Lemma moved_on_refl (s : pcode_segment) :
  seg_pos s <= code_size s -> moved_on 0 s s.
Proof. unfold moved_on. intros H. repeat split; lia. Qed.

Lemma moved_on_trans (n m : Z) (s1 s2 s3 : pcode_segment) :
  moved_on n s1 s2 -> moved_on m s2 s3 -> moved_on (n + m) s1 s3.
Proof.
  unfold moved_on.
  intros (A1 & A2 & A3 & A4 & A5) (B1 & B2 & B3 & B4 & B5).
  repeat split; try congruence; lia.
Qed.

Lemma moved_on_weaken (n m : Z) (s s' : pcode_segment) :
  moved_on n s s' -> m <= n -> moved_on m s s'.
Proof.
  unfold moved_on. intros (A1 & A2 & A3 & A4 & A5) H.
  repeat split; try assumption; lia.
Qed.

Lemma moved_on_advance (n : Z) (s : pcode_segment) :
  0 <= n -> n <= code_size s - seg_pos s -> moved_on n s (advance s n).
Proof.
  unfold moved_on, advance. simpl. intros H1 H2. repeat split; lia.
Qed.

Lemma moved_on_in_code (offset cs n : Z) (s s' : pcode_segment) :
  0 <= n -> segment_in_code offset cs s -> moved_on n s s' ->
  segment_in_code offset cs s'.
Proof.
  unfold segment_in_code, moved_on.
  intros Hn (A1 & A2 & A3) (B1 & B2 & B3 & B4 & B5).
  repeat split; try congruence; lia.
Qed.

Section Disassembler.

Variable o : object.
Variables offset cs : Z.
Hypothesis Hbuf : buffer_ok o.
Hypothesis Hoffset : 0 <= offset.
Hypothesis Hcs : offset + cs <= size o.

Lemma size_is_int : size o < 2 ^ 31.
Proof. destruct Hbuf as (_ & H). unfold INT_MAX in H. lia. Qed.

Lemma expect_pcode_data_ends_well (s : pcode_segment) (sz : Z) :
  segment_in_code offset cs s ->
  ends_well (fun _ => sz <= code_size s - seg_pos s) (expect_pcode_data s sz).
Proof.
  intros (H1 & H2 & H3). pose proof size_is_int.
  unfold expect_pcode_data. cbv zeta.
  rewrite (to_int_id (code_size s - seg_pos s)) by lia.
  destruct (code_size s - seg_pos s <? sz) eqn:E.
  - apply ends_well_diag_bail.
  - apply ends_well_ret. apply Z.ltb_ge in E. exact E.
Qed.

Lemma read_pcode_uchar_ends_well (s : pcode_segment) :
  segment_in_code offset cs s ->
  ends_well (fun r => moved_on 1 s (snd r)) (read_pcode_uchar o s).
Proof.
  intros Hs. pose proof Hs as (H1 & H2 & H3). unfold read_pcode_uchar.
  apply (ends_well_bind (fun _ => 1 <= code_size s - seg_pos s)).
  - apply expect_pcode_data_ends_well. exact Hs.
  - intros _ Hleft. unfold seg_data.
    destruct (load_uchar_ok o (seg_offset s + seg_pos s) Hbuf ltac:(lia))
      as (v & -> & _).
    rewrite bind_ret_l. apply ends_well_ret. simpl.
    apply moved_on_advance; lia.
Qed.

Lemma read_pcode_short_ends_well (s : pcode_segment) :
  segment_in_code offset cs s ->
  ends_well (fun r => moved_on 2 s (snd r)) (read_pcode_short o s).
Proof.
  intros Hs. pose proof Hs as (H1 & H2 & H3). unfold read_pcode_short.
  apply (ends_well_bind (fun _ => 2 <= code_size s - seg_pos s)).
  - apply expect_pcode_data_ends_well. exact Hs.
  - intros _ Hleft. unfold seg_data.
    destruct (load_short_ok o (seg_offset s + seg_pos s) Hbuf
                ltac:(lia) ltac:(lia)) as (v & -> & _).
    rewrite bind_ret_l. apply ends_well_ret. simpl.
    apply moved_on_advance; lia.
Qed.

Lemma read_pcode_int_ends_well (s : pcode_segment) :
  segment_in_code offset cs s ->
  ends_well (fun r => moved_on 4 s (snd r)) (read_pcode_int o s).
Proof.
  intros Hs. pose proof Hs as (H1 & H2 & H3). unfold read_pcode_int.
  apply (ends_well_bind (fun _ => 4 <= code_size s - seg_pos s)).
  - apply expect_pcode_data_ends_well. exact Hs.
  - intros _ Hleft. unfold seg_data.
    destruct (load_int_ok o (seg_offset s + seg_pos s) Hbuf
                ltac:(lia) ltac:(lia)) as (v & -> & _).
    rewrite bind_ret_l. apply ends_well_ret. simpl.
    apply moved_on_advance; lia.
Qed.

(** The operand that is a byte in small code and an [int] otherwise. *)
Lemma read_operand_ends_well (s : pcode_segment) :
  segment_in_code offset cs s ->
  ends_well (fun r => moved_on 1 s (snd r))
    (if small_code o then read_pcode_uchar o s else read_pcode_int o s).
Proof.
  intros Hs. destruct (small_code o).
  - apply read_pcode_uchar_ends_well. exact Hs.
  - eapply ends_well_weaken; [apply read_pcode_int_ends_well; exact Hs|].
    intros r Hr. apply (moved_on_weaken 4); [exact Hr|lia].
Qed.

Lemma show_opcode_ends_well (s : pcode_segment) :
  segment_in_code offset cs s ->
  ends_well (fun s' => segment_in_code offset cs s' /\ seg_pos s < seg_pos s')
    (show_opcode o s).
Proof.
  intros Hs. unfold show_opcode. cbv zeta.
  apply (ends_well_bind (fun r => moved_on 1 s (snd r))).
  - destruct (small_code o).
    + apply (ends_well_bind (fun r => moved_on 1 s (snd r))).
      * apply read_pcode_uchar_ends_well. exact Hs.
      * intros [temp s1] H1. simpl in H1.
        destruct (240 <=? temp).
        -- apply (ends_well_bind (fun r => moved_on 1 s1 (snd r))).
           ++ apply read_pcode_uchar_ends_well.
              apply (moved_on_in_code offset cs 1 s); [lia|exact Hs|exact H1].
           ++ intros [temp2 s2] H2. simpl in H2.
              apply ends_well_ret. simpl.
              apply (moved_on_weaken (1 + 1)); [|lia].
              apply (moved_on_trans 1 1 s s1 s2); assumption.
        -- apply ends_well_ret. exact H1.
    + eapply ends_well_weaken; [apply read_pcode_int_ends_well; exact Hs|].
      intros r Hr. apply (moved_on_weaken 4); [exact Hr|lia].
  - intros [opcode s1] H1. simpl in H1.
    pose proof (moved_on_in_code offset cs 1 s s1 ltac:(lia) Hs H1)
      as (A1 & A2 & A3).
    destruct H1 as (_ & _ & _ & _ & H1).
    destruct ((PCD_NOP <=? opcode) && (opcode <? PCD_TOTAL));
      apply ends_well_print; apply ends_well_ret;
      (split; [repeat split; simpl; lia|simpl; lia]).
Qed.

Lemma show_args_one_ends_well (s : pcode_segment) :
  segment_in_code offset cs s -> ends_well (moved_on 0 s) (show_args_one o s).
Proof.
  intros Hs. unfold show_args_one.
  apply (ends_well_bind (fun r => moved_on 1 s (snd r))).
  - apply read_operand_ends_well. exact Hs.
  - intros [arg s1] H1. simpl in H1.
    apply ends_well_print. apply ends_well_ret.
    apply (moved_on_weaken 1); [exact H1|lia].
Qed.

Lemma show_args_lspec_direct_ends_well (n : nat) (s : pcode_segment) :
  segment_in_code offset cs s -> ends_well (moved_on 0 s) (show_args_lspec_direct n o s).
Proof.
  intros Hs. unfold show_args_lspec_direct.
  apply (ends_well_bind (fun r => moved_on 1 s (snd r))).
  - apply read_operand_ends_well. exact Hs.
  - intros [id s1] H1. simpl in H1.
    pose proof (moved_on_in_code offset cs 1 s s1 ltac:(lia) Hs H1) as Hs1.
    pose proof Hs1 as (A1 & A2 & A3).
    apply (ends_well_bind
             (fun _ => 4 * Z.of_nat n <= code_size s1 - seg_pos s1)).
    + apply expect_pcode_data_ends_well. exact Hs1.
    + intros _ Hleft. unfold seg_data.
      destruct (load_ints_ok o n Hbuf (seg_offset s1 + seg_pos s1)
                  ltac:(lia) ltac:(lia)) as (vs & ->).
      rewrite bind_ret_l. cbv zeta.
      apply ends_well_print. apply ends_well_ret.
      apply (moved_on_weaken (1 + 4 * Z.of_nat n)); [|lia].
      apply (moved_on_trans 1 (4 * Z.of_nat n) s s1); [exact H1|].
      apply moved_on_advance; lia.
Qed.

Lemma show_args_bytes_ends_well (n : nat) (s : pcode_segment) :
  segment_in_code offset cs s -> ends_well (moved_on 0 s) (show_args_bytes n o s).
Proof.
  intros Hs. pose proof Hs as (A1 & A2 & A3). unfold show_args_bytes.
  apply (ends_well_bind (fun _ => Z.of_nat n <= code_size s - seg_pos s)).
  - apply expect_pcode_data_ends_well. exact Hs.
  - intros _ Hleft. unfold seg_data.
    destruct (load_bytes_ok o n Hbuf (seg_offset s + seg_pos s)
                ltac:(lia) ltac:(lia)) as (bs & -> & _).
    rewrite bind_ret_l.
    apply ends_well_print. apply ends_well_ret.
    apply (moved_on_weaken (Z.of_nat n)); [|lia].
    apply moved_on_advance; lia.
Qed.

Lemma show_args_pushbytes_ends_well (s : pcode_segment) :
  segment_in_code offset cs s -> ends_well (moved_on 0 s) (show_args_pushbytes o s).
Proof.
  intros Hs. pose proof Hs as (A1 & A2 & A3). unfold show_args_pushbytes.
  apply (ends_well_bind (fun _ => 1 <= code_size s - seg_pos s)).
  { apply expect_pcode_data_ends_well. exact Hs. }
  intros _ Hleft. unfold seg_data.
  destruct (load_uchar_ok o (seg_offset s + seg_pos s) Hbuf ltac:(lia))
    as (count & -> & Hcount).
  rewrite bind_ret_l. cbv zeta. apply ends_well_print.
  pose proof (moved_on_advance 1 s ltac:(lia) ltac:(lia)) as H1.
  pose proof (moved_on_in_code offset cs 1 s _ ltac:(lia) Hs H1) as Hs1.
  set (s1 := advance s 1) in *. clearbody s1.
  pose proof Hs1 as (B1 & B2 & B3).
  apply (ends_well_bind (fun _ => count <= code_size s1 - seg_pos s1)).
  { apply expect_pcode_data_ends_well. exact Hs1. }
  intros _ Hleft1.
  apply (ends_well_bind (moved_on 0 s1)).
  - eapply ends_well_weaken.
    + apply (ends_well_for_n_bounded 0 count
               (fun i s' => moved_on i s1 s' /\ seg_pos s' = seg_pos s1 + i)).
      * intros i s' Hi (Hm & Hpos).
        pose proof (moved_on_in_code offset cs i s1 s' ltac:(lia) Hs1 Hm)
          as (C1 & C2 & C3).
        unfold seg_data.
        destruct (load_uchar_ok o (seg_offset s' + seg_pos s') Hbuf
                    ltac:(lia)) as (b & -> & _).
        rewrite bind_ret_l. apply ends_well_print. apply ends_well_ret.
        split; [|simpl; lia].
        apply (moved_on_trans i 1 s1 s'); [exact Hm|].
        apply moved_on_advance; lia.
      * lia.
      * rewrite Z2Nat.id by lia. lia.
      * split; [apply moved_on_refl; lia|lia].
    + intros s' (Hm & _). apply (moved_on_weaken _ 0) in Hm; [exact Hm|lia].
  - intros s2 H2. apply ends_well_print. apply ends_well_ret.
    apply (moved_on_weaken (1 + 0)); [|lia].
    apply (moved_on_trans 1 0 s s1 s2); assumption.
Qed.

Lemma show_cases_ends_well (s : pcode_segment) :
  segment_in_code offset cs s -> ends_well (moved_on 0 s) (show_cases o s).
Proof.
  intros Hs. unfold show_cases.
  apply (ends_well_bind (fun r => moved_on 4 s (snd r))).
  { apply read_pcode_int_ends_well. exact Hs. }
  intros [count s1] H1. simpl in H1.
  pose proof (moved_on_in_code offset cs 4 s s1 ltac:(lia) Hs H1) as Hs1.
  apply ends_well_print.
  eapply ends_well_weaken.
  - apply (ends_well_for_n (fun _ s' => moved_on 0 s1 s')).
    + intros i s' Hm.
      pose proof (moved_on_in_code offset cs 0 s1 s' ltac:(lia) Hs1 Hm)
        as Hs'.
      apply (ends_well_bind (fun r => moved_on 4 s' (snd r))).
      { apply read_pcode_int_ends_well. exact Hs'. }
      intros [value s2] H2. simpl in H2.
      pose proof (moved_on_in_code offset cs 4 s' s2 ltac:(lia) Hs' H2)
        as Hs2.
      apply ends_well_print.
      apply (ends_well_bind (fun r => moved_on 4 s2 (snd r))).
      { apply read_pcode_int_ends_well. exact Hs2. }
      intros [target s3] H3. simpl in H3.
      apply ends_well_print. apply ends_well_ret.
      apply (moved_on_weaken (0 + (4 + 4))); [|lia].
      apply (moved_on_trans 0 (4 + 4) s1 s'); [exact Hm|].
      apply (moved_on_trans 4 4 s' s2 s3); assumption.
    + apply moved_on_refl. destruct Hs1 as (_ & -> & ?). lia.
  - intros s' Hm. apply (moved_on_weaken (4 + 0)); [|lia].
    apply (moved_on_trans 4 0 s s1 s'); assumption.
Qed.

Lemma show_args_casegotosorted_ends_well (s : pcode_segment) :
  segment_in_code offset cs s -> ends_well (moved_on 0 s) (show_args_casegotosorted o s).
Proof.
  intros Hs. pose proof Hs as (A1 & A2 & A3). pose proof size_is_int.
  unfold show_args_casegotosorted. cbv zeta.
  assert (Hr : 0 <= to_int (to_size_t (seg_offset s + seg_pos s) mod 4) < 4).
  { pose proof (Z.mod_pos_bound (to_size_t (seg_offset s + seg_pos s)) 4
                  ltac:(lia)).
    rewrite to_int_id by lia. lia. }
  set (remainder := to_int (to_size_t (seg_offset s + seg_pos s) mod 4)) in *.
  apply (ends_well_bind (moved_on 0 s)).
  - destruct (remainder >? 0) eqn:E.
    + rewrite (to_int_id (4 - remainder)) by lia.
      apply (ends_well_bind
               (fun _ => 4 - remainder <= code_size s - seg_pos s)).
      * apply expect_pcode_data_ends_well. exact Hs.
      * intros _ Hleft. apply ends_well_ret.
        apply (moved_on_weaken (4 - remainder)); [|lia].
        apply moved_on_advance; lia.
    + apply ends_well_ret. apply moved_on_refl. lia.
  - intros s1 H1.
    pose proof (moved_on_in_code offset cs 0 s s1 ltac:(lia) Hs H1) as Hs1.
    eapply ends_well_weaken; [apply show_cases_ends_well; exact Hs1|].
    intros s2 H2. apply (moved_on_trans 0 0 s s1 s2); assumption.
Qed.

Lemma show_args_callfunc_ends_well (s : pcode_segment) :
  segment_in_code offset cs s -> ends_well (moved_on 0 s) (show_args_callfunc o s).
Proof.
  intros Hs. unfold show_args_callfunc.
  apply (ends_well_bind (fun r => moved_on 1 s (snd r))).
  { apply read_operand_ends_well. exact Hs. }
  intros [num_args s1] H1. simpl in H1.
  pose proof (moved_on_in_code offset cs 1 s s1 ltac:(lia) Hs H1) as Hs1.
  apply (ends_well_bind (fun r => moved_on 2 s1 (snd r))).
  { destruct (small_code o).
    - apply read_pcode_short_ends_well. exact Hs1.
    - eapply ends_well_weaken; [apply read_pcode_int_ends_well; exact Hs1|].
      intros r Hr. apply (moved_on_weaken 4); [exact Hr|lia]. }
  intros [index s2] H2. simpl in H2.
  apply ends_well_print. apply ends_well_ret.
  apply (moved_on_weaken (1 + 2)); [|lia].
  apply (moved_on_trans 1 2 s s1 s2); assumption.
Qed.

Lemma show_args_default_ends_well (s : pcode_segment) :
  segment_in_code offset cs s -> ends_well (moved_on 0 s) (show_args_default o s).
Proof.
  intros Hs. pose proof Hs as (A1 & A2 & A3).
  unfold show_args_default. cbv zeta.
  destruct (pcode_num_args (seg_opcode s) >? 0).
  - apply (ends_well_bind (moved_on 0 s)).
    + apply (ends_well_for_n (fun _ s' => moved_on 0 s s')).
      * intros i s' Hm.
        pose proof (moved_on_in_code offset cs 0 s s' ltac:(lia) Hs Hm)
          as Hs'.
        apply (ends_well_bind (fun r => moved_on 4 s' (snd r))).
        { apply read_pcode_int_ends_well. exact Hs'. }
        intros [arg s2] H2. simpl in H2.
        apply ends_well_print. apply ends_well_ret.
        apply (moved_on_weaken (0 + 4)); [|lia].
        apply (moved_on_trans 0 4 s s' s2); assumption.
      * apply moved_on_refl. lia.
    + intros s1 H1. apply ends_well_print. apply ends_well_ret. exact H1.
  - apply ends_well_print. apply ends_well_ret. apply moved_on_refl. lia.
Qed.

Lemma show_args_ends_well (s : pcode_segment) :
  segment_in_code offset cs s -> ends_well (moved_on 0 s) (show_args o s).
Proof.
  intros Hs. unfold show_args. cbv zeta.
  repeat match goal with
         | |- ends_well _ (if ?b then _ else _) => destruct b
         end;
    auto using show_args_one_ends_well, show_args_lspec_direct_ends_well,
      show_args_bytes_ends_well, show_args_pushbytes_ends_well,
      show_args_casegotosorted_ends_well, show_args_callfunc_ends_well,
      show_args_default_ends_well.
Qed.

Lemma show_instruction_ends_well (s : pcode_segment) :
  segment_in_code offset cs s -> invalid_opcode s = false ->
  ends_well
    (fun s' => segment_in_code offset cs s' /\
               (instructions_left s' < instructions_left s)%nat)
    (show_instruction o s).
Proof.
  intros Hs Hv. pose proof Hs as (A1 & A2 & A3). unfold show_instruction.
  apply (ends_well_bind (fun s' => segment_in_code offset cs s' /\ seg_pos s < seg_pos s')).
  { apply show_opcode_ends_well. exact Hs. }
  intros s1 (Hs1 & Hlt). pose proof Hs1 as (B1 & B2 & B3).
  destruct (invalid_opcode s1) eqn:E1; simpl.
  - apply ends_well_ret. split; [exact Hs1|].
    unfold instructions_left. rewrite E1, Hv. lia.
  - eapply ends_well_weaken; [apply show_args_ends_well; exact Hs1|].
    intros s2 H2.
    split; [apply (moved_on_in_code offset cs 0 s1); [lia|exact Hs1|exact H2]|].
    destruct H2 as (C1 & C2 & C3 & C4 & C5).
    unfold instructions_left. rewrite C4, E1, Hv. lia.
Qed.

Lemma show_pcode_loop_ends_well (fuel : nat) :
  (Z.to_nat cs <= fuel)%nat ->
  ends_well (fun _ => True) (show_pcode fuel o offset cs).
Proof.
  intros Hfuel. unfold show_pcode. cbv zeta.
  apply (ends_well_bind (fun _ => True)); [|intros; exact I].
  destruct (Z.le_gt_cases cs 0) as [Hneg|Hpos].
  - destruct fuel; simpl; unfold pcode_segment_end, init_pcode_segment;
      cbn [code_size seg_pos invalid_opcode];
      replace (cs <=? 0) with true by (symmetry; apply Z.leb_le; lia);
      exact I.
  - eapply ends_well_weaken.
    + apply (ends_well_while_fuel (segment_in_code offset cs) instructions_left).
      * intros s (A1 & A2 & A3) Hc.
        apply negb_true_iff in Hc. unfold pcode_segment_end in Hc.
        apply orb_false_iff in Hc. destruct Hc as (Hc & Hv).
        apply Z.leb_gt in Hc.
        unfold instructions_left. rewrite Hv. lia.
      * intros s Hs Hc.
        apply negb_true_iff in Hc. unfold pcode_segment_end in Hc.
        apply orb_false_iff in Hc. destruct Hc as (_ & Hv).
        apply show_instruction_ends_well; assumption.
      * unfold segment_in_code, init_pcode_segment. simpl.
        repeat split; lia.
      * unfold instructions_left, init_pcode_segment. simpl.
        rewrite Z.sub_0_r. exact Hfuel.
    + intros; exact I.
Qed.

End Disassembler.

(** X12. The disassembler stays in the file and terminates: for a code
    segment [offset .. offset + code_size) that lies in the file,
    [show_pcode] reads no byte outside the buffer and, given one
    iteration per byte of code, ends by returning or by [bail]. *)
Theorem show_pcode_ends_well (fuel : nat) (o : object)
  (offset code_size : Z) :
  buffer_ok o ->
  0 <= offset ->
  offset + code_size <= size o ->
  (Z.to_nat code_size <= fuel)%nat ->
  ends_well (fun _ => True) (show_pcode fuel o offset code_size).
Proof.
  intros Hbuf Hoff Hcs Hfuel.
  exact (show_pcode_loop_ends_well o offset code_size Hbuf Hoff Hcs fuel
           Hfuel).
Qed.

Lemma show_pcode_ends_well_witness :
  ends_well (fun _ => True)
    (show_pcode 19 (object_of file_casegotosorted_at_9) 9 19).
Proof.
  apply (show_pcode_ends_well 19 (object_of file_casegotosorted_at_9) 9 19).
  - vm_compute. split; [reflexivity|]. split; discriminate.
  - lia.
  - vm_compute. discriminate.
  - apply le_n.
Defined.

(** X13. The code of a script can be shown: where [calc_code_size]
    returns for an offset in the file of an object whose chunk and
    directory offsets are not negative, [show_pcode] on the extent it
    gives reads no byte outside the buffer and ends. *)
Theorem show_pcode_of_calc_code_size (fuel fuel' : nat) (o : object)
  (offset r : Z) (out : list event) :
  buffer_ok o ->
  calc_code_size fuel o offset = (out, Ok r) ->
  0 <= offset < size o ->
  0 <= chunk_offset o ->
  0 <= directory_offset o ->
  (Z.to_nat (size o) <= fuel')%nat ->
  ends_well (fun _ => True) (show_pcode fuel' o offset r).
Proof.
  intros Hbuf H Hoff Hco Hdo Hfuel. pose proof Hbuf as (_ & Hsz).
  pose proof (calc_code_size_upper_bound _ _ _ _ _ H Hoff ltac:(lia) Hco Hdo).
  apply show_pcode_loop_ends_well; try assumption; lia.
Qed.

Lemma show_pcode_of_calc_code_size_witness :
  ends_well (fun _ => True)
    (show_pcode 48 (object_of file_casegotosorted_at_9) 9 19).
Proof.
  apply (show_pcode_of_calc_code_size 2 48
           (object_of file_casegotosorted_at_9) 9 19 []).
  - vm_compute. split; [reflexivity|]. split; discriminate.
  - vm_compute. reflexivity.
  - vm_compute. split; [discriminate|reflexivity].
  - vm_compute. discriminate.
  - vm_compute. discriminate.
  - vm_compute. apply le_n.
Defined.

(* ------------------------------------------------------------------ *)
(** ** The disassembler: an opcode outside the table *)

Lemma no_unknown_pcode_ret {A} (a : A) : no_unknown_pcode (ret a).
Proof. reflexivity. Qed.

Lemma no_unknown_pcode_bind {A B} (m : M A) (f : A -> M B) :
  no_unknown_pcode m -> (forall a : A, no_unknown_pcode (f a)) ->
  no_unknown_pcode (bind m f).
Proof.
  unfold no_unknown_pcode, bind. intros Hm Hf.
  destruct m as [out [a| | |]]; simpl in *; try exact Hm.
  specialize (Hf a). destruct (f a) as [out' r]. simpl in *.
  rewrite forallb_app, Hm, Hf. reflexivity.
Qed.

Lemma no_unknown_pcode_print {A} (e : event) (k : unit -> M A) :
  is_unknown_pcode e = false -> no_unknown_pcode (k tt) ->
  no_unknown_pcode (bind (print e) k).
Proof.
  intros He Hk. rewrite bind_print. unfold no_unknown_pcode. simpl.
  rewrite He. exact Hk.
Qed.

Lemma no_unknown_pcode_diag_bail {A} (flags : Z) (m : diag_msg) :
  no_unknown_pcode (diag flags m ;; @bail A).
Proof.
  unfold diag, bind, bail, print, ret, no_unknown_pcode.
  destruct (Z.testbit flags 0); [reflexivity|].
  destruct (Z.testbit flags 1); reflexivity.
Qed.

Lemma no_unknown_pcode_load (o : object) (i : Z) : no_unknown_pcode (load o i).
Proof.
  unfold load. destruct ((0 <=? i) && (i <=? size o)); [|reflexivity].
  destruct (nth_error (data o) (Z.to_nat i)); reflexivity.
Qed.

Lemma no_unknown_pcode_load_bytes (o : object) (n : nat) :
  forall p : Z, no_unknown_pcode (load_bytes o p n).
Proof.
  induction n as [|n IH]; intros p; simpl.
  - reflexivity.
  - apply no_unknown_pcode_bind; [apply no_unknown_pcode_load|].
    intros b. apply no_unknown_pcode_bind; [apply IH|].
    intros bs. reflexivity.
Qed.

Lemma no_unknown_pcode_load_int (o : object) (p : Z) :
  no_unknown_pcode (load_int o p).
Proof.
  unfold load_int.
  apply no_unknown_pcode_bind; [apply no_unknown_pcode_load_bytes|].
  intros bs. reflexivity.
Qed.

Lemma no_unknown_pcode_load_short (o : object) (p : Z) :
  no_unknown_pcode (load_short o p).
Proof.
  unfold load_short.
  apply no_unknown_pcode_bind; [apply no_unknown_pcode_load_bytes|].
  intros bs. reflexivity.
Qed.

Lemma no_unknown_pcode_load_uchar (o : object) (p : Z) :
  no_unknown_pcode (load_uchar o p).
Proof.
  unfold load_uchar.
  apply no_unknown_pcode_bind; [apply no_unknown_pcode_load|].
  intros b. reflexivity.
Qed.

Lemma no_unknown_pcode_load_ints (o : object) (n : nat) :
  forall p : Z, no_unknown_pcode (load_ints o p n).
Proof.
  induction n as [|n IH]; intros p; simpl.
  - reflexivity.
  - apply no_unknown_pcode_bind; [apply no_unknown_pcode_load_int|].
    intros v. apply no_unknown_pcode_bind; [apply IH|].
    intros vs. reflexivity.
Qed.

Lemma no_unknown_pcode_for_n {St} (body : Z -> St -> M St) :
  (forall (i : Z) (s : St), no_unknown_pcode (body i s)) ->
  forall (n : nat) (i : Z) (s : St), no_unknown_pcode (for_n n i body s).
Proof.
  intros Hbody n. induction n as [|n IH]; intros i s; simpl.
  - reflexivity.
  - apply no_unknown_pcode_bind; [apply Hbody|]. intros s'. apply IH.
Qed.

Lemma no_unknown_pcode_expect_pcode_data (s : pcode_segment) (sz : Z) :
  no_unknown_pcode (expect_pcode_data s sz).
Proof.
  unfold expect_pcode_data. cbv zeta.
  destruct (to_int (code_size s - seg_pos s) <? sz).
  - apply no_unknown_pcode_diag_bail.
  - reflexivity.
Qed.

Create HintDb quiet.

#[local] Hint Resolve no_unknown_pcode_ret no_unknown_pcode_diag_bail
  no_unknown_pcode_load no_unknown_pcode_load_bytes no_unknown_pcode_load_int
  no_unknown_pcode_load_short no_unknown_pcode_load_uchar
  no_unknown_pcode_load_ints no_unknown_pcode_expect_pcode_data : quiet.

(** Discharges [no_unknown_pcode] for a monadic term made of binds,
    prints, conditionals and pairs. *)
Ltac quiet :=
  repeat first
    [ progress auto with quiet
    | apply no_unknown_pcode_print; [reflexivity|]
    | apply no_unknown_pcode_bind; [|intros]
    | apply no_unknown_pcode_for_n; intros
    | match goal with
      | |- no_unknown_pcode (if ?b then _ else _) => destruct b
      | |- no_unknown_pcode (let (_, _) := ?r in _) => destruct r
      | |- no_unknown_pcode (match ?r with (_, _) => _ end) => destruct r
      end
    | progress cbv zeta ].

Lemma no_unknown_pcode_read_pcode_uchar (o : object) (s : pcode_segment) :
  no_unknown_pcode (read_pcode_uchar o s).
Proof. unfold read_pcode_uchar. quiet. Qed.

Lemma no_unknown_pcode_read_pcode_short (o : object) (s : pcode_segment) :
  no_unknown_pcode (read_pcode_short o s).
Proof. unfold read_pcode_short. quiet. Qed.

Lemma no_unknown_pcode_read_pcode_int (o : object) (s : pcode_segment) :
  no_unknown_pcode (read_pcode_int o s).
Proof. unfold read_pcode_int. quiet. Qed.

#[local] Hint Resolve no_unknown_pcode_read_pcode_uchar
  no_unknown_pcode_read_pcode_short no_unknown_pcode_read_pcode_int : quiet.

Lemma no_unknown_pcode_show_args (o : object) (s : pcode_segment) :
  no_unknown_pcode (show_args o s).
Proof.
  unfold show_args. cbv zeta.
  repeat match goal with
         | |- no_unknown_pcode (if ?b then _ else _) => destruct b
         end;
    unfold show_args_one, show_args_lspec_direct, show_args_bytes,
      show_args_pushbytes, show_args_casegotosorted, show_cases,
      show_args_callfunc, show_args_default;
    quiet.
Qed.

Lemma read_pcode_uchar_keeps_mark (o : object) (s : pcode_segment)
  (out : list event) (r : Z * pcode_segment) :
  read_pcode_uchar o s = (out, Ok r) ->
  invalid_opcode (snd r) = invalid_opcode s.
Proof.
  unfold read_pcode_uchar. intros H.
  apply bind_Ok_inv in H. destruct H as (o1 & u & o2 & _ & H & _).
  apply bind_Ok_inv in H. destruct H as (o3 & v & o4 & _ & H & _).
  inversion H. reflexivity.
Qed.

Lemma read_pcode_int_keeps_mark (o : object) (s : pcode_segment)
  (out : list event) (r : Z * pcode_segment) :
  read_pcode_int o s = (out, Ok r) ->
  invalid_opcode (snd r) = invalid_opcode s.
Proof.
  unfold read_pcode_int. intros H.
  apply bind_Ok_inv in H. destruct H as (o1 & u & o2 & _ & H & _).
  apply bind_Ok_inv in H. destruct H as (o3 & v & o4 & _ & H & _).
  inversion H. reflexivity.
Qed.

(** [show_opcode] either prints the "unknown pcode" line last and marks
    the segment, or prints no such line and leaves the mark alone. *)
Lemma show_opcode_cases (o : object) (s : pcode_segment) :
  (exists (out : list event) (e : event) (s' : pcode_segment),
     show_opcode o s = (out ++ [e], Ok s') /\
     forallb (fun e => negb (is_unknown_pcode e)) out = true /\
     invalid_opcode s' = true) \/
  (no_unknown_pcode (show_opcode o s) /\
   forall (out : list event) (s' : pcode_segment),
     show_opcode o s = (out, Ok s') ->
     invalid_opcode s' = invalid_opcode s).
Proof.
  unfold show_opcode. cbv zeta.
  set (rd := if small_code o then _ else _).
  assert (Hq : no_unknown_pcode rd) by (unfold rd; quiet).
  assert (Hk : forall out r, rd = (out, Ok r) ->
                             invalid_opcode (snd r) = invalid_opcode s).
  { unfold rd. intros out r H. destruct (small_code o).
    - apply bind_Ok_inv in H.
      destruct H as (o1 & [temp s1] & o2 & H1 & H & _).
      apply read_pcode_uchar_keeps_mark in H1. simpl in H1.
      destruct (240 <=? temp).
      + apply bind_Ok_inv in H.
        destruct H as (o3 & [temp2 s2] & o4 & H2 & H & _).
        apply read_pcode_uchar_keeps_mark in H2. simpl in H2.
        inversion H. simpl. congruence.
      + inversion H. exact H1.
    - apply read_pcode_int_keeps_mark in H. exact H. }
  clearbody rd. destruct rd as [out1 [[opcode s1]| | |]].
  - specialize (Hk out1 (opcode, s1) eq_refl). simpl in Hk.
    unfold no_unknown_pcode in Hq. simpl in Hq.
    unfold no_unknown_pcode. simpl.
    destruct ((PCD_NOP <=? opcode) && (opcode <? PCD_TOTAL)).
    + right. split.
      * simpl. rewrite forallb_app, Hq. reflexivity.
      * intros out s' H. inversion H. simpl. exact Hk.
    + left.
      exists out1,
        (EUnknownPcode (to_int (seg_offset s + to_int (seg_pos s))) opcode),
        (set_invalid_opcode s1 true).
      split; [reflexivity|]. split; [exact Hq|reflexivity].
  - right. split; [exact Hq|]. intros out s' H. discriminate.
  - right. split; [exact Hq|]. intros out s' H. discriminate.
  - right. split; [exact Hq|]. intros out s' H. discriminate.
Qed.

Lemma unknown_after_quiet (o1 o2 l1 l2 : list event) (e : event) :
  forallb (fun e => negb (is_unknown_pcode e)) o1 = true ->
  o1 ++ o2 = l1 ++ e :: l2 -> is_unknown_pcode e = true ->
  exists l1' : list event, o2 = l1' ++ e :: l2.
Proof.
  revert l1. induction o1 as [|x o1 IH]; intros l1 Hq H He.
  - exists l1. exact H.
  - simpl in Hq. apply andb_true_iff in Hq. destruct Hq as (Hx & Hq).
    destruct l1 as [|y l1]; simpl in H; inversion H; subst.
    + rewrite He in Hx. discriminate.
    + exact (IH l1 Hq H2 He).
Qed.

Lemma unknown_last (o1 l1 l2 : list event) (e e' : event) :
  forallb (fun e => negb (is_unknown_pcode e)) o1 = true ->
  o1 ++ [e'] = l1 ++ e :: l2 -> is_unknown_pcode e = true -> l2 = [].
Proof.
  intros Hq H He.
  destruct (unknown_after_quiet o1 [e'] l1 l2 e Hq H He) as (l1' & H').
  destruct l1' as [|y l1']; simpl in H'; inversion H'.
  - reflexivity.
  - destruct l1'; discriminate.
Qed.

Lemma show_pcode_loop_unknown_last (o : object) (fuel : nat) :
  forall s : pcode_segment,
    unknown_pcode_is_last
      (while_fuel fuel (fun s => negb (pcode_segment_end s))
         (show_instruction o) s).
Proof.
  induction fuel as [|fuel IH]; intros s l1 l2 e H He; simpl in H.
  - destruct (negb (pcode_segment_end s)); simpl in H;
      destruct l1; discriminate.
  - simpl. destruct (negb (pcode_segment_end s)) eqn:Hc; simpl in H;
      [|destruct l1; discriminate].
    apply negb_true_iff in Hc. unfold pcode_segment_end in Hc.
    apply orb_false_iff in Hc. destruct Hc as (_ & Hv).
    unfold show_instruction in *.
    destruct (show_opcode_cases o s)
      as [(out & e' & s' & Ho & Hq & Hinv)|(Hq & Hinv)].
    + rewrite Ho in *. rewrite bind_assoc in *.
      rewrite fst_bind_Ok in H. rewrite snd_bind_Ok.
      rewrite Hinv in *. cbn [negb] in *. rewrite bind_ret_l in *.
      assert (Hend : negb (pcode_segment_end s') = false).
      { unfold pcode_segment_end. rewrite Hinv, orb_true_r. reflexivity. }
      destruct fuel; simpl in *; rewrite Hend in *; simpl in *;
        rewrite app_nil_r in H;
        (split; [exact (unknown_last _ _ _ _ _ Hq H He)|eauto]).
    + destruct (show_opcode o s) as [out1 [s1| | |]] eqn:Ho;
        unfold no_unknown_pcode in Hq; simpl in Hq.
      * specialize (Hinv out1 s1 eq_refl). rewrite Hv in Hinv.
        rewrite bind_assoc in *.
        rewrite fst_bind_Ok in H. rewrite snd_bind_Ok.
        rewrite Hinv in *. cbn [negb] in *.
        pose proof (no_unknown_pcode_show_args o s1) as Hqa.
        unfold no_unknown_pcode in Hqa.
        destruct (show_args o s1) as [out2 [s2| | |]] eqn:Ha; simpl in Hqa.
        -- rewrite fst_bind_Ok in H. rewrite snd_bind_Ok.
           rewrite app_assoc in H.
           destruct (unknown_after_quiet (out1 ++ out2) _ l1 l2 e
                       ltac:(rewrite forallb_app, Hq, Hqa; reflexivity)
                       H He) as (l1' & H').
           exact (IH s2 l1' l2 e H' He).
        -- exfalso. simpl in H.
           destruct (unknown_after_quiet (out1 ++ out2) [] l1 l2 e
                       ltac:(rewrite forallb_app, Hq, Hqa; reflexivity)
                       ltac:(rewrite app_nil_r; exact H) He) as (l1' & H').
           destruct l1'; discriminate.
        -- exfalso. simpl in H.
           destruct (unknown_after_quiet (out1 ++ out2) [] l1 l2 e
                       ltac:(rewrite forallb_app, Hq, Hqa; reflexivity)
                       ltac:(rewrite app_nil_r; exact H) He) as (l1' & H').
           destruct l1'; discriminate.
        -- exfalso. simpl in H.
           destruct (unknown_after_quiet (out1 ++ out2) [] l1 l2 e
                       ltac:(rewrite forallb_app, Hq, Hqa; reflexivity)
                       ltac:(rewrite app_nil_r; exact H) He) as (l1' & H').
           destruct l1'; discriminate.
      * exfalso. simpl in H.
        destruct (unknown_after_quiet out1 [] l1 l2 e Hq
                    ltac:(rewrite app_nil_r; exact H) He) as (l1' & H').
        destruct l1'; discriminate.
      * exfalso. simpl in H.
        destruct (unknown_after_quiet out1 [] l1 l2 e Hq
                    ltac:(rewrite app_nil_r; exact H) He) as (l1' & H').
        destruct l1'; discriminate.
      * exfalso. simpl in H.
        destruct (unknown_after_quiet out1 [] l1 l2 e Hq
                    ltac:(rewrite app_nil_r; exact H) He) as (l1' & H').
        destruct l1'; discriminate.
Qed.

(** X14. An opcode outside the table ends the disassembly: if
    [show_pcode] prints an "unknown pcode" line, that line is the last
    event of its output, and [show_pcode] returns (it does not fail). *)
Theorem show_pcode_unknown_pcode_is_last (fuel : nat) (o : object)
  (offset code_size pc opcode : Z) (out l1 l2 : list event)
  (r : outcome unit) :
  show_pcode fuel o offset code_size = (out, r) ->
  out = l1 ++ EUnknownPcode pc opcode :: l2 ->
  l2 = [] /\ r = Ok tt.
Proof.
  unfold show_pcode. cbv zeta. intros H Hout.
  pose proof (show_pcode_loop_unknown_last o fuel
                (init_pcode_segment o offset code_size)) as Hl.
  destruct (while_fuel fuel _ _ _) as [out' [s| | |]]; simpl in H;
    injection H as Ho Hr; rewrite <- Ho in Hout; simpl in Hl.
  - rewrite app_nil_r in Hout. subst r.
    destruct (Hl l1 l2 _ Hout eq_refl) as (Hl2 & _).
    split; [exact Hl2|reflexivity].
  - destruct (Hl l1 l2 _ Hout eq_refl) as (_ & a & Ha). discriminate.
  - destruct (Hl l1 l2 _ Hout eq_refl) as (_ & a & Ha). discriminate.
  - destruct (Hl l1 l2 _ Hout eq_refl) as (_ & a & Ha). discriminate.
Qed.

Lemma show_pcode_unknown_pcode_is_last_witness :
  @nil event = [] /\ @Ok unit tt = Ok tt.
Proof.
  apply (show_pcode_unknown_pcode_is_last 12 (object_of file_unknown_pcode)
           8 12 12 1000
           [EOpcode 8 "nop"; ENewline; EUnknownPcode 12 1000]
           [EOpcode 8 "nop"; ENewline] [] (Ok tt)).
  - vm_compute. reflexivity.
  - reflexivity.
Defined.

(* ------------------------------------------------------------------ *)
(** ** String tables of chunks: every chunk in the file *)

Lemma expect_chunk_data_ends_well (c : chunk) (p sz : Z) :
  ends_well (fun _ => sz <= chunk_data_left c p) (expect_chunk_data c p sz).
Proof.
  unfold expect_chunk_data. cbv zeta.
  destruct (chunk_data_left c p <? sz) eqn:E.
  - apply ends_well_diag_bail.
  - apply ends_well_ret. apply Z.ltb_ge in E. exact E.
Qed.

Lemma expect_chunk_offset_in_chunk_ends_well (c : chunk) (offset : Z) :
  ends_well (fun _ => 0 <= offset < ch_size c)
    (expect_chunk_offset_in_chunk c offset).
Proof.
  unfold expect_chunk_offset_in_chunk, chunk_offset_in_chunk,
    chunk_offset_in_range.
  destruct ((ch_data c - ch_data c <=? offset) &&
            (offset <? ch_data c + ch_size c - ch_data c)) eqn:E;
    cbn [negb].
  - apply ends_well_ret. apply andb_true_iff in E. destruct E as (E1 & E2).
    apply Z.leb_le in E1. apply Z.ltb_lt in E2. lia.
  - apply ends_well_diag_bail.
Qed.

(** Where the scan for the terminator finds one, [show_string] finds the
    same one: it reads the bytes the scan has read. *)
Lemma nul_terminated_then_show_string (o : object) (c : chunk) (offset : Z) :
  buffer_ok o -> 0 <= ch_data c ->
  forall (n : nat) (i : Z),
    0 <= i -> ch_data c + i + Z.of_nat n <= size o + 1 ->
    exists b : bool,
      nul_terminated_from n o c offset i = ret b /\
      (b = true ->
       forall fuel : nat, (n <= S fuel)%nat ->
         ends_well (fun _ => True)
           (show_string_from fuel o offset (ch_data c + offset) (i - offset)
              (chunk_is_stre c))).
Proof.
  intros Hbuf Hd n. induction n as [|n IH]; intros i Hi Hn.
  - exists false. split; [reflexivity|discriminate].
  - destruct (load_ok o (ch_data c + i) Hbuf ltac:(lia)) as (b0 & Hb0).
    simpl nul_terminated_from. rewrite Hb0, bind_ret_l.
    set (ch := if chunk_is_stre c then decode_ch offset (i - offset) b0
               else b0).
    destruct (Byte.eqb ch x00) eqn:E.
    + exists true. split; [reflexivity|]. intros _ fuel _.
      rewrite show_string_from_eq.
      replace (ch_data c + offset + (i - offset)) with (ch_data c + i)
        by lia.
      rewrite Hb0, bind_ret_l. cbv zeta. fold ch. rewrite E. exact I.
    + destruct (IH (i + 1) ltac:(lia) ltac:(lia)) as (b & Hb & Hshow).
      exists b. split; [exact Hb|]. intros Ht fuel Hfuel.
      rewrite show_string_from_eq.
      replace (ch_data c + offset + (i - offset)) with (ch_data c + i)
        by lia.
      rewrite Hb0, bind_ret_l. cbv zeta. fold ch. rewrite E.
      apply ends_well_out.
      destruct fuel as [|fuel].
      * assert (n = 0%nat) by lia. subst n. subst b. discriminate.
      * replace (i - offset + 1) with (i + 1 - offset) by lia.
        apply (Hshow Ht). lia.
Qed.

Lemma show_strl_stre_safe (fuel : nat) (o : object) (c : chunk) :
  buffer_ok o ->
  0 <= ch_data c ->
  ch_data c + ch_size c <= size o ->
  - 2 ^ 31 <= ch_size c ->
  (Z.to_nat (ch_size c) <= S fuel)%nat ->
  ends_well (fun _ => True) (show_strl_stre fuel o c).
Proof.
  intros Hbuf Hd Hin Hlo Hfuel. pose proof Hbuf as (_ & Hsz).
  unfold INT_MAX in Hsz.
  assert (Hleft : forall p, ch_data c <= p <= ch_data c + Z.max 0 (ch_size c) ->
                            chunk_data_left c p = ch_data c + ch_size c - p).
  { intros p Hp. unfold chunk_data_left. apply to_int_id. lia. }
  unfold show_strl_stre. cbv zeta.
  apply (ends_well_bind (fun _ => 4 <= chunk_data_left c (ch_data c))).
  { apply expect_chunk_data_ends_well. }
  intros _ H1. rewrite Hleft in H1 by lia.
  apply (ends_well_bind (fun _ => 4 <= chunk_data_left c (ch_data c + 4))).
  { apply expect_chunk_data_ends_well. }
  intros _ H2. rewrite Hleft in H2 by lia.
  destruct (load_int_ok o (ch_data c + 4) Hbuf ltac:(lia) ltac:(lia))
    as (total & -> & _).
  rewrite bind_ret_l.
  apply (ends_well_bind
           (fun _ => 4 <= chunk_data_left c (ch_data c + 4 + 4))).
  { apply expect_chunk_data_ends_well. }
  intros _ H3. rewrite Hleft in H3 by lia.
  apply ends_well_print.
  apply (ends_well_bind (fun _ => True)); [|intros; exact I].
  eapply ends_well_weaken.
  - apply (ends_well_for_n
             (fun _ p => ch_data c <= p <= ch_data c + ch_size c)).
    + intros i p Hp.
      apply (ends_well_bind (fun _ => 4 <= chunk_data_left c p)).
      { apply expect_chunk_data_ends_well. }
      intros _ H4. rewrite Hleft in H4 by lia.
      destruct (load_int_ok o p Hbuf ltac:(lia) ltac:(lia))
        as (offset & -> & _).
      rewrite bind_ret_l.
      apply (ends_well_bind (fun _ => 0 <= offset < ch_size c)).
      { apply expect_chunk_offset_in_chunk_ends_well. }
      intros _ Hoff.
      unfold read_strl_stre_string, is_strl_stre_string_nul_terminated.
      destruct (nul_terminated_then_show_string o c offset Hbuf Hd
                  (Z.to_nat (ch_size c - offset)) offset
                  ltac:(lia) ltac:(lia)) as (b & -> & Hshow).
      rewrite bind_ret_l. destruct b; simpl negb; cbv iota.
      * rewrite bind_ret_l. unfold show_string. rewrite !bind_assoc.
        apply ends_well_print.
        apply (ends_well_bind (fun _ => True)).
        -- replace 0 with (offset - offset) by lia.
           apply (Hshow eq_refl). lia.
        -- intros _ _. apply ends_well_print. apply ends_well_ret. lia.
      * rewrite bind_assoc. apply ends_well_diag_bail.
    + lia.
  - intros; exact I.
Qed.

(** X15. The string table of a chunk that lies in the file is shown
    without reading outside the buffer: [show_strl_stre] ends by returning
    or by [bail], every string it prints having its terminator in the
    chunk. *)
Theorem show_strl_stre_ends_well (fuel : nat) (o : object) (c : chunk) :
  buffer_ok o ->
  0 <= ch_data c ->
  ch_data c + ch_size c <= size o ->
  - 2 ^ 31 <= ch_size c ->
  (Z.to_nat (ch_size c) <= S fuel)%nat ->
  ends_well (fun _ => True) (show_strl_stre fuel o c).
Proof.
  exact (show_strl_stre_safe fuel o c).
Qed.

Lemma show_strl_stre_ends_well_witness :
  ends_well (fun _ => True)
    (show_strl_stre 24 (object_of file_stre_abc)
       (mk_chunk (list_byte_of_string "STRE") 16 24 CHUNK_STRE)).
Proof.
  apply (show_strl_stre_ends_well 24 (object_of file_stre_abc)
           (mk_chunk (list_byte_of_string "STRE") 16 24 CHUNK_STRE)).
  - vm_compute. split; [reflexivity|]. split; discriminate.
  - vm_compute. discriminate.
  - vm_compute. discriminate.
  - vm_compute. discriminate.
  - vm_compute. repeat constructor.
Defined.

(* ------------------------------------------------------------------ *)
(** ** The chunk decoders: every chunk in the file *)

Lemma ends_well_printf {A} (P : A -> Prop) (items : list printf_item)
  (k : unit -> M A) :
  ends_well P (k tt) -> ends_well P (bind (printf items) k).
Proof.
  unfold ends_well, printf, bind. destruct (k tt) as [out r]. exact (fun H => H).
Qed.

Lemma ends_well_printf_last (P : unit -> Prop) (items : list printf_item) :
  P tt -> ends_well P (printf items).
Proof. intros H. exact H. Qed.

Lemma load_ushort_ok (o : object) (p : Z) :
  buffer_ok o -> 0 <= p -> p + 2 <= size o + 1 ->
  exists v : Z, load_ushort o p = ret v.
Proof.
  intros Hbuf Hp Hn.
  destruct (load_bytes_ok o 2 Hbuf p Hp ltac:(lia)) as (bs & Hbs & _).
  exists (le_unsigned bs). unfold load_ushort. rewrite Hbs, bind_ret_l.
  reflexivity.
Qed.

(** Where [memchr] finds a NUL among the [n] bytes at [p], the C string
    at [p] has fewer than [n] characters and is read without leaving the
    buffer. *)
Lemma memchr_nul_from_ok (o : object) :
  buffer_ok o ->
  forall (k : nat) (p n : Z),
    0 <= p -> p + n <= size o + 1 -> size o + 1 - p <= Z.of_nat k ->
    exists b : bool,
      memchr_nul_from k o p n = ret b /\
      (b = true ->
       forall k' : nat, size o + 1 - p <= Z.of_nat k' ->
         exists bs : list byte,
           c_string_from k' o p = ret bs /\ Z.of_nat (List.length bs) < n).
Proof.
  intros Hbuf k. induction k as [|k IH]; intros p n Hp Hn Hk.
  - assert (Hz : (n <=? 0) = true) by (apply Z.leb_le; lia).
    exists false. simpl. rewrite Hz. split; [reflexivity|discriminate].
  - destruct (n <=? 0) eqn:Hz.
    + exists false. simpl. rewrite Hz. split; [reflexivity|discriminate].
    + apply Z.leb_gt in Hz.
      destruct (load_ok o p Hbuf ltac:(lia)) as (b0 & Hb0).
      simpl memchr_nul_from.
      replace (n <=? 0) with false by (symmetry; apply Z.leb_gt; lia).
      rewrite Hb0, bind_ret_l.
      destruct (Byte.eqb b0 x00) eqn:E.
      * exists true. split; [reflexivity|]. intros _ k' Hk'.
        exists []. split; [|simpl; lia].
        destruct k'; simpl; rewrite Hb0, bind_ret_l, E; reflexivity.
      * destruct (IH (p + 1) (n - 1) ltac:(lia) ltac:(lia) ltac:(lia))
          as (b & Hb & Hs).
        exists b. split; [exact Hb|]. intros Ht k' Hk'.
        destruct k' as [|k']; [lia|].
        destruct (Hs Ht k' ltac:(lia)) as (bs & Hbs & Hlen).
        exists (b0 :: bs). split.
        -- simpl. rewrite Hb0, bind_ret_l, E, Hbs, bind_ret_l. reflexivity.
        -- simpl List.length. lia.
Qed.

Section Decoders.

Variable o : object.
Variable c : chunk.
Hypothesis Hbuf : buffer_ok o.
Hypothesis Hc : chunk_in_file o c.

Lemma chunk_size_is_int : - 2 ^ 31 <= ch_size c < 2 ^ 31.
Proof.
  destruct Hbuf as (_ & Hsz). destruct Hc as (H1 & H2 & H3).
  unfold INT_MAX in Hsz. lia.
Qed.

Lemma chunk_data_left_in_chunk (p : Z) :
  ch_data c <= p <= ch_data c + Z.max 0 (ch_size c) ->
  chunk_data_left c p = ch_data c + ch_size c - p.
Proof.
  intros Hp. pose proof chunk_size_is_int.
  unfold chunk_data_left. apply to_int_id. lia.
Qed.

(** [expect_chunk_data] at a position of the chunk: the bytes asked for
    lie in the chunk, so in the file. *)
Lemma expect_chunk_data_in_chunk (p sz : Z) :
  ch_data c <= p <= ch_data c + Z.max 0 (ch_size c) ->
  ends_well (fun _ => p + sz <= ch_data c + ch_size c)
    (expect_chunk_data c p sz).
Proof.
  intros Hp. eapply ends_well_weaken; [apply expect_chunk_data_ends_well|].
  intros u H. cbv beta in H.
  rewrite chunk_data_left_in_chunk in H by exact Hp. lia.
Qed.

Lemma read_chunk_string_ends_well (offset : Z) :
  0 <= offset <= ch_size c ->
  ends_well
    (fun a => a = ch_data c + offset /\
              exists bs : list byte,
                c_string_at o a = ret bs /\
                offset + Z.of_nat (List.length bs) < ch_size c)
    (read_chunk_string o c offset).
Proof.
  intros Hoff. pose proof chunk_size_is_int as Hint.
  pose proof Hbuf as (Hlen & Hsz). destruct Hc as (H1 & H2 & H3).
  unfold read_chunk_string, memchr_nul.
  rewrite (to_int_id (ch_size c - offset)) by lia.
  assert (Hs : to_size_t (ch_size c - offset) = ch_size c - offset).
  { unfold to_size_t. apply Z.mod_small. lia. }
  rewrite Hs.
  destruct (memchr_nul_from_ok o Hbuf (List.length (data o))
              (ch_data c + offset) (ch_size c - offset)
              ltac:(lia) ltac:(lia) ltac:(rewrite Hlen; lia))
    as (b & -> & Hstr).
  rewrite bind_ret_l. destruct b; cbn [negb].
  - apply ends_well_ret. split; [reflexivity|].
    destruct (Hstr eq_refl (List.length (data o)) ltac:(rewrite Hlen; lia))
      as (bs & Hbs & Hl).
    exists bs. split; [exact Hbs|lia].
  - apply ends_well_diag_bail.
Qed.

(** The loops over a position in the chunk: the position stays in the
    chunk and moves on. *)
Lemma chunk_loop_ends_well (fuel : nat) (body : Z -> M Z) (pos0 : Z) :
  (forall pos : Z,
     0 <= pos < ch_size c ->
     ends_well (fun pos' => pos < pos' <= ch_size c) (body pos)) ->
  0 <= pos0 <= Z.max 0 (ch_size c) ->
  (Z.to_nat (ch_size c) <= fuel)%nat ->
  ends_well (fun _ => True)
    (while_fuel fuel (fun pos => pos <? ch_size c) body pos0 ;; ret tt).
Proof.
  intros Hbody Hpos Hfuel.
  apply (ends_well_bind (fun _ => True)); [|intros; exact I].
  eapply ends_well_weaken.
  - apply (ends_well_while_fuel
             (fun pos => 0 <= pos <= Z.max 0 (ch_size c))
             (fun pos => Z.to_nat (ch_size c - pos))).
    + intros pos Hp Hcond. apply Z.ltb_lt in Hcond. lia.
    + intros pos Hp Hcond. apply Z.ltb_lt in Hcond.
      eapply ends_well_weaken; [apply Hbody; lia|].
      intros pos' Hp'. cbv beta in Hp'. lia.
    + exact Hpos.
    + lia.
  - intros; exact I.
Qed.

Ltac expect_in H :=
  eapply ends_well_bind;
  [apply expect_chunk_data_in_chunk; try lia
  | let u := fresh "u" in intros u H; cbv beta in H; clear u].

Ltac read_int :=
  match goal with
  | |- ends_well _ (bind (load_int ?o' ?p) _) =>
      let v := fresh "v" in
      destruct (load_int_ok o' p Hbuf ltac:(lia) ltac:(lia)) as (v & -> & _);
      rewrite bind_ret_l
  | |- ends_well _ (bind (load_uint ?o' ?p) _) =>
      let v := fresh "v" in
      destruct (load_uint_ok o' p Hbuf ltac:(lia) ltac:(lia)) as (v & -> & _);
      rewrite bind_ret_l
  | |- ends_well _ (bind (load_short ?o' ?p) _) =>
      let v := fresh "v" in
      destruct (load_short_ok o' p Hbuf ltac:(lia) ltac:(lia))
        as (v & -> & _);
      rewrite bind_ret_l
  | |- ends_well _ (bind (load_ushort ?o' ?p) _) =>
      let v := fresh "v" in
      destruct (load_ushort_ok o' p Hbuf ltac:(lia) ltac:(lia)) as (v & ->);
      rewrite bind_ret_l
  | |- ends_well _ (bind (load_uchar ?o' ?p) _) =>
      let v := fresh "v" in
      destruct (load_uchar_ok o' p Hbuf ltac:(lia)) as (v & -> & _);
      rewrite bind_ret_l
  end.

Ltac facts :=
  pose proof chunk_size_is_int as Hint;
  pose proof Hbuf as (Hlen & Hsz); pose proof Hc as (Hc1 & Hc2 & Hc3);
  unfold INT_MAX in Hsz.

Lemma show_aray_ends_well (fuel : nat) :
  (Z.to_nat (ch_size c) <= fuel)%nat ->
  ends_well (fun _ => True) (show_aray fuel o c).
Proof.
  intros Hfuel. facts. unfold show_aray.
  apply chunk_loop_ends_well; [|lia|exact Hfuel].
  intros pos Hpos.
  expect_in H1. read_int. read_int.
  apply ends_well_printf. apply ends_well_ret.
  rewrite to_int_id by lia. lia.
Qed.

Lemma show_aini_ends_well (fuel : nat) :
  (Z.to_nat (ch_size c) <= fuel)%nat ->
  ends_well (fun _ => True) (show_aini fuel o c).
Proof.
  intros Hfuel. facts. unfold show_aini. cbv zeta.
  rewrite !Z.add_0_r.
  expect_in H1. read_int.
  apply ends_well_printf.
  change (to_int (0 + 4)) with 4.
  apply chunk_loop_ends_well; [|lia|exact Hfuel].
  intros pos Hpos.
  expect_in H2. read_int.
  apply ends_well_printf. apply ends_well_ret.
  rewrite to_int_id by lia. lia.
Qed.

Lemma show_astr_mstr_ends_well (fuel : nat) :
  (Z.to_nat (ch_size c) <= fuel)%nat ->
  ends_well (fun _ => True) (show_astr_mstr fuel o c).
Proof.
  intros Hfuel. facts. unfold show_astr_mstr.
  apply chunk_loop_ends_well; [|lia|exact Hfuel].
  intros pos Hpos.
  expect_in H1. read_int.
  apply ends_well_printf. apply ends_well_ret.
  rewrite to_int_id by lia. lia.
Qed.

Lemma show_svct_ends_well (fuel : nat) :
  (Z.to_nat (ch_size c) <= fuel)%nat ->
  ends_well (fun _ => True) (show_svct fuel o c).
Proof.
  intros Hfuel. facts. unfold show_svct.
  apply chunk_loop_ends_well; [|lia|exact Hfuel].
  intros pos Hpos.
  expect_in H1. read_int. read_int. cbv zeta.
  apply ends_well_printf. apply ends_well_ret.
  rewrite to_int_id by lia. lia.
Qed.

Lemma show_flag_ends_well (name : string) (flag flags : Z) :
  ends_well (fun _ => True) (show_flag name flag flags).
Proof.
  unfold show_flag. destruct (negb (Z.land flags flag =? 0)).
  - cbv zeta. apply ends_well_printf.
    destruct (negb (_ =? 0)).
    + apply ends_well_printf. exact I.
    + rewrite bind_ret_l. exact I.
  - exact I.
Qed.

Lemma show_sflg_ends_well (fuel : nat) :
  (Z.to_nat (ch_size c) <= fuel)%nat ->
  ends_well (fun _ => True) (show_sflg fuel o c).
Proof.
  intros Hfuel. facts. unfold show_sflg.
  apply chunk_loop_ends_well; [|lia|exact Hfuel].
  intros pos Hpos.
  expect_in H1. read_int. read_int. cbv zeta.
  apply ends_well_printf. apply ends_well_printf.
  apply (ends_well_bind (fun _ => True)); [apply show_flag_ends_well|].
  intros f1 _.
  apply (ends_well_bind (fun _ => True)); [apply show_flag_ends_well|].
  intros f2 _.
  apply (ends_well_bind (fun _ => True)).
  { destruct (negb (f2 =? 0)); exact I. }
  intros _ _. apply ends_well_printf. apply ends_well_ret.
  rewrite to_int_id by lia. lia.
Qed.

Lemma strlen_of (p : Z) (bs : list byte) :
  c_string_at o p = ret bs -> strlen o p = ret (Z.of_nat (List.length bs)).
Proof. intros H. unfold strlen. rewrite H, bind_ret_l. reflexivity. Qed.

Lemma show_load_ends_well (fuel : nat) :
  (Z.to_nat (ch_size c) <= fuel)%nat ->
  ends_well (fun _ => True) (show_load fuel o c).
Proof.
  intros Hfuel. facts. unfold show_load.
  apply chunk_loop_ends_well; [|lia|exact Hfuel].
  intros pos Hpos.
  eapply ends_well_bind; [apply read_chunk_string_ends_well; lia|].
  intros name (-> & bs & Hbs & Hl).
  destruct (load_ok o (ch_data c + pos) Hbuf ltac:(lia)) as (b0 & ->).
  rewrite bind_ret_l, Hbs, (strlen_of _ _ Hbs).
  apply (ends_well_bind (fun _ => True)).
  { destruct (negb (Byte.eqb b0 x00)); [|exact I].
    rewrite bind_ret_l. exact I. }
  intros _ _. rewrite bind_ret_l. apply ends_well_ret.
  rewrite to_int_id by lia. lia.
Qed.

Lemma show_mimp_ends_well (fuel : nat) :
  (Z.to_nat (ch_size c) <= fuel)%nat ->
  ends_well (fun _ => True) (show_mimp fuel o c).
Proof.
  intros Hfuel. facts. unfold show_mimp.
  apply chunk_loop_ends_well; [|lia|exact Hfuel].
  intros pos Hpos.
  expect_in H1. read_int. cbv zeta.
  rewrite (to_int_id (pos + 4)) by lia.
  eapply ends_well_bind; [apply read_chunk_string_ends_well; lia|].
  intros name (-> & bs & Hbs & Hl).
  rewrite Hbs, bind_ret_l, (strlen_of _ _ Hbs).
  apply ends_well_printf. rewrite bind_ret_l. apply ends_well_ret.
  rewrite to_int_id by lia. lia.
Qed.

Lemma show_names_ends_well (total_names p : Z)
  (line : Z -> Z -> list byte -> list printf_item) :
  ch_data c <= p <= ch_data c + Z.max 0 (ch_size c) ->
  ends_well (fun _ => True) (show_names o c total_names p line).
Proof.
  intros Hp. facts. unfold show_names.
  apply (ends_well_bind (fun _ => True)); [|intros; exact I].
  eapply ends_well_weaken.
  - apply (ends_well_for_n
             (fun _ p => ch_data c <= p <= ch_data c + Z.max 0 (ch_size c))).
    + intros i q Hq.
      expect_in H1. read_int. cbv zeta.
      eapply ends_well_bind;
        [apply expect_chunk_offset_in_chunk_ends_well|].
      intros u Hoff. cbv beta in Hoff. clear u.
      eapply ends_well_bind; [apply read_chunk_string_ends_well; lia|].
      intros name (-> & bs & Hbs & Hl).
      rewrite Hbs, bind_ret_l.
      apply ends_well_printf. apply ends_well_ret. lia.
    + exact Hp.
  - intros; exact I.
Qed.

Lemma show_fnam_ends_well : ends_well (fun _ => True) (show_fnam o c).
Proof.
  facts. unfold show_fnam. cbv zeta.
  expect_in H1. read_int. apply ends_well_printf.
  apply show_names_ends_well. lia.
Qed.

Lemma show_mexp_ends_well : ends_well (fun _ => True) (show_mexp o c).
Proof.
  facts. unfold show_mexp. cbv zeta.
  expect_in H1. read_int. apply ends_well_printf.
  apply show_names_ends_well. lia.
Qed.

Lemma show_snam_ends_well : ends_well (fun _ => True) (show_snam o c).
Proof.
  facts. unfold show_snam. cbv zeta.
  expect_in H1. read_int. apply ends_well_printf.
  apply show_names_ends_well. lia.
Qed.

Lemma show_aimp_ends_well : ends_well (fun _ => True) (show_aimp o c).
Proof.
  facts. unfold show_aimp. cbv zeta.
  expect_in H1. read_int. apply ends_well_printf.
  apply (ends_well_bind (fun _ => True)); [|intros; exact I].
  eapply ends_well_weaken.
  - apply (ends_well_for_n
             (fun _ p => ch_data c <= p <= ch_data c + Z.max 0 (ch_size c))).
    + intros i q Hq.
      expect_in H2. read_int. expect_in H3. read_int.
      rewrite (to_int_id (q + 4 + 4 - ch_data c)) by lia.
      eapply ends_well_bind; [apply read_chunk_string_ends_well; lia|].
      intros name (-> & bs & Hbs & Hl).
      rewrite Hbs, bind_ret_l, (strlen_of _ _ Hbs).
      apply ends_well_printf. rewrite bind_ret_l. apply ends_well_ret. lia.
    + lia.
  - intros; exact I.
Qed.

Lemma size_t_quotient (z d : Z) :
  0 <= z < 2 ^ 31 -> 0 < d ->
  to_int (to_size_t z / d) = z / d /\ d * (z / d) <= z.
Proof.
  intros Hz Hd. unfold to_size_t. rewrite (Z.mod_small z) by lia.
  pose proof (Z.mul_div_le z d Hd).
  assert (0 <= z / d) by (apply Z.div_pos; lia).
  assert (z / d <= z) by (apply Z.div_le_upper_bound; nia).
  split; [apply to_int_id; lia|lia].
Qed.

Lemma show_atag_version0_ends_well :
  ends_well (fun _ => True) (show_atag_version0 o c).
Proof.
  facts. unfold show_atag_version0. cbv zeta.
  expect_in H1. read_int. expect_in H2. read_int.
  destruct (size_t_quotient (ch_size c - 1 - 4) 1 ltac:(lia) ltac:(lia))
    as (-> & _).
  rewrite Z.div_1_r.
  apply ends_well_printf.
  apply (ends_well_bind (fun _ => True)); [|intros; exact I].
  eapply ends_well_weaken.
  - apply (ends_well_for_n_bounded 0 (ch_size c - 1 - 4)
             (fun i p => p = ch_data c + 1 + 4 + i)).
    + intros i p Hi ->. read_int.
      apply ends_well_printf.
      apply (ends_well_bind (fun _ => True)).
      { repeat match goal with
               | |- ends_well _ (if ?b then _ else _) => destruct b
               end; exact I. }
      intros _ _. apply ends_well_printf. apply ends_well_ret. lia.
    + lia.
    + rewrite Z2Nat.id by lia. lia.
    + lia.
  - intros; exact I.
Qed.

Lemma show_atag_ends_well : ends_well (fun _ => True) (show_atag o c).
Proof.
  facts. unfold show_atag.
  expect_in H1. read_int.
  destruct (v =? 0).
  - apply show_atag_version0_ends_well.
  - apply ends_well_printf. exact I.
Qed.

Lemma show_mini_ends_well : ends_well (fun _ => True) (show_mini o c).
Proof.
  facts. unfold show_mini. cbv zeta.
  expect_in H1. read_int. apply ends_well_printf.
  destruct (size_t_quotient (ch_size c - 4) 4 ltac:(lia) ltac:(lia))
    as (-> & Hq).
  apply (ends_well_bind (fun _ => True)); [|intros; exact I].
  eapply ends_well_weaken.
  - apply (ends_well_for_n_bounded 0 ((ch_size c - 4) / 4)
             (fun i p => p = ch_data c + 4 + 4 * i)).
    + intros i p Hi ->. read_int.
      apply ends_well_printf. apply ends_well_ret. lia.
    + lia.
    + assert (0 <= (ch_size c - 4) / 4) by (apply Z.div_pos; lia).
      rewrite Z2Nat.id by lia. lia.
    + lia.
  - intros; exact I.
Qed.

Lemma show_sary_fary_ends_well :
  ends_well (fun _ => True) (show_sary_fary o c).
Proof.
  facts. unfold show_sary_fary. cbv zeta.
  expect_in H1. read_int. apply ends_well_printf.
  apply (ends_well_bind (fun _ => True)); [|intros; exact I].
  eapply ends_well_weaken.
  - apply (ends_well_for_n
             (fun _ p => ch_data c <= p <= ch_data c + Z.max 0 (ch_size c))).
    + intros i q Hq.
      expect_in H2. read_int.
      apply ends_well_printf. apply ends_well_ret. lia.
    + lia.
  - intros; exact I.
Qed.

Lemma show_chunk_contents_safe (fuel : nat) :
  ch_type c <> CHUNK_FUNC -> ch_type c <> CHUNK_SPTR ->
  (Z.to_nat (ch_size c) <= fuel)%nat ->
  ends_well (fun _ => True) (show_chunk_contents fuel o c).
Proof.
  intros Hf Hs Hfuel. destruct Hc as (Hc1 & Hc2 & Hc3).
  unfold show_chunk_contents.
  destruct (ch_type c);
    try congruence;
    auto using show_aray_ends_well, show_aini_ends_well, show_aimp_ends_well,
      show_astr_mstr_ends_well, show_atag_ends_well, show_load_ends_well,
      show_fnam_ends_well, show_mini_ends_well, show_mimp_ends_well,
      show_mexp_ends_well, show_sflg_ends_well, show_svct_ends_well,
      show_snam_ends_well, show_sary_fary_ends_well;
    try exact I;
    apply show_strl_stre_safe; auto; lia.
Qed.

End Decoders.

(** X16. Every chunk decoder other than those of the two code tables
    stays in the file: for a chunk whose body lies in the file, as
    [init_chunk] checks, [show_chunk] with the contents reads no byte
    outside the buffer and ends by returning or by [bail], whatever the
    bytes of the chunk. *)
Theorem show_chunk_ends_well (fuel : nat) (o : object) (c : chunk) :
  buffer_ok o ->
  chunk_in_file o c ->
  ch_type c <> CHUNK_FUNC ->
  ch_type c <> CHUNK_SPTR ->
  (Z.to_nat (ch_size c) <= fuel)%nat ->
  ends_well (fun _ => True) (show_chunk fuel o c true).
Proof.
  intros Hbuf Hc Hf Hs Hfuel. unfold show_chunk.
  apply ends_well_print.
  apply (ends_well_bind (fun _ => True)); [|intros; exact I].
  apply show_chunk_contents_safe; assumption.
Qed.

Lemma show_chunk_ends_well_witness :
  ends_well (fun _ => True)
    (show_chunk 26 (object_of file_aimp)
       (mk_chunk (list_byte_of_string "AIMP") 16 26 CHUNK_AIMP) true).
Proof.
  apply (show_chunk_ends_well 26 (object_of file_aimp)
           (mk_chunk (list_byte_of_string "AIMP") 16 26 CHUNK_AIMP)).
  - vm_compute. split; [reflexivity|]. split; discriminate.
  - vm_compute. split; [discriminate|]. split; discriminate.
  - discriminate.
  - discriminate.
  - apply le_n.
Defined.

(* ------------------------------------------------------------------ *)
(** ** The chunks of records: a record cut short *)

Lemma then_ret {A} (m : M unit) (a : A) :
  snd m = Ok tt -> (m ;; ret a) = (fst m, Ok a).
Proof.
  destruct m as [out [[]| | |]]; cbn [fst snd]; intros H; try discriminate.
  unfold bind, ret. rewrite app_nil_r. reflexivity.
Qed.

Lemma load_uint_at (o : object) (p : Z) :
  buffer_ok o -> 0 <= p -> p + 4 <= size o + 1 ->
  load_uint o p = ret (u32_at (data o) p).
Proof.
  intros Hbuf Hp Hn. unfold load_uint, u32_at.
  rewrite (load_bytes_spec o 4 Hbuf p Hp) by lia.
  rewrite bind_ret_l. reflexivity.
Qed.

Lemma load_short_at (o : object) (p : Z) :
  buffer_ok o -> 0 <= p -> p + 2 <= size o + 1 ->
  load_short o p = ret (i16_at (data o) p).
Proof.
  intros Hbuf Hp Hn. unfold load_short, i16_at.
  rewrite (load_bytes_spec o 2 Hbuf p Hp) by lia.
  rewrite bind_ret_l. reflexivity.
Qed.

Lemma load_ushort_at (o : object) (p : Z) :
  buffer_ok o -> 0 <= p -> p + 2 <= size o + 1 ->
  load_ushort o p = ret (u16_at (data o) p).
Proof.
  intros Hbuf Hp Hn. unfold load_ushort, u16_at.
  rewrite (load_bytes_spec o 2 Hbuf p Hp) by lia.
  rewrite bind_ret_l. reflexivity.
Qed.

Lemma show_flag_returns (name : string) (flag flags : Z) :
  exists (out : list event) (f : Z), show_flag name flag flags = (out, Ok f).
Proof.
  unfold show_flag. destruct (negb (Z.land flags flag =? 0)).
  - cbv zeta. unfold printf, bind, ret.
    destruct (negb (_ =? 0)); simpl; eauto.
  - unfold ret. eauto.
Qed.

Lemma lines_from_S (line : Z -> list event) (k pos : Z) (n : nat) :
  lines_from line k pos (S n) = line pos ++ lines_from line k (pos + k) n.
Proof.
  unfold lines_from. cbn [seq flat_map]. rewrite <- seq_shift.
  rewrite flat_map_concat_map, map_map, <- flat_map_concat_map.
  f_equal.
  - f_equal. lia.
  - apply flat_map_ext. intros i. f_equal. lia.
Qed.

Section Records.

Variable c : chunk.
Variable k : Z.
Variable body : Z -> M Z.
Variable line : Z -> list event.
Hypothesis Hk : 0 < k.
Hypothesis Hbody :
  forall pos : Z, 0 <= pos -> pos + k <= ch_size c ->
    body pos = (line pos, Ok (pos + k)).
Hypothesis Hfail :
  forall pos : Z, 0 <= pos < ch_size c -> ch_size c < pos + k ->
    body pos =
      ([EError (MsgExpectChunkData k (ch_name c) (ch_size c - pos))], Bail).

Lemma record_loop (fuel : nat) :
  forall pos : Z,
    0 <= pos <= Z.max 0 (ch_size c) ->
    (ch_size c - pos) mod k = ch_size c mod k ->
    (Z.to_nat (ch_size c - pos) <= fuel)%nat ->
    (ch_size c <= 0 \/ ch_size c mod k = 0 ->
     exists pos' : Z,
       while_fuel fuel (fun pos => pos <? ch_size c) body pos =
         (lines_from line k pos (Z.to_nat ((ch_size c - pos) / k)),
          Ok pos')) /\
    (0 < ch_size c -> ch_size c mod k <> 0 ->
     while_fuel fuel (fun pos => pos <? ch_size c) body pos =
       (lines_from line k pos (Z.to_nat ((ch_size c - pos) / k)) ++
        [EError (MsgExpectChunkData k (ch_name c) (ch_size c mod k))],
        Bail)).
Proof.
  induction fuel as [|fuel IH]; intros pos Hpos Hmod Hfuel.
  - assert (Hc : (pos <? ch_size c) = false) by (apply Z.ltb_ge; lia).
    assert (Hn : Z.to_nat ((ch_size c - pos) / k) = 0%nat).
    { assert ((ch_size c - pos) / k <= 0)
        by (apply Z.div_le_upper_bound; lia).
      lia. }
    rewrite Hn. simpl. rewrite Hc. split.
    + intros _. unfold ret. eauto.
    + intros Hs Hm. exfalso.
      assert (ch_size c - pos = 0) by lia.
      rewrite H, Z.mod_0_l in Hmod by lia. congruence.
  - simpl. destruct (pos <? ch_size c) eqn:Hc.
    + apply Z.ltb_lt in Hc.
      destruct (Z_le_gt_dec (pos + k) (ch_size c)) as [Hle|Hgt].
      * rewrite (Hbody pos ltac:(lia) Hle).
        assert (Hmod' : (ch_size c - (pos + k)) mod k = ch_size c mod k).
        { rewrite <- Hmod.
          replace (ch_size c - (pos + k)) with (ch_size c - pos + (-1) * k)
            by lia.
          apply Z.mod_add. lia. }
        assert (Hn : Z.to_nat ((ch_size c - pos) / k) =
                     S (Z.to_nat ((ch_size c - (pos + k)) / k))).
        { replace (ch_size c - pos) with (ch_size c - (pos + k) + 1 * k)
            by lia.
          rewrite Z.div_add by lia.
          assert (0 <= (ch_size c - (pos + k)) / k)
            by (apply Z.div_pos; lia).
          lia. }
        rewrite Hn, lines_from_S.
        destruct (IH (pos + k) ltac:(lia) Hmod' ltac:(lia)) as (IH1 & IH2).
        split.
        -- intros H. destruct (IH1 H) as (pos' & E).
           unfold bind. rewrite E. eauto.
        -- intros Hs Hm. unfold bind. rewrite (IH2 Hs Hm).
           rewrite app_assoc. reflexivity.
      * assert (Hrem : ch_size c - pos = ch_size c mod k).
        { rewrite <- Hmod. symmetry. apply Z.mod_small. lia. }
        assert (Hn : Z.to_nat ((ch_size c - pos) / k) = 0%nat).
        { rewrite Z.div_small by lia. reflexivity. }
        rewrite Hn, (Hfail pos ltac:(lia) ltac:(lia)), Hrem.
        split.
        -- intros [H|H]; [lia|]. exfalso. lia.
        -- intros _ _. reflexivity.
    + apply Z.ltb_ge in Hc.
      assert (Hn : Z.to_nat ((ch_size c - pos) / k) = 0%nat).
      { assert ((ch_size c - pos) / k <= 0)
          by (apply Z.div_le_upper_bound; lia).
        lia. }
      rewrite Hn. split.
      * intros _. unfold ret. eauto.
      * intros Hs Hm. exfalso.
        assert (ch_size c - pos = 0) by lia.
        rewrite H, Z.mod_0_l in Hmod by lia. congruence.
Qed.

Lemma record_decoder (fuel : nat) :
  (Z.to_nat (ch_size c) <= fuel)%nat ->
  (ch_size c <= 0 \/ ch_size c mod k = 0 ->
   (while_fuel fuel (fun pos => pos <? ch_size c) body 0 ;; ret tt) =
     (lines_from line k 0 (Z.to_nat (ch_size c / k)), Ok tt)) /\
  (0 < ch_size c -> ch_size c mod k <> 0 ->
   (while_fuel fuel (fun pos => pos <? ch_size c) body 0 ;; ret tt) =
     (lines_from line k 0 (Z.to_nat (ch_size c / k)) ++
      [EError (MsgExpectChunkData k (ch_name c) (ch_size c mod k))],
      Bail)).
Proof.
  intros Hfuel.
  destruct (record_loop fuel 0 ltac:(lia)
              ltac:(rewrite Z.sub_0_r; reflexivity)
              ltac:(rewrite Z.sub_0_r; exact Hfuel)) as (H1 & H2).
  rewrite Z.sub_0_r in H1, H2.
  split.
  - intros H. destruct (H1 H) as (pos' & E). rewrite E.
    unfold bind, ret. rewrite app_nil_r. reflexivity.
  - intros Hs Hm. rewrite (H2 Hs Hm). reflexivity.
Qed.

End Records.

Section RecordBodies.

Variable o : object.
Variable c : chunk.
Hypothesis Hbuf : buffer_ok o.
Hypothesis Hc : chunk_in_file o c.

Lemma expect_chunk_data_passes (pos k : Z) :
  0 <= k -> 0 <= pos -> pos + k <= ch_size c ->
  expect_chunk_data c (ch_data c + pos) k = ret tt.
Proof.
  intros Hk Hpos Hle. unfold expect_chunk_data. cbv zeta.
  rewrite (chunk_data_left_in_chunk o c Hbuf Hc) by lia.
  replace (ch_data c + ch_size c - (ch_data c + pos) <? k) with false
    by (symmetry; apply Z.ltb_ge; lia).
  reflexivity.
Qed.

Lemma expect_chunk_data_fails (pos k : Z) :
  0 <= pos < ch_size c -> ch_size c < pos + k ->
  forall (A : Type) (f : unit -> M A),
    bind (expect_chunk_data c (ch_data c + pos) k) f =
      ([EError (MsgExpectChunkData k (ch_name c) (ch_size c - pos))], Bail).
Proof.
  intros Hpos Hgt A f. unfold expect_chunk_data. cbv zeta.
  rewrite (chunk_data_left_in_chunk o c Hbuf Hc) by lia.
  replace (ch_data c + ch_size c - (ch_data c + pos)) with (ch_size c - pos)
    by lia.
  replace (ch_size c - pos <? k) with true
    by (symmetry; apply Z.ltb_lt; lia).
  replace (ch_size c - pos <? 0) with false
    by (symmetry; apply Z.ltb_ge; lia).
  reflexivity.
Qed.

Ltac record_body Ht :=
  let Hint := fresh "Hint" in
  let Hlen := fresh "Hlen" in
  let Hsz := fresh "Hsz" in
  pose proof (chunk_size_is_int o c Hbuf Hc) as Hint;
  pose proof Hbuf as (Hlen & Hsz);
  unfold INT_MAX in Hsz;
  let H1 := fresh in let H2 := fresh in let H3 := fresh in
  pose proof Hc as (H1 & H2 & H3);
  intros pos Hpos Hle;
  rewrite expect_chunk_data_passes, bind_ret_l by lia;
  repeat match goal with
    | |- context [bind (load_int ?o' ?p) _] =>
        rewrite (load_int_at o' p Hbuf) by lia; rewrite bind_ret_l
    | |- context [bind (load_uint ?o' ?p) _] =>
        rewrite (load_uint_at o' p Hbuf) by lia; rewrite bind_ret_l
    | |- context [bind (load_short ?o' ?p) _] =>
        rewrite (load_short_at o' p Hbuf) by lia; rewrite bind_ret_l
    | |- context [bind (load_ushort ?o' ?p) _] =>
        rewrite (load_ushort_at o' p Hbuf) by lia; rewrite bind_ret_l
    end;
  cbv zeta; rewrite (to_int_id (pos + _)) by lia;
  unfold record_line; rewrite Ht; cbv zeta.

Lemma show_aray_body :
  ch_type c = CHUNK_ARAY ->
  forall pos : Z,
  0 <= pos -> pos + 8 <= ch_size c ->
  (expect_chunk_data c (ch_data c + pos) 8 ;;
   number <- load_int o (ch_data c + pos) ;;
   size <- load_int o (ch_data c + pos + 4) ;;
   printf [Txt "index="; Dec number; Txt " size="; Dec size; NL] ;;
   ret (to_int (pos + 8))) = (record_line o c pos, Ok (pos + 8)).
Proof.
  intros Ht. record_body Ht. apply then_ret. reflexivity.
Qed.

Lemma show_astr_mstr_body :
  ch_type c = CHUNK_ASTR \/ ch_type c = CHUNK_MSTR ->
  forall pos : Z,
  0 <= pos -> pos + 4 <= ch_size c ->
  (expect_chunk_data c (ch_data c + pos) 4 ;;
   index <- load_uint o (ch_data c + pos) ;;
   printf [Txt "tagged="; Uns index; NL] ;;
   ret (to_int (pos + 4))) = (record_line o c pos, Ok (pos + 4)).
Proof.
  intros [Ht|Ht]; record_body Ht; apply then_ret; reflexivity.
Qed.

Lemma show_svct_body :
  ch_type c = CHUNK_SVCT ->
  forall pos : Z,
  0 <= pos -> pos + 4 <= ch_size c ->
  (expect_chunk_data c (ch_data c + pos) 4 ;;
   number <- load_short o (ch_data c + pos) ;;
   size <- load_short o (ch_data c + pos + 2) ;;
   let pos := to_int (pos + 4) in
   printf [Txt "script="; Dec number; Txt " new-size="; Dec size; NL] ;;
   ret pos) = (record_line o c pos, Ok (pos + 4)).
Proof.
  intros Ht. record_body Ht. apply then_ret. reflexivity.
Qed.

Lemma show_sflg_body :
  ch_type c = CHUNK_SFLG ->
  forall pos : Z,
  0 <= pos -> pos + 4 <= ch_size c ->
  (expect_chunk_data c (ch_data c + pos) 4 ;;
   number <- load_short o (ch_data c + pos) ;;
   entry_flags <- load_ushort o (ch_data c + pos + 2) ;;
   let pos := to_int (pos + 4) in
   printf [Txt "script="; Dec number; Txt " "] ;;
   let flags := entry_flags in
   printf [Txt "flags="] ;;
   flags <- show_flag "net" FLAG_NET flags ;;
   flags <- show_flag "clientside" FLAG_CLIENTSIDE flags ;;
   (if negb (flags =? 0) then
      printf [Txt "unknown(0x"; Hex flags; Txt ")"]
    else ret tt) ;;
   printf [NL] ;;
   ret pos) = (record_line o c pos, Ok (pos + 4)).
Proof.
  intros Ht. record_body Ht.
  destruct (show_flag_returns "net" FLAG_NET
              (u16_at (data o) (ch_data c + pos + 2))) as (o1 & f1 & E1).
  destruct (show_flag_returns "clientside" FLAG_CLIENTSIDE f1)
    as (o2 & f2 & E2).
  rewrite E1.
  cbv beta iota zeta delta [bind printf ret fst snd]. rewrite E2.
  cbv beta iota zeta delta [bind printf ret fst snd].
  destruct (negb (f2 =? 0));
    cbv beta iota zeta delta [bind printf ret fst snd];
    rewrite ?app_nil_r; reflexivity.
Qed.

Lemma record_chunk_cases (fuel : nat) (k : Z) :
  record_size (ch_type c) = Some k ->
  (Z.to_nat (ch_size c) <= fuel)%nat ->
  (ch_size c <= 0 \/ ch_size c mod k = 0 ->
   show_chunk_contents fuel o c =
     (record_lines o c k (Z.to_nat (ch_size c / k)), Ok tt)) /\
  (0 < ch_size c -> ch_size c mod k <> 0 ->
   show_chunk_contents fuel o c =
     (record_lines o c k (Z.to_nat (ch_size c / k)) ++
      [EError (MsgExpectChunkData k (ch_name c) (ch_size c mod k))],
      Bail)).
Proof.
  intros Hrec Hfuel. unfold show_chunk_contents, record_lines.
  destruct (ch_type c) eqn:Ht; try discriminate; inversion Hrec; subst k.
  - unfold show_aray.
    apply (record_decoder c 8 _ (record_line o c) ltac:(lia));
      [|  |exact Hfuel].
    + apply show_aray_body. exact Ht.
    + intros pos Hp Hg. apply expect_chunk_data_fails; assumption.
  - unfold show_astr_mstr.
    apply (record_decoder c 4 _ (record_line o c) ltac:(lia));
      [|  |exact Hfuel].
    + apply show_astr_mstr_body. left. exact Ht.
    + intros pos Hp Hg. apply expect_chunk_data_fails; assumption.
  - unfold show_astr_mstr.
    apply (record_decoder c 4 _ (record_line o c) ltac:(lia));
      [|  |exact Hfuel].
    + apply show_astr_mstr_body. right. exact Ht.
    + intros pos Hp Hg. apply expect_chunk_data_fails; assumption.
  - unfold show_sflg.
    apply (record_decoder c 4 _ (record_line o c) ltac:(lia));
      [|  |exact Hfuel].
    + apply show_sflg_body. exact Ht.
    + intros pos Hp Hg. apply expect_chunk_data_fails; assumption.
  - unfold show_svct.
    apply (record_decoder c 4 _ (record_line o c) ltac:(lia));
      [|  |exact Hfuel].
    + apply show_svct_body. exact Ht.
    + intros pos Hp Hg. apply expect_chunk_data_fails; assumption.
Qed.

End RecordBodies.

(** X17. The chunks that hold a sequence of records (ARAY: 8 bytes a
    record; ASTR, MSTR, SFLG, SVCT: 4 bytes) are shown to the end when
    their size is a multiple of the record size (or not positive): the
    decoder writes the lines of the [size / record size] records, in
    order, and returns. Otherwise it writes the lines of the
    [size / record size] complete records and stops with the error that
    names the record size and the bytes that are left, which are
    [size mod record size]. The line of a record ([record_line]) is the
    text of its fields, read at the position of the record. *)
Theorem record_chunk_cut_short (fuel : nat) (o : object) (c : chunk)
  (k : Z) :
  buffer_ok o ->
  chunk_in_file o c ->
  record_size (ch_type c) = Some k ->
  (Z.to_nat (ch_size c) <= fuel)%nat ->
  (ch_size c <= 0 \/ ch_size c mod k = 0 ->
   show_chunk_contents fuel o c =
     (record_lines o c k (Z.to_nat (ch_size c / k)), Ok tt)) /\
  (0 < ch_size c -> ch_size c mod k <> 0 ->
   show_chunk_contents fuel o c =
     (record_lines o c k (Z.to_nat (ch_size c / k)) ++
      [EError (MsgExpectChunkData k (ch_name c) (ch_size c mod k))],
      Bail)).
Proof.
  intros Hbuf Hc. exact (record_chunk_cases o c Hbuf Hc fuel k).
Qed.

Lemma record_chunk_cut_short_witness :
  let c := mk_chunk (list_byte_of_string "ARAY") 16 12 CHUNK_ARAY in
  let o := object_of file_aray_truncated in
  show_chunk_contents 12 o c =
    (record_lines o c 8 1 ++
     [EError (MsgExpectChunkData 8 (list_byte_of_string "ARAY") 4)], Bail).
Proof.
  apply (proj2 (record_chunk_cut_short 12 (object_of file_aray_truncated)
                  (mk_chunk (list_byte_of_string "ARAY") 16 12 CHUNK_ARAY) 8
                  ltac:(vm_compute; split; [reflexivity|split; discriminate])
                  ltac:(vm_compute; split; [discriminate|split; discriminate])
                  eq_refl (le_n _))).
  - reflexivity.
  - discriminate.
Defined.

(** The ARAY chunk of [file_aray_truncated], 12 bytes: the line of the
    one complete record, then the error for the 4 bytes that are left. *)
Example aray_truncated_dump :
  show_chunk_contents 12 (object_of file_aray_truncated)
    (mk_chunk (list_byte_of_string "ARAY") 16 12 CHUNK_ARAY) =
    (map EChar (list_byte_of_string "index=1 size=10") ++ [EChar x0a] ++
     [EError (MsgExpectChunkData 8 (list_byte_of_string "ARAY") 4)], Bail).
Proof. vm_compute. reflexivity. Qed.

(* ------------------------------------------------------------------ *)
(** ** Options *)

Lemma option_err_not_some (items : list printf_item) (out : list event)
  (opts : options) :
  (option_err items ;; ret None) <> (out, Ok (Some opts)).
Proof.
  unfold option_err, printf, bind, ret. simpl. intros H. inversion H.
Qed.

Ltac not_some H :=
  exfalso;
  first [ exact (option_err_not_some _ _ _ H) | discriminate H ].

Lemma read_options_from_Some (n : nat) :
  forall (args : list (list byte)) (opts opts' : options)
    (out : list event),
    (List.length args <= n)%nat ->
    read_options_from args opts = (out, Ok (Some opts')) ->
    out = [] /\
    exists (pre : list (list byte)) (file : list byte)
      (post : list (list byte)),
      args = pre ++ file :: post /\
      opt_file opts' = Some file /\
      Byte.eqb (nth 0 file x00) x2d = false /\
      (forall post' : list (list byte),
         read_options_from (pre ++ file :: post') opts =
           ([], Ok (Some opts'))) /\
      (opt_view_chunk opts' = opt_view_chunk opts \/
       exists name : list byte,
         In name pre /\ opt_view_chunk opts' = Some name) /\
      (opt_list_chunks opts = true -> opt_list_chunks opts' = true).
Proof.
  induction n as [|n IH]; intros args opts opts' out Hlen H.
  - destruct args; [|simpl in Hlen; lia].
    not_some H.
  - destruct args as [|arg rest].
    { not_some H. }
    simpl in Hlen. simpl in H.
    destruct (Byte.eqb (nth 0 arg x00) x2d) eqn:Edash.
    + destruct (Byte.eqb (nth 1 arg x00) x63) eqn:Ec.
      * destruct rest as [|next rest'].
        { not_some H. }
        simpl in Hlen.
        destruct (IH rest' _ _ _ ltac:(lia) H)
          as (Hout & pre & file & post & Hargs & Hfile & Hd & Hpost & Hv &
              Hl).
        split; [exact Hout|].
        exists (arg :: next :: pre), file, post.
        split; [rewrite Hargs; reflexivity|].
        split; [exact Hfile|]. split; [exact Hd|].
        split.
        { intros post'. simpl. rewrite Edash, Ec. apply Hpost. }
        split; [|exact Hl].
        right. destruct Hv as [Hv|(name & Hin & Hv)].
        -- exists next. split; [right; left; reflexivity|].
           rewrite Hv. reflexivity.
        -- exists name. split; [right; right; exact Hin|exact Hv].
      * destruct (Byte.eqb (nth 1 arg x00) x6c) eqn:El.
        -- destruct (IH rest _ _ _ ltac:(lia) H)
             as (Hout & pre & file & post & Hargs & Hfile & Hd & Hpost &
                 Hv & Hl).
           split; [exact Hout|].
           exists (arg :: pre), file, post.
           split; [rewrite Hargs; reflexivity|].
           split; [exact Hfile|]. split; [exact Hd|].
           split.
           { intros post'. simpl. rewrite Edash, Ec, El. apply Hpost. }
           split.
           ++ destruct Hv as [Hv|(name & Hin & Hv)].
              ** left. exact Hv.
              ** right. exists name. split; [right; exact Hin|exact Hv].
           ++ intros _. apply Hl. reflexivity.
        -- not_some H.
    + inversion H; subst out opts'. split; [reflexivity|].
      exists [], arg, rest. simpl.
      split; [reflexivity|]. split; [reflexivity|]. split; [exact Edash|].
      split; [intros post'; rewrite Edash; reflexivity|].
      split; [left; reflexivity|].
      intros Hl. exact Hl.
Qed.

(** X18. Where [read_options] accepts the command line, it has printed
    nothing, the object file is an argument that does not begin with
    [-], what follows that argument is not looked at, and the chunk to
    view, if one is set, is an argument before the file. *)
Theorem read_options_accepts (prog : list byte) (args : list (list byte))
  (opts : options) (out : list event) :
  read_options init_options prog args = (out, Ok (Some opts)) ->
  out = [] /\
  exists (pre : list (list byte)) (file : list byte)
    (post : list (list byte)),
    args = pre ++ file :: post /\
    opt_file opts = Some file /\
    Byte.eqb (nth 0 file x00) x2d = false /\
    (forall post' : list (list byte),
       read_options init_options prog (pre ++ file :: post') =
         ([], Ok (Some opts))) /\
    (opt_view_chunk opts = None \/
     exists name : list byte, In name pre /\ opt_view_chunk opts = Some name).
Proof.
  intros H. unfold read_options in H.
  destruct args as [|a args'].
  { unfold printf, bind, ret in H. simpl in H. inversion H. }
  destruct (read_options_from_Some _ _ _ _ _ (le_n _) H)
    as (Hout & pre & file & post & Hargs & Hfile & Hd & Hpost & Hv & _).
  split; [exact Hout|].
  exists pre, file, post.
  split; [exact Hargs|]. split; [exact Hfile|]. split; [exact Hd|].
  split; [|exact Hv].
  intros post'. unfold read_options.
  destruct pre; apply Hpost.
Qed.

Lemma read_options_accepts_witness :
  @nil event = [] /\
  exists (pre : list (list byte)) (file : list byte)
    (post : list (list byte)),
    [list_byte_of_string "-c"; list_byte_of_string "SPTR";
     list_byte_of_string "-l"; list_byte_of_string "a.o";
     list_byte_of_string "b.o"] = pre ++ file :: post /\
    opt_file (mk_options (Some (list_byte_of_string "a.o"))
                (Some (list_byte_of_string "SPTR")) true) = Some file /\
    Byte.eqb (nth 0 file x00) x2d = false /\
    (forall post' : list (list byte),
       read_options init_options (list_byte_of_string "acsobjdump")
         (pre ++ file :: post') =
         ([], Ok (Some (mk_options (Some (list_byte_of_string "a.o"))
                          (Some (list_byte_of_string "SPTR")) true)))) /\
    (opt_view_chunk (mk_options (Some (list_byte_of_string "a.o"))
                       (Some (list_byte_of_string "SPTR")) true) = None \/
     exists name : list byte,
       In name pre /\
       opt_view_chunk (mk_options (Some (list_byte_of_string "a.o"))
                         (Some (list_byte_of_string "SPTR")) true) =
         Some name).
Proof.
  apply (read_options_accepts (list_byte_of_string "acsobjdump")
           [list_byte_of_string "-c"; list_byte_of_string "SPTR";
            list_byte_of_string "-l"; list_byte_of_string "a.o";
            list_byte_of_string "b.o"]
           (mk_options (Some (list_byte_of_string "a.o"))
              (Some (list_byte_of_string "SPTR")) true) []).
  vm_compute. reflexivity.
Defined.

(* ------------------------------------------------------------------ *)
(** ** Operations *)

Lemma run_eq (fuel : nat) (opts : options) (file : list byte) :
  (v <- read_object_file file ;; perform_operation fuel opts v) =
  bind (open_object file)
    (fun o =>
       match format o with
       | FORMAT_UNKNOWN =>
           printf [Txt "error: unsupported format"; NL] ;; ret false
       | _ =>
           let format_name := (match format o with
                               | FORMAT_LITTLE_E => "ACSe"
                               | FORMAT_ZERO => "ACS0"
                               | _ => "ACSE"
                               end)%string in
           let indirect :=
             (if indirect_format o then " (indirect)" else "")%string in
           printf [Txt "format: "; Txt format_name; Txt indirect; NL] ;;
           if opt_list_chunks opts then
             if is_acse o then list_chunks fuel o ;; ret true
             else printf [Txt "error: format does not support chunks"; NL] ;;
                  ret false
           else
             match opt_view_chunk opts with
             | Some name =>
                 if is_acse o then view_chunk fuel o name
                 else
                   printf [Txt "error: format does not support chunks";
                           NL] ;;
                   ret false
             | None => show_object fuel o ;; ret true
             end
       end).
Proof.
  unfold open_object, perform_operation. rewrite bind_assoc. reflexivity.
Qed.

(** X19. A failure of the loader or of the resolver ends the run with
    the result [false]: for a file shorter than the 8-byte header, [run]
    prints the "too small" error and nothing else, whatever the
    options. *)
Theorem run_rejects_short_file (fuel : nat) (opts : options)
  (file : list byte) :
  (List.length file < 8)%nat ->
  run fuel opts file = ([EError MsgTooSmall], Ok false).
Proof.
  intros Hlen. unfold run. rewrite run_eq.
  rewrite (open_object_too_small file Hlen). reflexivity.
Qed.

Lemma run_rejects_short_file_witness :
  run 0 init_options ID_ACSE = ([EError MsgTooSmall], Ok false).
Proof.
  apply (run_rejects_short_file 0 init_options ID_ACSE).
  simpl. lia.
Defined.

Lemma open_object_zero_direct (file : list byte) (out : list event)
  (o : object) :
  open_object file = (out, Ok o) -> format o = FORMAT_ZERO ->
  indirect_format o = false.
Proof.
  intros H Hz.
  destruct (open_object_Ok_inv _ _ _ H)
    as (_ & _ & o1 & out1 & out2 & H1 & H2).
  destruct (determine_format_cases
              (init_object (file ++ [x00]) (Z.of_nat (List.length file)))
              o1 out1 eq_refl eq_refl eq_refl H1)
    as (id & _ & _ & _ & _ & _ & _ & Hzero & _).
  destruct (determine_object_offsets_Ok _ _ _ H2)
    as (_ & _ & Hf & _ & _ & _ & Hi & _).
  rewrite Hi. apply Hzero. rewrite <- Hf. exact Hz.
Qed.

(** X20. The errors that [perform_operation] prints itself do not reach
    the result of [run]: for a file the resolver accepts whose format is
    not known, and for an ACS0 file when the chunks are to be listed or a
    chunk is to be viewed, [run] prints the error after the output of the
    resolver and its result is [true]. *)
Theorem run_result_ignores_operation_errors (fuel : nat) (opts : options)
  (file : list byte) (out : list event) (o : object) :
  open_object file = (out, Ok o) ->
  (format o = FORMAT_UNKNOWN ->
   run fuel opts file =
     (out ++ fst (printf [Txt "error: unsupported format"; NL]), Ok true)) /\
  (format o = FORMAT_ZERO ->
   opt_list_chunks opts = true \/ opt_view_chunk opts <> None ->
   run fuel opts file =
     (out ++ fst (printf [Txt "format: ACS0"; NL;
                          Txt "error: format does not support chunks"; NL]),
      Ok true)).
Proof.
  intros H. split.
  - intros Hf. unfold run. rewrite run_eq, H. unfold bind at 1.
    rewrite Hf. reflexivity.
  - intros Hf Hop. pose proof (open_object_zero_direct _ _ _ H Hf) as Hi.
    unfold run. rewrite run_eq, H. unfold bind at 1.
    unfold is_acse. rewrite Hf, Hi. cbv zeta.
    destruct (opt_list_chunks opts) eqn:El.
    + reflexivity.
    + destruct Hop as [Hop|Hop]; [discriminate|].
      destruct (opt_view_chunk opts); [reflexivity|congruence].
Qed.

Lemma run_result_ignores_operation_errors_witness :
  (format (object_of file_minimal_acs0) = FORMAT_UNKNOWN ->
   run 0 (mk_options None None true) file_minimal_acs0 =
     ([] ++ fst (printf [Txt "error: unsupported format"; NL]), Ok true)) /\
  (format (object_of file_minimal_acs0) = FORMAT_ZERO ->
   opt_list_chunks (mk_options None None true) = true \/
   opt_view_chunk (mk_options None None true) <> None ->
   run 0 (mk_options None None true) file_minimal_acs0 =
     ([] ++ fst (printf [Txt "format: ACS0"; NL;
                         Txt "error: format does not support chunks"; NL]),
      Ok true)).
Proof.
  apply (run_result_ignores_operation_errors 0 (mk_options None None true)
           file_minimal_acs0 [] (object_of file_minimal_acs0)).
  vm_compute. reflexivity.
Defined.

(* ------------------------------------------------------------------ *)
(** ** Viewing a chunk *)

Lemma show_chunk_prints_header (fuel : nat) (o : object) (c : chunk)
  (show_contents : bool) (out : list event) (r : outcome bool) :
  show_chunk fuel o c show_contents = (out, r) ->
  In (EChunk (ch_name c) (to_int (ch_data c - 8)) (ch_size c)) out.
Proof.
  unfold show_chunk. rewrite bind_print. intros H. inversion H.
  left. reflexivity.
Qed.

Lemma view_chunk_from_true (fuel : nat) (o : object) (type : chunk_type)
  (n : nat) :
  forall (r : chunk_reader) (found : bool) (out : list event),
    view_chunk_from n fuel o type r found = (out, Ok true) ->
    found = true \/
    exists c : chunk,
      In (EChunk (ch_name c) (to_int (ch_data c - 8)) (ch_size c)) out /\
      ch_type c = type.
Proof.
  assert (Heq : forall n r found,
             view_chunk_from n fuel o type r found =
             (rc <- read_chunk o r ;;
              match rc with
              | (Some c, r') =>
                  found <- (if chunk_type_eq_dec (ch_type c) type then
                              show_chunk fuel o c true ;; ret true
                            else ret found) ;;
                  match n with
                  | O => timeout
                  | S n' => view_chunk_from n' fuel o type r' found
                  end
              | (None, _) => ret found
              end)) by (intros [|?] ? ?; reflexivity).
  induction n as [|n IH]; intros r found out H; rewrite Heq in H;
    apply bind_Ok_inv in H;
    destruct H as (o1 & [[c|] r'] & o2 & _ & H & ->);
    try (inversion H; left; reflexivity);
    apply bind_Ok_inv in H;
    destruct H as (o3 & found' & o4 & Hshow & H & ->);
    try discriminate H.
  apply IH in H.
  destruct (chunk_type_eq_dec (ch_type c) type) as [Et|Et].
  - right. exists c. split; [|exact Et].
    apply in_or_app. right. apply in_or_app. left.
    destruct (show_chunk fuel o c true) as [os [b| | |]] eqn:Es;
      try discriminate Hshow.
    unfold bind, ret in Hshow. inversion Hshow. rewrite app_nil_r.
    exact (show_chunk_prints_header _ _ _ _ _ _ Es).
  - inversion Hshow; subst found'.
    destruct H as [H|(c' & Hin & Hc')]; [left; exact H|].
    right. exists c'. split; [|exact Hc'].
    apply in_or_app. right. apply in_or_app. right. exact Hin.
Qed.

(** X21. [view_chunk] answers [true] only for a name of the table of
    chunk types and after it has shown a chunk of that type; when it
    answers [false] it has printed an error last: that the chunk is not
    supported, before any chunk is read, or that it was not found. *)
Theorem view_chunk_result (fuel : nat) (o : object) (name : list byte)
  (out : list event) (b : bool) :
  view_chunk fuel o name = (out, Ok b) ->
  (b = true ->
   get_chunk_type (name ++ [x00]) <> CHUNK_UNKNOWN /\
   exists c : chunk,
     In (EChunk (ch_name c) (to_int (ch_data c - 8)) (ch_size c)) out /\
     ch_type c = get_chunk_type (name ++ [x00])) /\
  (b = false ->
   (get_chunk_type (name ++ [x00]) = CHUNK_UNKNOWN /\
    out = fst (printf [Txt "error: unsupported chunk: "; Str (c_str name);
                       NL])) \/
   (get_chunk_type (name ++ [x00]) <> CHUNK_UNKNOWN /\
    exists pre : list event,
      out = pre ++ fst (printf [Txt "error: `"; Str (c_str name);
                                Txt "` chunk not found"; NL]))).
Proof.
  unfold view_chunk. cbv zeta. intros H.
  destruct (chunk_type_eq_dec (get_chunk_type (name ++ [x00])) CHUNK_UNKNOWN)
    as [Eu|Eu].
  - unfold printf, bind, ret in H. inversion H. split.
    + discriminate.
    + intros _. left. split; [exact Eu|].
      unfold printf. simpl. rewrite app_nil_r. reflexivity.
  - apply bind_Ok_inv in H.
    destruct H as (o1 & found & o2 & Hv & H & ->).
    destruct found.
    + inversion H; subst b o2. split; [|discriminate].
      intros _. split; [exact Eu|].
      destruct (view_chunk_from_true _ _ _ _ _ _ _ Hv)
        as [Hf|(c & Hin & Hc)]; [discriminate|].
      exists c. split; [|exact Hc]. rewrite app_nil_r. exact Hin.
    + unfold printf, bind, ret in H. inversion H; subst b o2.
      split; [discriminate|].
      intros _. right. split; [exact Eu|].
      exists o1. unfold printf. simpl. rewrite app_nil_r. reflexivity.
Qed.

Lemma view_chunk_result_witness :
  (true = true ->
   get_chunk_type (list_byte_of_string "sptr" ++ [x00]) <> CHUNK_UNKNOWN /\
   exists c : chunk,
     In (EChunk (ch_name c) (to_int (ch_data c - 8)) (ch_size c))
       (fst (view_chunk 100 (object_of file_two_scripts)
               (list_byte_of_string "sptr"))) /\
     ch_type c = get_chunk_type (list_byte_of_string "sptr" ++ [x00])) /\
  (true = false ->
   (get_chunk_type (list_byte_of_string "sptr" ++ [x00]) = CHUNK_UNKNOWN /\
    fst (view_chunk 100 (object_of file_two_scripts)
           (list_byte_of_string "sptr")) =
      fst (printf [Txt "error: unsupported chunk: ";
                   Str (c_str (list_byte_of_string "sptr")); NL])) \/
   (get_chunk_type (list_byte_of_string "sptr" ++ [x00]) <> CHUNK_UNKNOWN /\
    exists pre : list event,
      fst (view_chunk 100 (object_of file_two_scripts)
             (list_byte_of_string "sptr")) =
        pre ++ fst (printf [Txt "error: `";
                            Str (c_str (list_byte_of_string "sptr"));
                            Txt "` chunk not found"; NL]))).
Proof.
  apply (view_chunk_result 100 (object_of file_two_scripts)
           (list_byte_of_string "sptr")).
  vm_compute. reflexivity.
Defined.

(* ------------------------------------------------------------------ *)
(** ** The whole dump *)

Lemma ends_well_post {A} (P Q : A -> Prop) (m : M A) :
  ends_well P m ->
  (forall (out : list event) (a : A), m = (out, Ok a) -> Q a) ->
  ends_well Q m.
Proof.
  unfold ends_well. destruct m as [out [a| | |]]; simpl; auto.
  intros _ H. exact (H out a eq_refl).
Qed.

Lemma load_func_entry_ok (o : object) (p : Z) :
  buffer_ok o -> 0 <= p -> p + 8 <= size o + 1 ->
  exists e : func_entry, load_func_entry o p = ret e.
Proof.
  intros Hbuf Hp Hn. unfold load_func_entry.
  destruct (load_uchar_ok o p Hbuf ltac:(lia)) as (v1 & -> & _).
  destruct (load_uchar_ok o (p + 1) Hbuf ltac:(lia)) as (v2 & -> & _).
  destruct (load_uchar_ok o (p + 2) Hbuf ltac:(lia)) as (v3 & -> & _).
  destruct (load_uchar_ok o (p + 3) Hbuf ltac:(lia)) as (v4 & -> & _).
  destruct (load_int_ok o (p + 4) Hbuf ltac:(lia) ltac:(lia))
    as (v5 & -> & _).
  rewrite !bind_ret_l. eauto.
Qed.

(** [chunk->size / sizeof( entry )] as an [int]: for a size that is not
    negative, the number of whole entries; for a negative size, a number
    that is not positive. *)
Lemma entries_in_chunk (z : Z) :
  - 2 ^ 31 <= z < 2 ^ 31 ->
  to_int (to_size_t z / 8) <= 0 \/
  (0 <= z /\ 8 * to_int (to_size_t z / 8) <= z).
Proof.
  intros Hz. destruct (Z_lt_le_dec z 0) as [Hneg|Hpos].
  - left. unfold to_size_t.
    assert (Hm : z mod 2 ^ 64 = z + 2 ^ 64).
    { symmetry. apply (Z.mod_unique z (2 ^ 64) (-1)); lia. }
    rewrite Hm.
    replace (z + 2 ^ 64) with (z + 2 ^ 61 * 8) by lia.
    rewrite Z.div_add by lia.
    assert (Hq : - 2 ^ 28 <= z / 8 < 0).
    { split.
      - apply Z.div_le_lower_bound; lia.
      - apply Z.div_lt_upper_bound; lia. }
    unfold to_int.
    replace (z / 8 + 2 ^ 61 + 2 ^ 31) with (z / 8 + 2 ^ 31 + 2 ^ 29 * 2 ^ 32)
      by lia.
    rewrite Z.mod_add by lia. rewrite Z.mod_small by lia. lia.
  - right. split; [exact Hpos|].
    destruct (size_t_quotient z 8 ltac:(lia) ltac:(lia)) as (-> & H).
    exact H.
Qed.

Lemma list_chunks_from_step (o : object) (fuel : nat) (r r' : chunk_reader)
  (c : chunk) :
  read_chunk o r = ret (Some c, r') ->
  fst (list_chunks_from fuel o r) =
    EChunk (ch_name c) (to_int (ch_data c - 8)) (ch_size c) ::
    match fuel with
    | O => []
    | S fuel' => fst (list_chunks_from fuel' o r')
    end.
Proof.
  intros E. rewrite list_chunks_from_eq, E, bind_ret_l.
  unfold show_chunk_header. rewrite bind_assoc, bind_print, bind_ret_l.
  destruct fuel; reflexivity.
Qed.

Lemma walk_step (o : object) (fuel : nat) (r r' : chunk_reader) (c : chunk) :
  ~ lists_chunk_below_minus8 (fst (list_chunks_from fuel o r)) ->
  read_chunk o r = ret (Some c, r') ->
  - 8 < ch_size c /\
  match fuel with
  | O => True
  | S fuel' => ~ lists_chunk_below_minus8 (fst (list_chunks_from fuel' o r'))
  end.
Proof.
  intros Hgood E. rewrite (list_chunks_from_step _ _ _ _ _ E) in Hgood.
  split.
  - destruct (Z_le_gt_dec (ch_size c) (-8)) as [Hbad|H]; [|lia].
    exfalso. apply Hgood. exists (ch_name c), (to_int (ch_data c - 8)),
      (ch_size c). split; [left; reflexivity|exact Hbad].
  - destruct fuel; [exact I|].
    intros (n & off & sz & Hin & Hsz). apply Hgood.
    exists n, off, sz. split; [right; exact Hin|exact Hsz].
Qed.

Lemma load_acs0_script_entry_ok (o : object) (p : Z) :
  buffer_ok o -> 0 <= p -> p + 12 <= size o + 1 ->
  exists e : acs0_script_entry, load_acs0_script_entry o p = ret e.
Proof.
  intros Hbuf Hp Hn. unfold load_acs0_script_entry.
  destruct (load_int_ok o p Hbuf ltac:(lia) ltac:(lia)) as (v1 & -> & _).
  destruct (load_int_ok o (p + 4) Hbuf ltac:(lia) ltac:(lia))
    as (v2 & -> & _).
  destruct (load_int_ok o (p + 8) Hbuf ltac:(lia) ltac:(lia))
    as (v3 & -> & _).
  rewrite !bind_ret_l. eauto.
Qed.

Lemma acse_formats (o : object) :
  format_eqb (format o) FORMAT_BIG_E || format_eqb (format o) FORMAT_LITTLE_E
    = is_acse o.
Proof. unfold is_acse. destruct (format o); reflexivity. Qed.

Section Dump.

Variable o : object.
Variable file : list byte.
Hypothesis Hdata : data o = file ++ [x00].
Hypothesis Hsize : size o = Z.of_nat (List.length file).
Hypothesis Hmax : size o <= INT_MAX.
Hypothesis Hco : 0 <= chunk_offset o <= INT_MAX.
Hypothesis Hdo : 0 <= directory_offset o.
Hypothesis Hdirs : script_directory_present o = true -> directories_in_file o.

Lemma dump_buffer_ok : buffer_ok o.
Proof.
  unfold buffer_ok. rewrite Hdata, Hsize, length_app. simpl.
  rewrite Nat2Z.id. rewrite Hsize in Hmax. split; lia.
Qed.

Lemma find_chunk_from_ends_well (name : list byte) (fuel : nat) :
  forall r : chunk_reader,
    0 <= pos r <= INT_MAX ->
    (Z.to_nat (size o - pos r) <= fuel)%nat ->
    ~ lists_chunk_below_minus8 (fst (list_chunks_from fuel o r)) ->
    ends_well
      (fun found => match found with
                    | Some c => chunk_in_file o c
                    | None => True
                    end)
      (find_chunk_from fuel o name r).
Proof.
  pose proof dump_buffer_ok as Hbuf. pose proof Hbuf as (Hlen & Hsz).
  induction fuel as [|fuel IH]; intros r Hpos Hfuel Hgood;
    rewrite find_chunk_from_eq;
    destruct (read_chunk_cases o r Hbuf Hpos)
      as [(out1 & E)|[E|(c & E & _ & Hd & Hin & Hr)]];
    rewrite E; try exact I; rewrite bind_ret_l; try exact I;
    destruct (walk_step _ _ _ _ _ Hgood E) as (Hs & Hnext);
    (destruct (strcmp_eq name (ch_name c ++ [x00]));
     [apply ends_well_ret; unfold chunk_in_file; lia|]).
  - exfalso. unfold INT_MAX in *. lia.
  - unfold INT_MAX in *. apply IH; simpl pos; try lia. exact Hnext.
Qed.

Section WithFuel.

Variable fuel : nat.
Hypothesis Hfuel : (Z.to_nat (size o) <= fuel)%nat.
Hypothesis Hgood :
  is_acse o = true -> ~ lists_chunk_below_minus8 (fst (list_chunks fuel o)).

Lemma find_chunk_ends_well (name : list byte) :
  is_acse o = true ->
  ends_well
    (fun found => match found with
                  | Some c => chunk_in_file o c
                  | None => True
                  end)
    (find_chunk fuel o name).
Proof.
  intros Hacse. unfold find_chunk. apply find_chunk_from_ends_well.
  - exact Hco.
  - unfold init_chunk_reader. simpl pos. lia.
  - exact (Hgood Hacse).
Qed.

Lemma read_acse_script_entry_ends_well (c : chunk) (p : Z) :
  chunk_in_file o c ->
  ch_data c <= p <= ch_data c + Z.max 0 (ch_size c) ->
  ends_well
    (fun e => 0 < real_entry_size e /\
              p + real_entry_size e <= ch_data c + ch_size c)
    (read_acse_script_entry o c p).
Proof.
  intros Hc Hp. pose proof dump_buffer_ok as Hbuf.
  pose proof Hbuf as (Hlen & Hsz). unfold INT_MAX in Hsz.
  pose proof Hc as (Hc1 & Hc2 & Hc3).
  unfold read_acse_script_entry. destruct (indirect_format o).
  - eapply ends_well_bind;
      [apply (expect_chunk_data_in_chunk o c Hbuf Hc); exact Hp|].
    intros u H. cbv beta in H. clear u.
    destruct (load_short_ok o p Hbuf ltac:(lia) ltac:(lia)) as (v1 & -> & _).
    destruct (load_uchar_ok o (p + 2) Hbuf ltac:(lia)) as (v2 & -> & _).
    destruct (load_uchar_ok o (p + 3) Hbuf ltac:(lia)) as (v3 & -> & _).
    destruct (load_int_ok o (p + 4) Hbuf ltac:(lia) ltac:(lia))
      as (v4 & -> & _).
    rewrite !bind_ret_l. apply ends_well_ret. simpl. lia.
  - eapply ends_well_bind;
      [apply (expect_chunk_data_in_chunk o c Hbuf Hc); exact Hp|].
    intros u H. cbv beta in H. clear u.
    destruct (load_short_ok o p Hbuf ltac:(lia) ltac:(lia)) as (v1 & -> & _).
    destruct (load_short_ok o (p + 2) Hbuf ltac:(lia) ltac:(lia))
      as (v2 & -> & _).
    destruct (load_int_ok o (p + 4) Hbuf ltac:(lia) ltac:(lia))
      as (v3 & -> & _).
    destruct (load_int_ok o (p + 8) Hbuf ltac:(lia) ltac:(lia))
      as (v4 & -> & _).
    rewrite !bind_ret_l. apply ends_well_ret. simpl. lia.
Qed.

Lemma func_entries_ok (c : chunk) (i : Z) :
  chunk_in_file o c ->
  0 <= i < to_int (to_size_t (ch_size c) / 8) ->
  exists e : func_entry, load_func_entry o (ch_data c + i * 8) = ret e.
Proof.
  intros Hc Hi. pose proof dump_buffer_ok as Hbuf.
  pose proof Hbuf as (Hlen & Hsz). unfold INT_MAX in Hsz.
  pose proof Hc as (Hc1 & Hc2 & Hc3).
  destruct (entries_in_chunk (ch_size c) ltac:(lia)) as [Hz|(Hz & Hq)];
    [lia|].
  apply load_func_entry_ok; [exact Hbuf|lia|lia].
Qed.

(** The part of [calc_code_size] that reads the tables of the chunk
    section. *)
Lemma calc_code_size_chunks_ends_well (offset : Z) :
  is_acse o = true ->
  ends_well (fun _ => True)
    (found <- find_chunk fuel o SPTR ;;
     end_offset <-
       match found with
       | Some c =>
           st <- while_fuel fuel
             (fun st : Z * Z => fst st <? ch_size c)
             (fun st =>
                let (sz, end_offset) := st in
                entry <- read_acse_script_entry o c (ch_data c + sz) ;;
                let sz := to_int (sz + real_entry_size entry) in
                if (se_offset entry >? offset) &&
                   (se_offset entry <? end_offset)
                then ret (sz, se_offset entry)
                else ret (sz, end_offset))
             (0, size o) ;;
           ret (snd st)
       | None => ret (size o)
       end ;;
     found <- find_chunk fuel o FUNC ;;
     match found with
     | Some c =>
         let total_funcs := to_int (to_size_t (ch_size c) / 8) in
         for_n (Z.to_nat total_funcs) 0
           (fun i end_offset =>
              entry <- load_func_entry o (ch_data c + i * 8) ;;
              if (fe_offset entry >? offset) &&
                 (fe_offset entry <? end_offset)
              then ret (fe_offset entry)
              else ret end_offset)
           end_offset
     | None => ret end_offset
     end).
Proof.
  intros Hacse. pose proof dump_buffer_ok as Hbuf.
  pose proof Hbuf as (Hlen & Hsz). unfold INT_MAX in Hsz.
  eapply ends_well_bind; [apply find_chunk_ends_well; exact Hacse|].
  intros found Hfound. cbv beta in Hfound.
  apply (ends_well_bind (fun _ => True)).
  { destruct found as [c|]; [|exact I].
    pose proof Hfound as (Hc1 & Hc2 & Hc3).
    apply (ends_well_bind (fun _ => True)); [|intros; exact I].
    eapply ends_well_weaken.
    - apply (ends_well_while_fuel
               (fun st : Z * Z => 0 <= fst st <= Z.max 0 (ch_size c))
               (fun st => Z.to_nat (ch_size c - fst st))).
      + intros st Hst Hcond. apply Z.ltb_lt in Hcond. lia.
      + intros [sz en] Hst Hcond. cbn [fst] in *. apply Z.ltb_lt in Hcond.
        eapply ends_well_bind;
          [apply (read_acse_script_entry_ends_well c); [exact Hfound|lia]|].
        intros entry (Hres & Hle). cbv zeta.
        rewrite (to_int_id (sz + real_entry_size entry)) by lia.
        destruct ((se_offset entry >? offset) && (se_offset entry <? en));
          apply ends_well_ret; cbn [fst]; lia.
      + cbn [fst]. lia.
      + cbn [fst]. lia.
    - intros; exact I. }
  intros e _.
  eapply ends_well_bind; [apply find_chunk_ends_well; exact Hacse|].
  intros found' Hfound'. cbv beta in Hfound'.
  destruct found' as [c|]; [|exact I].
  cbv zeta.
  eapply ends_well_weaken.
  - apply (ends_well_for_n_bounded 0
             (Z.max 0 (to_int (to_size_t (ch_size c) / 8)))
             (fun _ _ => True)).
    + intros i en Hi _.
      destruct (func_entries_ok c i Hfound' ltac:(lia)) as (entry & ->).
      rewrite bind_ret_l.
      destruct ((fe_offset entry >? offset) && (fe_offset entry <? en));
        exact I.
    + lia.
    + lia.
    + exact I.
  - intros; exact I.
Qed.

(** The part of [calc_code_size] that reads the two directories. *)
Lemma calc_code_size_directories_ends_well (offset e : Z) :
  directories_in_file o ->
  ends_well (fun _ => True)
    (let p := directory_offset o in
     count <- load_int o p ;;
     let p := p + 4 in
     st <- for_n (Z.to_nat count) 0
       (fun _ (st : Z * Z) =>
          let (p, end_offset) := st in
          entry <- load_acs0_script_entry o p ;;
          let p := p + 12 in
          if (a0_offset entry >? offset) && (a0_offset entry <? end_offset)
          then ret (p, a0_offset entry)
          else ret (p, end_offset))
       (p, e) ;;
     let end_offset := snd st in
     let p := string_offset o in
     count <- load_int o p ;;
     let p := p + 4 in
     st <- for_n (Z.to_nat count) 0
       (fun _ (st : Z * Z) =>
          let (p, end_offset) := st in
          string_offset <- load_int o p ;;
          let p := p + 4 in
          if (string_offset >? offset) && (string_offset <? end_offset)
          then ret (p, string_offset)
          else ret (p, end_offset))
       (p, end_offset) ;;
     ret (snd st)).
Proof.
  intros (ts & tg & Hts & Hdir & Hso & Htg & Hstr & Hoffs).
  pose proof dump_buffer_ok as Hbuf.
  cbv zeta. rewrite Hts, bind_ret_l.
  apply (ends_well_bind (fun _ => True)).
  { eapply ends_well_weaken.
    - apply (ends_well_for_n_bounded 0 (Z.max 0 ts)
               (fun i (st : Z * Z) => fst st = directory_offset o + 4 + 12 * i)).
      + intros i [p en] Hi Hp. cbn [fst] in Hp. subst p.
        destruct (load_acs0_script_entry_ok o
                    (directory_offset o + 4 + 12 * i) Hbuf
                    ltac:(lia) ltac:(lia)) as (entry & ->).
        rewrite bind_ret_l. cbv zeta.
        destruct ((a0_offset entry >? offset) && (a0_offset entry <? en));
          apply ends_well_ret; cbn [fst]; lia.
      + lia.
      + lia.
      + cbn [fst]. lia.
    - intros; exact I. }
  intros st _. rewrite Htg, bind_ret_l.
  apply (ends_well_bind (fun _ => True)); [|intros; exact I].
  eapply ends_well_weaken.
  - apply (ends_well_for_n_bounded 0 (Z.max 0 tg)
             (fun i (st : Z * Z) => fst st = string_offset o + 4 + 4 * i)).
    + intros i [p en] Hi Hp. cbn [fst] in Hp. subst p.
      destruct (Hoffs i ltac:(lia)) as (so & -> & _).
      rewrite bind_ret_l. cbv zeta.
      destruct ((so >? offset) && (so <? en));
        apply ends_well_ret; cbn [fst]; lia.
    + lia.
    + lia.
    + cbn [fst]. lia.
  - intros; exact I.
Qed.

Lemma calc_code_size_ends_well (offset : Z) :
  0 <= offset < size o ->
  ends_well (fun r => offset + r <= size o) (calc_code_size fuel o offset).
Proof.
  intros Hoff. pose proof dump_buffer_ok as Hbuf.
  pose proof Hbuf as (Hlen & Hsz).
  apply (ends_well_post (fun _ => True)).
  2:{ intros out r H.
      pose proof (calc_code_size_upper_bound _ _ _ _ _ H Hoff ltac:(lia)
                    ltac:(lia) Hdo). lia. }
  unfold calc_code_size. cbv zeta. rewrite acse_formats.
  apply (ends_well_bind (fun _ => True)).
  { destruct (sumbool_of_bool (is_acse o)) as [Hacse|Hacse]; rewrite Hacse;
      [|exact I].
    apply calc_code_size_chunks_ends_well. exact Hacse. }
  intros e _.
  apply (ends_well_bind (fun _ => True)); [|intros; exact I].
  destruct (sumbool_of_bool (script_directory_present o)) as [Hd|Hd];
    rewrite Hd; [|exact I].
  apply calc_code_size_directories_ends_well. apply Hdirs. exact Hd.
Qed.

Lemma show_code_ends_well (offset : Z) :
  0 <= offset < size o ->
  ends_well (fun _ => True)
    (code_size <- calc_code_size fuel o offset ;;
     show_pcode fuel o offset code_size).
Proof.
  intros Hoff. pose proof dump_buffer_ok as Hbuf.
  eapply ends_well_bind; [apply calc_code_size_ends_well; exact Hoff|].
  intros r Hr. cbv beta in Hr.
  apply show_pcode_loop_ends_well; try assumption; lia.
Qed.

Lemma offset_in_object_file_true (offset : Z) :
  offset_in_object_file o offset = true -> 0 <= offset < size o.
Proof.
  unfold offset_in_object_file, offset_in_range. intros H.
  apply andb_true_iff in H. destruct H as (H1 & H2).
  apply Z.leb_le in H1. apply Z.ltb_lt in H2. lia.
Qed.

Lemma show_sptr_ends_well (c : chunk) :
  is_acse o = true ->
  chunk_in_file o c -> ends_well (fun _ => True) (show_sptr fuel o c).
Proof.
  intros Hacse Hc. pose proof dump_buffer_ok as Hbuf.
  pose proof Hbuf as (Hlen & Hsz). unfold INT_MAX in Hsz.
  pose proof Hc as (Hc1 & Hc2 & Hc3).
  unfold show_sptr, show_sptr_from.
  apply (chunk_loop_ends_well c); [|lia|lia].
  intros pos Hpos. unfold show_sptr_entry.
  eapply ends_well_bind;
    [apply (read_acse_script_entry_ends_well c); [exact Hc|lia]|].
  intros entry (Hres & Hle). cbv zeta.
  apply ends_well_print.
  apply (ends_well_bind (fun _ => True)).
  - destruct (offset_in_object_file o (se_offset entry)) eqn:E.
    + apply show_code_ends_well. apply offset_in_object_file_true. exact E.
    + rewrite diag_warn. exact I.
  - intros _ _. apply ends_well_ret.
    rewrite to_int_id by lia. lia.
Qed.

Lemma show_func_ends_well (c : chunk) :
  chunk_in_file o c -> ends_well (fun _ => True) (show_func fuel o c).
Proof.
  intros Hc. unfold show_func, show_func_from. cbv zeta.
  eapply ends_well_weaken.
  - apply (ends_well_for_n_bounded 0
             (Z.max 0 (to_int (to_size_t (ch_size c) / 8)))
             (fun _ _ => True)).
    + intros i u Hi _. unfold show_func_entry.
      destruct (func_entries_ok c i Hc ltac:(lia)) as (entry & ->).
      rewrite bind_ret_l. apply ends_well_print.
      destruct (offset_in_object_file o (fe_offset entry)) eqn:E.
      * destruct (negb (fe_offset entry =? 0)).
        -- eapply ends_well_weaken;
             [apply show_code_ends_well; apply offset_in_object_file_true;
              exact E|].
           intros; exact I.
        -- exact I.
      * rewrite diag_warn. exact I.
    + lia.
    + lia.
    + exact I.
  - intros; exact I.
Qed.

Lemma show_chunk_any_ends_well (c : chunk) :
  is_acse o = true ->
  chunk_in_file o c ->
  ends_well (fun _ => True) (show_chunk fuel o c true).
Proof.
  intros Hacse Hc. pose proof dump_buffer_ok as Hbuf.
  pose proof Hbuf as (Hlen & Hsz). unfold INT_MAX in Hsz.
  pose proof Hc as (Hc1 & Hc2 & Hc3).
  unfold show_chunk. apply ends_well_print.
  apply (ends_well_bind (fun _ => True)); [|intros; exact I].
  destruct (chunk_type_eq_dec (ch_type c) CHUNK_FUNC) as [Ef|Ef].
  { unfold show_chunk_contents. rewrite Ef. apply show_func_ends_well.
    exact Hc. }
  destruct (chunk_type_eq_dec (ch_type c) CHUNK_SPTR) as [Es|Es].
  { unfold show_chunk_contents. rewrite Es.
    apply show_sptr_ends_well; assumption. }
  apply show_chunk_contents_safe; try assumption. lia.
Qed.

Lemma show_all_chunks_from_eq (n : nat) (r : chunk_reader) :
  show_all_chunks_from n fuel o r =
    (rc <- read_chunk o r ;;
     match rc with
     | (Some c, r') =>
         show_chunk fuel o c true ;;
         match n with
         | O => timeout
         | S n' => show_all_chunks_from n' fuel o r'
         end
     | (None, _) => ret tt
     end).
Proof. destruct n; reflexivity. Qed.

Lemma show_all_chunks_from_ends_well (n : nat) :
  is_acse o = true ->
  forall r : chunk_reader,
    0 <= pos r <= INT_MAX ->
    (Z.to_nat (size o - pos r) <= n)%nat ->
    ~ lists_chunk_below_minus8 (fst (list_chunks_from n o r)) ->
    ends_well (fun _ => True) (show_all_chunks_from n fuel o r).
Proof.
  intros Hacse. pose proof dump_buffer_ok as Hbuf.
  pose proof Hbuf as (Hlen & Hsz).
  induction n as [|n IH]; intros r Hpos Hn Hok;
    rewrite show_all_chunks_from_eq;
    destruct (read_chunk_cases o r Hbuf Hpos)
      as [(out1 & E)|[E|(c & E & _ & Hd & Hin & Hr)]];
    rewrite E; try exact I; rewrite bind_ret_l; try exact I;
    destruct (walk_step _ _ _ _ _ Hok E) as (Hs & Hnext);
    (apply (ends_well_bind (fun _ => True));
     [apply show_chunk_any_ends_well;
      [exact Hacse|unfold chunk_in_file; lia]|]);
    intros _ _.
  - exfalso. unfold INT_MAX in *. lia.
  - unfold INT_MAX in *. apply IH; simpl pos; try lia. exact Hnext.
Qed.

Lemma show_script_directory_ends_well :
  directories_in_file o ->
  ends_well (fun _ => True) (show_script_directory fuel o).
Proof.
  intros (ts & tg & Hts & Hdir & _). pose proof dump_buffer_ok as Hbuf.
  unfold show_script_directory. cbv zeta. apply ends_well_print.
  apply (ends_well_bind (fun _ => True));
    [eapply ends_well_weaken; [apply expect_data_ends_well|auto]|].
  intros _ _. rewrite Hts, bind_ret_l. apply ends_well_print.
  apply (ends_well_bind (fun _ => True)); [|intros; exact I].
  unfold show_script_directory_from.
  eapply ends_well_weaken.
  - apply (ends_well_for_n_bounded 0 (Z.max 0 ts)
             (fun i p => p = directory_offset o + 4 + 12 * i)).
    + intros i p Hi ->. unfold show_script_directory_entry.
      apply (ends_well_bind (fun _ => True));
        [eapply ends_well_weaken; [apply expect_data_ends_well|auto]|].
      intros _ _.
      destruct (load_acs0_script_entry_ok o
                  (directory_offset o + 4 + 12 * i) Hbuf
                  ltac:(lia) ltac:(lia)) as (entry & ->).
      rewrite bind_ret_l. cbv zeta. apply ends_well_print.
      apply (ends_well_bind (fun _ => True)).
      * destruct (offset_in_object_file o (a0_offset entry)) eqn:E.
        -- apply show_code_ends_well. apply offset_in_object_file_true.
           exact E.
        -- rewrite diag_warn. exact I.
      * intros _ _. apply ends_well_ret. lia.
    + lia.
    + lia.
    + lia.
  - intros; exact I.
Qed.

Lemma show_string_directory_ends_well :
  directories_in_file o ->
  ends_well (fun _ => True) (show_string_directory fuel o).
Proof.
  intros (ts & tg & _ & _ & Hso & Htg & Hstr & Hoffs).
  pose proof dump_buffer_ok as Hbuf.
  unfold show_string_directory. cbv zeta. apply ends_well_print.
  apply (ends_well_bind (fun _ => True));
    [eapply ends_well_weaken; [apply expect_data_ends_well|auto]|].
  intros _ _. rewrite Htg, bind_ret_l. apply ends_well_print.
  apply (ends_well_bind (fun _ => True)); [|intros; exact I].
  eapply ends_well_weaken.
  - apply (ends_well_for_n_bounded 0 (Z.max 0 tg)
             (fun i p => p = string_offset o + 4 + 4 * i)).
    + intros i p Hi ->.
      apply (ends_well_bind (fun _ => True));
        [eapply ends_well_weaken; [apply expect_data_ends_well|auto]|].
      intros _ _.
      destruct (Hoffs i ltac:(lia)) as (so & -> & Hin).
      rewrite bind_ret_l. cbv zeta.
      apply (ends_well_bind (fun _ => True)).
      * unfold show_string. apply ends_well_print.
        destruct (nul_scan_stops file o Hdata Hsize
                    (Z.to_nat (size o - so)) so Hin eq_refl)
          as (j & _ & _ & _ & Hshow).
        rewrite (Hshow fuel so so 0 ltac:(lia) ltac:(lia)).
        rewrite bind_ret_l || (unfold bind; cbv iota beta).
        exact I.
      * intros _ _. apply ends_well_ret. lia.
    + lia.
    + lia.
    + lia.
  - intros; exact I.
Qed.

Lemma show_object_any_ends_well :
  ends_well (fun _ => True) (show_object fuel o).
Proof.
  unfold show_object, show_directories.
  apply (ends_well_bind (fun _ => True)).
  - assert (Hall : is_acse o = true ->
                   ends_well (fun _ => True) (show_all_chunks fuel o)).
    { intros Hacse. unfold show_all_chunks.
      apply show_all_chunks_from_ends_well.
      - exact Hacse.
      - exact Hco.
      - unfold init_chunk_reader. simpl pos. lia.
      - exact (Hgood Hacse). }
    unfold is_acse in Hall.
    destruct (format o); try exact I; exact (Hall eq_refl).
  - intros _ _.
    destruct (sumbool_of_bool (script_directory_present o)) as [Hd|Hd];
      rewrite Hd; [|exact I].
    apply (ends_well_bind (fun _ => True)).
    + apply show_script_directory_ends_well. apply Hdirs. exact Hd.
    + intros _ _. apply show_string_directory_ends_well. apply Hdirs.
      exact Hd.
Qed.

End WithFuel.

End Dump.

Lemma open_object_direct (file : list byte) (out : list event) (o : object) :
  open_object file = (out, Ok o) ->
  firstn 4 file = ID_ACSE \/ firstn 4 file = ID_ACSe ->
  buffer_ok o /\ size o = Z.of_nat (List.length file) /\
  script_directory_present o = false /\
  0 <= chunk_offset o < size o /\ 0 <= directory_offset o /\
  (format o = FORMAT_BIG_E \/ format o = FORMAT_LITTLE_E).
Proof.
  intros H Hmagic.
  destruct (resolver_checked_offsets _ _ _ H)
    as (Hdata & Hsize & Hmax & Hdir & _).
  destruct (open_object_Ok_inv _ _ _ H)
    as (Hlen & _ & o1 & out1 & out2 & H1 & H2).
  destruct (determine_format_cases
              (init_object (file ++ [x00]) (Z.of_nat (List.length file)))
              o1 out1 eq_refl eq_refl eq_refl H1)
    as (id & Hid & _ & _ & C & HE & He & _).
  destruct (determine_object_offsets_Ok _ _ _ H2)
    as (_ & _ & Hf & Hdo & _ & Hco & Hi & _).
  assert (Hidf : id = firstn 4 file).
  { set (ob := init_object (file ++ [x00]) (Z.of_nat (List.length file)))
      in *.
    assert (Hb : buffer_ok ob).
    { unfold buffer_ok, ob. simpl. rewrite length_app. simpl. lia. }
    rewrite (load_bytes_spec ob 4 Hb 0) in Hid by (unfold ob; simpl; lia).
    change (data ob) with (file ++ [x00]) in Hid.
    change (Z.to_nat 0) with 0%nat in Hid.
    rewrite skipn_O, firstn_app in Hid.
    replace (4 - List.length file)%nat with 0%nat in Hid by lia.
    rewrite firstn_O, app_nil_r in Hid.
    inversion Hid. reflexivity. }
  assert (Hfmt : (format o1 = FORMAT_BIG_E \/ format o1 = FORMAT_LITTLE_E) /\
                 indirect_format o1 = false).
  { destruct Hmagic as [Hm|Hm]; rewrite <- Hidf in Hm.
    - destruct (HE Hm) as (A & B). auto.
    - destruct (He Hm) as (A & B). auto. }
  destruct Hfmt as (Hfmt & Hind).
  destruct (C Hind Hfmt) as (Hc & _).
  split.
  { unfold buffer_ok. rewrite Hdata, Hsize, length_app. simpl.
    rewrite Nat2Z.id. split; lia. }
  split; [exact Hsize|]. split.
  { unfold script_directory_present. rewrite Hf, Hi, Hind.
    destruct Hfmt as [-> | ->]; reflexivity. }
  rewrite Hco, Hdo, Hc, Hf. split; [lia|]. split; [lia|exact Hfmt].
Qed.



Lemma open_object_no_fault (file : list byte) :
  ends_well (fun _ => True) (open_object file).
Proof.
  unfold open_object.
  eapply ends_well_bind; [apply read_object_file_ends_well|].
  intros v Hv. unfold resolve.
  eapply ends_well_bind; [apply determine_format_ends_well; exact Hv|].
  intros o1 (Hb & Hd).
  eapply ends_well_weaken;
    [apply determine_object_offsets_ends_well; assumption|].
  intros; exact I.
Qed.





